(* ===== verification/_CoqProject ===== *)
-Q . S2P
Prelude.v
StdString.v
OrdMap.v
HStr.v
Serialize.v
SerializeProofs.v
DataStream.v
SerializeTyped.v
VarInt.v
ClassSerialize.v
AutoFile.v
HMstr.v
NormalConf.v
DList.v
Timeval.v
DelayQueue.v
HandlerSet.v
Scheduler.v
EventLoop.v
FastQueue.v
MonitorQueue.v
Memory.v
Buffers.v
RollFixBuffer.v
Crypto.v
FsName.v
ProcessPool.v
ThreadPool.v
CHeap.v
Image.v
Bmp.v
Addr.v
Time.v
Log.v
LogThreads.v
FdIn.v
Socket.v
Endpoint.v
App.v
Db.v
DbDrives.v
DbCopy.v
Ipc.v
Singleton.v
Fork.v
Cryptor.v
Json.v
Util.v
JobMng.v
Runtime.v
Backtrace.v
Redis.v
System.v
Locks.v
ServerPool.v
Http.v
