(* ===== verification/Prelude.v ===== *)
(** * huicpp: a verification library

    huicpp is a C++17 library for long-running Linux programs: strings and
    serialization, an application object with configuration, log and pid file,
    a scheduler over [select], pools of processes and threads, queues, sockets,
    databases, Redis, images, digests.  This development models its own code
    ([src/src], [src/crypto], [src/db], [src/nosql], [src/serverpool],
    [src/http]; file names below leave out the first [src/]) and proves what
    makes each part correct, or what its code does instead.

    ** How a model reads

    A class is a Module; its members are a [Record] (named [t], or [st] where
    several threads share it), each function a [Definition] or [Fixpoint] of the
    source's name.  A member function takes the object and returns the new one
    beside its answer.  [HRET] is [herr]; a call that may throw is a [res]
    ([Ret], or [Throw] of an [exn]), in which undefined behaviour ([UB]), an
    exception that leaves a [noexcept] function ([Terminate]) and a loop that
    outlives its fuel ([Diverge]) are outcomes of their own, so that a theorem
    [f x = Ret y] excludes them.  Integers are [Z] with the conversion to their
    width written where the code converts ([u8] ... [s64]); [std::string] and raw
    buffers are [bytes]; a fresh buffer's indeterminate bytes are [None].
    Pointers that alias (rings of entries, pool references, image blocks,
    MySQL handles) are addresses in a heap that the operations thread through.
    Code that other threads run in between is a step relation over one shared
    state ([FastQueue], [MonitorQueue], [ThreadPool], [JobMng], [Singleton],
    [Locks], [ServerPool]) with its invariant.

    What lies outside of the repository is a parameter: the kernel's answers
    are arguments or scripts consumed call by call; libraries are classes of
    operations, with a second class of laws where a theorem needs their
    documented behaviour ([Bio], [Evp], [Digest] for OpenSSL, [Curl],
    [Hiredis]/[Server], [InetLib], [Session] for a MySQL server, the handles of
    [DbDrives] and [DbCopy]);
    every theorem that uses laws has a witness with an instance of them.

    ** The files

    Foundations.  [Prelude]: outcomes, integers, tactics ([ztest], [bool_to_prop],
    [case_test], [ints]), the hint database [huicpp].  [StdString]: the members
    of [std::string] the code calls.  [OrdMap]: [std::map] and [std::set] as sorted
    lists behind the class [StrictOrder].  [Memory], [CHeap]: raw blocks, [malloc].
    [DList]: circular doubly linked lists on a heap, shared by [DelayQueue] and
    [HandlerSet].

    Strings and data.  [HStr] ([hstr]), [HMstr] ([hmstr]), [Crypto] ([crypto/hex],
    [urlencode]), [FsName] ([detail/fsname_detail], [hfilename]), [NormalConf]
    ([hnormalconf], [hfilestr]), [Json] ([adaptation/ada_json], [utils/json_utils]),
    [Time] ([htime]), [Backtrace] ([hbacktrace]), [Cryptor] ([crypto/base64], [des],
    [md5], [sha], [hcrypto]).
    Serialization ([hserialize.h]): [Serialize] has the overloads as instances of
    [Serializable] over the stream classes [OStream] and [IStream];
    [SerializeProofs] the interface [SerializableOk] (what is written is [enc x],
    reading it gives [x]) and its instances; [DataStream] and [AutoFile] discharge the
    stream interface for [CDataStream] and [CAutoFile] and get the round trips
    from it; [SerializeTyped] shows that whatever bytes are read, a value that
    comes out is one of its type; [ClassSerialize] the classes that serialize
    their members; [VarInt] the variable-length integers.

    Scheduling ([hscheduler], [detail/scheduler]).  [Timeval], [DelayQueue] (entries
    with the time left after their predecessor; refined to a list of deadlines),
    [HandlerSet] (a ring with a cursor; refined to a finite map of descriptors),
    [Scheduler] composes both with the triggers into the event loop, and
    [EventLoop] runs it with callbacks that schedule further tasks, watch
    descriptors and set up triggers.

    Concurrency.  [MonitorQueue]: [hsyncbuffer], [utils/summerworkermng],
    [utils/jobpool] and the pool's [RefQueue] as one monitor (class [Monitor]) with
    its interleavings: first-in first-out, no lost wakeup, [ExitWork] ends all
    children.  [FastQueue]: [hsinglefastqueue.h], producer against consumer.
    [ThreadPool] ([hthreadpool]) and, on top of it and of [MonitorQueue]'s result,
    [JobMng] ([utils/multithreadjobmng]): jobs are done once and in order, the
    children end, what [Finish] means.  [Locks] ([hmutex], the generated
    holders in scopes that nest, class [Scoped]).  [Singleton] ([hlazysingleton], [detail/lazysingleton]):
    one instance, every call returns.  [RollFixBuffer]: the pool of buffers,
    refined to one FIFO of free items per group and a set of items in use.  [ServerPool] ([serverpool]).

    Processes and the system.  [Fork] ([process/atfork], [process/pid]), [ProcessPool]
    ([hprocesspool]), [Ipc] (System V objects), [FdIn] ([internal/fd_in], [hfilehandle]:
    who owns a descriptor), [Socket] ([hsocket]) and [Addr] ([haddr]), composed by
    [Endpoint] over the class [HAddr]; [Log] ([hlog], [detail/log]; [LogThreads]: threads
    that write one file), [App] ([happ], which
    composes configuration, names, lock files and log), [System] ([huicpp.cpp],
    [hexception], [systemcall], [hsystem]), [Util] and [Runtime] (small classes).

    Clients.  [Db] (results; the class [Connection], [MultiExec], batched inserts),
    [DbDrives] and [DbCopy] (SQLite and MySQL drives; a batch through the MySQL drive
    is committed whole or not at all), [Redis] ([nosql/hredis]), [Http]
    ([http/httphelper]), [Buffers] (packets, gathered output), [Image] and [Bmp] ([image]).

    ** What the theorems show

    - refinement: the delay queue and the handler set are their abstract lists
      and maps; [CDataStream] is a byte queue; [HMstr] is a map; the pool is its queues; a JSON path leads
      where its steps lead.
    - safety and invariants under every interleaving: [spsc_fifo],
      [monitor_fifo], [single_instance], [Init_handshake], [pool_exclusive],
      [descriptors_owned], [rwlock_holders], [commands_balanced], [rollover_once],
      [Finish_means_done].
    - liveness and termination: [no_lost_wakeup] (whoever waits can be woken as
      long as there is work), [ExitWork_joins], [all_jobs_done] and [Get_ends] (a
      bound on every run, and what holds where none can go on), [DoEventLoop_served]
      (what is scheduled is fired when it is due, whatever the tasks schedule, watch
      and trigger), [silent_client_closed] (the select server drops idle clients).
    - round trips: serialization, varints, bitmaps, addresses, dates, Redis
      values, base64, hex, URL encoding.
    - functional behaviour of a step of the event loop, of application start,
      of the process pool's watch, of configuration loading, of SQL building.
    - what the code does against its intent: such a theorem or [Example] states
      the behaviour as it is (a stop that does not stop, a buffer without room, a
      lock given back that was not taken), named for what goes wrong.

    ** Fuel and bounds

    Loops over rings ([sync_loop], [add_loop], [lookup_loop], [setup_loop]) take the number
    of nodes of the heap and one more; [alarm_loop] and [call_loop], whose callbacks may
    add entries, take an argument, and their theorems are about every fuel above the
    number of entries.  They give [Ret], so the loops end.  Loops over text and files
    ([split_loop], [counter_loop], [removes_loop], [file_loop], [fields_loop]) take
    the length of what is read and one more; [Replaces], which can loop for ever, has its
    fuel as an argument and a theorem for either case.  The loops of the table
    of processes, the groups and items of the pool and the widths of integers have
    the count as fuel.  [DoEventLoop] runs one step for each answer of the system it is given.
    Schedules are lists of steps, and the theorems hold for every schedule.  Lengths
    are below the width of the type that counts them ([2 ^ 31] or [2 ^ 32]), where a
    hypothesis says so.

    ** Not modelled

    The abstract device and module bases and the headers of types and macros have
    no decision to model.  The random engines
    are arguments, the attributes of locks are left out, and there is no memory
    model: a racing access is either shown not to happen or is one step.
    [hselectserver]'s [ProcessRecv] does not compile and is a parameter.  The
    vendored libraries under [deps], the copy of the library's headers there, and
    the programs under [test] are no part of it. *)

From stdpp Require Export base tactics numbers list sets.
From Stdlib Require Export ZArith Lia.
From Stdlib Require Import Ascii.
From Stdlib Require String.
Export String.StringSyntax.

#[global] Open Scope Z_scope.

(** ** Error codes of [internal/error_in.h] and outcomes of a C++ call *)

(** The constructors of [huicpp_errs_enum], in the order of [HUICPP_ERR_MAP]. *)
Inductive herr : Type :=
  | OK | INVL_PARA | ERR_STATUS | SRC_ERR | OVER_FLOW | IO_FAILED | MEMORY_OUT
  | TIME_OUT | NOT_EXISTS | DEP_ERROR | NETWORK_ERROR | SYS_FAILED | UN_SUPPORT
  | UNKOWN_ERR | ERR_END.

#[export] Instance herr_eq_dec : EqDecision herr.
Proof. solve_decision. Defined.

Definition IS_OK (e : herr) : bool := bool_decide (e = OK).

(** What a call can do instead of returning: throw an [HException], throw one
    of the standard library's exceptions ([StdException]: that of a library, derived from them), reach [abort]/[std::terminate], or
    leave the defined part of the language (out-of-range access, read of
    unconstructed memory).  [Diverge] is a loop that outlives the model's fuel. *)
Inductive exn : Type :=
  | HExc (e : herr)
  | StdOutOfRange
  | StdInvalidArgument
  | StdLengthError
  | StdException
  | Terminate
  | UB
  | Diverge.

#[export] Instance exn_eq_dec : EqDecision exn.
Proof. solve_decision. Defined.

Inductive res (A : Type) : Type :=
  | Ret (a : A)
  | Throw (e : exn).
Arguments Ret {A} a.
Arguments Throw {A} e.

#[export] Instance res_ret : MRet res := fun A a => Ret a.
#[export] Instance res_bind : MBind res := fun A B f m =>
  match m with Ret a => f a | Throw e => Throw e end.
#[export] Instance res_eq_dec {A} `{EqDecision A} : EqDecision (res A).
Proof. solve_decision. Defined.

(** [HASSERT_THROW] and a [noexcept] boundary. *)
Definition assert_throw (b : bool) (e : herr) : res unit :=
  if b then Ret tt else Throw (HExc e).

Definition check_ub (b : bool) : res unit := if b then Ret tt else Throw UB.

Definition noexcept {A} (m : res A) : res A :=
  match m with
  | Ret a => Ret a
  | Throw UB => Throw UB
  | Throw Diverge => Throw Diverge
  | Throw _ => Throw Terminate
  end.

Lemma res_bind_ret {A B} (m : res A) (f : A -> res B) b :
  (m ≫= f) = Ret b <-> exists a, m = Ret a /\ f a = Ret b.
Proof. destruct m; cbn; naive_solver. Qed.

(** One step of a call whose first part is known to return. *)
Lemma bind_Ret {A B} (m : res A) (f : A -> res B) a r : m = Ret a -> f a = r -> (m ≫= f) = r.
Proof. by intros ->. Qed.

(** ** Machine integers (LP64): the value of a conversion to the type *)

Definition wrapU (w z : Z) : Z := z mod 2 ^ w.
Definition wrapS (w z : Z) : Z := (z + 2 ^ (w - 1)) mod 2 ^ w - 2 ^ (w - 1).

Definition u8 : Z -> Z := wrapU 8.
Definition u16 : Z -> Z := wrapU 16.
Definition u32 : Z -> Z := wrapU 32.
Definition u64 : Z -> Z := wrapU 64.
Definition s8 : Z -> Z := wrapS 8.
Definition s32 : Z -> Z := wrapS 32.
Definition s64 : Z -> Z := wrapS 64.

Definition in_u (w z : Z) : Prop := 0 <= z < 2 ^ w.
Definition in_s (w z : Z) : Prop := - 2 ^ (w - 1) <= z < 2 ^ (w - 1).

#[export] Instance in_u_dec w z : Decision (in_u w z).
Proof. unfold in_u; apply _. Defined.
#[export] Instance in_s_dec w z : Decision (in_s w z).
Proof. unfold in_s; apply _. Defined.

Lemma wrapU_bound w z : 0 <= w -> in_u w (wrapU w z).
Proof. intros; unfold in_u, wrapU; apply Z.mod_pos_bound; lia. Qed.

Lemma wrapU_id w z : in_u w z -> wrapU w z = z.
Proof. unfold in_u, wrapU; intros; apply Z.mod_small; lia. Qed.

Lemma wrapS_id w z : 0 < w -> in_s w z -> wrapS w z = z.
Proof.
  unfold in_s, wrapS; intros Hw Hz.
  assert (2 ^ w = 2 * 2 ^ (w - 1)) as E
    by (rewrite <- Z.pow_succ_r by lia; f_equal; lia).
  rewrite Z.mod_small by lia; lia.
Qed.

Lemma wrapS_bound w z : 0 < w -> in_s w (wrapS w z).
Proof.
  unfold in_s, wrapS; intros Hw.
  assert (2 ^ w = 2 * 2 ^ (w - 1)) as E
    by (rewrite <- Z.pow_succ_r by lia; f_equal; lia).
  pose proof (Z.mod_pos_bound (z + 2 ^ (w - 1)) (2 ^ w)). lia.
Qed.

Lemma u8_id z : 0 <= z < 2 ^ 8 -> u8 z = z.
Proof. apply wrapU_id. Qed.
Lemma u16_id z : 0 <= z < 2 ^ 16 -> u16 z = z.
Proof. apply wrapU_id. Qed.
Lemma u32_id z : 0 <= z < 2 ^ 32 -> u32 z = z.
Proof. apply wrapU_id. Qed.
Lemma u64_id z : 0 <= z < 2 ^ 64 -> u64 z = z.
Proof. apply wrapU_id. Qed.
Lemma s32_id z : - 2 ^ 31 <= z < 2 ^ 31 -> s32 z = z.
Proof. apply (wrapS_id 32); lia. Qed.

Lemma s64_id z : - 2 ^ 63 <= z < 2 ^ 63 -> s64 z = z.
Proof. apply (wrapS_id 64); lia. Qed.

(** Evaluate the powers of two that occur in the concrete widths. *)
Ltac pow2 :=
  repeat match goal with
         | |- context [2 ^ Zpos ?p] =>
           let v := eval vm_compute in (2 ^ Zpos p) in change (2 ^ Zpos p) with v
         | H : context [2 ^ Zpos ?p] |- _ =>
           let v := eval vm_compute in (2 ^ Zpos p) in change (2 ^ Zpos p) with v in H
         end.

Ltac unfold_ints :=
  unfold u8, u16, u32, u64, s8, s32, s64, wrapU, wrapS, in_u, in_s in *;
  change (8 - 1) with 7 in *; change (16 - 1) with 15 in *;
  change (32 - 1) with 31 in *; change (64 - 1) with 63 in *; pow2.

(** Integer goals: unfold the widths, then [lia] with [mod] and [div] by constants as equations. *)
Ltac ints := unfold_ints; Z.div_mod_to_equations; lia.

(** ** Byte strings: [std::string], [HMEM], raw buffers *)

(** A byte is its unsigned value; a string literal is written [str "..."]. *)
Abbreviation bytes := (list Z).

Definition str (s : String.string) : bytes :=
  map (fun a => Z.of_nat (nat_of_ascii a)) (String.list_ascii_of_string s).
Arguments str s%_string_scope.

Definition is_byte (b : Z) : Prop := 0 <= b < 256.
Definition is_bytes (l : bytes) : Prop := Forall is_byte l.

#[export] Instance is_byte_dec b : Decision (is_byte b).
Proof. unfold is_byte; apply _. Defined.
#[export] Instance is_bytes_dec l : Decision (is_bytes l).
Proof. unfold is_bytes; apply _. Defined.

(** [size_t] view of a length and [std::string::npos]. *)
Definition zlen {A} (l : list A) : Z := Z.of_nat (length l).
Definition npos : Z := 2 ^ 64 - 1.

Lemma zlen_nonneg {A} (l : list A) : 0 <= zlen l.
Proof. unfold zlen; lia. Qed.

Lemma zlen_app {A} (l k : list A) : zlen (l ++ k) = zlen l + zlen k.
Proof. unfold zlen; rewrite length_app; lia. Qed.

Lemma zlen_nil {A} : zlen (@nil A) = 0.
Proof. done. Qed.

Lemma zlen_cons {A} (x : A) l : zlen (x :: l) = 1 + zlen l.
Proof. unfold zlen; simpl; lia. Qed.

Lemma zlen_replicate {A} n (x : A) : zlen (replicate n x) = Z.of_nat n.
Proof. unfold zlen. by rewrite length_replicate. Qed.

Lemma zlen_fresh {A} n : 0 <= n -> zlen (replicate (A:=option A) (Z.to_nat n) None) = n.
Proof. intros Hn. rewrite zlen_replicate. lia. Qed.

Lemma zlen_le_0 {A} (l : list A) : zlen l <= 0 -> l = [].
Proof. destruct l; [done|]. unfold zlen; cbn; lia. Qed.

Lemma zlen_pos {A} (l : list A) : l <> [] -> 0 < zlen l.
Proof. destruct l; [done|]. unfold zlen; cbn; lia. Qed.

(** A sum over a list one of whose entries is replaced. *)
Lemma sum_with_insert {A} (f : A -> nat) i x y (l : list A) : l !! i = Some x ->
  (sum_list_with f (<[i := y]> l) + f x = sum_list_with f l + f y)%nat.
Proof.
  revert i. induction l as [|z l IH]; intros [|i]; cbn; [done|done|by intros [= ->]; lia|].
  intros H. rewrite <- !Nat.add_assoc. f_equal. exact (IH i H).
Qed.

(** ** The hint database of the development *)

Create HintDb huicpp.
#[export] Hint Resolve zlen_nonneg : huicpp.
#[export] Hint Rewrite @zlen_nil @zlen_app @zlen_cons @length_app @length_take @length_drop
  @length_reverse @length_replicate : huicpp.

(** ** Small control tactics *)

Ltac invc H := inversion H; subst; clear H.

(** Split the boolean tests of goal and hypotheses into propositions. *)
Ltac bool_to_prop :=
  rewrite ?Z.geb_leb, ?Z.gtb_ltb in * |-;
  repeat match goal with
         | H : (_ && _)%bool = true |- _ => apply andb_true_iff in H as [? ?]
         | H : (_ || _)%bool = false |- _ => apply orb_false_iff in H as [? ?]
         | H : negb _ = true |- _ => apply negb_true_iff in H
         | H : negb _ = false |- _ => apply negb_false_iff in H
         | H : Z.eqb _ _ = true |- _ => apply Z.eqb_eq in H
         | H : Z.eqb _ _ = false |- _ => apply Z.eqb_neq in H
         | H : Z.ltb _ _ = true |- _ => apply Z.ltb_lt in H
         | H : Z.ltb _ _ = false |- _ => apply Z.ltb_ge in H
         | H : Z.leb _ _ = true |- _ => apply Z.leb_le in H
         | H : Z.leb _ _ = false |- _ => apply Z.leb_gt in H
         | H : bool_decide _ = true |- _ => apply bool_decide_eq_true in H
         | H : bool_decide _ = false |- _ => apply bool_decide_eq_false in H
         end.

(** Decide the integer tests of the goal that follow from the context. *)
Ltac ztest :=
  rewrite ?Z.geb_leb, ?Z.gtb_ltb;
  repeat match goal with
         | |- context [Z.leb ?a ?b] =>
           first [rewrite (proj2 (Z.leb_le a b)) by lia | rewrite (proj2 (Z.leb_gt a b)) by lia]
         | |- context [Z.ltb ?a ?b] =>
           first [rewrite (proj2 (Z.ltb_lt a b)) by lia | rewrite (proj2 (Z.ltb_ge a b)) by lia]
         | |- context [Z.eqb ?a ?b] =>
           first [rewrite (proj2 (Z.eqb_eq a b)) by lia | rewrite (proj2 (Z.eqb_neq a b)) by lia]
         end; cbn [andb orb negb].

(** Case analysis on the test of an [if] of the goal or of a hypothesis. *)
Ltac case_test :=
  match goal with
  | |- context [if ?b then _ else _] =>
    match type of b with
    | bool => let E := fresh "Eb" in destruct b eqn:E; bool_to_prop
    | _ => case_decide
    end
  | H : context [if ?b then _ else _] |- _ =>
    match type of b with
    | bool => let E := fresh "Eb" in destruct b eqn:E; bool_to_prop
    | _ => case_decide
    end
  end.

(** ** Generic lemmas on lists *)

Section list_lemmas.
Context {A : Type}.
Implicit Types (l k : list A) (x : A).

Lemma filter_all_false (P : A -> Prop) `{!forall x, Decision (P x)} l :
  (forall x, x ∈ l -> ~ P x) -> filter P l = [].
Proof.
  induction l as [|x l IH]; intros Hl; [done|].
  rewrite filter_cons_False; set_solver.
Qed.

Lemma filter_all_true (P : A -> Prop) `{!forall x, Decision (P x)} l :
  (forall x, x ∈ l -> P x) -> filter P l = l.
Proof.
  induction l as [|x l IH]; intros Hl; [done|].
  rewrite filter_cons_True, IH; set_solver.
Qed.

Lemma foldl_app_cons {B} (f : B -> A -> B) (b : B) l x :
  foldl f b (l ++ [x]) = f (foldl f b l) x.
Proof. rewrite foldl_app; done. Qed.
End list_lemmas.
