(* ===== verification/StdString.v ===== *)
(** * The operations of [std::string] that huicpp uses

    A string is its list of bytes (see [Prelude]); a position is a [nat] and
    [std::string::npos] is [None] ([to_pos] gives the number the code computes
    with).  These are definitions of the C++ standard library, so none of them
    is mapped to a line of the repository; the lemmas are the ones every client
    shares. *)

From S2P Require Import Prelude.

(** ** Searching *)

Fixpoint prefixb (k s : bytes) : bool :=
  match k, s with
  | [], _ => true
  | x :: k', y :: s' => (x =? y) && prefixb k' s'
  | _ :: _, [] => false
  end.

Fixpoint find_at (k s : bytes) (off : nat) : option nat :=
  if prefixb k s then Some off
  else match s with
       | [] => None
       | _ :: s' => find_at k s' (S off)
       end.

(** [s.find(k, pos)] *)
Definition find (s k : bytes) (pos : nat) : option nat :=
  if decide (pos <= length s)%nat then find_at k (drop pos s) pos else None.

Definition to_pos (o : option nat) : Z :=
  match o with Some n => Z.of_nat n | None => npos end.

Definition mem (c : Z) (set : bytes) : bool := existsb (Z.eqb c) set.

Fixpoint find_first (p : Z -> bool) (s : bytes) (off : nat) : option nat :=
  match s with
  | [] => None
  | c :: s' => if p c then Some off else find_first p s' (S off)
  end.

Definition find_char (s : bytes) (c : Z) : option nat := find_first (Z.eqb c) s 0.

(** [strrchr]: the last occurrence. *)
Definition rfind_char (s : bytes) (c : Z) : option nat :=
  match find_first (Z.eqb c) (reverse s) 0 with
  | Some i => Some (length s - 1 - i)%nat
  | None => None
  end.

Definition find_first_not_of (s set : bytes) : option nat :=
  find_first (fun c => negb (mem c set)) s 0.

Definition find_last_not_of (s set : bytes) : option nat :=
  match find_first (fun c => negb (mem c set)) (reverse s) 0 with
  | Some i => Some (length s - 1 - i)%nat
  | None => None
  end.

(** [s.substr(pos, n)] and [s.substr(pos)]: out of range positions throw. *)
Definition substr (s : bytes) (pos : nat) (n : Z) : res bytes :=
  if decide (pos <= length s)%nat
  then Ret (take (Z.to_nat (Z.min n (zlen s))) (drop pos s))
  else Throw StdOutOfRange.

Definition substr_from (s : bytes) (pos : nat) : res bytes :=
  if decide (pos <= length s)%nat then Ret (drop pos s) else Throw StdOutOfRange.

(** [s.replace(pos, len, d)] and [s.erase(pos, len)] at a valid position. *)
Definition replace_at (s : bytes) (pos len : nat) (d : bytes) : bytes :=
  take pos s ++ d ++ drop (pos + len) s.

Definition erase_at (s : bytes) (pos len : nat) : bytes := replace_at s pos len [].

(** C-locale [toupper], [tolower], [isalnum] on a byte. *)
Definition isdigit (c : Z) : bool := (48 <=? c) && (c <=? 57).
Definition isupper (c : Z) : bool := (65 <=? c) && (c <=? 90).
Definition islower (c : Z) : bool := (97 <=? c) && (c <=? 122).
Definition isalnum (c : Z) : bool := isdigit c || isupper c || islower c.
Definition toupper (c : Z) : Z := if islower c then c - 32 else c.
Definition tolower (c : Z) : Z := if isupper c then c + 32 else c.
Definition isspace (c : Z) : bool := (c =? 32) || ((9 <=? c) && (c <=? 13)).

(** ** [std::to_string] and [std::stoi] *)

Fixpoint dec_digits (fuel : nat) (n : Z) (acc : bytes) : bytes :=
  match fuel with
  | O => acc
  | S f => let acc' := (48 + n mod 10) :: acc in
           if n / 10 =? 0 then acc' else dec_digits f (n / 10) acc'
  end.

(** Twenty digits are enough for any 64-bit magnitude. *)
Definition to_string (n : Z) : bytes :=
  if n <? 0 then 45 :: dec_digits 20 (- n) [] else dec_digits 20 n [].

Fixpoint take_while (p : Z -> bool) (s : bytes) : bytes :=
  match s with
  | c :: s' => if p c then c :: take_while p s' else []
  | [] => []
  end.

Fixpoint drop_while (p : Z -> bool) (s : bytes) : bytes :=
  match s with
  | c :: s' => if p c then drop_while p s' else s
  | [] => []
  end.

(** A C string ends at its first zero byte. *)
Definition c_str (s : bytes) : bytes := take_while (fun c => negb (c =? 0)) s.

Definition digits_val (ds : bytes) : Z := foldl (fun a c => 10 * a + (c - 48)) 0 ds.

(** [strtol] in base 10: white space, an optional sign, the longest run of
    digits; [None] when no digit follows. *)
Definition strtol (s : bytes) : option Z :=
  let s := drop_while isspace s in
  let '(sg, s) := match s with
                  | c :: s' => if c =? 45 then (-1, s') else if c =? 43 then (1, s') else (1, s)
                  | [] => (1, [])
                  end in
  match take_while isdigit s with
  | [] => None
  | ds => Some (sg * digits_val ds)
  end.

(** [std::stoi] throws when there is no number or it does not fit an [int]. *)
Definition stoi (s : bytes) : res Z :=
  match strtol s with
  | None => Throw StdInvalidArgument
  | Some v => if decide (in_s 32 v) then Ret v else Throw StdOutOfRange
  end.

(** ** Lexicographic order of [std::string] ([char_traits<char>::lt]) *)

Fixpoint str_ltb (a b : bytes) : bool :=
  match a, b with
  | [], [] => false
  | [], _ :: _ => true
  | _ :: _, [] => false
  | x :: a', y :: b' => (x <? y) || ((x =? y) && str_ltb a' b')
  end.

(** ** Lemmas on searching *)

Lemma prefixb_spec k s : prefixb k s = true <-> exists r, s = k ++ r.
Proof.
  revert s; induction k as [|x k IH]; intros [|y s]; cbn.
  - naive_solver.
  - naive_solver.
  - split; [done | intros [r [=]]].
  - rewrite andb_true_iff, Z.eqb_eq, IH. naive_solver.
Qed.

Lemma prefixb_app k r : prefixb k (k ++ r) = true.
Proof. apply prefixb_spec; eauto. Qed.

Lemma prefixb_length k s : prefixb k s = true -> (length k <= length s)%nat.
Proof. intros [r ->]%prefixb_spec. rewrite length_app; lia. Qed.

(** [k] occurs in [s] at position [i]. *)
Definition occurs_at (k s : bytes) (i : nat) : Prop :=
  (i <= length s)%nat /\ prefixb k (drop i s) = true.

#[export] Instance occurs_at_dec k s i : Decision (occurs_at k s i).
Proof. unfold occurs_at; apply _. Defined.

Lemma find_at_Some k s off i :
  find_at k s off = Some i <->
  (off <= i)%nat /\ occurs_at k s (i - off) /\
  forall j, (j < i - off)%nat -> prefixb k (drop j s) = false.
Proof.
  revert off; induction s as [|c s IH]; intros off.
  - cbn. unfold occurs_at. rewrite drop_nil. destruct (prefixb k []) eqn:E.
    + split.
      * intros [= <-]. cbn. split_and!; try lia; done.
      * intros (? & [? _] & _). cbn in *. f_equal; lia.
    + split; [done|]. intros (_ & [_ ?] & _). congruence.
  - cbn [find_at]. destruct (prefixb k (c :: s)) eqn:E.
    + split.
      * intros [= <-]. rewrite Nat.sub_diag. split_and!; [lia| |lia].
        split; [lia|done].
      * intros (? & _ & Hmin). destruct (decide (i = off)) as [->|]; [done|].
        specialize (Hmin 0%nat). cbn in Hmin. rewrite E in Hmin. exfalso. 
        discriminate Hmin; lia.
    + rewrite IH. unfold occurs_at. cbn [length]. split.
      * intros (? & [? Hp] & Hmin). replace (i - off)%nat with (S (i - S off)) by lia.
        cbn. split_and!; [lia|lia|done|]. intros [|j] ?; [done|]. apply Hmin; lia.
      * intros (? & [? Hp] & Hmin). destruct (decide (i = off)) as [->|].
        { rewrite Nat.sub_diag in Hp. cbn in Hp. congruence. }
        replace (i - off)%nat with (S (i - S off)) in * by lia. cbn in *.
        split_and!; [lia|lia|done|]. intros j ?. apply (Hmin (S j)); lia.
Qed.

Lemma find_at_None k s off :
  find_at k s off = None <-> forall i, (i <= length s)%nat -> prefixb k (drop i s) = false.
Proof.
  revert off; induction s as [|c s IH]; intros off; cbn [find_at].
  - destruct (prefixb k []) eqn:E; split.
    + done.
    + intros H. specialize (H 0%nat ltac:(cbn; lia)). cbn in H. congruence.
    + intros _ [|i] ?; cbn in *; [done|lia].
    + done.
  - destruct (prefixb k (c :: s)) eqn:E.
    + split; [done|]. intros H. specialize (H 0%nat ltac:(lia)). cbn in H. congruence.
    + rewrite IH. split.
      * intros H [|i] Hi; cbn; [done|]. apply H. cbn in Hi; lia.
      * intros H i Hi. apply (H (S i)). cbn; lia.
Qed.

(** The first occurrence at or after [pos]. *)
Lemma find_Some s k pos i :
  find s k pos = Some i <->
  (pos <= i)%nat /\ occurs_at k s i /\
  forall j, (pos <= j < i)%nat -> prefixb k (drop j s) = false.
Proof.
  unfold find. destruct (decide (pos <= length s)%nat) as [Hp|Hp].
  - rewrite find_at_Some. unfold occurs_at. rewrite length_drop, drop_drop.
    split; intros (? & [? H] & Hmin).
    + replace (pos + (i - pos))%nat with i in H by lia.
      split_and!; [lia|lia|done|].
      intros j ?. specialize (Hmin (j - pos)%nat ltac:(lia)).
      rewrite drop_drop in Hmin. by replace (pos + (j - pos))%nat with j in Hmin by lia.
    + replace (pos + (i - pos))%nat with i by lia. split_and!; [lia|lia|done|].
      intros j ?. rewrite drop_drop. apply Hmin; lia.
  - split; [done|]. intros (? & [? _] & _); lia.
Qed.

Lemma find_None s k pos :
  find s k pos = None <->
  forall i, (pos <= i <= length s)%nat -> prefixb k (drop i s) = false.
Proof.
  unfold find. destruct (decide (pos <= length s)%nat) as [Hp|Hp].
  - rewrite find_at_None, length_drop. split.
    + intros H i ?. specialize (H (i - pos)%nat ltac:(lia)).
      rewrite drop_drop in H. by replace (pos + (i - pos))%nat with i in H by lia.
    + intros H i ?. rewrite drop_drop. apply H; lia.
  - split; [|done]. intros _ i ?; lia.
Qed.

Lemma occurs_at_split k s i :
  occurs_at k s i <-> (i <= length s)%nat /\ s = take i s ++ k ++ drop (i + length k) s.
Proof.
  unfold occurs_at. split; intros [Hi H]; (split; [done|]).
  - apply prefixb_spec in H as [r Hr]. rewrite <- drop_drop, Hr, drop_app_length.
    rewrite <- Hr. by rewrite take_drop.
  - rewrite H, drop_app_length' by (rewrite length_take; lia). apply prefixb_app.
Qed.

Lemma occurs_at_bound k s i : occurs_at k s i -> (i + length k <= length s)%nat.
Proof. intros [Hi Hp]. apply prefixb_length in Hp. rewrite length_drop in Hp. lia. Qed.

Lemma substr_0 s n : 0 <= n -> substr s 0 n = Ret (take (Z.to_nat n) s).
Proof.
  intros. unfold substr. rewrite decide_True by lia. f_equal. rewrite drop_0.
  destruct (decide (n <= zlen s)); [by rewrite Z.min_l by lia|].
  unfold zlen in *. rewrite !take_ge; [done|lia|lia].
Qed.

Lemma substr_in s pos (n : nat) :
  (pos + n <= length s)%nat -> substr s pos (Z.of_nat n) = Ret (take n (drop pos s)).
Proof.
  intros. unfold substr, zlen. rewrite decide_True by lia. do 2 f_equal. lia.
Qed.

Lemma mem_spec c set : mem c set = true <-> c ∈ set.
Proof.
  unfold mem. rewrite existsb_exists, list_elem_of_In. split.
  - intros (x & Hx & ->%Z.eqb_eq). done.
  - intros H. exists c. split; [done|]. apply Z.eqb_refl.
Qed.

Lemma find_first_Some p s off i :
  find_first p s off = Some i <->
  (off <= i)%nat /\ (exists c, s !! (i - off)%nat = Some c /\ p c = true) /\
  Forall (fun c => p c = false) (take (i - off) s).
Proof.
  revert off; induction s as [|c s IH]; intros off; cbn [find_first].
  - split; [done|]. intros (_ & (c & Hc & _) & _). done.
  - destruct (p c) eqn:E.
    + split.
      * intros [= <-]. rewrite Nat.sub_diag. cbn. split_and!; eauto.
      * intros (? & _ & HF). destruct (decide (i = off)) as [->|]; [done|].
        replace (i - off)%nat with (S (i - S off)) in HF by lia. cbn in HF. 
        apply Forall_cons in HF as [? _]. congruence.
    + rewrite IH. split.
      * intros (? & (d & Hd & Hp) & HF).
        replace (i - off)%nat with (S (i - S off)) by lia. cbn. 
        split_and!; [lia|eauto|]. constructor; done.
      * intros (? & (d & Hd & Hp) & HF). destruct (decide (i = off)) as [->|].
        { rewrite Nat.sub_diag in Hd. cbn in Hd. congruence. }
        replace (i - off)%nat with (S (i - S off)) in * by lia. cbn in *.
        apply Forall_cons in HF as [_ HF]. split_and!; [lia|eauto|done].
Qed.

Lemma find_first_None p s off :
  find_first p s off = None <-> Forall (fun c => p c = false) s.
Proof.
  revert off; induction s as [|c s IH]; intros off; cbn [find_first].
  - split; [constructor|done].
  - rewrite Forall_cons. destruct (p c) eqn:E.
    + split; [done|]. intros [? _]; congruence.
    + rewrite IH. naive_solver.
Qed.

(** ** Numbers survive printing and parsing *)

Lemma dec_digits_val f n acc :
  0 <= n < 10 ^ Z.of_nat f -> (0 < f)%nat ->
  foldl (fun a c => 10 * a + (c - 48)) 0 (dec_digits f n acc) =
  foldl (fun a c => 10 * a + (c - 48)) n acc.
Proof.
  revert n acc. induction f as [|f IH]; intros n acc Hn Hf; [lia|]. cbn [dec_digits].
  rewrite Nat2Z.inj_succ, Z.pow_succ_r in Hn by lia.
  pose proof (Z.div_mod n 10 ltac:(lia)) as Hd. pose proof (Z.mod_pos_bound n 10 ltac:(lia)).
  destruct (n / 10 =? 0) eqn:E; bool_to_prop; cbn [foldl].
  - f_equal. lia.
  - assert (0 <= n / 10 < 10 ^ Z.of_nat f) as Hq.
    { split; [apply Z.div_pos; lia|apply Z.div_lt_upper_bound; lia]. }
    destruct f as [|f]; [change (10 ^ Z.of_nat 0) with 1 in Hq; lia|].
    rewrite IH by lia. cbn [foldl]. f_equal. lia.
Qed.

Lemma dec_digits_digits f n acc :
  0 <= n -> Forall (fun c => isdigit c = true) acc ->
  Forall (fun c => isdigit c = true) (dec_digits f n acc).
Proof.
  revert n acc. induction f as [|f IH]; intros n acc Hn Hacc; [done|]. cbn [dec_digits].
  assert (isdigit (48 + n mod 10) = true).
  { pose proof (Z.mod_pos_bound n 10 ltac:(lia)). unfold isdigit. by ztest. }
  case_match; [by constructor|]. apply IH; [apply Z.div_pos; lia|by constructor].
Qed.

Lemma dec_digits_cons f n acc : exists c ds, dec_digits (S f) n acc = c :: ds.
Proof.
  revert n acc. induction f as [|f IH]; intros n acc; cbn [dec_digits].
  - case_match; eauto.
  - case_match; [eauto|]. apply IH.
Qed.

Lemma take_while_all p s : Forall (fun c => p c = true) s -> take_while p s = s.
Proof. induction 1 as [|c s Hc _ IH]; cbn; [done|]. by rewrite Hc, IH. Qed.

Lemma c_str_id s : Forall (fun c => c <> 0) s -> c_str s = s.
Proof.
  intros Hs. apply take_while_all. eapply Forall_impl; [exact Hs|]. intros c Hc. by apply negb_true_iff, Z.eqb_neq.
Qed.

Lemma c_str_clean s : 0 ∉ s -> c_str s = s.
Proof. intros Hs. apply c_str_id, Forall_forall. by intros c Hc ->. Qed.

Lemma isdigit_facts c :
  isdigit c = true -> isspace c = false /\ (c =? 45) = false /\ (c =? 43) = false.
Proof.
  unfold isdigit, isspace. rewrite andb_true_iff, !Z.leb_le. intros ?. by ztest.
Qed.

(** A number in decimal, alone, is what [strtol] reads. *)
Lemma strtol_digits c ds :
  Forall (fun c => isdigit c = true) (c :: ds) -> strtol (c :: ds) = Some (digits_val (c :: ds)).
Proof.
  intros H. pose proof H as [Hc Hds]%Forall_cons. pose proof (isdigit_facts c Hc) as (E1 & E2 & E3).
  unfold strtol. cbn [drop_while]. rewrite E1, E2, E3, take_while_all by done. f_equal. lia.
Qed.

Lemma strtol_neg_digits c ds :
  Forall (fun c => isdigit c = true) (c :: ds) ->
  strtol (45 :: c :: ds) = Some (- digits_val (c :: ds)).
Proof.
  intros H. unfold strtol. cbn [drop_while].
  change (isspace 45) with false. cbv beta iota zeta. change (45 =? 45) with true. cbv beta iota.
  by rewrite take_while_all by done.
Qed.

Lemma strtol_to_string n : - 10 ^ 20 < n < 10 ^ 20 -> strtol (to_string n) = Some n.
Proof.
  intros Hn. unfold to_string. destruct (n <? 0) eqn:E; bool_to_prop.
  - destruct (dec_digits_cons 19 (- n) []) as (c & ds & Ed).
    pose proof (dec_digits_digits 20 (- n) [] ltac:(lia) ltac:(constructor)) as HF.
    pose proof (dec_digits_val 20 (- n) [] ltac:(cbn; lia) ltac:(lia)) as Hv.
    rewrite Ed in *. rewrite strtol_neg_digits by done. unfold digits_val. rewrite Hv. cbn. f_equal. lia.
  - destruct (dec_digits_cons 19 n []) as (c & ds & Ed).
    pose proof (dec_digits_digits 20 n [] ltac:(lia) ltac:(constructor)) as HF.
    pose proof (dec_digits_val 20 n [] ltac:(cbn; lia) ltac:(lia)) as Hv.
    rewrite Ed in *. rewrite strtol_digits by done. unfold digits_val. by rewrite Hv.
Qed.

Lemma stoi_to_string n : in_s 32 n -> stoi (to_string n) = Ret n.
Proof.
  intros Hn. unfold stoi. rewrite strtol_to_string.
  - by rewrite decide_True.
  - unfold_ints. change (10 ^ 20) with 100000000000000000000. lia.
Qed.

Lemma digits_val_nonneg s : Forall (fun c => isdigit c = true) s -> 0 <= digits_val s.
Proof.
  unfold digits_val. assert (forall a, 0 <= a -> Forall (fun c => isdigit c = true) s ->
    0 <= foldl (fun a c => 10 * a + (c - 48)) a s) as L; [|by apply L].
  induction s as [|c s IH]; intros a Ha H; [done|]. apply Forall_cons in H as [Hc H]. cbn [foldl].
  apply IH; [|done]. unfold isdigit in Hc. lia.
Qed.

Lemma length_dec_digits f n acc : (length (dec_digits f n acc) <= f + length acc)%nat.
Proof.
  revert n acc. induction f as [|f IH]; intros n acc; cbn [dec_digits]; [lia|].
  case_match; cbn [length]; [lia|]. specialize (IH (n / 10) (48 + n mod 10 :: acc)). cbn [length] in IH. lia.
Qed.

Lemma to_string_digits n c : 0 <= n -> c ∈ to_string n -> isdigit c = true.
Proof.
  intros Hn. unfold to_string. ztest. pose proof (dec_digits_digits 20 n [] Hn ltac:(constructor)) as H.
  rewrite Forall_forall in H. apply H.
Qed.
