(* ===== verification/OrdMap.v ===== *)
(** * [std::map] and [std::set] as sorted association lists

    The containers of the C++ library that huicpp iterates in key order
    ([HMSTR], [HSSTR], the maps and sets of [hserialize.h]).  Elements are kept
    strictly sorted by their key; [ins] is [insert] (an element with an equal
    key stays), [assign] overwrites, [del] is [erase].  Library code: nothing
    here is mapped to the repository. *)

From S2P Require Import Prelude StdString.

(** The comparison object of the container: a strict total order. *)
Class StrictOrder (K : Type) := {
  ltb : K -> K -> bool;
  ltb_irrefl : forall x, ltb x x = false;
  ltb_trans : forall x y z, ltb x y = true -> ltb y z = true -> ltb x z = true;
  ltb_total : forall x y, ltb x y = false -> ltb y x = false -> x = y
}.

#[export] Program Instance Z_strict : StrictOrder Z := {| ltb := Z.ltb |}.
Next Obligation. intros; apply Z.ltb_irrefl. Qed.
Next Obligation. intros x y z; rewrite !Z.ltb_lt; lia. Qed.
Next Obligation. intros x y; rewrite !Z.ltb_ge; lia. Qed.

#[export] Program Instance str_strict : StrictOrder bytes := {| ltb := str_ltb |}.
Next Obligation.
  induction x as [|c x IH]; cbn; [done|]. by rewrite Z.ltb_irrefl, Z.eqb_refl, IH.
Qed.
Next Obligation.
  induction x as [|c x IH]; intros [|d y] [|e z]; cbn; try done.
  rewrite !orb_true_iff, !andb_true_iff, !Z.ltb_lt, !Z.eqb_eq.
  intros [?|[-> Hxy]] [?|[-> Hyz]]; try (left; lia). right. eauto.
Qed.
Next Obligation.
  induction x as [|c x IH]; intros [|d y]; cbn; try done.
  rewrite !orb_false_iff, !andb_false_iff, !Z.ltb_ge, !Z.eqb_neq.
  intros [? [?|Hx]] [? [?|Hy]]; try lia. f_equal; [lia|auto].
Qed.

Lemma ltb_asym `{StrictOrder K} x y : ltb x y = true -> ltb y x = false.
Proof.
  intros E. apply not_true_iff_false. intros E'.
  pose proof (ltb_trans _ _ _ E E') as X. by rewrite ltb_irrefl in X.
Qed.

Lemma ltb_neq `{StrictOrder K} (x y : K) : ltb x y = true -> x <> y.
Proof. intros E ->. by rewrite ltb_irrefl in E. Qed.

Section container.
Context {K A : Type} `{StrictOrder K} (key : A -> K).
Implicit Types (l : list A) (x y : A) (k : K).

Fixpoint get k l : option A :=
  match l with
  | [] => None
  | y :: l' => if ltb k (key y) then None
               else if ltb (key y) k then get k l' else Some y
  end.

Fixpoint ins x l : list A :=
  match l with
  | [] => [x]
  | y :: l' => if ltb (key x) (key y) then x :: l
               else if ltb (key y) (key x) then y :: ins x l' else l
  end.

Fixpoint assign x l : list A :=
  match l with
  | [] => [x]
  | y :: l' => if ltb (key x) (key y) then x :: l
               else if ltb (key y) (key x) then y :: assign x l' else x :: l'
  end.

Fixpoint del k l : list A :=
  match l with
  | [] => []
  | y :: l' => if ltb k (key y) then l
               else if ltb (key y) k then y :: del k l' else l'
  end.

(** Strictly increasing keys. *)
Fixpoint sorted l : Prop :=
  match l with
  | [] => True
  | y :: l' => Forall (fun z => ltb (key y) (key z) = true) l' /\ sorted l'
  end.

Lemma key_cases k k' : {ltb k k' = true} + {ltb k' k = true} + {k = k'}.
Proof.
  destruct (ltb k k') eqn:E; [by left; left|].
  destruct (ltb k' k) eqn:E'; [by left; right|]. right. by apply ltb_total.
Qed.

Lemma get_above k l :
  Forall (fun z => ltb k (key z) = true) l -> get k l = None.
Proof. destruct l; [done|]. cbn. by intros [-> _]%Forall_cons. Qed.

Lemma Forall_ins (P : A -> Prop) x l : P x -> Forall P l -> Forall P (ins x l).
Proof.
  intros Px. induction 1 as [|y l Py Hl IH]; cbn; [by constructor|].
  repeat case_match; repeat constructor; done.
Qed.

Lemma Forall_assign (P : A -> Prop) x l : P x -> Forall P l -> Forall P (assign x l).
Proof.
  intros Px. induction 1 as [|y l Py Hl IH]; cbn; [by constructor|].
  repeat case_match; repeat constructor; done.
Qed.

Lemma Forall_del (P : A -> Prop) k l : Forall P l -> Forall P (del k l).
Proof.
  induction 1 as [|y l Py Hl IH]; cbn; [constructor|].
  repeat case_match; repeat constructor; done.
Qed.

Lemma above_trans k y l :
  ltb k (key y) = true -> Forall (fun z => ltb (key y) (key z) = true) l ->
  Forall (fun z => ltb k (key z) = true) l.
Proof. intros ? Hf. eapply Forall_impl; [exact Hf|]. cbn. eauto using ltb_trans. Qed.

Lemma sorted_ins x l : sorted l -> sorted (ins x l).
Proof.
  induction l as [|y l IH]; cbn; [by repeat constructor|]. intros [Hy Hl].
  destruct (ltb (key x) (key y)) eqn:E1; cbn.
  - split; [constructor; [done|by eapply above_trans]|done].
  - destruct (ltb (key y) (key x)) eqn:E2; cbn; [|done].
    split; [by apply Forall_ins|auto].
Qed.

Lemma sorted_assign x l : sorted l -> sorted (assign x l).
Proof.
  induction l as [|y l IH]; cbn; [by repeat constructor|]. intros [Hy Hl].
  destruct (ltb (key x) (key y)) eqn:E1; cbn.
  - split; [constructor; [done|by eapply above_trans]|done].
  - destruct (ltb (key y) (key x)) eqn:E2; cbn.
    + split; [by apply Forall_assign|auto].
    + by rewrite (ltb_total _ _ E1 E2).
Qed.

Lemma sorted_del k l : sorted l -> sorted (del k l).
Proof.
  induction l as [|y l IH]; cbn; [done|]. intros [Hy Hl].
  repeat case_match; cbn; [done| |done]. split; [by apply Forall_del|auto].
Qed.

Lemma get_assign_eq x l : sorted l -> get (key x) (assign x l) = Some x.
Proof.
  induction l as [|y l IH]; cbn; intros Hs.
  - by rewrite ltb_irrefl.
  - destruct Hs as [_ Hs].
    destruct (ltb (key x) (key y)) eqn:E1; cbn; [by rewrite ltb_irrefl|].
    destruct (ltb (key y) (key x)) eqn:E2; cbn; [rewrite E1, E2; auto|by rewrite ltb_irrefl].
Qed.

Lemma get_assign_ne x k l : sorted l -> k <> key x -> get k (assign x l) = get k l.
Proof.
  intros Hs Hk. induction l as [|y l IH]; cbn.
  - destruct (ltb k (key x)) eqn:E1; [done|].
    destruct (ltb (key x) k) eqn:E2; [done|]. by destruct Hk; apply ltb_total.
  - destruct Hs as [Hy Hs].
    destruct (ltb (key x) (key y)) eqn:E1; cbn.
    + destruct (ltb k (key x)) eqn:E2; [by rewrite (ltb_trans _ _ _ E2 E1)|].
      destruct (ltb (key x) k) eqn:E3; [done|]. by destruct Hk; apply ltb_total.
    + destruct (ltb (key y) (key x)) eqn:E2; cbn; [by rewrite IH|].
      rewrite (ltb_total _ _ E1 E2) in *.
      destruct (ltb k (key y)) eqn:E4; [done|]. by destruct (ltb (key y) k) eqn:E5;
        [|destruct Hk; apply ltb_total].
Qed.

Lemma get_del_eq k l : sorted l -> get k (del k l) = None.
Proof.
  induction l as [|y l IH]; cbn; [done|]. intros [Hy Hs].
  destruct (ltb k (key y)) eqn:E1; cbn; [by rewrite E1|].
  destruct (ltb (key y) k) eqn:E2; cbn; [rewrite E1, E2; auto|].
  rewrite (ltb_total _ _ E1 E2). by apply get_above.
Qed.

Lemma get_del_ne k k' l : sorted l -> k' <> k -> get k' (del k l) = get k' l.
Proof.
  intros Hs Hk. induction l as [|y l IH]; cbn; [done|]. destruct Hs as [Hy Hs].
  destruct (ltb k (key y)) eqn:E1; cbn; [done|].
  destruct (ltb (key y) k) eqn:E2; cbn; [by rewrite IH|].
  pose proof (ltb_total _ _ E1 E2) as ->.
  destruct (ltb k' (key y)) eqn:E3; [|by destruct (ltb (key y) k') eqn:E4;
    [|destruct Hk; apply ltb_total]].
  apply get_above. by eapply above_trans.
Qed.

Lemma get_Some k l y : get k l = Some y -> y ∈ l /\ key y = k.
Proof.
  induction l as [|x l IH]; cbn; [done|]. destruct (ltb k (key x)) eqn:E1; [done|].
  destruct (ltb (key x) k) eqn:E2; [intros [? ?]%IH; split; [by right|done]|]. intros [= ->].
  split; [by left|]. by apply ltb_total.
Qed.

(** The elements are what [get] finds. *)
Lemma elem_of_sorted x l : sorted l -> x ∈ l <-> get (key x) l = Some x.
Proof.
  induction l as [|y l IH]; cbn; intros Hs; [by split; [intros ?%not_elem_of_nil|]|]. destruct Hs as [Hy Hs].
  rewrite elem_of_cons, IH by done. destruct (ltb (key x) (key y)) eqn:E1.
  - split; [|done]. intros [->|Hx]; [by rewrite ltb_irrefl in E1|]. by rewrite get_above in Hx by (by eapply above_trans).
  - destruct (ltb (key y) (key x)) eqn:E2; [split; [|by right]; intros [->|?]; [by rewrite ltb_irrefl in E2|done]|].
    pose proof (ltb_total _ _ E1 E2) as E. rewrite E, get_above by done. split; [by intros [->|?]|]. intros [= ->]. by left.
Qed.

Lemma sorted_NoDup l : sorted l -> NoDup l.
Proof.
  induction l as [|y l IH]; cbn; [constructor|]. intros [Hy Hs]. constructor; [|by apply IH].
  intros Hin. rewrite Forall_forall in Hy. specialize (Hy y Hin). by rewrite ltb_irrefl in Hy.
Qed.

Lemma length_ins x l : (length (ins x l) <= S (length l))%nat.
Proof. induction l as [|y l IH]; cbn; [done|]. repeat case_match; cbn; lia. Qed.

(** [insert] of an absent key. *)
Lemma ins_assign x l : get (key x) l = None -> ins x l = assign x l.
Proof.
  induction l as [|y l IH]; cbn; [done|].
  destruct (ltb (key x) (key y)); [done|]. destruct (ltb (key y) (key x)); [|done].
  intros. by rewrite IH.
Qed.

(** Appending elements in key order is what the deserializers do. *)
Lemma ins_above x l :
  Forall (fun y => ltb (key y) (key x) = true) l -> ins x l = l ++ [x].
Proof.
  induction 1 as [|y l Hy Hl IH]; cbn; [done|].
  by rewrite (ltb_asym _ _ Hy), Hy, IH.
Qed.

Lemma sorted_app l l' :
  sorted (l ++ l') <-> sorted l /\ sorted l' /\
  Forall (fun x => Forall (fun y => ltb (key x) (key y) = true) l') l.
Proof.
  induction l as [|x l IH]; cbn.
  - rewrite Forall_nil. tauto.
  - rewrite IH, Forall_app, Forall_cons. tauto.
Qed.
End container.
