(* ===== verification/HStr.v ===== *)
(** * [HStr]: the string class of [src/hstr.h] and [src/hstr.cpp]

    Methods that modify [*this] take the string and return the new one, next
    to the error code where the source returns one.  The loops that need not
    terminate carry fuel and return [None] when it runs out; the theorems say
    for which fuel they return, or that no fuel is enough. *)

From S2P Require Import Prelude StdString.

Module HStr.

(** ** Definitions *)

(** [s_tr_str = " \n\r\t"] *)
Definition s_tr_str : bytes := [32; 10; 13; 9].

Fixpoint split_loop (fuel : nat) (s key : bytes) (res : list bytes) (beg : nat)
  : option (list bytes * nat * option nat) :=
  match fuel with
  | O => None
  | S f =>
    match find s key beg with
    | Some pos =>
      split_loop f s key (res ++ [take (pos - beg) (drop beg s)]) (pos + length key)
    | None => Some (res, beg, None)
    end
  end.

Definition Split_fuel (fuel : nat) (s key : bytes) (res : list bytes) (beg : nat)
  : option (Prelude.res (herr * list bytes)) :=
  if bool_decide (s = []) || bool_decide (key = []) then Some (Ret (INVL_PARA, res))
  else
    match split_loop fuel s key res beg with
    | None => None
    | Some (res', beg', pos) =>
      Some (if negb (to_pos pos =? u64 (zlen s - 1))
            then last ← substr_from s beg'; Ret (OK, res' ++ [last])
            else Ret (OK, res'))
    end.

(** A separator is at least one byte long, so [length s + 1] iterations do. *)
Definition Split (s key : bytes) (res : list bytes) (beg : nat) :=
  Split_fuel (S (length s)) s key res beg.

Definition trim_set (csz : option bytes) : bytes :=
  s_tr_str ++ match csz with Some c => c | None => [] end.

Definition Ltrim (s : bytes) (csz : option bytes) : bytes :=
  match find_first_not_of s (trim_set csz) with
  | None => []
  | Some pos => if bool_decide (pos = 0%nat) then s else drop pos s
  end.

Definition Rtrim (s : bytes) (csz : option bytes) : bytes :=
  match find_last_not_of s (trim_set csz) with
  | None => []                       (* npos + 1 = 0 *)
  | Some pos => take (pos + 1) s
  end.

Definition Trim (s : bytes) (csz : option bytes) : bytes := Rtrim (Ltrim s csz) csz.

Definition Upper (s : bytes) : bytes := map toupper s.
Definition Lower (s : bytes) : herr * bytes := (OK, map tolower s).

Definition hex_upper (n : Z) : Z := if n <? 10 then 48 + n else 55 + n.

(** [AppendFormat("%02X", b)] for each byte. *)
Definition ToHexString (s data : bytes) : bytes :=
  foldl (fun s b => s ++ [hex_upper (b / 16); hex_upper (b mod 16)]) s data.

Definition IsAllDigit (s : bytes) : bool :=
  bool_decide (find_first_not_of s (str "1234567890") = None).

Definition IsAllDigitAndDos (s : bytes) : bool :=
  bool_decide (find_first_not_of s (str "1234567890.") = None).

Definition IsAllDigitAndChar (s : bytes) : bool :=
  bool_decide (find_first_not_of s
    (str "1234567890abcdefghijklmnopqrstuvwxyzABCDEFGHIJKLMNOPQRSTUVWXYZ") = None).

Definition RemoveRight (s : bytes) (len : Z) : bytes :=
  if len >=? zlen s then [] else take (Z.to_nat (zlen s - len)) s.

Definition RemoveLeft (s : bytes) (len : Z) : bytes :=
  if len >? zlen s then [] else drop (Z.to_nat len) s.

Definition Replace (src srcKey dstKey : bytes) : herr * bytes :=
  if bool_decide (src = []) || bool_decide (srcKey = []) || bool_decide (dstKey = [])
  then (INVL_PARA, src)
  else match find src srcKey 0 with
       | None => (OVER_FLOW, src)
       | Some pos => (OK, replace_at src pos (length srcKey) dstKey)
       end.

Fixpoint Replaces (fuel : nat) (src srcKey dstKey : bytes) : option (herr * bytes) :=
  match fuel with
  | O => None
  | S f => match Replace src srcKey dstKey with
           | (OK, src') => Replaces f src' srcKey dstKey
           | (_, src') => Some (OK, src')
           end
  end.

Definition IsIn (src key : bytes) : bool := bool_decide (find src key 0 <> None).
Definition IsBeginWith (src key : bytes) : bool := bool_decide (find src key 0 = Some 0%nat).
Definition IsEndWith (src key : bytes) : bool :=
  to_pos (find src key 0) =? u64 (zlen src - zlen key - 1).

Fixpoint counter_loop (fuel : nat) (src key : bytes) (res : Z) (pos : nat) : option Z :=
  match fuel with
  | O => None
  | S f => match find src key pos with
           | Some p => if (p <? length src)%nat then counter_loop f src key (res + 1) (p + 1)
                       else Some res
           | None => Some res
           end
  end.

Definition Counter (src key : bytes) : option Z := counter_loop (S (length src)) src key 0 0.

Definition Remove (src strKey : bytes) : herr * bytes :=
  if bool_decide (src = []) || bool_decide (strKey = []) then (INVL_PARA, src)
  else match find src strKey 0 with
       | None => (OVER_FLOW, src)
       | Some pos => (OK, erase_at src pos (length strKey))
       end.

Fixpoint removes_loop (fuel : nat) (src strKey : bytes) : option (herr * bytes) :=
  match fuel with
  | O => None
  | S f => match Remove src strKey with
           | (OK, src') => removes_loop f src' strKey
           | (_, src') => Some (OK, src')
           end
  end.

Definition Removes (src strKey : bytes) : option (herr * bytes) :=
  removes_loop (S (length src)) src strKey.

Definition V2Str (strs : list bytes) (l : bytes) : res bytes :=
  let r := foldl (fun r x => (r ++ x) ++ l) [] strs in
  if negb (bool_decide (l = [])) then substr r 0 (u64 (zlen r - 1)) else Ret r.

(** [std::stoi] and [std::to_string] behind [ToN] and [FromN]. *)
Definition ToN (s : bytes) : res Z := stoi s.
Definition FromN (n : Z) : bytes := to_string n.

(** [std::stol] and [std::stoll]: both 64 bits wide. *)
Definition stol (s : bytes) : res Z :=
  match strtol s with
  | None => Throw StdInvalidArgument
  | Some v => if decide (in_s 64 v) then Ret v else Throw StdOutOfRange
  end.

Definition ToL (s : bytes) : res Z := stol s.
Definition ToLL (s : bytes) : res Z := stol s.
Definition FromL (n : Z) : bytes := to_string n.
Definition FromLL (n : Z) : bytes := to_string n.

(** The standard library's conversions of [double] are arguments. *)
Definition ToD {F : Type} (stod : bytes -> res F) (s : bytes) : res F := stod s.
Definition FromD {F : Type} (to_string_double : F -> bytes) (d : F) : bytes := to_string_double d.

Definition HSTRING_LEN : Z := 128 * 16.

(** [vFormat]: [out] is what the format and its arguments print ([None]: a
    negative result of [vsprintf]).  The text and its zero byte go to a buffer of
    [HSTRING_LEN] bytes on the stack, whatever their length. *)
Definition vFormat (out : option bytes) : res bytes :=
  match out with
  | None => Ret []
  | Some o => _ ← check_ub (zlen o + 1 <=? HSTRING_LEN); Ret (c_str o)
  end.

Definition Format (out : option bytes) : res bytes := vFormat out.

Definition AppendFormat (s : bytes) (out : option bytes) : res bytes :=
  newstr ← vFormat out;
  Ret (s ++ newstr).


(** ** Lemmas *)

Fixpoint join (sep : bytes) (xs : list bytes) : bytes :=
  match xs with
  | [] => []
  | [x] => x
  | x :: xs' => x ++ sep ++ join sep xs'
  end.

(** Each piece followed by the separator. *)
Fixpoint sep_all (sep : bytes) (xs : list bytes) : bytes :=
  match xs with
  | [] => []
  | x :: xs' => x ++ sep ++ sep_all sep xs'
  end.

Lemma drop_occ key s beg pos :
  occurs_at key s pos -> (beg <= pos)%nat ->
  drop beg s = take (pos - beg) (drop beg s) ++ key ++ drop (pos + length key) s.
Proof.
  intros [r Hr]%(fun H => proj1 (prefixb_spec _ _) (proj2 H)) Hle.
  rewrite <- (take_drop (pos - beg) (drop beg s)) at 1. f_equal.
  rewrite drop_drop. replace (beg + (pos - beg))%nat with pos by lia.
  rewrite <- drop_drop, Hr. by rewrite drop_app_length.
Qed.

(** [key] occurs nowhere in [s]. *)
Definition no_occ (key s : bytes) : Prop := find s key 0 = None.

Lemma no_occ_spec key s :
  no_occ key s <-> forall i, (i <= length s)%nat -> prefixb key (drop i s) = false.
Proof.
  unfold no_occ. rewrite find_None. split; intros H i ?; apply H; lia.
Qed.

Lemma no_occ_piece s key beg pos :
  find s key beg = Some pos -> key <> [] -> no_occ key (take (pos - beg) (drop beg s)).
Proof.
  intros (Hle & Hocc & Hmin)%find_Some Hk. apply no_occ_spec. intros i Hi.
  apply not_true_iff_false. intros [r Hr]%prefixb_spec.
  pose proof (f_equal length Hr) as Hl.
  rewrite length_drop, length_app, !length_take, length_drop in *.
  assert (length key <> 0%nat) by (destruct key; [done|cbn; lia]).
  assert (prefixb key (drop (beg + i) s) = true); [|by rewrite Hmin in * by lia].
  apply prefixb_spec. rewrite <- drop_drop. 
  exists (r ++ drop (pos - beg) (drop beg s)).
  rewrite app_assoc, <- Hr.
  rewrite <- (take_drop (pos - beg) (drop beg s)) at 1.
  by rewrite drop_app_le by (rewrite length_take, length_drop; lia).
Qed.

Lemma split_loop_spec fuel s key acc beg :
  key <> [] -> (beg <= length s)%nat -> (length s - beg < fuel)%nat ->
  exists ps beg', split_loop fuel s key acc beg = Some (acc ++ ps, beg', None) /\
    (beg <= beg' <= length s)%nat /\
    drop beg s = sep_all key ps ++ drop beg' s /\
    no_occ key (drop beg' s) /\ Forall (no_occ key) ps.
Proof.
  intros Hk. revert acc beg. induction fuel as [|f IH]; intros acc beg Hb Hf; [lia|].
  cbn. destruct (find s key beg) as [pos|] eqn:E.
  - pose proof (no_occ_piece _ _ _ _ E Hk) as Hp.
    apply find_Some in E as (Hle & Hocc & _).
    pose proof (occurs_at_bound _ _ _ Hocc).
    assert (length key <> 0%nat) by (destruct key; [done|cbn; lia]).
    destruct (IH (acc ++ [take (pos - beg) (drop beg s)]) (pos + length key)%nat)
      as (ps & beg' & -> & Hb' & Hj & Hl & HF); [lia..|].
    exists (take (pos - beg) (drop beg s) :: ps), beg'.
    rewrite <- app_assoc. split_and!; [done|lia|lia| |done|by constructor].
    cbn [sep_all]. rewrite <- !app_assoc, <- Hj. by apply drop_occ.
  - exists [], beg. rewrite app_nil_r. cbn. split_and!; [done|lia|lia|done| |constructor].
    apply no_occ_spec. intros i Hi. rewrite length_drop in Hi. rewrite drop_drop.
    rewrite find_None in E. apply E. lia.
Qed.

Lemma join_snoc sep ps x :
  join sep (ps ++ [x]) = sep_all sep ps ++ x.
Proof.
  induction ps as [|p ps IH]; [done|].
  cbn [app sep_all]. rewrite <- !app_assoc, <- IH. by destruct ps.
Qed.

(** The last test of [Split] never holds: the loop leaves [pos] at [npos]. *)
Lemma Split_unfold s key acc beg :
  s <> [] -> key <> [] -> zlen s < npos -> (beg <= length s)%nat ->
  exists ps, Split s key acc beg = Some (Ret (OK, acc ++ ps)) /\ ps <> [] /\
    join key ps = drop beg s /\ Forall (no_occ key) ps.
Proof.
  intros Hs Hk Hn Hb. unfold Split, Split_fuel.
  rewrite !bool_decide_eq_false_2 by done. cbn.
  destruct (split_loop_spec (S (length s)) s key acc beg)
    as (ps & beg' & E & Hb' & Hj & Hl & HF); [done|lia|lia|].
  cbn [split_loop] in E. rewrite E. cbn [to_pos].
  rewrite (proj2 (Z.eqb_neq _ _)).
  - cbn. unfold substr_from. rewrite decide_True by lia. cbn.
    exists (ps ++ [drop beg' s]). rewrite app_assoc. split_and!; [done| | |].
    + by destruct ps.
    + by rewrite join_snoc.
    + apply Forall_app. split; [done|]. by constructor.
  - unfold npos in *. assert (zlen s <> 0) by (destruct s; [done|rewrite zlen_cons; pose proof (zlen_nonneg s); lia]).
    pose proof (zlen_nonneg s). ints.
Qed.

Lemma find_first_reverse_Some p (s : bytes) i :
  find_first p (reverse s) 0 = Some i ->
  exists a c b, s = a ++ c :: b /\ p c = true /\ Forall (fun c => p c = false) b /\
                (length a = length s - 1 - i)%nat.
Proof.
  intros (_ & (c & Hc & Hp) & HF)%find_first_Some. rewrite Nat.sub_0_r in *.
  pose proof (lookup_lt_Some _ _ _ Hc) as Hi. rewrite length_reverse in Hi.
  apply take_drop_middle in Hc.
  exists (reverse (drop (S i) (reverse s))), c, (reverse (take i (reverse s))).
  split_and!; [|done|by apply Forall_reverse|].
  - rewrite <- (reverse_involutive s), <- Hc at 1.
    rewrite reverse_app, reverse_cons, <- app_assoc. done.
  - rewrite length_reverse, length_drop, length_reverse. lia.
Qed.

Lemma Ltrim_spec s csz :
  exists pre, s = pre ++ Ltrim s csz /\ Forall (fun c => c ∈ trim_set csz) pre /\
    match Ltrim s csz with [] => True | c :: _ => c ∉ trim_set csz end.
Proof.
  unfold Ltrim. destruct (find_first_not_of s (trim_set csz)) as [i|] eqn:E.
  - apply find_first_Some in E as (_ & (c & Hc & Hp) & HF). rewrite Nat.sub_0_r in *.
    exists (take i s).
    assert ((if bool_decide (i = 0%nat) then s else drop i s) = drop i s) as ->
      by (case_bool_decide; subst; done).
    rewrite take_drop. split_and!; [done| |].
    + eapply Forall_impl; [exact HF|]. intros x Hx. apply mem_spec. by apply negb_false_iff.
    + rewrite (drop_S _ _ _ Hc). intros Hin%mem_spec. by rewrite Hin in Hp.
  - apply find_first_None in E. exists s. rewrite app_nil_r. split_and!; [done| |done].
    eapply Forall_impl; [exact E|]. intros x Hx. apply mem_spec. by apply negb_false_iff.
Qed.

Lemma Rtrim_spec s csz :
  exists post, s = Rtrim s csz ++ post /\ Forall (fun c => c ∈ trim_set csz) post /\
    match last (Rtrim s csz) with None => True | Some c => c ∉ trim_set csz end.
Proof.
  unfold Rtrim, find_last_not_of.
  destruct (find_first _ (reverse s) 0) as [i|] eqn:E.
  - apply find_first_reverse_Some in E as (a & c & b & Hs & Hp & HF & Hl).
    exists b. 
    assert (take (length s - 1 - i + 1) s = a ++ [c]) as ->.
    { rewrite <- Hl, Hs. rewrite cons_middle, app_assoc.
      apply take_app_length'. rewrite length_app; cbn; lia. }
    split_and!.
    + by rewrite <- app_assoc.
    + eapply Forall_impl; [exact HF|]. intros x Hx. apply mem_spec. by apply negb_false_iff.
    + rewrite last_snoc. intros Hin%mem_spec. by rewrite Hin in Hp.
  - apply find_first_None in E. exists s. split_and!; [done| |done].
    rewrite Forall_reverse in E.
    eapply Forall_impl; [exact E|]. intros x Hx. apply mem_spec. by apply negb_false_iff.
Qed.


Definition contains (key s : bytes) : Prop := exists i, occurs_at key s i.

Lemma contains_iff key s : contains key s <-> exists a b, s = a ++ key ++ b.
Proof.
  split.
  - intros [i [_ ->]%occurs_at_split]. eauto.
  - intros (a & b & ->). exists (length a). split; [rewrite length_app; lia|].
    rewrite drop_app_length. apply prefixb_app.
Qed.

Lemma no_occ_not_contains key s : no_occ key s <-> ~ contains key s.
Proof.
  rewrite no_occ_spec. unfold contains, occurs_at. split.
  - intros H (i & Hi & Hp). rewrite H in Hp by done. done.
  - intros H i Hi. apply not_true_iff_false. eauto.
Qed.

Lemma find_contains key s : contains key s -> exists i, find s key 0 = Some i.
Proof.
  intros Hc. destruct (find s key 0) eqn:E; [eauto|].
  by apply no_occ_not_contains in E.
Qed.

Lemma contains_nonempty key s : key <> [] -> contains key s -> s <> [].
Proof. intros Hk (a & b & ->)%contains_iff. by destruct a, key. Qed.

Lemma length_replace_at s i n d :
  (i + n <= length s)%nat -> length (replace_at s i n d) = (length s - n + length d)%nat.
Proof.
  intros. unfold replace_at. rewrite !length_app, length_take, length_drop. lia.
Qed.

Lemma key_length key : key <> @nil Z -> length key <> 0%nat.
Proof. by destruct key. Qed.

Lemma Replaces_loop_terminates fuel src key dst :
  key <> [] -> dst <> [] -> (length dst < length key)%nat -> (length src < fuel)%nat ->
  exists r, Replaces fuel src key dst = Some (OK, r) /\ no_occ key r.
Proof.
  intros Hk Hd Hlt. revert src. induction fuel as [|f IH]; intros src Hf; [lia|].
  cbn. unfold Replace. rewrite (bool_decide_eq_false_2 (key = [])), (bool_decide_eq_false_2 (dst = [])) by done.
  rewrite !orb_false_r.
  case_bool_decide as Hs; cbn.
  - subst. exists []. split; [done|]. apply no_occ_not_contains. 
    intros Hc. by apply contains_nonempty in Hc.
  - destruct (find src key 0) as [i|] eqn:E; [|by exists src].
    apply IH. apply find_Some in E as (_ & Ho & _). apply occurs_at_bound in Ho.
    rewrite length_replace_at by lia. lia.
Qed.

Lemma removes_loop_terminates fuel src key :
  key <> [] -> (length src < fuel)%nat ->
  exists r, removes_loop fuel src key = Some (OK, r) /\ no_occ key r /\ r `sublist_of` src.
Proof.
  intros Hk. revert src. induction fuel as [|f IH]; intros src Hf; [lia|].
  cbn. unfold Remove. rewrite (bool_decide_eq_false_2 (key = [])) by done.
  case_bool_decide as Hs; cbn.
  - subst. exists []. split_and!; [done| |constructor]. apply no_occ_not_contains.
    intros Hc. by apply contains_nonempty in Hc.
  - destruct (find src key 0) as [i|] eqn:E; [|by exists src].
    apply find_Some in E as (_ & Ho & _). pose proof (occurs_at_bound _ _ _ Ho).
    pose proof (key_length key Hk).
    destruct (IH (erase_at src i (length key))) as (r & -> & Hn & Hsub).
    { unfold erase_at. rewrite length_replace_at by lia. cbn. lia. }
    exists r. split_and!; [done|done|]. etrans; [exact Hsub|].
    apply occurs_at_split in Ho as [_ Hs']. rewrite Hs' at 2. unfold erase_at, replace_at. cbn.
    apply sublist_app; [done|]. by apply sublist_inserts_l.
Qed.

Lemma counter_loop_spec fuel src key r pos :
  (pos <= length src)%nat -> (length src - pos < fuel)%nat ->
  counter_loop fuel src key r pos =
  Some (r + zlen (filter (occurs_at key src) (seq pos (length src - pos)))).
Proof.
  assert (forall p n, (forall j, (p <= j < p + n)%nat -> prefixb key (drop j src) = false) ->
            filter (occurs_at key src) (seq p n) = []) as Hnil.
  { intros p n Hj. apply filter_all_false. intros j Hjj. apply elem_of_seq in Hjj.
    intros [_ Hp]. by rewrite Hj in Hp by lia. }
  revert r pos. induction fuel as [|f IH]; intros r pos Hp Hf; [lia|].
  cbn [counter_loop]. destruct (find src key pos) as [p|] eqn:E.
  - apply find_Some in E as (Hle & Ho & Hmin). pose proof Ho as [Hpl _].
    destruct (p <? length src)%nat eqn:El.
    + apply Nat.ltb_lt in El. rewrite IH by lia.
      replace (length src - pos)%nat with ((p - pos) + S (length src - (p + 1)))%nat by lia.
      rewrite seq_app, filter_app, (Hnil pos) by (intros; apply Hmin; lia).
      replace (pos + (p - pos))%nat with p by lia. cbn [seq app].
      rewrite filter_cons_True by done. rewrite zlen_cons. 
      replace (S p) with (p + 1)%nat by lia. f_equal. lia.
    + apply Nat.ltb_ge in El. rewrite Hnil by (intros; apply Hmin; lia). rewrite zlen_nil. f_equal; lia.
  - rewrite find_None in E. rewrite Hnil by (intros; apply E; lia). rewrite zlen_nil. f_equal; lia.
Qed.

(** ** Properties *)

(** Splitting at a separator and joining again gives back the text from [beg];
    no piece contains the separator, and the loop ends. *)
Theorem Split_join s key acc beg :
  s <> [] -> key <> [] -> zlen s < npos -> (beg <= length s)%nat ->
  exists ps, Split s key acc beg = Some (Ret (OK, acc ++ ps)) /\ ps <> [] /\
    join key ps = drop beg s /\ Forall (no_occ key) ps.
Proof. apply Split_unfold. Qed.

Lemma Split_join_witness :
  exists ps, Split (str "a=b==c") (str "=") [] 2 = Some (Ret (OK, [] ++ ps)) /\ ps <> [] /\
    join (str "=") ps = drop 2 (str "a=b==c") /\ Forall (no_occ (str "=")) ps.
Proof. apply (Split_join (str "a=b==c") (str "=") [] 2); [done|done|done|cbn; lia]. Defined.

(** Trimming removes a prefix and a suffix made of trim characters only, and
    nothing else can be removed. *)
Theorem Trim_spec s csz :
  exists pre post, s = pre ++ Trim s csz ++ post /\
    Forall (fun c => c ∈ trim_set csz) pre /\ Forall (fun c => c ∈ trim_set csz) post /\
    match Trim s csz with [] => True | c :: _ => c ∉ trim_set csz end /\
    match last (Trim s csz) with None => True | Some c => c ∉ trim_set csz end.
Proof.
  unfold Trim. destruct (Ltrim_spec s csz) as (pre & H1 & Hpre & Hh).
  destruct (Rtrim_spec (Ltrim s csz) csz) as (post & H2 & Hpost & Hl).
  exists pre, post. split_and!; [by rewrite <- H2|done|done| |done].
  destruct (Rtrim (Ltrim s csz) csz) as [|c r] eqn:E; [done|].
  rewrite H2 in Hh. done.
Qed.


(** The repeated replacement of [Replaces] never returns when the replacement
    contains the key again. *)
Theorem Replaces_diverges fuel src key dst :
  key <> [] -> contains key src -> contains key dst -> Replaces fuel src key dst = None.
Proof.
  intros Hk Hsrc Hdst. revert src Hsrc. induction fuel as [|f IH]; intros src Hsrc; [done|].
  pose proof (contains_nonempty _ _ Hk Hsrc). pose proof (contains_nonempty _ _ Hk Hdst).
  cbn. unfold Replace. rewrite !bool_decide_eq_false_2 by done. cbn.
  destruct (find_contains _ _ Hsrc) as [i ->]. apply IH.
  apply contains_iff in Hdst as (a & b & ->). apply contains_iff. unfold replace_at.
  exists (take i src ++ a), (b ++ drop (i + length key) src). by rewrite <- !app_assoc.
Qed.

Lemma Replaces_diverges_witness :
  Replaces 1000 (str "a.b") (str ".") (str "..") = None.
Proof.
  apply Replaces_diverges; [done| |].
  - exists 1%nat. by apply (bool_decide_eq_true _).
  - exists 0%nat. by apply (bool_decide_eq_true _).
Defined.

(** With a shorter replacement it returns after at most [length src + 1]
    rounds, and the key is gone. *)
Theorem Replaces_terminates src key dst :
  dst <> [] -> (length dst < length key)%nat ->
  exists r, Replaces (S (length src)) src key dst = Some (OK, r) /\ no_occ key r.
Proof. intros. apply Replaces_loop_terminates; [intros ->; cbn in *; lia|done|done|lia]. Qed.

Lemma Replaces_terminates_witness :
  exists r, Replaces 7 (str "a--b--") (str "--") (str "-") = Some (OK, r) /\ no_occ (str "--") r.
Proof. apply (Replaces_terminates (str "a--b--")); [done|cbn; lia]. Defined.

(** [Removes] always returns; the key no longer occurs and only bytes of the
    source are left, in their order. *)
Theorem Removes_spec src key :
  key <> [] ->
  exists r, Removes src key = Some (OK, r) /\ no_occ key r /\ r `sublist_of` src.
Proof. intros. apply removes_loop_terminates; [done|lia]. Qed.

Lemma Removes_spec_witness :
  exists r, Removes (str "aabbab") (str "ab") = Some (OK, r) /\ no_occ (str "ab") r /\
            r `sublist_of` str "aabbab".
Proof. by apply Removes_spec. Defined.

(** [Counter] counts the positions at which the key occurs, overlaps included. *)
Theorem Counter_spec src key :
  Counter src key = Some (zlen (filter (occurs_at key src) (seq 0 (length src)))).
Proof.
  unfold Counter. rewrite counter_loop_spec by lia. by rewrite Nat.sub_0_r.
Qed.

(** [IsBeginWith] decides the prefix relation. *)
Theorem IsBeginWith_spec src key : IsBeginWith src key = true <-> exists r, src = key ++ r.
Proof.
  unfold IsBeginWith. rewrite bool_decide_eq_true, find_Some, <- prefixb_spec. 
  unfold occurs_at. rewrite drop_0. split; [tauto|].
  intros. split_and!; [lia|lia|done|lia].
Qed.

(** [IsEndWith] is off by one: when it accepts, the key is followed by one
    more byte, or the key is as long as the text and is not the text. *)
Theorem IsEndWith_accepts src key :
  zlen src < npos -> zlen key < npos -> IsEndWith src key = true ->
  (exists a c, src = a ++ key ++ [c]) \/ (length src = length key /\ src <> key).
Proof.
  unfold IsEndWith. intros Hs Hk H%Z.eqb_eq.
  pose proof (zlen_nonneg src). pose proof (zlen_nonneg key).
  destruct (find src key 0) as [i|] eqn:E; cbn in H.
  - left. apply find_Some in E as (_ & Ho & _). pose proof (occurs_at_bound _ _ _ Ho).
    apply occurs_at_split in Ho as [_ Hsrc].
    assert (length src = i + length key + 1)%nat as Hl.
    { unfold zlen, npos in *. ints. }
    destruct (drop (i + length key) src) as [|c r] eqn:Ed.
    { pose proof (f_equal length Ed). rewrite length_drop in *. cbn in *. lia. }
    assert (r = []) as ->.
    { pose proof (f_equal length Ed). rewrite length_drop in *. destruct r; cbn in *; [done|lia]. }
    eauto.
  - right. apply no_occ_not_contains in E. split.
    + unfold zlen, npos in *. ints.
    + intros ->. apply E, contains_iff. exists [], []. by rewrite app_nil_r.
Qed.

Lemma IsEndWith_accepts_witness :
  IsEndWith (str "abcd") (str "bc") = true /\
  ((exists a c, str "abcd" = a ++ str "bc" ++ [c]) \/
   (length (str "abcd") = length (str "bc") /\ str "abcd" <> str "bc")).
Proof.
  split; [vm_compute; reflexivity|].
  apply IsEndWith_accepts; [reflexivity|reflexivity|vm_compute; reflexivity].
Defined.

(** Formatted output of 2048 bytes or more overruns the stack buffer. *)
Theorem vFormat_overruns o : HSTRING_LEN <= zlen o -> vFormat (Some o) = Throw UB.
Proof. intros H. unfold vFormat, check_ub. by ztest. Qed.

Lemma vFormat_overruns_witness : vFormat (Some (replicate 2048 65)) = Throw UB.
Proof. apply vFormat_overruns. by vm_compute. Defined.

Lemma vFormat_ok o : zlen o < HSTRING_LEN -> Forall (fun c => c <> 0) o -> vFormat (Some o) = Ret o.
Proof.
  intros H Hz. unfold vFormat, check_ub. ztest. cbn [mbind res_bind]. f_equal. apply take_while_all.
  eapply Forall_impl; [exact Hz|]. intros c Hc. apply negb_true_iff. by apply Z.eqb_neq.
Qed.

Lemma stol_to_string n : in_s 64 n -> stol (to_string n) = Ret n.
Proof.
  intros Hn. unfold stol. rewrite strtol_to_string.
  - by rewrite decide_True.
  - unfold_ints. change (10 ^ 20) with 100000000000000000000. lia.
Qed.

(** Numbers written with [FromN], [FromL] and [FromLL] are read back by [ToN], [ToL] and [ToLL]. *)
Theorem numbers_roundtrip n :
  (in_s 32 n -> ToN (FromN n) = Ret n) /\ (in_s 64 n -> ToL (FromL n) = Ret n /\ ToLL (FromLL n) = Ret n).
Proof. split; [apply stoi_to_string|]. intros H. split; by apply stol_to_string. Qed.

Lemma numbers_roundtrip_witness :
  (in_s 32 (-7) -> ToN (FromN (-7)) = Ret (-7)) /\ (in_s 64 (-7) -> ToL (FromL (-7)) = Ret (-7) /\ ToLL (FromLL (-7)) = Ret (-7)).
Proof. apply (numbers_roundtrip (-7)). Defined.

End HStr.

(** What [IsAllDigit] asks. *)
Lemma mem_digits c : mem c (str "1234567890") = isdigit c.
Proof.
  change (str "1234567890") with [49; 50; 51; 52; 53; 54; 55; 56; 57; 48].
  apply Bool.eq_iff_eq_true. unfold isdigit. unfold mem; cbn [existsb]. rewrite !orb_true_iff, andb_true_iff. lia.
Qed.

Lemma IsAllDigit_spec s : HStr.IsAllDigit s = true <-> Forall (fun c => isdigit c = true) s.
Proof.
  unfold HStr.IsAllDigit. rewrite bool_decide_eq_true. unfold find_first_not_of. rewrite find_first_None.
  rewrite !Forall_forall. split; intros H c Hc; specialize (H c Hc); rewrite mem_digits in *.
  - by apply negb_false_iff.
  - by rewrite H.
Qed.
