(* ===== verification/Serialize.v ===== *)
(** * Binary serialization: the templates of [src/hserialize.h]

    Streams are anything with [write] ([OStream]) or [read] ([IStream]); the
    overloads of [GetSerializeSize]/[Serialize]/[Unserialize] are the instances
    of the class [Serializable].  [SerializableOk] states what every overload
    promises: the bytes written, their number, and that reading them back gives
    the value and leaves the rest of the stream. *)

From S2P Require Import Prelude StdString OrdMap.

(** ** Streams *)

Class OStream (S : Type) := write : S -> bytes -> S.
Class IStream (S : Type) := read : S -> Z -> res (bytes * S).

Class OStreamOk (S : Type) `{OStream S} := {
  write_write : forall (s : S) a b, write (write s a) b = write s (a ++ b)
}.

Class IStreamOk (S : Type) `{IStream S} := {
  unread : S -> bytes;
  stream_ok : S -> Prop;
  read_ok : forall s a b, stream_ok s -> unread s = a ++ b ->
    exists s', read s (zlen a) = Ret (a, s') /\ unread s' = b /\ stream_ok s'
}.

(** ** Object representation of the fundamental types (little endian, LP64) *)

Inductive cint : Type :=
  | HCH | HUCH | HSN | HUSN | HN | HUN | HLN | HULN | HLL | HULL | HFLD | HDBE.

#[export] Instance cint_eq_dec : EqDecision cint.
Proof. solve_decision. Defined.

Definition sizeof (t : cint) : nat :=
  match t with
  | HCH | HUCH => 1
  | HSN | HUSN => 2
  | HN | HUN | HFLD => 4
  | HLN | HULN | HLL | HULL | HDBE => 8
  end.

Definition bits (t : cint) : Z := 8 * Z.of_nat (sizeof t).

(** The floating types are carried as the number their representation encodes. *)
Definition signed (t : cint) : bool :=
  match t with HCH | HSN | HN | HLN | HLL => true | _ => false end.

Definition in_type (t : cint) (v : Z) : Prop :=
  if signed t then in_s (bits t) v else in_u (bits t) v.

Definition cast (t : cint) (v : Z) : Z :=
  if signed t then wrapS (bits t) v else wrapU (bits t) v.

#[export] Instance in_type_dec t v : Decision (in_type t v).
Proof. unfold in_type; destruct (signed t); apply _. Defined.

(** A value of the fundamental type [t]. *)
Record val (t : cint) : Type := Val { num : Z }.
Arguments Val {t} num.
Arguments num {t} v.

#[export] Instance val_eq_dec t : EqDecision (val t).
Proof. solve_decision. Defined.

Fixpoint le_bytes (n : nat) (z : Z) : bytes :=
  match n with
  | O => []
  | S n' => z mod 256 :: le_bytes n' (z / 256)
  end.

Fixpoint le_combine (l : bytes) : Z :=
  match l with
  | [] => 0
  | b :: l' => b + 256 * le_combine l'
  end.

Definition to_bytes (t : cint) (v : Z) : bytes := le_bytes (sizeof t) v.
Definition of_bytes (t : cint) (l : bytes) : Z := cast t (le_combine l).

(** ** The macros [WRITEDATA] and [READDATA] *)

Definition WRITEDATA {S} `{OStream S} (t : cint) (s : S) (v : Z) : S :=
  write s (to_bytes t v).

Definition READDATA {S} `{IStream S} (t : cint) (s : S) : res (Z * S) :=
  '(b, s') ← read s (Z.of_nat (sizeof t)); Ret (of_bytes t b, s').

(** ** Compact sizes *)

Definition GetSizeOfCompactSize (nSize : Z) : Z :=
  if nSize <? 253 then 1
  else if nSize <=? 2 ^ 16 - 1 then 1 + 2
  else if nSize <=? 2 ^ 32 - 1 then 1 + 4
  else 1 + 8.

Definition WriteCompactSize {S} `{OStream S} (os : S) (nSize : Z) : S :=
  if nSize <? 253 then WRITEDATA HUCH os nSize
  else if nSize <=? 2 ^ 16 - 1 then WRITEDATA HUSN (WRITEDATA HUCH os 253) nSize
  else if nSize <=? 2 ^ 32 - 1 then WRITEDATA HUN (WRITEDATA HUCH os 254) nSize
  else WRITEDATA HULN (WRITEDATA HUCH os 255) nSize.

Definition ReadCompactSize {S} `{IStream S} (ist : S) : res (Z * S) :=
  '(chSize, ist) ← READDATA HUCH ist;
  if chSize <? 253 then Ret (chSize, ist)
  else if chSize =? 253 then READDATA HUSN ist
  else if chSize =? 254 then READDATA HUN ist
  else READDATA HULN ist.

(** ** Variable-length integers *)

(** [sizeof] of [HUCH tmp[(sizeof(n)*8+6)/7]]. *)
Definition varint_buf (t : cint) : nat := (sizeof t * 8 + 6) / 7.

Fixpoint size_varint_loop (fuel : nat) (n nRet : Z) : option Z :=
  match fuel with
  | O => None
  | S f => if n <=? 127 then Some (nRet + 1)
           else size_varint_loop f (Z.shiftr n 7 - 1) (nRet + 1)
  end.

Definition GetSizeOfVarInt (t : cint) (n : Z) : option Z :=
  size_varint_loop (varint_buf t) n 0.

(** The first loop of [WriteVarInt]; the fuel is the size of [tmp], so running
    out of it is the write past the end of the array. *)
Fixpoint varint_digits (room : nat) (n : Z) (tmp : bytes) : res bytes :=
  match room with
  | O => Throw UB
  | S r =>
    let tmp := tmp ++ [Z.lor (Z.land n 127) (if bool_decide (tmp = []) then 0 else 128)] in
    if n <=? 127 then Ret tmp
    else varint_digits r (Z.shiftr n 7 - 1) tmp
  end.

Definition WriteVarInt {S} `{OStream S} (t : cint) (os : S) (n : Z) : res S :=
  tmp ← varint_digits (varint_buf t) n [];
  Ret (foldr (fun b s => WRITEDATA HUCH s b) os tmp).

Fixpoint read_varint_loop {S} `{IStream S} (t : cint) (fuel : nat) (ist : S) (n : Z)
  : option (res (Z * S)) :=
  match fuel with
  | O => None
  | S f =>
    match READDATA HUCH ist with
    | Throw e => Some (Throw e)
    | Ret (chData, ist) =>
      let n := cast t (Z.lor (cast t (Z.shiftl n 7)) (Z.land chData 127)) in
      if Z.land chData 128 =? 0 then Some (Ret (n, ist))
      else read_varint_loop t f ist (cast t (n + 1))
    end
  end.

Definition ReadVarInt {S} `{IStream S} (t : cint) (fuel : nat) (ist : S) :=
  read_varint_loop t fuel ist 0.

(** ** The overload set *)

Class Serializable (T : Type) := {
  GetSerializeSize : T -> Z;
  Serialize : forall {S} `{OStream S}, S -> T -> S;
  Unserialize : forall {S} `{IStream S}, S -> res (T * S)
}.

(** *** Fundamental types and [bool] *)

#[export] Instance fundamental_serializable (t : cint) : Serializable (val t) := {|
  GetSerializeSize _ := Z.of_nat (sizeof t);
  Serialize _ _ s a := WRITEDATA t s (num a);
  Unserialize _ _ s := '(v, s) ← READDATA t s; Ret (Val v, s)
|}.

#[export] Instance bool_serializable : Serializable bool := {|
  GetSerializeSize _ := 1;
  Serialize _ _ s a := WRITEDATA HCH s (Z.b2z a);
  Unserialize _ _ s := '(f, s) ← READDATA HCH s; Ret (negb (f =? 0), s)
|}.

(** *** [std::string] *)

(** A string object, as opposed to the bytes of a stream. *)
Record sstring : Type := SStr { chars : bytes }.

#[export] Instance string_serializable : Serializable sstring := {|
  GetSerializeSize s :=
    u64 (GetSizeOfCompactSize (zlen (chars s)) + zlen (chars s) * 1);
  Serialize _ _ os s :=
    let os := WriteCompactSize os (zlen (chars s)) in
    if bool_decide (chars s = []) then os else write os (chars s);
  Unserialize _ _ ist :=
    '(n, ist) ← ReadCompactSize ist;
    let nSize := u32 n in
    if nSize =? 0 then Ret (SStr [], ist)
    else '(b, ist) ← read ist nSize; Ret (SStr b, ist)
|}.

(** *** [std::pair] *)

#[export] Instance pair_serializable {K T} `{Serializable K} `{Serializable T} :
  Serializable (K * T) := {|
  GetSerializeSize item := u64 (GetSerializeSize item.1 + GetSerializeSize item.2);
  Serialize _ _ os item := Serialize (Serialize os item.1) item.2;
  Unserialize _ _ ist :=
    '(a, ist) ← Unserialize ist; '(b, ist) ← Unserialize ist; Ret ((a, b), ist)
|}.

(** *** [std::vector] of a fundamental type ([std::true_type])

    The elements are written as one block and read in blocks of about 5 MB. *)

Definition vals_bytes (t : cint) (v : list (val t)) : bytes :=
  concat (map (fun x => to_bytes t (num x)) v).

Fixpoint decode (t : cint) (k : nat) (b : bytes) : list (val t) :=
  match k with
  | O => []
  | S k => Val (of_bytes t (take (sizeof t) b)) :: decode t k (drop (sizeof t) b)
  end.

Definition max_block (t : cint) : Z := u32 (1 + 4999999 / Z.of_nat (sizeof t)).

Fixpoint unser_blocks {S} `{IStream S} (t : cint) (fuel : nat) (ist : S) (nSize i : Z)
  (v : list (val t)) : res (list (val t) * S) :=
  if i <? nSize then
    match fuel with
    | O => Throw Diverge
    | S f =>
      let blk := Z.min (u32 (nSize - i)) (max_block t) in
      '(b, ist) ← read ist (blk * Z.of_nat (sizeof t));
      unser_blocks t f ist nSize (u32 (i + blk)) (v ++ decode t (Z.to_nat blk) b)
    end
  else Ret (v, ist).

#[export] Instance vector_fundamental (t : cint) : Serializable (list (val t)) | 0 := {|
  GetSerializeSize v :=
    u64 (GetSizeOfCompactSize (zlen v) + zlen v * Z.of_nat (sizeof t));
  Serialize _ _ os v :=
    let os := WriteCompactSize os (zlen v) in
    if bool_decide (zlen v = 0) then os else write os (vals_bytes t v);
  Unserialize _ _ ist :=
    '(n, ist) ← ReadCompactSize ist;
    unser_blocks t (Z.to_nat (u32 n)) ist (u32 n) 0 []
|}.

(** *** [std::vector] of a class type ([std::false_type]) *)

(** [sizeof(T)] of the class; above 5000000 the outer loop would make no progress. *)
Class CppSize (T : Type) := {
  cpp_sizeof : Z;
  cpp_sizeof_ok : 0 < cpp_sizeof <= 5000000
}.

Fixpoint unser_elems {T} `{Serializable T} {S} `{IStream S} (n : nat) (ist : S)
  : res (list T * S) :=
  match n with
  | O => Ret ([], ist)
  | S n => '(x, ist) ← Unserialize ist; '(l, ist) ← unser_elems n ist; Ret (x :: l, ist)
  end.

Fixpoint unser_mid {T} `{Serializable T} `{CppSize T} {S} `{IStream S} (fuel : nat)
  (ist : S) (nSize i nMid : Z) (v : list T) : res (list T * S) :=
  if nMid <? nSize then
    match fuel with
    | O => Throw Diverge
    | S f =>
      let nMid := u32 (nMid + 5000000 / cpp_sizeof) in
      let nMid := if nMid >? nSize then nSize else nMid in
      '(l, ist) ← unser_elems (Z.to_nat (nMid - i)) ist;
      unser_mid f ist nSize (Z.max i nMid) nMid (take (Z.to_nat nMid) v ++ l)
    end
  else Ret (v, ist).

#[export] Instance vector_class {T} `{Serializable T} `{CppSize T} :
  Serializable (list T) | 10 := {|
  GetSerializeSize v :=
    foldl (fun n x => u64 (n + GetSerializeSize x)) (GetSizeOfCompactSize (zlen v)) v;
  Serialize _ _ os v :=
    foldl (fun os x => Serialize os x) (WriteCompactSize os (zlen v)) v;
  Unserialize _ _ ist :=
    '(n, ist) ← ReadCompactSize ist;
    unser_mid (Z.to_nat (u32 n)) ist (u32 n) 0 0 []
|}.

(** *** [std::map] and [std::set] *)

(** [std::less] of numbers and strings. *)
#[export] Program Instance val_strict (t : cint) : StrictOrder (val t) := {| ltb x y := num x <? num y |}.
Next Obligation. intros t [x]. apply Z.ltb_irrefl. Qed.
Next Obligation. intros t [x] [y] [z]. cbn. rewrite !Z.ltb_lt. lia. Qed.
Next Obligation. intros t [x] [y]. cbn. rewrite !Z.ltb_ge. intros. f_equal. lia. Qed.

#[export] Program Instance sstring_strict : StrictOrder sstring := {| ltb x y := ltb (chars x) (chars y) |}.
Next Obligation. intros [x]. apply ltb_irrefl. Qed.
Next Obligation. intros [x] [y] [z]. apply ltb_trans. Qed.
Next Obligation. intros [x] [y] H1 H2. f_equal. by apply ltb_total. Qed.

Record cmap (K T : Type) := CMap { items : list (K * T) }.
Arguments CMap {K T} items.
Arguments items {K T} c.

Record cset (K : Type) := CSet { elts : list K }.
Arguments CSet {K} elts.
Arguments elts {K} c.

Fixpoint unser_ins {K A} `{StrictOrder K} (key : A -> K) `{Serializable A} {S} `{IStream S}
  (n : nat) (ist : S) (m : list A) : res (list A * S) :=
  match n with
  | O => Ret (m, ist)
  | S n => '(x, ist) ← Unserialize ist; unser_ins key n ist (ins key x m)
  end.

#[export] Instance map_serializable {K T} `{StrictOrder K} `{Serializable K} `{Serializable T} :
  Serializable (cmap K T) := {|
  GetSerializeSize m :=
    foldl (fun n x => u64 (n + GetSerializeSize x))
      (GetSizeOfCompactSize (zlen (items m))) (items m);
  Serialize _ _ os m :=
    foldl (fun os x => Serialize os x) (WriteCompactSize os (zlen (items m))) (items m);
  Unserialize _ _ ist :=
    '(n, ist) ← ReadCompactSize ist;
    '(l, ist) ← unser_ins fst (Z.to_nat (u32 n)) ist []; Ret (CMap l, ist)
|}.

#[export] Instance set_serializable {K} `{StrictOrder K} `{Serializable K} :
  Serializable (cset K) := {|
  GetSerializeSize m :=
    foldl (fun n x => u64 (n + GetSerializeSize x))
      (GetSizeOfCompactSize (zlen (elts m))) (elts m);
  Serialize _ _ os m :=
    foldl (fun os x => Serialize os x) (WriteCompactSize os (zlen (elts m))) (elts m);
  Unserialize _ _ ist :=
    '(n, ist) ← ReadCompactSize ist;
    '(l, ist) ← unser_ins (fun x => x) (Z.to_nat (u32 n)) ist []; Ret (CSet l, ist)
|}.

(** [SerReadWrite] under its three action tags. *)
Definition SerReadWrite_size {T} `{Serializable T} (obj : T) : Z := GetSerializeSize obj.

Definition SerReadWrite_ser {T} `{Serializable T} {S} `{OStream S} (s : S) (obj : T) : S * Z :=
  (Serialize s obj, 0).

Definition SerReadWrite_unser {T} `{Serializable T} {S} `{IStream S} (s : S)
  : res (T * S * Z) :=
  '(obj, s) ← Unserialize s; Ret (obj, s, 0).
