(* ===== verification/SerializeProofs.v ===== *)
(** * Round trips of the serialization templates

    The interface [SerializableOk] and its instances: every overload of
    [Serialize] writes [enc x], [GetSerializeSize] is its length, and
    [Unserialize] reads it back from any stream that keeps its contents. *)

From S2P Require Import Prelude StdString OrdMap Serialize.

Class SerializableOk (T : Type) `{Serializable T} := {
  enc : T -> bytes;
  valid : T -> Prop;
  Serialize_enc : forall {S} `{OStream S} `{!OStreamOk S} (s : S) x,
    Serialize s x = write s (enc x);
  size_enc : forall x, valid x -> GetSerializeSize x = u64 (zlen (enc x));
  Unserialize_enc : forall {S} `{IStream S} `{!IStreamOk S} (s : S) x rest,
    valid x -> stream_ok s -> unread s = enc x ++ rest ->
    exists s', Unserialize s = Ret (x, s') /\ unread s' = rest /\ stream_ok s'
}.

(** ** Object representations *)

Lemma length_le_bytes n z : length (le_bytes n z) = n.
Proof. revert z; induction n; cbn; auto. Qed.

Lemma zlen_le_bytes n z : zlen (le_bytes n z) = Z.of_nat n.
Proof. unfold zlen; by rewrite length_le_bytes. Qed.

Lemma le_combine_le_bytes n z : le_combine (le_bytes n z) = z mod 2 ^ (8 * Z.of_nat n).
Proof.
  revert z; induction n as [|n IH]; intros z; cbn [le_bytes le_combine].
  - by rewrite Z.mod_1_r.
  - rewrite IH, Nat2Z.inj_succ.
    replace (8 * Z.succ (Z.of_nat n)) with (8 + 8 * Z.of_nat n) by lia.
    rewrite Z.pow_add_r by lia. change (2 ^ 8) with 256.
    rewrite Z.rem_mul_r by lia. done.
Qed.

Lemma le_bytes_combine l : is_bytes l -> le_bytes (length l) (le_combine l) = l.
Proof.
  induction 1 as [|b l Hb Hl IH]; [done|]. cbn. unfold is_byte in Hb.
  rewrite (Z.mul_comm 256), Z.mod_add, Z.div_add, Z.mod_small, Z.div_small by lia. f_equal. exact IH.
Qed.

Lemma is_bytes_le_bytes n z : is_bytes (le_bytes n z).
Proof.
  revert z. induction n as [|n IH]; intros z; cbn; [by constructor|]. constructor; [|apply IH].
  unfold is_byte. apply Z.mod_pos_bound. lia.
Qed.

Lemma bits_cases t : bits t = 8 \/ bits t = 16 \/ bits t = 32 \/ bits t = 64.
Proof. destruct t; cbn; auto. Qed.

Lemma cast_mod t v : in_type t v -> cast t (v mod 2 ^ bits t) = v.
Proof.
  unfold in_type, cast, wrapS, wrapU. pose proof (bits_cases t) as Hb.
  destruct (signed t); unfold in_s, in_u; intros Hv.
  - rewrite Zplus_mod_idemp_l. fold (wrapS (bits t) v). apply wrapS_id; [lia|done].
  - rewrite Zmod_mod. by apply Z.mod_small.
Qed.

Lemma of_bytes_to_bytes t v : in_type t v -> of_bytes t (to_bytes t v) = v.
Proof.
  intros. unfold of_bytes, to_bytes. rewrite le_combine_le_bytes. by apply cast_mod.
Qed.

Lemma READDATA_ok {S} `{IStream S} `{!IStreamOk S} t (s : S) v rest :
  in_type t v -> stream_ok s -> unread s = to_bytes t v ++ rest ->
  exists s', READDATA t s = Ret (v, s') /\ unread s' = rest /\ stream_ok s'.
Proof.
  intros Hv Hs Hu. destruct (read_ok _ _ _ Hs Hu) as (s' & Hr & ? & ?).
  unfold READDATA. unfold to_bytes in Hr at 1. rewrite zlen_le_bytes in Hr. rewrite Hr. cbn.
  rewrite of_bytes_to_bytes by done. eauto.
Qed.

(** [in_type t v] for a concrete [t]. *)
Ltac in_type :=
  match goal with
  | |- in_type ?t _ =>
    let b := eval vm_compute in (bits t) in
    let g := eval vm_compute in (signed t) in
    unfold in_type; change (bits t) with b; change (signed t) with g; cbv iota; ints
  end.

(** Run one [READDATA]/[read]/[Unserialize] whose bytes are at the front. *)
Ltac run_read L :=
  edestruct L as (?s & -> & ?Hu & ?Hok); [..|cbn].

(** ** Compact sizes *)

Definition compact_bytes (n : Z) : bytes :=
  if n <? 253 then to_bytes HUCH n
  else if n <=? 2 ^ 16 - 1 then to_bytes HUCH 253 ++ to_bytes HUSN n
  else if n <=? 2 ^ 32 - 1 then to_bytes HUCH 254 ++ to_bytes HUN n
  else to_bytes HUCH 255 ++ to_bytes HULN n.

Lemma WriteCompactSize_enc {S} `{OStream S} `{!OStreamOk S} (s : S) n :
  WriteCompactSize s n = write s (compact_bytes n).
Proof.
  unfold WriteCompactSize, compact_bytes, WRITEDATA.
  repeat case_match; by rewrite ?write_write.
Qed.

Lemma zlen_compact n : zlen (compact_bytes n) = GetSizeOfCompactSize n.
Proof. unfold compact_bytes, GetSizeOfCompactSize. by repeat case_match. Qed.

Lemma ReadCompactSize_enc {S} `{IStream S} `{!IStreamOk S} (s : S) n rest :
  0 <= n < 2 ^ 64 -> stream_ok s -> unread s = compact_bytes n ++ rest ->
  exists s', ReadCompactSize s = Ret (n, s') /\ unread s' = rest /\ stream_ok s'.
Proof.
  intros Hn Hs Hu. unfold ReadCompactSize, compact_bytes in *.
  destruct (n <? 253) eqn:E1; [|destruct (n <=? 2 ^ 16 - 1) eqn:E2;
    [|destruct (n <=? 2 ^ 32 - 1) eqn:E3]]; bool_to_prop; rewrite <- ?app_assoc in Hu.
  - run_read (READDATA_ok HUCH s n rest); [in_type|done|done|].
    rewrite (proj2 (Z.ltb_lt _ _)) by lia. eauto.
  - run_read (READDATA_ok HUCH s 253); [by vm_compute|done|done|].
    apply READDATA_ok; [in_type|done|done].
  - run_read (READDATA_ok HUCH s 254); [by vm_compute|done|done|].
    apply READDATA_ok; [in_type|done|done].
  - run_read (READDATA_ok HUCH s 255); [by vm_compute|done|done|].
    apply READDATA_ok; [in_type|done|done].
Qed.

(** ** Instances *)

#[export] Program Instance fundamental_ok (t : cint) : SerializableOk (val t) := {|
  enc a := to_bytes t (num a);
  valid a := in_type t (num a)
|}.
Next Obligation. done. Qed.
Next Obligation.
  intros. unfold to_bytes. rewrite zlen_le_bytes. cbn. by destruct t.
Qed.
Next Obligation.
  intros t S ? ? s [v] rest Hv Hs Hu. cbn in *.
  run_read (READDATA_ok t s v rest); [done..|]. eauto.
Qed.

#[export] Program Instance bool_ok : SerializableOk bool := {|
  enc a := to_bytes HCH (Z.b2z a);
  valid a := True
|}.
Next Obligation. done. Qed.
Next Obligation. done. Qed.
Next Obligation.
  intros S ? ? s x rest _ Hs Hu. cbn in *.
  run_read (READDATA_ok HCH s (Z.b2z x) rest); [by destruct x; vm_compute|done..|].
  eexists; split_and!; [|done|done]. by destruct x.
Qed.

#[export] Program Instance sstring_ok : SerializableOk sstring := {|
  enc a := compact_bytes (zlen (chars a)) ++ chars a;
  valid a := zlen (chars a) < 2 ^ 32
|}.
Next Obligation.
  intros S ? ? s [x]. cbn. rewrite WriteCompactSize_enc. case_bool_decide; subst.
  - by rewrite app_nil_r.
  - by rewrite write_write.
Qed.
Next Obligation. intros [x] Hx. cbn. by rewrite zlen_app, zlen_compact, Z.mul_1_r. Qed.
Next Obligation.
  intros S ? ? s [x] rest Hv Hs Hu. cbn in *. pose proof (zlen_nonneg x).
  rewrite <- app_assoc in Hu.
  run_read (ReadCompactSize_enc s (zlen x)); [ints|done|done|].
  rewrite !u32_id by lia.
  destruct (zlen x =? 0) eqn:E; bool_to_prop.
  - assert (x = []) as -> by (apply zlen_le_0; lia). eauto.
  - run_read (read_ok s0 x rest); [done..|]. eauto.
Qed.

Lemma u64_add_l a b : u64 (u64 a + b) = u64 (a + b).
Proof. unfold u64, wrapU. by rewrite Zplus_mod_idemp_l. Qed.

Lemma u64_add_r a b : u64 (a + u64 b) = u64 (a + b).
Proof. unfold u64, wrapU. by rewrite Zplus_mod_idemp_r. Qed.

#[export] Program Instance pair_ok {K T} `{SerializableOk K} `{SerializableOk T} :
  SerializableOk (K * T) := {|
  enc a := enc a.1 ++ enc a.2;
  valid a := valid a.1 /\ valid a.2
|}.
Next Obligation. intros. cbn. by rewrite !Serialize_enc, write_write. Qed.
Next Obligation.
  intros ? ? ? ? ? ? [a b] [Ha Hb]. cbn in *.
  by rewrite !size_enc, u64_add_l, u64_add_r, zlen_app.
Qed.
Next Obligation.
  intros ? ? ? ? ? ? S ? ? s [a b] rest [Ha Hb] Hs Hu. cbn in *. rewrite <- app_assoc in Hu.
  run_read (Unserialize_enc s a); [done..|].
  run_read (Unserialize_enc s0 b); [done..|]. eauto.
Qed.

(** *** Vectors of fundamental types *)

Lemma vals_bytes_app t v w : vals_bytes t (v ++ w) = vals_bytes t v ++ vals_bytes t w.
Proof. unfold vals_bytes. by rewrite map_app, concat_app. Qed.

Lemma zlen_vals_bytes t v : zlen (vals_bytes t v) = zlen v * Z.of_nat (sizeof t).
Proof.
  induction v as [|x v IH]; [done|]. 
  change (vals_bytes t (x :: v)) with (to_bytes t (num x) ++ vals_bytes t v).
  rewrite zlen_app, zlen_cons, IH. unfold to_bytes. rewrite zlen_le_bytes. lia.
Qed.

Lemma decode_vals_bytes t v :
  Forall (fun x => in_type t (num x)) v -> decode t (length v) (vals_bytes t v) = v.
Proof.
  induction 1 as [|[x] v Hx Hv IH]; [done|]. cbn [length decode].
  change (vals_bytes t ({| num := x |} :: v)) with (to_bytes t x ++ vals_bytes t v).
  rewrite take_app_length', drop_app_length' by (symmetry; apply length_le_bytes).
  by rewrite IH, of_bytes_to_bytes.
Qed.

Lemma max_block_pos t : 1 <= max_block t < 2 ^ 32.
Proof. destruct t; vm_compute; split; congruence. Qed.

Lemma unser_blocks_ok {S} `{IStream S} `{!IStreamOk S} t fuel (s : S) acc v rest :
  zlen acc + zlen v < 2 ^ 32 -> (length v <= fuel)%nat ->
  Forall (fun x => in_type t (num x)) v ->
  stream_ok s -> unread s = vals_bytes t v ++ rest ->
  exists s', unser_blocks t fuel s (zlen acc + zlen v) (zlen acc) acc = Ret (acc ++ v, s') /\
    unread s' = rest /\ stream_ok s'.
Proof.
  revert s acc v. induction fuel as [|f IH]; intros s acc v Hn Hf Hv Hs Hu;
    pose proof (zlen_nonneg acc); pose proof (zlen_nonneg v); cbn [unser_blocks].
  - destruct v; [|cbn in Hf; lia]. rewrite zlen_nil, Z.add_0_r, Z.ltb_irrefl, app_nil_r. eauto.
  - destruct (zlen acc <? zlen acc + zlen v) eqn:E; bool_to_prop.
    2:{ assert (v = []) as -> by (apply zlen_le_0; lia). rewrite app_nil_r. eauto. }
    replace (zlen acc + zlen v - zlen acc) with (zlen v) by lia.
    rewrite (u32_id (zlen v)) by lia.
    pose proof (max_block_pos t). set (blk := Z.min (zlen v) (max_block t)).
    assert (1 <= blk <= zlen v) as Hb by lia.
    assert (length (take (Z.to_nat blk) v) = Z.to_nat blk) as Hl
      by (rewrite length_take; unfold zlen in *; lia).
    assert (zlen (take (Z.to_nat blk) v) = blk) as Hzl by (unfold zlen; rewrite Hl; lia).
    rewrite <- (take_drop (Z.to_nat blk) v) in Hu, Hv.
    rewrite vals_bytes_app, <- app_assoc in Hu. apply Forall_app in Hv as [Hv1 Hv2].
    edestruct (read_ok s _ _ Hs Hu) as (s1 & Hr & Hu1 & Hok1).
    rewrite zlen_vals_bytes, Hzl in Hr. rewrite Hr. cbn.
    pose proof (decode_vals_bytes t _ Hv1) as Hdec. rewrite Hl in Hdec. rewrite Hdec.
    rewrite !u32_id by lia.
    assert (zlen (drop (Z.to_nat blk) v) = zlen v - blk) as Hd
      by (unfold zlen in *; rewrite length_drop; lia).
    destruct (IH s1 (acc ++ take (Z.to_nat blk) v) (drop (Z.to_nat blk) v)) as (s' & Hr' & ? & ?);
      [rewrite zlen_app; lia|rewrite length_drop; lia|done..|].
    rewrite zlen_app, Hzl, Hd in Hr'.
    replace (zlen acc + blk + (zlen v - blk)) with (zlen acc + zlen v) in Hr' by lia.
    rewrite Hr', <- app_assoc, take_drop. eauto.
Qed.

#[export] Program Instance vector_fundamental_ok (t : cint) :
  SerializableOk (list (val t)) (H := vector_fundamental t) := {|
  enc v := compact_bytes (zlen v) ++ vals_bytes t v;
  valid v := zlen v < 2 ^ 32 /\ Forall (fun x => in_type t (num x)) v
|}.
Next Obligation.
  intros t S ? ? s v. cbn. rewrite WriteCompactSize_enc. case_bool_decide as Hz.
  - by rewrite (zlen_le_0 v), app_nil_r by lia.
  - by rewrite write_write.
Qed.
Next Obligation.
  intros t v [Hv _]. cbn. by rewrite zlen_app, zlen_compact, zlen_vals_bytes.
Qed.
Next Obligation.
  intros t S ? ? s v rest [Hn Hv] Hs Hu. cbn in *. pose proof (zlen_nonneg v).
  rewrite <- app_assoc in Hu.
  run_read (ReadCompactSize_enc s (zlen v)); [ints|done|done|].
  rewrite !u32_id by lia.
  destruct (unser_blocks_ok t (Z.to_nat (zlen v)) s0 [] v rest) as (s' & Hr & ? & ?);
    [rewrite zlen_nil; lia|unfold zlen; lia|done..|].
  rewrite zlen_nil, Z.add_0_l in Hr. rewrite Hr. eauto.
Qed.

(** *** Sequences of serializable objects *)

Section sequences.
Context {T : Type} `{SerializableOk T}.

Definition enc_list (l : list T) : bytes := concat (map enc l).

Lemma enc_list_app l k : enc_list (l ++ k) = enc_list l ++ enc_list k.
Proof. unfold enc_list. by rewrite map_app, concat_app. Qed.

Lemma foldl_Serialize {S} `{OStream S} `{!OStreamOk S} (s : S) b (l : list T) :
  foldl (fun os x => Serialize os x) (write s b) l = write s (b ++ enc_list l).
Proof.
  revert b. induction l as [|x l IH]; intros b; cbn; [by rewrite app_nil_r|].
  rewrite Serialize_enc, write_write, IH. by rewrite <- app_assoc.
Qed.

Lemma foldl_size n (l : list T) :
  Forall valid l ->
  foldl (fun n x => u64 (n + GetSerializeSize x)) (u64 n) l = u64 (n + zlen (enc_list l)).
Proof.
  intros Hl. revert n. induction Hl as [|x l Hx Hl IH]; intros n; cbn [foldl].
  - change (enc_list []) with (@nil Z). by rewrite zlen_nil, Z.add_0_r.
  - rewrite size_enc, u64_add_l, u64_add_r, IH by done.
    change (enc_list (x :: l)) with (enc x ++ enc_list l). rewrite zlen_app. f_equal; lia.
Qed.

Lemma compact_size_u64 n : GetSizeOfCompactSize n = u64 (GetSizeOfCompactSize n).
Proof. unfold GetSizeOfCompactSize. by repeat case_match. Qed.

Lemma sequence_size (l : list T) :
  Forall valid l ->
  foldl (fun n x => u64 (n + GetSerializeSize x)) (GetSizeOfCompactSize (zlen l)) l =
  u64 (zlen (compact_bytes (zlen l) ++ enc_list l)).
Proof.
  intros. rewrite compact_size_u64, foldl_size by done. by rewrite zlen_app, zlen_compact.
Qed.

Lemma unser_elems_ok {S} `{IStream S} `{!IStreamOk S} (s : S) (l : list T) rest :
  Forall valid l -> stream_ok s -> unread s = enc_list l ++ rest ->
  exists s', unser_elems (length l) s = Ret (l, s') /\ unread s' = rest /\ stream_ok s'.
Proof.
  intros Hl. revert s. induction Hl as [|x l Hx Hl IH]; intros s Hs Hu; cbn; [by eauto|].
  change (enc_list (x :: l)) with (enc x ++ enc_list l) in Hu. rewrite <- app_assoc in Hu.
  run_read (Unserialize_enc s x); [done..|].
  destruct (IH s0) as (s' & -> & ? & ?); [done..|]. cbn. eauto.
Qed.

Lemma unser_ins_ok {K} `{StrictOrder K} (key : T -> K) {S} `{IStream S} `{!IStreamOk S}
  (s : S) (m l : list T) rest :
  sorted key (m ++ l) -> Forall valid l -> stream_ok s -> unread s = enc_list l ++ rest ->
  exists s', unser_ins key (length l) s m = Ret (m ++ l, s') /\ unread s' = rest /\ stream_ok s'.
Proof.
  intros Hso Hl. revert s m Hso.
  induction Hl as [|x l Hx Hl IH]; intros s m Hso Hs Hu; cbn.
  - rewrite app_nil_r. eauto.
  - change (enc_list (x :: l)) with (enc x ++ enc_list l) in Hu. rewrite <- app_assoc in Hu.
    run_read (Unserialize_enc s x); [done..|].
    rewrite ins_above.
    + rewrite cons_middle, app_assoc in Hso.
      destruct (IH s0 (m ++ [x])) as (s' & -> & ? & ?); [done..|].
      rewrite <- app_assoc. eauto.
    + apply sorted_app in Hso as (_ & _ & Hlt). eapply Forall_impl; [exact Hlt|].
      cbn. by intros y [? _]%Forall_cons.
Qed.

Context `{CppSize T}.

Lemma unser_mid_ok {S} `{IStream S} `{!IStreamOk S} fuel (s : S) acc (l : list T) rest :
  zlen acc + zlen l < 2 ^ 32 - 5000000 -> (length l <= fuel)%nat ->
  Forall valid l -> stream_ok s -> unread s = enc_list l ++ rest ->
  exists s', unser_mid fuel s (zlen acc + zlen l) (zlen acc) (zlen acc) acc = Ret (acc ++ l, s') /\
    unread s' = rest /\ stream_ok s'.
Proof.
  revert s acc l. induction fuel as [|f IH]; intros s acc l Hn Hf Hl Hs Hu;
    pose proof (zlen_nonneg acc); pose proof (zlen_nonneg l); cbn [unser_mid].
  - destruct l; [|cbn in Hf; lia]. rewrite zlen_nil, Z.add_0_r, Z.ltb_irrefl, app_nil_r. eauto.
  - destruct (zlen acc <? zlen acc + zlen l) eqn:E; bool_to_prop.
    2:{ assert (l = []) as -> by (apply zlen_le_0; lia). rewrite app_nil_r. eauto. }
    pose proof cpp_sizeof_ok. set (step := 5000000 / cpp_sizeof).
    assert (1 <= step <= 5000000) as Hstep.
    { unfold step. split; [apply Z.div_le_lower_bound; lia|].
      apply Z.div_le_upper_bound; nia. }
    rewrite !u32_id by lia.
    assert ((if zlen acc + step >? zlen acc + zlen l then zlen acc + zlen l
             else zlen acc + step) = zlen acc + Z.min step (zlen l)) as ->.
    { destruct (Z.gtb_spec (zlen acc + step) (zlen acc + zlen l)); lia. }
    set (blk := Z.min step (zlen l)). assert (1 <= blk <= zlen l) by lia.
    replace (zlen acc + blk - zlen acc) with blk by lia.
    assert (length (take (Z.to_nat blk) l) = Z.to_nat blk) as Hlen
      by (rewrite length_take; unfold zlen in *; lia).
    rewrite <- (take_drop (Z.to_nat blk) l) in Hu, Hl.
    rewrite enc_list_app, <- app_assoc in Hu. apply Forall_app in Hl as [Hl1 Hl2].
    destruct (unser_elems_ok s _ _ Hl1 Hs Hu) as (s1 & Hr & Hu1 & Hok1).
    rewrite Hlen in Hr. rewrite Hr. cbn.
    rewrite Z.max_r by lia. rewrite take_ge by (unfold zlen in *; lia).
    destruct (IH s1 (acc ++ take (Z.to_nat blk) l) (drop (Z.to_nat blk) l)) as (s' & Hr' & ? & ?);
      [rewrite zlen_app; unfold zlen in *; rewrite length_drop, Hlen; lia
      |rewrite length_drop; lia|done..|].
    assert (zlen (take (Z.to_nat blk) l) = blk) as Hzl by (unfold zlen; rewrite Hlen; lia).
    assert (zlen (drop (Z.to_nat blk) l) = zlen l - blk) as Hzd
      by (unfold zlen in *; rewrite length_drop; lia).
    rewrite zlen_app, Hzl, Hzd in Hr'.
    replace (zlen acc + blk + (zlen l - blk)) with (zlen acc + zlen l) in Hr' by lia.
    rewrite Hr', <- app_assoc, take_drop. eauto.
Qed.
End sequences.

#[export] Program Instance vector_class_ok {T} `{SerializableOk T} `{!CppSize T} :
  SerializableOk (list T) (H := vector_class) := {|
  enc l := compact_bytes (zlen l) ++ enc_list l;
  valid l := zlen l < 2 ^ 32 - 5000000 /\ Forall valid l
|}.
Next Obligation. intros. cbn. by rewrite WriteCompactSize_enc, foldl_Serialize. Qed.
Next Obligation. intros ? ? ? ? l [_ Hl]. cbn. by apply sequence_size. Qed.
Next Obligation.
  intros T ? ? ? S ? ? s l rest [Hn Hl] Hs Hu. cbn in *. pose proof (zlen_nonneg l).
  rewrite <- app_assoc in Hu.
  run_read (ReadCompactSize_enc s (zlen l)); [ints|done|done|].
  rewrite !u32_id by lia.
  destruct (unser_mid_ok (Z.to_nat (zlen l)) s0 [] l rest) as (s' & Hr & ? & ?);
    [rewrite zlen_nil; lia|unfold zlen; lia|done..|].
  rewrite zlen_nil, Z.add_0_l in Hr. rewrite Hr. eauto.
Qed.

Lemma Serialize_map {K T} `{StrictOrder K} `{Serializable K} `{Serializable T} {S} `{OStream S}
  (s : S) (m : cmap K T) :
  Serialize s m =
  foldl (fun os x => Serialize os x) (WriteCompactSize s (zlen (items m))) (items m).
Proof. done. Qed.

Lemma size_map {K T} `{StrictOrder K} `{Serializable K} `{Serializable T} (m : cmap K T) :
  GetSerializeSize m =
  foldl (fun n x => u64 (n + GetSerializeSize x)) (GetSizeOfCompactSize (zlen (items m))) (items m).
Proof. done. Qed.

#[export] Program Instance map_ok {K T} `{StrictOrder K} `{SerializableOk K} `{SerializableOk T} :
  SerializableOk (cmap K T) := {|
  enc m := compact_bytes (zlen (items m)) ++ enc_list (items m);
  valid m := zlen (items m) < 2 ^ 32 /\ Forall valid (items m) /\ sorted fst (items m)
|}.
Next Obligation. intros. by rewrite Serialize_map, WriteCompactSize_enc, foldl_Serialize. Qed.
Next Obligation.
  intros ? ? ? ? ? ? ? m (_ & Hl & _). rewrite size_map. by apply sequence_size.
Qed.
Next Obligation.
  intros K T ? ? ? ? ? S ? ? s [l] rest (Hn & Hl & Hso) Hs Hu. cbn in *.
  pose proof (zlen_nonneg l). rewrite <- app_assoc in Hu.
  run_read (ReadCompactSize_enc s (zlen l)); [ints|done|done|].
  rewrite !u32_id by lia.
  destruct (unser_ins_ok fst s0 [] l rest) as (s' & Hr & ? & ?); [done..|].
  unfold zlen. rewrite Nat2Z.id, Hr. cbn. eauto.
Qed.

#[export] Program Instance set_ok {K} `{StrictOrder K} `{SerializableOk K} :
  SerializableOk (cset K) := {|
  enc m := compact_bytes (zlen (elts m)) ++ enc_list (elts m);
  valid m := zlen (elts m) < 2 ^ 32 /\ Forall valid (elts m) /\ sorted (fun x => x) (elts m)
|}.
Next Obligation. intros. cbn. by rewrite WriteCompactSize_enc, foldl_Serialize. Qed.
Next Obligation. intros ? ? ? ? m (_ & Hl & _). cbn. by apply sequence_size. Qed.
Next Obligation.
  intros K ? ? ? S ? ? s [l] rest (Hn & Hl & Hso) Hs Hu. cbn in *.
  pose proof (zlen_nonneg l). rewrite <- app_assoc in Hu.
  run_read (ReadCompactSize_enc s (zlen l)); [ints|done|done|].
  rewrite !u32_id by lia.
  destruct (unser_ins_ok (fun x => x) s0 [] l rest) as (s' & Hr & ? & ?); [done..|].
  unfold zlen. rewrite Nat2Z.id, Hr. cbn. eauto.
Qed.
