(* ===== verification/DataStream.v ===== *)
(** * [CSizeComputer] and [CDataStream] of [src/hserialize.h]

    A [CDataStream] is its vector [vch] and the read cursor [nReadPos], an
    [unsigned int]; iterators are offsets from [vch.begin()].  A [memcpy] whose
    source or destination leaves the vector is [UB]. *)

From S2P Require Import Prelude StdString Serialize SerializeProofs.

Module CSizeComputer.

Record t : Type := mk { nSize : Z }.

Definition init : t := mk 0.

#[global] Instance ostream : OStream t := fun s b => mk (u64 (nSize s + zlen b)).

Definition shl {T} `{Serializable T} (s : t) (obj : T) : t := Serialize s obj.

Definition size (s : t) : Z := nSize s.

#[global] Instance ostream_ok : OStreamOk t.
Proof.
  split. intros [n] a b. unfold write, ostream. cbn.
  by rewrite u64_add_l, zlen_app, Z.add_assoc.
Qed.

End CSizeComputer.

Module CDataStream.

Record t : Type := mk {
  vch : bytes;
  nReadPos : Z;
  state : Z;
  exceptmask : Z
}.

#[export] Instance t_eq_dec : EqDecision t.
Proof. solve_decision. Defined.

(** [Init] clears the cursor and the state; [exceptmask] keeps its value. *)
Definition Init (s : t) : t := mk (vch s) 0 0 (exceptmask s).

Definition make (v : bytes) (mask : Z) : t := Init (mk v 0 0 mask).

Definition set_vch (s : t) (v : bytes) : t := mk v (nReadPos s) (state s) (exceptmask s).
Definition set_pos (s : t) (p : Z) : t := mk (vch s) p (state s) (exceptmask s).
Definition set_both (s : t) (v : bytes) (p : Z) : t := mk v p (state s) (exceptmask s).

(** [memcpy(dst, &vch[pos], n)] *)
Definition slice (v : bytes) (pos n : Z) : res bytes :=
  if bool_decide (0 <= pos /\ 0 <= n /\ pos + n <= zlen v)
  then Ret (take (Z.to_nat n) (drop (Z.to_nat pos) v)) else Throw UB.

(** The bytes from [begin()] to [end()]; a cursor past the end makes the range invalid. *)
Definition range (s : t) : res bytes :=
  slice (vch s) (nReadPos s) (zlen (vch s) - nReadPos s).

Definition append (s b : t) : res t := r ← range b; Ret (set_vch s (vch s ++ r)).
Definition concat (a b : t) : res t := append a b.
Definition to_str (s : t) : res bytes := range s.

Definition size (s : t) : Z := u64 (zlen (vch s) - nReadPos s).
Definition empty (s : t) : bool := zlen (vch s) =? nReadPos s.

Definition vresize (v : bytes) (n c : Z) : bytes :=
  take (Z.to_nat n) v ++ replicate (Z.to_nat n - length v) c.

Definition resize (s : t) (n c : Z) : t := set_vch s (vresize (vch s) (u64 (n + nReadPos s)) c).

Definition at_ (s : t) (pos : Z) : res Z :=
  match slice (vch s) (u64 (pos + nReadPos s)) 1 with
  | Ret [b] => Ret b
  | Ret _ => Throw UB
  | Throw e => Throw e
  end.

Definition clear (s : t) : t := set_both s [] 0.

Definition insert_n (s : t) (it n x : Z) : t :=
  set_vch s (take (Z.to_nat it) (vch s) ++ replicate (Z.to_nat n) x ++ drop (Z.to_nat it) (vch s)).

Definition insert_1 (s : t) (it x : Z) : t := insert_n s it 1 x.

(** [insert(it, first, last)], with its shortcut for room before the cursor. *)
Definition insert_range (s : t) (it : Z) (data : bytes) : t :=
  if (it =? nReadPos s) && (u32 (zlen data) <=? nReadPos s) then
    let p := u32 (nReadPos s - zlen data) in
    set_both s (take (Z.to_nat p) (vch s) ++ data ++ drop (Z.to_nat p + length data) (vch s)) p
  else set_vch s (take (Z.to_nat it) (vch s) ++ data ++ drop (Z.to_nat it) (vch s)).

(** [erase(it)]: the new stream and the returned iterator. *)
Definition erase_1 (s : t) (it : Z) : t * Z :=
  if it =? nReadPos s then
    let p := u32 (nReadPos s + 1) in
    if p >=? zlen (vch s) then (set_both s [] 0, 0) else (set_pos s p, p)
  else (set_vch s (take (Z.to_nat it) (vch s) ++ drop (Z.to_nat (it + 1)) (vch s)), it).

Definition erase_range (s : t) (first last : Z) : t * Z :=
  if first =? nReadPos s then
    if last =? zlen (vch s) then (set_both s [] 0, 0) else (set_pos s (u32 last), last)
  else (set_vch s (take (Z.to_nat first) (vch s) ++ drop (Z.to_nat last) (vch s)), first).

Definition Compact (s : t) : t := set_both s (drop (Z.to_nat (nReadPos s)) (vch s)) 0.

Definition Rewind (s : t) (n : Z) : t * bool :=
  if n >? nReadPos s then (s, false) else (set_pos s (nReadPos s - n), true).

Definition setstate (s : t) (b : Z) : t :=
  mk (vch s) (nReadPos s) (Z.lor (state s) b) (exceptmask s).

Definition eof (s : t) : bool := size s =? 0.
Definition good (s : t) : bool := negb (eof s) && (state s =? 0).
Definition clear_state (s : t) (n : Z) : t := mk (vch s) (nReadPos s) n (exceptmask s).
Definition exceptions (s : t) (mask : Z) : t * Z :=
  (setstate (mk (vch s) (nReadPos s) (state s) mask) 0, exceptmask s).
Definition in_avail (s : t) : Z := s32 (size s).

Definition read (s : t) (nSize : Z) : res (bytes * t) :=
  let nReadPosNext := u32 (nReadPos s + nSize) in
  if nReadPosNext >=? zlen (vch s) then
    let n := if nReadPosNext >? zlen (vch s) then u64 (zlen (vch s) - nReadPos s) else nSize in
    b ← slice (vch s) (nReadPos s) n;
    Ret (b ++ replicate (Z.to_nat (nSize - n)) 0, set_both s [] 0)
  else
    b ← slice (vch s) (nReadPos s) nSize;
    Ret (b, set_pos s nReadPosNext).

(** The inner [if] has no body of its own: it guards [nReadPos = 0]. *)
Definition ignore (s : t) (nSize : Z) : t :=
  let nReadPosNext := u32 (nReadPos s + nSize) in
  if nReadPosNext >=? zlen (vch s) then
    if nReadPosNext >? zlen (vch s) then set_both s [] 0 else set_vch s []
  else set_pos s nReadPosNext.

Definition write (s : t) (b : bytes) : t := set_vch s (vch s ++ b).

#[global] Instance ostream : OStream t := write.
#[global] Instance istream : IStream t := read.

(** [CDataStream::Serialize(Stream&)] writes the whole vector. *)
Definition SerializeStream {S} `{OStream S} (s : S) (ds : t) : S :=
  if bool_decide (vch ds = []) then s else Serialize.write s (vch ds).

Definition shl {T} `{Serializable T} (s : t) (obj : T) : t := Serialize s obj.
Definition shr {T} `{Serializable T} (s : t) : res (T * t) := Unserialize s.

Definition GetAndClear (s : t) (data : bytes) : res (bytes * t) :=
  r ← range s; Ret (data ++ r, clear s).

(** ** The invariant of the cursor and the unread bytes *)

Definition ok (s : t) : Prop := 0 <= nReadPos s <= zlen (vch s) /\ zlen (vch s) < 2 ^ 32.

#[export] Instance ok_dec s : Decision (ok s).
Proof. unfold ok; apply _. Defined.

Definition pending (s : t) : bytes := drop (Z.to_nat (nReadPos s)) (vch s).

Lemma zlen_pending s : ok s -> zlen (pending s) = zlen (vch s) - nReadPos s.
Proof. intros [? _]. unfold pending, zlen in *. rewrite length_drop. lia. Qed.

Lemma slice_ok v pos n :
  0 <= pos -> 0 <= n -> pos + n <= zlen v ->
  slice v pos n = Ret (take (Z.to_nat n) (drop (Z.to_nat pos) v)).
Proof. intros. unfold slice. by rewrite bool_decide_eq_true_2. Qed.

Lemma range_ok s : ok s -> range s = Ret (pending s).
Proof.
  intros [Hp Hl]. unfold range, pending. rewrite slice_ok by lia.
  rewrite take_ge; [done|]. rewrite length_drop. unfold zlen. lia.
Qed.

Lemma size_ok s : ok s -> size s = zlen (pending s).
Proof. intros [Hp Hl]. rewrite zlen_pending by done. unfold size. apply u64_id. lia. Qed.

(** A read of at most the pending bytes returns them and moves past them. *)
Lemma read_exact s a b :
  ok s -> pending s = a ++ b ->
  exists s', read s (zlen a) = Ret (a, s') /\ pending s' = b /\ ok s'.
Proof.
  intros Hok Hab. pose proof (zlen_pending s Hok) as Hz. rewrite Hab, zlen_app in Hz.
  destruct Hok as [Hp Hl]. pose proof (zlen_nonneg a). pose proof (zlen_nonneg b).
  assert (take (Z.to_nat (zlen a)) (pending s) = a) as Ht
    by (rewrite Hab; unfold zlen; by rewrite Nat2Z.id, take_app_length).
  unfold read. rewrite u32_id by lia.
  destruct (decide (nReadPos s + zlen a < zlen (vch s))).
  - ztest. rewrite slice_ok by lia. cbn. fold (pending s). rewrite Ht.
    eexists. split_and!; [done| |].
    + unfold pending in *. cbn.
      rewrite Z2Nat.inj_add, <- drop_drop, Hab by lia. unfold zlen.
      by rewrite Nat2Z.id, drop_app_length.
    + unfold ok. cbn. lia.
  - assert (b = []) as -> by (apply zlen_le_0; lia). ztest. rewrite slice_ok by lia. cbn.
    fold (pending s). rewrite Ht, Z.sub_diag, app_nil_r.
    eexists. split_and!; [done|done|]. by vm_compute.
Qed.

#[global] Instance istream_ok : IStreamOk t := {|
  unread := pending; stream_ok := ok; read_ok := read_exact
|}.

#[global] Instance ostream_ok : OStreamOk t.
Proof. split. intros [v p st e] a b. unfold Serialize.write, ostream, write, set_vch. cbn. by rewrite <- app_assoc. Qed.

Lemma pending_write s b : ok s -> pending (write s b) = pending s ++ b.
Proof.
  intros [Hp _]. unfold pending, write. cbn. rewrite drop_app_le; [done|]. unfold zlen in *. lia.
Qed.

Lemma ok_write s b : ok s -> zlen (vch s) + zlen b < 2 ^ 32 -> ok (write s b).
Proof.
  intros [Hp _] Hl. unfold ok, write. cbn. rewrite zlen_app. pose proof (zlen_nonneg b). lia.
Qed.

(** ** The operations against a queue with a past *)

(** The operations that change a stream; positions are offsets from [begin()]. *)
Inductive op : Type :=
  | OWrite (b : bytes)
  | OAppend (other : t)
  | ORead (n : Z)
  | OIgnore (n : Z)
  | OCompact
  | OClear
  | OGetAndClear (data : bytes)
  | OErase (k : nat)
  | OEraseRange (k l : nat)
  | OInsert (k : nat) (x : Z)
  | OInsertN (k n : nat) (x : Z)
  | OInsertRange (k : nat) (b : bytes)
  | OResize (n c : Z)
  | ORewind (n : Z).

Definition iter (s : t) (k : nat) : Z := nReadPos s + Z.of_nat k.

(** The new stream and the bytes that are handed out. *)
Definition run (o : op) (s : t) : res (t * bytes) :=
  match o with
  | OWrite b => Ret (write s b, [])
  | OAppend other => s ← append s other; Ret (s, [])
  | ORead n => '(b, s) ← read s n; Ret (s, b)
  | OIgnore n => Ret (ignore s n, [])
  | OCompact => Ret (Compact s, [])
  | OClear => Ret (clear s, [])
  | OGetAndClear data => '(b, s) ← GetAndClear s data; Ret (s, b)
  | OErase k => Ret ((erase_1 s (iter s k)).1, [])
  | OEraseRange k l => Ret ((erase_range s (iter s k) (iter s l)).1, [])
  | OInsert k x => Ret (insert_1 s (iter s k) x, [])
  | OInsertN k n x => Ret (insert_n s (iter s k) (Z.of_nat n) x, [])
  | OInsertRange k b => Ret (insert_range s (iter s k) b, [])
  | OResize n c => Ret (resize s n c, [])
  | ORewind n => let '(s, ok) := Rewind s n in Ret (s, [Z.b2z ok])
  end.

(** The queue of bytes the class stands for: those read already, which [Rewind] can give
    back, and those to come.  What reaches the end forgets the past. *)
Abbreviation view := (bytes * bytes)%type.

Definition consume (n : nat) (v : view) : view :=
  if (n <? length v.2)%nat then (v.1 ++ take n v.2, drop n v.2) else ([], []).

Definition push_front (b : bytes) (v : view) : view :=
  if (length b <=? length v.1)%nat then (take (length v.1 - length b) v.1, b ++ v.2) else (v.1, b ++ v.2).

Definition spec (o : op) (v : view) : view * bytes :=
  let '(p, u) := v in
  match o with
  | OWrite b => ((p, u ++ b), [])
  | OAppend other => ((p, u ++ pending other), [])
  | ORead n => (consume (Z.to_nat n) v, take (Z.to_nat n) u ++ replicate (Z.to_nat n - length u) 0)
  | OIgnore n => (consume (Z.to_nat n) v, [])
  | OCompact => (([], u), [])
  | OClear => (([], []), [])
  | OGetAndClear data => (([], []), data ++ u)
  | OErase O => (consume 1 v, [])
  | OErase k => ((p, take k u ++ drop (S k) u), [])
  | OEraseRange O l => (consume l v, [])
  | OEraseRange k l => ((p, take k u ++ drop l u), [])
  | OInsert k x => ((p, take k u ++ [x] ++ drop k u), [])
  | OInsertN k n x => ((p, take k u ++ replicate n x ++ drop k u), [])
  | OInsertRange O b => (push_front b v, [])
  | OInsertRange k b => ((p, take k u ++ b ++ drop k u), [])
  | OResize n c => ((p, vresize u n c), [])
  | ORewind n =>
    if n <=? zlen p then ((take (length p - Z.to_nat n) p, drop (length p - Z.to_nat n) p ++ u), [1]) else (v, [0])
  end.

(** When the operation may be called: iterators into the stream, and a vector that
    stays below 4 GB. *)
Definition pre (o : op) (v : view) : Prop :=
  let '(p, u) := v in
  match o with
  | OWrite b => zlen p + zlen u + zlen b < 2 ^ 32
  | OAppend other => ok other /\ zlen p + zlen u + zlen (pending other) < 2 ^ 32
  | ORead n | OIgnore n => 0 <= n /\ zlen p + n < 2 ^ 32
  | OCompact | OClear | OGetAndClear _ => True
  | OErase k => (k < length u)%nat
  | OEraseRange k l => (k <= l <= length u)%nat
  | OInsert k x => (k <= length u)%nat /\ zlen p + zlen u + 1 < 2 ^ 32
  | OInsertN k n x => (k <= length u)%nat /\ zlen p + zlen u + Z.of_nat n < 2 ^ 32
  | OInsertRange k b => (k <= length u)%nat /\ zlen p + zlen u + zlen b < 2 ^ 32
  | OResize n c => 0 <= n /\ zlen p + n < 2 ^ 32
  | ORewind n => 0 <= n
  end.

(** [ignore] up to exactly the end, after something has been read. *)
Definition strands (o : op) (v : view) : bool :=
  match o with OIgnore n => (n =? zlen v.2) && negb (bool_decide (v.1 = [])) | _ => false end.

(** The vector and the cursor stand for [v]. *)
Definition models (s : t) (v : view) : Prop :=
  vch s = v.1 ++ v.2 /\ nReadPos s = zlen v.1 /\ zlen v.1 + zlen v.2 < 2 ^ 32.

Lemma models_ok s v : models s v -> ok s /\ pending s = v.2.
Proof.
  intros (Ev & Ep & Hl). unfold ok, pending. rewrite Ev, Ep, zlen_app. pose proof (zlen_nonneg v.1). pose proof (zlen_nonneg v.2).
  split; [lia|]. unfold zlen. by rewrite Nat2Z.id, drop_app_length.
Qed.

Lemma ok_models s : ok s -> models s (take (Z.to_nat (nReadPos s)) (vch s), pending s).
Proof.
  intros [Hp Hl]. unfold models, pending. cbn. rewrite take_drop. unfold zlen in *. rewrite length_take, length_drop. split_and!; [done|lia|lia].
Qed.

Lemma models_set s v p u : vch s = p ++ u -> nReadPos s = zlen p -> zlen p + zlen u < 2 ^ 32 -> v = (p, u) -> models s v.
Proof. by intros ? ? ? ->. Qed.

Lemma pending_skip s n :
  0 <= nReadPos s -> 0 <= n ->
  drop (Z.to_nat n) (pending s) = drop (Z.to_nat (nReadPos s + n)) (vch s).
Proof. intros. unfold pending. by rewrite drop_drop, Z2Nat.inj_add by lia. Qed.

Lemma drop_all_pending s n :
  ok s -> zlen (pending s) <= n -> drop (Z.to_nat n) (pending s) = [].
Proof. intros. apply drop_ge. unfold zlen in *. lia. Qed.

Lemma read_step s n :
  ok s -> 0 <= n -> nReadPos s + n < 2 ^ 32 ->
  exists b s', read s n = Ret (b, s') /\ zlen b = n /\
    b = take (Z.to_nat n) (pending s) ++ replicate (Z.to_nat n - length (pending s)) 0 /\
    ok s' /\ pending s' = drop (Z.to_nat n) (pending s).
Proof.
  intros Hok Hn Hlt. pose proof (zlen_pending s Hok) as Hz. pose proof (zlen_nonneg (pending s)).
  destruct (decide (n <= zlen (pending s))) as [Hle|Hgt].
  - destruct (read_exact s (take (Z.to_nat n) (pending s)) (drop (Z.to_nat n) (pending s)))
      as (s' & Hr & Hp & Hok'); [done|by rewrite take_drop|].
    assert (zlen (take (Z.to_nat n) (pending s)) = n) as Hlen
      by (unfold zlen in *; rewrite length_take; lia).
    rewrite Hlen in Hr. exists (take (Z.to_nat n) (pending s)), s'. split_and!; try done.
    replace (Z.to_nat n - length (pending s))%nat with 0%nat by (unfold zlen in *; lia).
    by rewrite app_nil_r.
  - destruct Hok as [Hp Hl]. unfold read. rewrite u32_id by lia. ztest.
    rewrite u64_id, slice_ok by lia. cbn. fold (pending s).
    rewrite take_ge by (unfold zlen in *; lia).
    eexists _, _. split_and!; [done| | |by vm_compute|].
    + rewrite zlen_app. unfold zlen at 2. rewrite length_replicate. lia.
    + rewrite take_ge by (unfold zlen in *; lia). do 2 f_equal. unfold zlen in *. lia.
    + symmetry. apply drop_all_pending; [done|lia].
Qed.

(** The cursor moves over [n] of the unread bytes, or everything is cleared. *)
Lemma models_consume s p u n : models s (p, u) -> (n < length u)%nat ->
  models (set_pos s (zlen p + Z.of_nat n)) (consume n (p, u)).
Proof.
  intros (Ev & Ep & Hl) Hn. cbn in *. unfold consume. cbn [fst snd]. apply Nat.ltb_lt in Hn as Hn'. rewrite Hn'.
  apply (models_set _ _ (p ++ take n u) (drop n u)); [cbn; by rewrite <- app_assoc, take_drop| | |done]; cbn;
    rewrite ?zlen_app; unfold zlen in *; rewrite ?length_take, ?length_drop; lia.
Qed.

Lemma models_end s p u n : models s (p, u) -> (length u <= n)%nat -> models (set_both s [] 0) (consume n (p, u)).
Proof. intros _ Hn. unfold consume. cbn [fst snd]. apply Nat.ltb_ge in Hn. rewrite Hn. done. Qed.

Lemma app_at {A} (p u : list A) k : take (length p + k) (p ++ u) = p ++ take k u /\ drop (length p + k) (p ++ u) = drop k u.
Proof. by rewrite take_app_add, drop_app_add. Qed.

(** A splice of the vector at offset [k] of the unread bytes. *)
Lemma models_splice s p u k l b : models s (p, u) -> (k <= l)%nat ->
  zlen p + zlen (take k u ++ b ++ drop l u) < 2 ^ 32 ->
  models (set_vch s (take (Z.to_nat (zlen p + Z.of_nat k)) (vch s) ++ b ++ drop (Z.to_nat (zlen p + Z.of_nat l)) (vch s)))
    (p, take k u ++ b ++ drop l u).
Proof.
  intros (Ev & Ep & Hl) Hk Hlen. cbn in *. apply (models_set _ _ p (take k u ++ b ++ drop l u)); [|done|done|done]. cbn. rewrite Ev.
  replace (Z.to_nat (zlen p + Z.of_nat k)) with (length p + k)%nat by (unfold zlen; lia).
  replace (Z.to_nat (zlen p + Z.of_nat l)) with (length p + l)%nat by (unfold zlen; lia).
  rewrite (proj1 (app_at p u k)), (proj2 (app_at p u l)). by rewrite <- app_assoc.
Qed.

Lemma read_models s p u n : models s (p, u) -> 0 <= n -> zlen p + n < 2 ^ 32 ->
  exists s', read s n = Ret (take (Z.to_nat n) u ++ replicate (Z.to_nat n - length u) 0, s') /\
    models s' (consume (Z.to_nat n) (p, u)).
Proof.
  intros Hm Hn Hlt. pose proof Hm as (Ev & Ep & Hl). pose proof (zlen_nonneg p). cbn in *. unfold read.
  rewrite Ep, Ev, zlen_app, u32_id by lia. assert (drop (Z.to_nat (zlen p)) (p ++ u) = u) as Ed by (unfold zlen; by rewrite Nat2Z.id, drop_app_length).
  destruct (decide (n < zlen u)); ztest.
  - rewrite slice_ok by (rewrite ?zlen_app; lia). cbn. rewrite Ed. eexists. split.
    + replace (Z.to_nat n - length u)%nat with 0%nat by (unfold zlen in *; lia). by rewrite app_nil_r.
    + replace n with (Z.of_nat (Z.to_nat n)) at 1 by lia. apply models_consume; [done|]. unfold zlen in *. lia.
  - assert ((if zlen p + zlen u <? zlen p + n then u64 (zlen p + zlen u - zlen p) else n) = zlen u) as ->.
    { pose proof (zlen_nonneg u). destruct (decide (n = zlen u)); ztest; [done|]. rewrite u64_id by lia. lia. }
    pose proof (zlen_nonneg u). rewrite slice_ok by (rewrite ?zlen_app; lia). cbn. rewrite Ed. eexists. split.
    + rewrite !take_ge by (unfold zlen in *; lia). do 4 f_equal. unfold zlen in *. lia.
    + apply models_end; [done|]. unfold zlen in *. lia.
Qed.

Lemma ignore_models s p u n : models s (p, u) -> 0 <= n -> zlen p + n < 2 ^ 32 ->
  if strands (OIgnore n) (p, u) then vch (ignore s n) = [] /\ nReadPos (ignore s n) = nReadPos s
  else models (ignore s n) (consume (Z.to_nat n) (p, u)).
Proof.
  intros Hm Hn Hlt. pose proof Hm as (Ev & Ep & Hl). pose proof (zlen_nonneg p). pose proof (zlen_nonneg u). cbn in *.
  unfold ignore. rewrite Ep, Ev, zlen_app, u32_id by lia.
  destruct (decide (n < zlen u)); [|destruct (decide (n = zlen u))]; ztest; cbn.
  - replace n with (Z.of_nat (Z.to_nat n)) at 1 by lia. apply models_consume; [done|]. unfold zlen in *. lia.
  - case_bool_decide as Hp; cbn; [|done]. subst p. unfold consume. cbn [fst snd].
    assert ((Z.to_nat n <? length u)%nat = false) as -> by (apply Nat.ltb_ge; unfold zlen in *; lia). done.
  - apply models_end; [done|]. unfold zlen in *. lia.
Qed.

Lemma insert_models s p u k b : models s (p, u) -> (k <= length u)%nat -> zlen p + zlen u + zlen b < 2 ^ 32 ->
  models (insert_range s (iter s k) b) (spec (OInsertRange k b) (p, u)).1.
Proof.
  intros Hm Hk Hb. pose proof Hm as (Ev & Ep & Hl). pose proof (zlen_nonneg p). pose proof (zlen_nonneg b). pose proof (zlen_nonneg u). cbn in *.
  assert (zlen p + zlen (take k u ++ b ++ drop k u) < 2 ^ 32) as Hlen.
  { rewrite !zlen_app. unfold zlen in *. rewrite length_take, length_drop. lia. }
  pose proof (models_splice s p u k k b Hm ltac:(lia) Hlen) as Hs. rewrite <- Ep in Hs. fold (iter s k) in Hs.
  unfold insert_range, iter. rewrite (u32_id (zlen b)) by lia.
  destruct k as [|k]; cbn [spec fst].
  - rewrite Z.add_0_r, Z.eqb_refl. cbn [andb]. unfold push_front. cbn [fst snd]. rewrite Ep. unfold iter in Hs. rewrite Z.add_0_r, Ep in Hs. cbn [take drop app] in Hs.
    destruct (decide (length b <= length p)%nat) as [Hle|Hgt].
    + assert ((zlen b <=? zlen p) = true) as -> by (apply Z.leb_le; unfold zlen; lia).
      rewrite (proj2 (Nat.leb_le _ _) Hle), u32_id by (unfold zlen in *; lia).
      replace (Z.to_nat (zlen p - zlen b)) with (length p - length b)%nat by (unfold zlen; lia).
      apply (models_set _ _ (take (length p - length b) p) (b ++ u)); [| | |done]; cbn.
      * rewrite Ev. replace (length p - length b + length b)%nat with (length p + 0)%nat by lia.
        rewrite (proj2 (app_at p u 0)), take_app_le by lia. done.
      * unfold zlen. rewrite length_take. lia.
      * rewrite zlen_app. unfold zlen in *. rewrite length_take. lia.
    + assert ((zlen b <=? zlen p) = false) as -> by (apply Z.leb_gt; unfold zlen; lia).
      assert ((length b <=? length p)%nat = false) as -> by (apply Nat.leb_gt; lia). exact Hs.
  - assert ((nReadPos s + Z.of_nat (S k) =? nReadPos s) = false) as -> by (apply Z.eqb_neq; lia). exact Hs.
Qed.

Lemma insert_n_models s p u k n x : models s (p, u) -> (k <= length u)%nat -> zlen p + zlen u + Z.of_nat n < 2 ^ 32 ->
  models (insert_n s (iter s k) (Z.of_nat n) x) (p, take k u ++ replicate n x ++ drop k u).
Proof.
  intros Hm Hk Hn. pose proof Hm as (Ev & Ep & Hl). cbn in *. unfold insert_n, iter. rewrite Ep, Nat2Z.id.
  apply models_splice; [done|done|]. rewrite !zlen_app. unfold zlen in *. rewrite length_take, length_drop, length_replicate. lia.
Qed.

Lemma erase_models s p u k : models s (p, u) -> (k < length u)%nat ->
  models (erase_1 s (iter s k)).1 (spec (OErase k) (p, u)).1.
Proof.
  intros Hm Hk. pose proof Hm as (Ev & Ep & Hl). pose proof (zlen_nonneg p). cbn in *. unfold erase_1, iter. rewrite Ep.
  destruct k as [|k]; cbn [spec fst].
  - rewrite Z.add_0_r, Z.eqb_refl, Ev, zlen_app, u32_id by (unfold zlen in *; lia).
    destruct (decide (length u = 1)%nat) as [E|E].
    + assert ((zlen p + 1 >=? zlen p + zlen u) = true) as -> by (apply Z.geb_le; unfold zlen; lia). apply models_end; [done|lia].
    + assert ((zlen p + 1 >=? zlen p + zlen u) = false) as -> by (rewrite Z.geb_leb; apply Z.leb_gt; unfold zlen; lia).
      change 1 with (Z.of_nat 1). apply models_consume; [done|lia].
  - assert ((zlen p + Z.of_nat (S k) =? zlen p) = false) as -> by (apply Z.eqb_neq; lia). cbn [fst].
    replace (zlen p + Z.of_nat (S k) + 1) with (zlen p + Z.of_nat (S (S k))) by lia.
    apply (models_splice s p u (S k) (S (S k)) []); [done|lia|]. cbn [app]. rewrite zlen_app. unfold zlen in *. rewrite length_take, length_drop. lia.
Qed.

Lemma erase_range_models s p u k l : models s (p, u) -> (k <= l <= length u)%nat ->
  models (erase_range s (iter s k) (iter s l)).1 (spec (OEraseRange k l) (p, u)).1.
Proof.
  intros Hm Hk. pose proof Hm as (Ev & Ep & Hl). pose proof (zlen_nonneg p). cbn in *. unfold erase_range, iter. rewrite Ep.
  destruct k as [|k]; cbn [spec fst].
  - rewrite Z.add_0_r, Z.eqb_refl, Ev, zlen_app. destruct (decide (l = length u)) as [->|E].
    + assert ((zlen p + Z.of_nat (length u) =? zlen p + zlen u) = true) as -> by (apply Z.eqb_eq; unfold zlen; lia). apply models_end; [done|lia].
    + assert ((zlen p + Z.of_nat l =? zlen p + zlen u) = false) as -> by (apply Z.eqb_neq; unfold zlen; lia). cbn [fst].
      rewrite u32_id by (unfold zlen in *; lia). apply models_consume; [done|lia].
  - assert ((zlen p + Z.of_nat (S k) =? zlen p) = false) as -> by (apply Z.eqb_neq; lia). cbn [fst].
    apply (models_splice s p u (S k) l []); [done|lia|]. cbn [app]. rewrite zlen_app. unfold zlen in *. rewrite length_take, length_drop. lia.
Qed.

Lemma resize_models s p u n c : models s (p, u) -> 0 <= n -> zlen p + n < 2 ^ 32 -> models (resize s n c) (p, vresize u n c).
Proof.
  intros (Ev & Ep & Hl) Hn Hlt. pose proof (zlen_nonneg p). cbn in *. unfold resize. rewrite Ep, Ev, u64_id by lia.
  apply (models_set _ _ p (vresize u n c)); [|done| |done]; cbn; unfold vresize.
  - replace (Z.to_nat (n + zlen p)) with (length p + Z.to_nat n)%nat by (unfold zlen; lia).
    rewrite (proj1 (app_at p u _)), length_app, <- app_assoc. do 3 f_equal. lia.
  - rewrite zlen_app. unfold zlen in *. rewrite length_take, length_replicate. lia.
Qed.

Lemma Rewind_models s p u n : models s (p, u) -> 0 <= n ->
  let '(s', r) := Rewind s n in models s' (spec (ORewind n) (p, u)).1 /\ [Z.b2z r] = (spec (ORewind n) (p, u)).2.
Proof.
  intros Hm Hn. pose proof Hm as (Ev & Ep & Hl). cbn in *. unfold Rewind. rewrite Ep.
  destruct (decide (n <= zlen p)); ztest; cbn; [|done]. split; [|done].
  apply (models_set _ _ (take (length p - Z.to_nat n) p) (drop (length p - Z.to_nat n) p ++ u)); [| | |done]; cbn.
  - by rewrite app_assoc, take_drop.
  - unfold zlen in *. rewrite length_take. lia.
  - rewrite zlen_app. unfold zlen in *. rewrite length_take, length_drop. lia.
Qed.

(** ** Properties *)

(** C3: Whatever operation changes the bytes or the cursor, anywhere in the stream, they stay
    those of a queue of bytes with a past: the operation acts on it, and hands out the
    bytes, as the specification says.  The one exception is [ignore] up to exactly the end
    after something has been read: it clears the vector and leaves the cursor behind. *)
Theorem run_refines o s v :
  models s v -> pre o v ->
  exists s' b, run o s = Ret (s', b) /\
    if strands o v then vch s' = [] /\ nReadPos s' = nReadPos s else models s' (spec o v).1 /\ b = (spec o v).2.
Proof.
  destruct v as [p u]. intros Hm Hpre. pose proof Hm as (Ev & Ep & Hl). cbn in Ev, Ep, Hl. pose proof (models_ok _ _ Hm) as [Hok Hpend].
  destruct o; cbn [run pre strands] in *.
  - eexists _, _. split; [done|]. split; [|done]. apply (models_set _ _ p (u ++ b)); [cbn; by rewrite Ev, app_assoc|done|rewrite zlen_app; lia|done].
  - destruct Hpre as [Ho Hlo]. unfold append. rewrite range_ok by done. cbn. eexists _, _. split; [done|]. split; [|done].
    apply (models_set _ _ p (u ++ pending other)); [cbn; by rewrite Ev, app_assoc|done|rewrite zlen_app; lia|done].
  - destruct (read_models s p u n) as (s' & -> & Hm'); [done|lia|lia|]. cbn. by eexists _, _.
  - eexists _, _. split; [done|]. pose proof (ignore_models s p u n Hm) as H. cbn [strands] in H. destruct (_ && _); [apply H; lia|].
    split; [apply H; lia|done].
  - eexists _, _. split; [done|]. split; [|done]. apply (models_set _ _ [] u); [|done| |done]; cbn.
    + rewrite Ep, Ev. unfold zlen. by rewrite Nat2Z.id, drop_app_length.
    + pose proof (zlen_nonneg p). change (zlen []) with 0. lia.
  - eexists _, _. by split.
  - unfold GetAndClear. rewrite range_ok by done. cbn. eexists _, _. split; [done|]. split; [done|]. by rewrite Hpend.
  - eexists _, _. split; [done|]. split; [by apply erase_models|by destruct k].
  - eexists _, _. split; [done|]. split; [by apply erase_range_models|by destruct k].
  - eexists _, _. split; [done|]. split; [|done]. apply (insert_n_models s p u k 1 x); tauto.
  - eexists _, _. split; [done|]. split; [|done]. apply insert_n_models; tauto.
  - eexists _, _. split; [done|]. split; [apply insert_models; tauto|by destruct k].
  - eexists _, _. split; [done|]. split; [|done]. apply resize_models; tauto.
  - pose proof (Rewind_models s p u n Hm Hpre) as H. destruct (Rewind s n) as [s' r]. by eexists _, _.
Qed.

(** Two of four bytes are read, and one is given back. *)
Lemma run_refines_witness :
  exists s', run (ORewind 1) (mk [1; 2; 3; 4] 2 0 0) = Ret (s', [1]) /\ models s' ([1], [2; 3; 4]).
Proof.
  destruct (run_refines (ORewind 1) (mk [1; 2; 3; 4] 2 0 0) ([1; 2], [3; 4])) as (s' & b & E & H); [by vm_compute|done|].
  cbn in H. destruct H as [Hm ->]. by exists s'.
Defined.

(** A read returns the unread bytes, padded with zeros when there are too few,
    and never more or fewer than asked for. *)
Theorem read_pads s n :
  ok s -> 0 <= n -> nReadPos s + n < 2 ^ 32 ->
  exists b s', read s n = Ret (b, s') /\ zlen b = n /\
    b = take (Z.to_nat n) (pending s) ++ replicate (Z.to_nat n - length (pending s)) 0 /\
    ok s' /\ pending s' = drop (Z.to_nat n) (pending s).
Proof. apply read_step. Qed.

Lemma read_pads_witness :
  exists b s', read (mk [1; 2; 3] 1 0 0) 4 = Ret (b, s') /\ zlen b = 4 /\
    b = take (Z.to_nat 4) [2; 3] ++ replicate (Z.to_nat 4 - 2) 0 /\
    ok s' /\ pending s' = drop (Z.to_nat 4) [2; 3].
Proof. apply (read_pads (mk [1; 2; 3] 1 0 0) 4); [by apply (bool_decide_eq_true _)|lia|cbn; lia]. Defined.

(** Ignoring exactly the unread bytes clears the vector but keeps the cursor:
    the stream then claims to hold almost [2^64] bytes. *)
Theorem ignore_to_end_breaks s :
  ok s -> 0 < nReadPos s ->
  vch (ignore s (zlen (pending s))) = [] /\
  nReadPos (ignore s (zlen (pending s))) = nReadPos s /\
  size (ignore s (zlen (pending s))) = 2 ^ 64 - nReadPos s /\
  eof (ignore s (zlen (pending s))) = false.
Proof.
  intros Hok Hpos. pose proof (zlen_pending s Hok) as Hz. pose proof Hok as [Hp Hl].
  unfold ignore. rewrite u32_id by lia. ztest.
  assert (u64 (0 - nReadPos s) = 2 ^ 64 - nReadPos s) as Hu by ints.
  unfold eof, size, set_vch. cbn. change (zlen []) with 0. rewrite Hu. split_and!; try done.
  apply Z.eqb_neq. lia.
Qed.

Lemma ignore_to_end_breaks_witness :
  vch (ignore (mk [1; 2; 3] 1 0 0) 2) = [] /\ nReadPos (ignore (mk [1; 2; 3] 1 0 0) 2) = 1 /\
  size (ignore (mk [1; 2; 3] 1 0 0) 2) = 2 ^ 64 - 1 /\ eof (ignore (mk [1; 2; 3] 1 0 0) 2) = false.
Proof. apply (ignore_to_end_breaks (mk [1; 2; 3] 1 0 0)); [by apply (bool_decide_eq_true _)|cbn; lia]. Defined.

(** C8: What is shifted into an empty stream with [<<] comes back with [>>], in
    order, for every serializable type. *)
Theorem shift_roundtrip {T U} `{SerializableOk T} `{SerializableOk U} (s : t) (x : T) (y : U) :
  ok s -> pending s = [] -> valid x -> valid y ->
  zlen (vch s) + zlen (enc x) + zlen (enc y) < 2 ^ 32 ->
  exists s1 s2, shr (shl (shl s x) y) = Ret (x, s1) /\ shr s1 = Ret (y, s2) /\ pending s2 = [].
Proof.
  intros Hok Hp Hx Hy Hl. pose proof (zlen_nonneg (enc x)). pose proof (zlen_nonneg (enc y)).
  unfold shl, shr. rewrite !Serialize_enc, write_write by done.
  destruct (Unserialize_enc (Serialize.write s (enc x ++ enc y)) x (enc y)) as (s1 & E1 & Hu & Hs1);
    [done|apply ok_write; [done|rewrite zlen_app; lia]| |].
  { change (pending (write s (enc x ++ enc y)) = enc x ++ enc y). by rewrite pending_write, Hp. }
  destruct (Unserialize_enc s1 y []) as (s2 & E2 & Hu2 & _); [done|done|by rewrite app_nil_r|].
  exists s1, s2. done.
Qed.

#[export] Instance string_int_size : CppSize (sstring * val HN).
Proof. exists 40. lia. Defined.

Lemma shift_roundtrip_witness :
  exists s1 s2,
    shr (shl (shl (make [] 0) [(SStr (str "a"), @Val HN (-5)); (SStr [], Val 7)]) true) =
      Ret ([(SStr (str "a"), @Val HN (-5)); (SStr [], Val 7)], s1) /\
    shr s1 = Ret (true, s2) /\ pending s2 = [].
Proof.
  apply shift_roundtrip; [by apply (bool_decide_eq_true _)|done| |done|by vm_compute].
  split; [by vm_compute|]. repeat constructor; by apply (bool_decide_eq_true _).
Defined.

(** [CDataStream::Serialize] appends the whole vector, consumed bytes included,
    where [operator+=] appends the unread ones: they agree only when nothing
    has been read. *)
Theorem SerializeStream_vs_append a b :
  ok b -> vch b <> [] ->
  (append a b = Ret (SerializeStream a b) <-> nReadPos b = 0).
Proof.
  intros Hok Hne. unfold append, SerializeStream. rewrite range_ok by done.
  rewrite bool_decide_eq_false_2 by done. cbn. destruct Hok as [Hp _].
  unfold Serialize.write, ostream, write, set_vch, pending. split.
  - intros [= E]. apply app_inv_head in E. apply (f_equal length) in E.
    rewrite length_drop in E. unfold zlen in *. lia.
  - intros ->. done.
Qed.

Lemma SerializeStream_vs_append_witness :
  append (make [9] 0) (mk [1; 2] 1 0 0) = Ret (SerializeStream (make [9] 0) (mk [1; 2] 1 0 0)) <->
  nReadPos (mk [1; 2] 1 0 0) = 0.
Proof. apply SerializeStream_vs_append; [by apply (bool_decide_eq_true _)|done]. Defined.

(** [CSizeComputer] counts what a stream would receive. *)
Theorem CSizeComputer_spec {T} `{SerializableOk T} (c : CSizeComputer.t) (x : T) :
  valid x ->
  CSizeComputer.size (CSizeComputer.shl c x) = u64 (CSizeComputer.size c + GetSerializeSize x).
Proof.
  intros Hx. unfold CSizeComputer.shl. rewrite Serialize_enc, size_enc by done. cbn.
  by rewrite u64_add_r.
Qed.

Lemma CSizeComputer_spec_witness :
  CSizeComputer.size (CSizeComputer.shl CSizeComputer.init (SStr (str "abc"))) =
  u64 (CSizeComputer.size CSizeComputer.init + GetSerializeSize (SStr (str "abc"))).
Proof. by apply CSizeComputer_spec. Defined.

End CDataStream.
