(* ===== verification/SerializeTyped.v ===== *)
(** * Type soundness of deserialization

    Whatever bytes a stream holds, a value that [Unserialize] returns is one of its
    type: numbers in range, strings of bytes shorter than 2^32, maps and sets
    sorted with distinct keys.  The interface [UnserializeTyped] has one instance for each
    overload of [src/hserialize.h]; [IStreamTyped] is what a stream promises. *)

From S2P Require Import Prelude StdString OrdMap Serialize SerializeProofs DataStream.

(** A stream of bytes: what a read returns are as many bytes as were asked for. *)
Class IStreamTyped (S : Type) `{IStream S} := {
  bytes_ok : S -> Prop;
  read_typed : forall s n b s', bytes_ok s -> 0 <= n -> read s n = Ret (b, s') ->
    is_bytes b /\ zlen b = n /\ bytes_ok s'
}.

Class UnserializeTyped (T : Type) `{Serializable T} := {
  typed : T -> Prop;
  Unserialize_typed : forall {S} `{IStream S} `{!IStreamTyped S} (s : S) x s',
    bytes_ok s -> Unserialize s = Ret (x, s') -> typed x /\ bytes_ok s'
}.

(** ** Numbers *)

Lemma cast_in_type t v : in_type t (cast t v).
Proof.
  unfold in_type, cast. pose proof (bits_cases t). destruct (signed t); [apply wrapS_bound|apply wrapU_bound]; lia.
Qed.

Lemma READDATA_typed {S} `{IStream S} `{!IStreamTyped S} t (s : S) v s' :
  bytes_ok s -> READDATA t s = Ret (v, s') -> in_type t v /\ bytes_ok s'.
Proof.
  intros Hs Hr. apply res_bind_ret in Hr as ([b s1] & Hr & E). injection E as <- <-.
  apply read_typed in Hr as (_ & _ & Hs1); [|done|lia]. split; [apply cast_in_type|done].
Qed.

(** A compact size is below 2^64. *)
Lemma ReadCompactSize_typed {S} `{IStream S} `{!IStreamTyped S} (s : S) n s' :
  bytes_ok s -> ReadCompactSize s = Ret (n, s') -> 0 <= n < 2 ^ 64 /\ bytes_ok s'.
Proof.
  intros Hs Hr. apply res_bind_ret in Hr as ([c s1] & Hc & E).
  apply READDATA_typed in Hc as [Hc Hs1]; [|done]. cbv beta iota in E.
  assert (forall t, in_type t n -> signed t = false -> 0 <= n < 2 ^ 64) as Hb.
  { intros t Ht Hu. unfold in_type in Ht. rewrite Hu in Ht. unfold in_u in Ht.
    destruct (bits_cases t) as [Eb|[Eb|[Eb|Eb]]]; rewrite Eb in Ht; lia. }
  repeat case_match; [injection E as <- <-; split; [by apply (Hb HUCH)|done]| | |];
    apply READDATA_typed in E as [Hn ?]; try done; (split; [|done]); by eapply Hb.
Qed.

Lemma u32_bound n : 0 <= u32 n < 2 ^ 32.
Proof. apply (wrapU_bound 32). lia. Qed.

(** ** Instances *)

#[export] Program Instance fundamental_typed (t : cint) : UnserializeTyped (val t) := {|
  typed a := in_type t (num a)
|}.
Next Obligation.
  intros t S ? ? s x s' Hs Hr. apply res_bind_ret in Hr as ([v s1] & Hv & E). injection E as <- <-.
  by apply READDATA_typed in Hv.
Qed.

#[export] Program Instance bool_typed : UnserializeTyped bool := {| typed a := True |}.
Next Obligation.
  intros S ? ? s x s' Hs Hr. apply res_bind_ret in Hr as ([v s1] & Hv & E). injection E as <- <-.
  by apply READDATA_typed in Hv as [_ ?].
Qed.

#[export] Program Instance sstring_typed : UnserializeTyped sstring := {|
  typed a := is_bytes (chars a) /\ zlen (chars a) < 2 ^ 32
|}.
Next Obligation.
  intros S ? ? s x s' Hs Hr. apply res_bind_ret in Hr as ([n s1] & Hn & E).
  apply ReadCompactSize_typed in Hn as [_ Hs1]; [|done]. cbv beta iota zeta in E. pose proof (u32_bound n).
  case_match; [injection E as <- <-; split; [split; [constructor|by vm_compute]|done]|]. apply res_bind_ret in E as ([b s2] & Hb & E). injection E as <- <-.
  apply read_typed in Hb as (Hb & Hl & Hs2); [|done|lia]. cbn. rewrite Hl. split; [split; [done|lia]|done].
Qed.

#[export] Program Instance pair_typed {K T} `{UnserializeTyped K} `{UnserializeTyped T} : UnserializeTyped (K * T) := {|
  typed a := typed a.1 /\ typed a.2
|}.
Next Obligation.
  intros K T ? ? ? ? S ? ? s x s' Hs Hr. apply res_bind_ret in Hr as ([a s1] & Ha & Hr).
  apply res_bind_ret in Hr as ([b s2] & Hb & E). injection E as <- <-.
  apply Unserialize_typed in Ha as [Ha Hs1]; [|done]. by apply Unserialize_typed in Hb as [Hb Hs2].
Qed.

(** *** Vectors *)

Lemma decode_typed t k b : Forall (fun x : val t => in_type t (num x)) (decode t k b).
Proof. revert b. induction k as [|k IH]; intros b; cbn; constructor; [apply cast_in_type|apply IH]. Qed.

Lemma length_decode t k b : length (decode t k b) = k.
Proof. revert b. induction k as [|k IH]; intros b; cbn; [done|]. by rewrite IH. Qed.

Lemma unser_blocks_typed {S} `{IStream S} `{!IStreamTyped S} t fuel (s : S) n v x s' :
  bytes_ok s -> 0 <= n < 2 ^ 32 -> zlen v <= n -> Forall (fun x => in_type t (num x)) v ->
  unser_blocks t fuel s n (zlen v) v = Ret (x, s') ->
  (Forall (fun x => in_type t (num x)) x /\ zlen x = n) /\ bytes_ok s'.
Proof.
  revert s v. induction fuel as [|f IH]; intros s v Hs Hn Hl Hv Hr; cbn [unser_blocks] in Hr;
    pose proof (zlen_nonneg v); (destruct (zlen v <? n) eqn:E; bool_to_prop;
      [|injection Hr as <- <-; split; [split; [done|lia]|done]]); [done|].
  apply res_bind_ret in Hr as ([b s1] & Hb & Hr). cbv beta iota in Hr.
  rewrite (u32_id (n - zlen v)) in Hb, Hr by lia. pose proof (max_block_pos t).
  set (blk := Z.min (n - zlen v) (max_block t)) in *. assert (1 <= blk <= n - zlen v) by lia.
  apply read_typed in Hb as (_ & _ & Hs1); [|done|lia]. rewrite u32_id in Hr by lia.
  assert (zlen (v ++ decode t (Z.to_nat blk) b) = zlen v + blk) as Hz.
  { rewrite zlen_app. unfold zlen at 2. rewrite length_decode. lia. }
  rewrite <- Hz in Hr. apply IH in Hr; [done|done|done|lia|]. apply Forall_app. split; [done|apply decode_typed].
Qed.

#[export] Program Instance vector_fundamental_typed (t : cint) :
  UnserializeTyped (list (val t)) (H := vector_fundamental t) := {|
  typed v := Forall (fun x => in_type t (num x)) v /\ zlen v < 2 ^ 32
|}.
Next Obligation.
  intros t S ? ? s x s' Hs Hr. apply res_bind_ret in Hr as ([n s1] & Hn & Hr).
  apply ReadCompactSize_typed in Hn as [_ Hs1]; [|done]. cbv beta iota in Hr. pose proof (u32_bound n).
  change 0 with (zlen (@nil (val t))) in Hr.
  apply unser_blocks_typed in Hr as [[Hx Hl] Hs']; [|done|done|rewrite zlen_nil; lia|done].
  split; [split; [done|lia]|done].
Qed.

Section sequences.
Context {T : Type} `{UnserializeTyped T}.

Lemma unser_elems_typed {S} `{IStream S} `{!IStreamTyped S} n (s : S) l s' :
  bytes_ok s -> unser_elems n s = Ret (l, s') -> Forall typed l /\ bytes_ok s'.
Proof.
  revert s l. induction n as [|n IH]; intros s l Hs Hr; [by injection Hr as <- <-|].
  apply res_bind_ret in Hr as ([x s1] & Hx & Hr). apply res_bind_ret in Hr as ([l' s2] & Hl & E).
  injection E as <- <-. apply Unserialize_typed in Hx as [Hx Hs1]; [|done].
  apply IH in Hl as [Hl Hs2]; [|done]. split; [by constructor|done].
Qed.

Lemma unser_mid_typed `{!CppSize T} {S} `{IStream S} `{!IStreamTyped S} fuel (s : S) n i m v x s' :
  bytes_ok s -> Forall typed v -> unser_mid fuel s n i m v = Ret (x, s') -> Forall typed x /\ bytes_ok s'.
Proof.
  revert s i m v. induction fuel as [|f IH]; intros s i m v Hs Hv Hr; cbn [unser_mid] in Hr;
    (destruct (m <? n); [|by injection Hr as <- <-]); [done|].
  apply res_bind_ret in Hr as ([l s1] & Hl & Hr). apply unser_elems_typed in Hl as [Hl Hs1]; [|done].
  cbv beta iota zeta in Hr. apply IH in Hr; [done|done|]. apply Forall_app. split; [by apply Forall_take|done].
Qed.

Lemma unser_ins_typed {K} `{StrictOrder K} (key : T -> K) {S} `{IStream S} `{!IStreamTyped S} n (s : S) m l s' :
  bytes_ok s -> Forall typed m -> sorted key m -> zlen m + Z.of_nat n < 2 ^ 32 ->
  unser_ins key n s m = Ret (l, s') -> (Forall typed l /\ sorted key l /\ zlen l < 2 ^ 32) /\ bytes_ok s'.
Proof.
  revert s m. induction n as [|n IH]; intros s m Hs Hm Hso Hl Hr; [injection Hr as <- <-; split_and!; try done; lia|].
  apply res_bind_ret in Hr as ([x s1] & Hx & Hr). apply Unserialize_typed in Hx as [Hx Hs1]; [|done].
  apply IH in Hr; [done|done|by apply Forall_ins|by apply sorted_ins|]. pose proof (length_ins key x m). unfold zlen in *. lia.
Qed.
End sequences.

#[export] Program Instance vector_class_typed {T} `{UnserializeTyped T} `{!CppSize T} :
  UnserializeTyped (list T) (H := vector_class) := {| typed l := Forall typed l |}.
Next Obligation.
  intros T ? ? ? S ? ? s x s' Hs Hr. apply res_bind_ret in Hr as ([n s1] & Hn & Hr).
  apply ReadCompactSize_typed in Hn as [_ Hs1]; [|done]. cbv beta iota in Hr.
  by apply unser_mid_typed in Hr.
Qed.

#[export] Program Instance map_typed {K T} `{StrictOrder K} `{UnserializeTyped K} `{UnserializeTyped T} :
  UnserializeTyped (cmap K T) := {|
  typed m := Forall typed (items m) /\ sorted fst (items m) /\ zlen (items m) < 2 ^ 32
|}.
Next Obligation.
  intros K T ? ? ? ? ? S ? ? s x s' Hs Hr. apply res_bind_ret in Hr as ([n s1] & Hn & Hr).
  apply ReadCompactSize_typed in Hn as [_ Hs1]; [|done]. cbv beta iota in Hr. pose proof (u32_bound n).
  apply res_bind_ret in Hr as ([l s2] & Hl & E). injection E as <- <-.
  by apply (unser_ins_typed _ _ s1 []) in Hl; [|done|constructor|done|rewrite zlen_nil; lia].
Qed.

#[export] Program Instance set_typed {K} `{StrictOrder K} `{UnserializeTyped K} : UnserializeTyped (cset K) := {|
  typed m := Forall typed (elts m) /\ sorted (fun x => x) (elts m) /\ zlen (elts m) < 2 ^ 32
|}.
Next Obligation.
  intros K ? ? ? S ? ? s x s' Hs Hr. apply res_bind_ret in Hr as ([n s1] & Hn & Hr).
  apply ReadCompactSize_typed in Hn as [_ Hs1]; [|done]. cbv beta iota in Hr. pose proof (u32_bound n).
  apply res_bind_ret in Hr as ([l s2] & Hl & E). injection E as <- <-.
  by apply (unser_ins_typed _ _ s1 []) in Hl; [|done|constructor|done|rewrite zlen_nil; lia].
Qed.

(** ** The stream of [CDataStream] *)

Section stream.
Import CDataStream.

(** The cursor is an [unsigned int] in the vector, the vector holds bytes. *)
Definition well_formed (s : t) : Prop := is_bytes (vch s) /\ CDataStream.ok s.

#[export] Instance well_formed_dec s : Decision (well_formed s).
Proof. unfold well_formed. apply _. Defined.

Lemma slice_inv v pos n b :
  slice v pos n = Ret b -> 0 <= pos /\ 0 <= n /\ pos + n <= zlen v /\ b = take (Z.to_nat n) (drop (Z.to_nat pos) v).
Proof. unfold slice. case_bool_decide; [|done]. intros [= <-]. naive_solver. Qed.

Lemma zlen_slice v pos n b : slice v pos n = Ret b -> zlen b = n.
Proof.
  intros (? & ? & ? & ->)%slice_inv. unfold zlen in *. rewrite length_take, length_drop. lia.
Qed.

Lemma slice_bytes v pos n b : is_bytes v -> slice v pos n = Ret b -> is_bytes b.
Proof. intros Hv (? & ? & ? & ->)%slice_inv. by apply Forall_take, Forall_drop. Qed.

(** Past the end the bytes that are missing read as zeros. *)
Lemma read_well_formed s n b s' :
  well_formed s -> 0 <= n -> CDataStream.read s n = Ret (b, s') -> is_bytes b /\ zlen b = n /\ well_formed s'.
Proof.
  intros [Hb [Hp Hl]] Hn. unfold CDataStream.read.
  assert (well_formed (set_both s [] 0)) as Hw0 by (split; [constructor|by vm_compute]).
  pose proof (u32_bound (nReadPos s + n)). rewrite Z.geb_leb, Z.gtb_ltb.
  destruct (zlen (vch s) <=? u32 (nReadPos s + n)) eqn:E1; bool_to_prop; intros Hr;
    apply res_bind_ret in Hr as (r & Hr & E); injection E as <- <-.
  - pose proof (zlen_slice _ _ _ _ Hr) as Hz. pose proof (slice_bytes _ _ _ _ Hb Hr).
    split_and!; [|rewrite zlen_app, Hz, zlen_replicate|done].
    + apply Forall_app. split; [done|]. apply Forall_replicate. by vm_compute.
    + destruct (zlen (vch s) <? u32 (nReadPos s + n)) eqn:E2; bool_to_prop; [|lia].
      rewrite u64_id by lia. assert (u32 (nReadPos s + n) <= nReadPos s + n) by (apply Z.mod_le; lia). lia.
  - split_and!; [by eapply slice_bytes|by eapply zlen_slice|]. apply slice_inv in Hr as (? & ? & ? & _).
    split; [done|]. split; cbn [vch nReadPos set_pos]; lia.
Qed.

#[export] Instance istream_typed : IStreamTyped CDataStream.t := {| bytes_ok := well_formed; read_typed := read_well_formed |}.

End stream.

(** ** The types of the overload set

    [ty] names the types the overloads are for, [El] is their values, [ser] the overload the
    compiler chooses: by [std::is_fundamental] of the elements of a vector. *)

Inductive key : Type := KNumber (t : cint) | KString.

Inductive ty : Type :=
  | TNumber (t : cint)
  | TBool
  | TClass (c : cls)
with cls : Type :=
  | TString
  | TPair (a b : ty)
  | TNumbers (t : cint)
  | TVector (c : cls)
  | TMap (k : key) (a : ty)
  | TSet (k : key).

Definition key_El (k : key) : Type := match k with KNumber t => val t | KString => sstring end.

Fixpoint El (a : ty) : Type :=
  match a with TNumber t => val t | TBool => bool | TClass c => cls_El c end
with cls_El (c : cls) : Type :=
  match c with
  | TString => sstring
  | TPair a b => El a * El b
  | TNumbers t => list (val t)
  | TVector c => list (cls_El c)
  | TMap k a => cmap (key_El k) (El a)
  | TSet k => cset (key_El k)
  end.

#[export] Instance key_order (k : key) : StrictOrder (key_El k) :=
  match k with KNumber t => val_strict t | KString => sstring_strict end.

#[export] Instance key_ser (k : key) : Serializable (key_El k) :=
  match k with KNumber t => fundamental_serializable t | KString => string_serializable end.

Section types.
(** [sizeof] of the classes. *)
Context (sizes : forall c, CppSize (cls_El c)).

Fixpoint ser (a : ty) : Serializable (El a) :=
  match a with
  | TNumber t => fundamental_serializable t
  | TBool => bool_serializable
  | TClass c => cls_ser c
  end
with cls_ser (c : cls) : Serializable (cls_El c) :=
  match c with
  | TString => string_serializable
  | TPair a b => @pair_serializable _ _ (ser a) (ser b)
  | TNumbers t => vector_fundamental t
  | TVector c => @vector_class _ (cls_ser c) (sizes c)
  | TMap k a => @map_serializable _ _ _ _ (ser a)
  | TSet k => set_serializable
  end.

(** The values of a type of the language: numbers in range, characters that are bytes,
    containers whose elements are values of their types, maps and sets in order with no key
    twice. *)
Definition in_key (k : key) : key_El k -> Prop :=
  match k with
  | KNumber t => fun x => in_type t (num x)
  | KString => fun x => is_bytes (chars x)
  end.

Fixpoint in_ty (a : ty) : El a -> Prop :=
  match a with
  | TNumber t => fun x => in_type t (num x)
  | TBool => fun _ => True
  | TClass c => in_cls c
  end
with in_cls (c : cls) : cls_El c -> Prop :=
  match c with
  | TString => fun x => is_bytes (chars x)
  | TPair a b => fun x => in_ty a x.1 /\ in_ty b x.2
  | TNumbers t => Forall (fun x => in_type t (num x))
  | TVector c => Forall (in_cls c)
  | TMap k a => fun m => Forall (fun x => in_key k x.1 /\ in_ty a x.2) (items m) /\ sorted fst (items m)
  | TSet k => fun m => Forall (in_key k) (elts m) /\ sorted (fun x => x) (elts m)
  end.

Instance key_typed (k : key) : UnserializeTyped (key_El k) :=
  match k with KNumber t => fundamental_typed t | KString => sstring_typed end.

Fixpoint ty_typed (a : ty) : @UnserializeTyped (El a) (ser a) :=
  match a with
  | TNumber t => fundamental_typed t
  | TBool => bool_typed
  | TClass c => cls_typed c
  end
with cls_typed (c : cls) : @UnserializeTyped (cls_El c) (cls_ser c) :=
  match c with
  | TString => sstring_typed
  | TPair a b => @pair_typed _ _ _ (ty_typed a) _ (ty_typed b)
  | TNumbers t => vector_fundamental_typed t
  | TVector c => @vector_class_typed _ _ (cls_typed c) _
  | TMap k a => @map_typed _ _ _ _ (key_typed k) _ (ty_typed a)
  | TSet k => set_typed
  end.

Lemma typed_key k x : @typed _ _ (key_typed k) x -> in_key k x.
Proof. destruct k; [done|]. by intros [??]. Qed.

Lemma typed_in_ty a : forall x, @typed _ _ (ty_typed a) x -> in_ty a x
with typed_in_cls c : forall x, @typed _ _ (cls_typed c) x -> in_cls c x.
Proof.
  - destruct a as [t| |c]; [done|done|apply typed_in_cls].
  - destruct c as [|a b|t|c|k a|k]; cbn; intros x.
    + by intros [? _].
    + intros [Ha Hb]. split; by apply typed_in_ty.
    + by intros [? _].
    + intros Hf. eapply Forall_impl; [exact Hf|]. apply typed_in_cls.
    + intros (Hf & Hs & _). split; [|done]. eapply Forall_impl; [exact Hf|]. intros y [Hk Hv].
      split; [by apply typed_key|by apply typed_in_ty].
    + intros (Hf & Hs & _). split; [|done]. eapply Forall_impl; [exact Hf|]. apply typed_key.
Qed.

End types.

Section property.
Import CDataStream.


(** Classes of 32 bytes. *)
Definition same_size (c : cls) : CppSize (cls_El c) := {| cpp_sizeof := 32; cpp_sizeof_ok := ltac:(lia) |}.


End property.
