(* ===== verification/VarInt.v ===== *)
(** * Variable-length integers of [src/hserialize.h]: size, bounds and round trip *)

From S2P Require Import Prelude StdString Serialize SerializeProofs DataStream.

Module VarInt.

(** The encoding in stream order, most significant group first; [flag] is the
    continuation bit of the last byte. *)
Fixpoint vi (r : nat) (n flag : Z) : bytes :=
  match r with
  | O => []
  | S r' => if n <=? 127 then [Z.lor (Z.land n 127) flag]
            else vi r' (Z.shiftr n 7 - 1) 128 ++ [Z.lor (Z.land n 127) flag]
  end.

Definition varint_bytes (t : cint) (n : Z) : bytes := vi (varint_buf t) n 0.

(** ** Arithmetic of the groups *)

Lemma shiftr7 n : Z.shiftr n 7 = n / 128.
Proof. by rewrite Z.shiftr_div_pow2. Qed.

Lemma land127 n : Z.land n 127 = n mod 128.
Proof. change 127 with (Z.ones 7). by rewrite Z.land_ones. Qed.

Lemma land_shl7 a d : 0 <= d < 128 -> Z.land (Z.shiftl a 7) d = 0.
Proof.
  intros Hd. apply Z.bits_inj'. intros i Hi. rewrite Z.land_spec, Z.bits_0.
  destruct (decide (i < 7)).
  - by rewrite Z.shiftl_spec_low by lia.
  - rewrite (Z.bits_above_log2 d i); [by rewrite andb_false_r|lia|].
    destruct (decide (d = 0)) as [->|]; [cbn; lia|].
    apply Z.log2_lt_pow2; [lia|]. apply Z.lt_le_trans with (2 ^ 7); [lia|].
    apply Z.pow_le_mono_r; lia.
Qed.

Lemma lor_shl7 a d : 0 <= d < 128 -> Z.lor (Z.shiftl a 7) d = a * 128 + d.
Proof.
  intros Hd. pose proof (Z.add_lor_land (Z.shiftl a 7) d) as H.
  rewrite land_shl7 in H by done. rewrite Z.shiftl_mul_pow2 in * by lia. lia.
Qed.

(** A byte of the encoding: seven value bits and the flag. *)
Lemma group_byte d :
  0 <= d < 128 ->
  is_byte (Z.lor d 128) /\ Z.land (Z.lor d 128) 127 = d /\ Z.land (Z.lor d 128) 128 = 128 /\
  Z.land d 127 = d /\ Z.land d 128 = 0.
Proof.
  intros Hd.
  assert (forallb (fun n => let d := Z.of_nat n in
      bool_decide (is_byte (Z.lor d 128)) && (Z.land (Z.lor d 128) 127 =? d) &&
      (Z.land (Z.lor d 128) 128 =? 128) && (Z.land d 127 =? d) && (Z.land d 128 =? 0))
      (seq 0 128) = true) as H by (vm_compute; done).
  rewrite forallb_forall in H. specialize (H (Z.to_nat d)).
  assert (In (Z.to_nat d) (seq 0 128)) as Hin by (apply in_seq; lia).
  specialize (H Hin). cbv beta zeta in H. rewrite Z2Nat.id in H by lia.
  bool_to_prop. tauto.
Qed.

Lemma pow128_S r : 128 ^ Z.of_nat (S r) = 128 * 128 ^ Z.of_nat r.
Proof. by rewrite Nat2Z.inj_succ, Z.pow_succ_r by lia. Qed.

(** More than one group needs more than one byte of room. *)
Lemma room_S n r : 127 < n -> n < 128 ^ Z.of_nat (S r) -> exists r', r = S r'.
Proof.
  intros Hn Hr. destruct r as [|r]; [|eauto].
  change (128 ^ Z.of_nat 1) with 128 in Hr. lia.
Qed.

Lemma next_group n r :
  127 < n -> n < 128 ^ Z.of_nat (S r) -> 0 <= n / 128 - 1 < 128 ^ Z.of_nat r.
Proof.
  rewrite pow128_S. intros H1 H2.
  assert (1 <= n / 128) by (apply Z.div_le_lower_bound; lia).
  assert (n / 128 < 128 ^ Z.of_nat r) by (apply Z.div_lt_upper_bound; lia). lia.
Qed.

(** The buffer of [WriteVarInt] has room for every value of the type. *)
Lemma room_enough t n : in_type t n -> 0 <= n -> n < 128 ^ Z.of_nat (varint_buf t).
Proof.
  intros Ht Hn. destruct t; unfold in_type, in_u, in_s in Ht;
  match goal with |- _ < ?x => let v := eval vm_compute in x in change x with v end;
  match type of Ht with context [signed ?t] =>
    let b := eval vm_compute in (bits t) in change (bits t) with b in Ht;
    let g := eval vm_compute in (signed t) in change (signed t) with g in Ht end;
  cbv iota in Ht; ints.
Qed.

(** ** Writing *)

(** One round of each loop. *)
Lemma vi_S r n flag :
  vi (S r) n flag =
  if n <=? 127 then [Z.lor (Z.land n 127) flag]
  else vi r (n / 128 - 1) 128 ++ [Z.lor (Z.land n 127) flag].
Proof. by rewrite <- shiftr7. Qed.

Lemma varint_digits_S r n tmp :
  varint_digits (S r) n tmp =
  let tmp := tmp ++ [Z.lor (Z.land n 127) (if bool_decide (tmp = []) then 0 else 128)] in
  if n <=? 127 then Ret tmp else varint_digits r (n / 128 - 1) tmp.
Proof. by rewrite <- shiftr7. Qed.

Lemma size_varint_loop_S r n k :
  size_varint_loop (S r) n k =
  if n <=? 127 then Some (k + 1) else size_varint_loop r (n / 128 - 1) (k + 1).
Proof. by rewrite <- shiftr7. Qed.

Lemma varint_digits_vi r n tmp :
  0 <= n < 128 ^ Z.of_nat (S r) ->
  varint_digits (S r) n tmp =
  Ret (tmp ++ reverse (vi (S r) n (if bool_decide (tmp = []) then 0 else 128))).
Proof.
  revert n tmp. induction r as [|r IH]; intros n tmp Hn;
    rewrite varint_digits_S, vi_S; cbv zeta; destruct (n <=? 127) eqn:E; bool_to_prop; try done.
  - destruct (room_S n 0 E) as [? [=]]. tauto.
  - 
    pose proof (next_group n (S r) E (proj2 Hn)). 
    rewrite IH by done.
    rewrite (bool_decide_eq_false_2 (tmp ++ _ = [])) by (by destruct tmp).
    rewrite reverse_app, <- app_assoc. done.
Qed.

Lemma size_varint_loop_vi r n flag k :
  0 <= n < 128 ^ Z.of_nat (S r) ->
  size_varint_loop (S r) n k = Some (k + zlen (vi (S r) n flag)).
Proof.
  revert n flag k. induction r as [|r IH]; intros n flag k Hn;
    rewrite size_varint_loop_S, vi_S; destruct (n <=? 127) eqn:E; bool_to_prop; try done.
  - destruct (room_S n 0 E) as [? [=]]. tauto.
  -  pose proof (next_group n (S r) E (proj2 Hn)).
    rewrite (IH _ 128) by done.
    rewrite zlen_app. change (zlen [_]) with 1. f_equal; lia.
Qed.

Lemma length_vi r n flag : (length (vi r n flag) <= r)%nat.
Proof.
  revert n flag. induction r as [|r IH]; intros; cbn; [lia|].
  case_match; cbn; [lia|]. rewrite length_app. cbn. specialize (IH (Z.shiftr n 7 - 1) 128). lia.
Qed.

Lemma is_bytes_vi r n flag : 0 <= n -> flag = 0 \/ flag = 128 -> is_bytes (vi r n flag).
Proof.
  revert n flag. induction r as [|r IH]; intros n flag Hn Hf; cbn; [constructor|].
  assert (is_byte (Z.lor (Z.land n 127) flag)).
  { rewrite land127. pose proof (Z.mod_pos_bound n 128).
    destruct Hf as [->| ->]; [rewrite Z.lor_0_r; unfold is_byte; lia|].
    apply (group_byte (n mod 128)). lia. }
  case_match; bool_to_prop; [by apply Forall_singleton|].
  apply Forall_app. split; [|by apply Forall_singleton]. apply IH; [|auto].
  rewrite shiftr7. assert (1 <= n / 128) by (apply Z.div_le_lower_bound; lia). lia.
Qed.

Lemma foldr_write_bytes {S} `{OStream S} `{!OStreamOk S} (s : S) b l :
  is_bytes l ->
  foldr (fun c s => WRITEDATA HUCH s c) (write s b) l = write s (b ++ reverse l).
Proof.
  induction 1 as [|c l Hc Hl IH]; cbn [foldr]; [by rewrite app_nil_r|].
  rewrite IH. unfold WRITEDATA. rewrite write_write, reverse_cons, <- app_assoc.
  do 3 f_equal. unfold to_bytes. cbn. f_equal. unfold is_byte in Hc. by apply Z.mod_small.
Qed.

(** ** Reading *)

Section reading.
Context {S : Type} `{IStream S} `{!IStreamOk S} (t : cint).

Lemma read_group f (s : S) a c rest :
  is_byte c -> stream_ok s -> unread s = c :: rest ->
  in_type t (a * 128 + Z.land c 127) -> 0 <= Z.land c 127 < 128 ->
  in_type t (a * 128) ->
  exists s', unread s' = rest /\ stream_ok s' /\
    read_varint_loop t (Datatypes.S f) s a =
    if Z.land c 128 =? 0 then Some (Ret (a * 128 + Z.land c 127, s'))
    else read_varint_loop t f s' (cast t (a * 128 + Z.land c 127 + 1)).
Proof.
  intros Hc Hs Hu Hv Hd Ha. cbn [read_varint_loop].
  assert (forall v, in_type t v -> cast t v = v) as Hcast.
  { intros v. unfold in_type, cast. pose proof (bits_cases t).
    destruct (signed t); [apply wrapS_id; lia|apply wrapU_id]. }
  assert (to_bytes HUCH c = [c]) as Hb.
  { unfold to_bytes. cbn. f_equal. by apply Z.mod_small. }
  run_read (READDATA_ok HUCH s c rest); [unfold is_byte in Hc; in_type|done|by rewrite Hb|].
  exists s0. split_and!; [done|done|].
  rewrite (Hcast (Z.shiftl a 7)) by (by rewrite Z.shiftl_mul_pow2 by lia).
  rewrite lor_shl7, Hcast by done. done.
Qed.

Lemma group_value n flag :
  0 <= n -> flag = 0 \/ flag = 128 ->
  is_byte (Z.lor (Z.land n 127) flag) /\ Z.land (Z.lor (Z.land n 127) flag) 127 = n mod 128 /\
  Z.land (Z.lor (Z.land n 127) flag) 128 = flag.
Proof.
  intros Hn Hf. rewrite land127. pose proof (Z.mod_pos_bound n 128).
  destruct (group_byte (n mod 128)) as (? & ? & ? & ? & ?); [lia|].
  destruct Hf as [->| ->]; [rewrite Z.lor_0_r|]; split_and!; try done. unfold is_byte. lia.
Qed.

(** Reading one encoded number whose last byte carries [flag]. *)
Lemma read_vi r f (s : S) n flag rest :
  0 <= n < 128 ^ Z.of_nat (Datatypes.S r) -> in_type t n -> flag = 0 \/ flag = 128 ->
  (flag = 128 -> in_type t (n + 1)) ->
  stream_ok s -> unread s = vi (Datatypes.S r) n flag ++ rest ->
  exists s', unread s' = rest /\ stream_ok s' /\
    read_varint_loop t (length (vi (Datatypes.S r) n flag) + f) s 0 =
    if flag =? 0 then Some (Ret (n, s')) else read_varint_loop t f s' (n + 1).
Proof.
  assert (forall v m, in_type t v -> 0 <= m <= v -> in_type t m) as Hmono.
  { intros v m. unfold in_type, in_s, in_u. pose proof (bits_cases t).
    assert (0 < 2 ^ (bits t - 1)) by (apply Z.pow_pos_nonneg; lia).
    destruct (signed t); lia. }
  assert (forall v, in_type t v -> cast t v = v) as Hcast.
  { intros v. unfold in_type, cast. pose proof (bits_cases t).
    destruct (signed t); [apply wrapS_id; lia|apply wrapU_id]. }
  revert f s n flag rest. induction r as [|r IH]; intros f s n flag rest Hn Ht Hf Hf1 Hs Hu;
    rewrite vi_S in *; destruct (group_value n flag (proj1 Hn) Hf) as (Hc & Hv & Hfl);
    pose proof (Z.mod_pos_bound n 128); pose proof (Z.div_mod n 128);
    destruct (n <=? 127) eqn:E; bool_to_prop;
    try (destruct (room_S n 0 E) as [? [=]]; tauto).
  1-2: cbn [length Nat.add];
    edestruct (read_group f s 0) as (s' & ? & ? & ->);
    [exact Hc|exact Hs|exact Hu|rewrite Hv; apply (Hmono n); [done|lia]|lia
    |apply (Hmono n); [done|lia]|];
    exists s'; split_and!; [done|done|]; rewrite Hfl, Hv, Z.mod_small by lia;
    cbn [Z.mul Z.add]; destruct Hf as [->| ->]; [done|]; cbn; rewrite Hcast; auto.
  pose proof (next_group n (Datatypes.S r) E (proj2 Hn)).
  assert (n / 128 * 128 + n mod 128 = n) as Hdm by lia.
  rewrite <- app_assoc in Hu.
  edestruct (IH (Datatypes.S f) s (n / 128 - 1) 128) as (s1 & Hu1 & Hs1 & Hr1);
    [done|apply (Hmono n); [done|lia]|by right
    |intros; apply (Hmono n); [done|lia]|done|exact Hu|].
  rewrite length_app, <- Nat.add_assoc. cbn [length Nat.add].
  change (length [?x]) with 1%nat. cbn [Nat.add] in Hr1 |- *. rewrite Hr1.
  cbn [Z.eqb]. rewrite Z.sub_add.
  edestruct (read_group f s1 (n / 128)) as (s' & ? & ? & ->);
    [exact Hc|exact Hs1|exact Hu1|by rewrite Hv, Hdm|lia|apply (Hmono n); [done|lia]|].
  exists s'. split_and!; [done|done|]. rewrite Hfl, Hv, Hdm.
  destruct Hf as [->| ->]; [done|]. cbn. rewrite Hcast; auto.
Qed.
End reading.

Lemma foldr_write_tmp {St} `{OStream St} `{!OStreamOk St} (s : St) l :
  is_bytes l -> l <> [] ->
  foldr (fun c s => WRITEDATA HUCH s c) s l = Serialize.write s (reverse l).
Proof.
  intros Hl Hne. destruct l as [|x l _] using rev_ind; [done|].
  apply Forall_app in Hl as [Hl [Hx _]%Forall_cons]. rewrite foldr_app. cbn [foldr].
  unfold WRITEDATA at 2.
  assert (to_bytes HUCH x = [x]) as ->
    by (unfold to_bytes; cbn; f_equal; apply Z.mod_small; done).
  rewrite foldr_write_bytes, reverse_app by done. done.
Qed.

(** ** Properties *)

(** C26: [WriteVarInt] never leaves its buffer, writes as many bytes as
    [GetSizeOfVarInt] announces, and [ReadVarInt] reads the number back and
    stops behind it, for every non-negative value of every integer type. *)
Theorem varint_roundtrip (t : cint) (n : Z) {O I} `{OStreamOk O} `{IStreamOk I}
    (os : O) (ist : I) (rest : bytes) :
  in_type t n -> 0 <= n -> stream_ok ist -> unread ist = varint_bytes t n ++ rest ->
  WriteVarInt t os n = Ret (Serialize.write os (varint_bytes t n)) /\
  (length (varint_bytes t n) <= varint_buf t)%nat /\
  GetSizeOfVarInt t n = Some (zlen (varint_bytes t n)) /\
  exists ist', ReadVarInt t (varint_buf t) ist = Some (Ret (n, ist')) /\ unread ist' = rest.
Proof.
  intros Ht Hn Hs Hu. pose proof (room_enough t n Ht Hn) as Hr.
  pose proof (length_vi (varint_buf t) n 0) as Hl.
  unfold varint_bytes, WriteVarInt, GetSizeOfVarInt, ReadVarInt in *.
  assert (exists b, varint_buf t = S b) as [b Hb] by (destruct t; vm_compute; eauto).
  rewrite Hb in *. split_and!; [|done| |].
  - rewrite varint_digits_vi by done. cbn [app]. rewrite bool_decide_eq_true_2 by done. 
    change (Ret ?x ≫= ?f) with (f x). cbv beta.
    rewrite foldr_write_tmp, reverse_involutive; [done| |].
    + apply Forall_reverse. apply is_bytes_vi; auto.
    + intros E%(f_equal length). rewrite length_reverse, vi_S in E.
      case_match; [done|]. rewrite length_app in E. cbn in E. lia.
  - rewrite (size_varint_loop_vi b n 0) by done. done.
  - destruct (read_vi t b (S b - length (vi (S b) n 0)) ist n 0 rest) as (ist' & ? & ? & Hread);
      [done|done|by left|done|done|done|].
    exists ist'. split; [|done].
    by replace (length (vi (S b) n 0) + (S b - length (vi (S b) n 0)))%nat with (S b) in Hread by lia.
Qed.

(** 65535 is written as 82 FE 7F; the table of the source says 82 FD 7F. *)
Lemma varint_roundtrip_witness :
  WriteVarInt HUN (CDataStream.make [] 0) 65535 =
    Ret (Serialize.write (CDataStream.make [] 0) [130; 254; 127]) /\
  (length (varint_bytes HUN 65535) <= varint_buf HUN)%nat /\
  GetSizeOfVarInt HUN 65535 = Some (zlen (varint_bytes HUN 65535)) /\
  exists ist', ReadVarInt HUN (varint_buf HUN) (CDataStream.make [130; 254; 127; 9] 0) =
    Some (Ret (65535, ist')) /\ unread ist' = [9].
Proof.
  assert (varint_bytes HUN 65535 = [130; 254; 127]) as E by (vm_compute; reflexivity).
  rewrite <- E at 1.
  apply (varint_roundtrip HUN 65535 (CDataStream.make [] 0)
           (CDataStream.make [130; 254; 127; 9] 0) [9]);
    [by apply (bool_decide_eq_true _)|lia|by apply (bool_decide_eq_true _)|reflexivity].
Defined.

End VarInt.
