(* ===== verification/ClassSerialize.v ===== *)
(** * Classes that serialize their members: [IMPLEMENT_SERIALIZE] of [src/hserialize.h]

    The macro gives a class [GetSerializeSize], [Serialize] and [Unserialize] that run
    the same [READWRITE] statements under three action tags.  A class is the list
    of the types it names in its statements, an object the tuple of their values.
    Such a class is [Serializable] itself, so it goes where any other does: in
    another class, a vector, a map, through any stream; and its round trip and type
    soundness follow from its members'. *)

From S2P Require Import Prelude StdString OrdMap Serialize SerializeProofs DataStream SerializeTyped.

(** ** Definitions *)

Record field : Type := Field { f_type : Type; f_ser : Serializable f_type }.

#[global] Arguments Field f_type {f_ser}.
#[export] Existing Instance f_ser.

(** The members of a class, in the order of its statements. *)
Fixpoint tuple (fs : list field) : Type :=
  match fs with [] => unit | f :: fs => (f_type f * tuple fs)%type end.

Record object (fs : list field) : Type := Obj { members : tuple fs }.
#[global] Arguments Obj {fs} _.
#[global] Arguments members {fs} _.

(** [{statements}] under each tag: [nSerSize] and the stream go from one to the next. *)
Fixpoint size_statements (fs : list field) (nSerSize : Z) : tuple fs -> Z :=
  match fs with
  | [] => fun _ => nSerSize
  | f :: fs => fun o => size_statements fs (u64 (nSerSize + SerReadWrite_size o.1)) o.2
  end.

Fixpoint ser_statements {S} `{OStream S} (fs : list field) (s : S) (nSerSize : Z) : tuple fs -> S * Z :=
  match fs with
  | [] => fun _ => (s, nSerSize)
  | f :: fs => fun o => let '(s, n) := SerReadWrite_ser s o.1 in ser_statements fs s (u64 (nSerSize + n)) o.2
  end.

Fixpoint unser_statements {S} `{IStream S} (fs : list field) (s : S) (nSerSize : Z) : res (tuple fs * S * Z) :=
  match fs with
  | [] => Ret (tt, s, nSerSize)
  | f :: fs => '(x, s, n) ← SerReadWrite_unser (T := f_type f) s;
               '(o, s, n) ← unser_statements fs s (u64 (nSerSize + n));
               Ret ((x, o), s, n)
  end.

#[export] Instance class_serializable (fs : list field) : Serializable (object fs) := {|
  GetSerializeSize o := size_statements fs 0 (members o);
  Serialize _ _ s o := (ser_statements fs s 0 (members o)).1;
  Unserialize _ _ s := '(o, s, _) ← unser_statements fs s 0; Ret (Obj o, s)
|}.

(** [FLATDATA(obj)] of [n] bytes. *)
Record flat (n : Z) : Type := Flat { flat_bytes : bytes }.
#[global] Arguments Flat {n} _.
#[global] Arguments flat_bytes {n} _.

#[export] Instance flat_serializable (n : Z) : Serializable (flat n) := {|
  GetSerializeSize _ := u64 n;
  Serialize _ _ s o := Serialize.write s (flat_bytes o);
  Unserialize _ _ s := '(b, s) ← read s n; Ret (Flat b, s)
|}.

(** ** Round trips *)

(** Every member's type promises [SerializableOk]. *)
Fixpoint fields_ok (fs : list field) : Type :=
  match fs with [] => unit | f :: fs => (SerializableOk (f_type f) * fields_ok fs)%type end.

Existing Class fields_ok.
#[export] Instance fields_ok_nil : fields_ok [] := tt.
#[export] Instance fields_ok_cons (f : field) fs (H : SerializableOk (f_type f)) (Hfs : fields_ok fs) : fields_ok (f :: fs) := (H, Hfs).

Fixpoint class_enc (fs : list field) : fields_ok fs -> tuple fs -> bytes :=
  match fs with
  | [] => fun _ _ => []
  | f :: fs => fun H o => @enc _ _ H.1 o.1 ++ class_enc fs H.2 o.2
  end.

Fixpoint class_valid (fs : list field) : fields_ok fs -> tuple fs -> Prop :=
  match fs with
  | [] => fun _ _ => True
  | f :: fs => fun H o => @valid _ _ H.1 o.1 /\ class_valid fs H.2 o.2
  end.

(** A stream that has been written to, so that an empty write is none. *)
Lemma ser_statements_enc {S} `{OStream S} `{!OStreamOk S} fs (Hok : fields_ok fs) (s : S) b n (o : tuple fs) :
  (ser_statements fs (Serialize.write s b) n o).1 = Serialize.write s (b ++ class_enc fs Hok o).
Proof.
  revert b n. induction fs as [|f fs IH]; intros b n; cbn; [by rewrite app_nil_r|].
  destruct Hok as [Hf Hok]. by rewrite Serialize_enc, write_write, (IH Hok), app_assoc.
Qed.

Lemma size_statements_enc fs (Hok : fields_ok fs) n (o : tuple fs) : class_valid fs Hok o ->
  u64 (size_statements fs n o) = u64 (n + zlen (class_enc fs Hok o)).
Proof.
  revert n. induction fs as [|f fs IH]; intros n; cbn; [intros _; by rewrite Z.add_0_r|].
  destruct Hok as [Hf Hok]. intros [Hv Hvs]. rewrite (IH Hok) by done. unfold SerReadWrite_size.
  rewrite size_enc by done. cbn. rewrite u64_add_l, zlen_app. rewrite (Z.add_comm n), <- Z.add_assoc, u64_add_l. f_equal. lia.
Qed.

Lemma unser_statements_enc {S} `{IStream S} `{!IStreamOk S} fs (Hok : fields_ok fs) (s : S) n (o : tuple fs) rest :
  class_valid fs Hok o -> stream_ok s -> unread s = class_enc fs Hok o ++ rest ->
  exists s' n', unser_statements fs s n = Ret (o, s', n') /\ unread s' = rest /\ stream_ok s'.
Proof.
  revert s n. induction fs as [|f fs IH]; intros s n; cbn.
  - destruct o. intros _ Hs Hu. by exists s, n.
  - destruct Hok as [Hf Hok], o as [x o]. cbn. intros [Hv Hvs] Hs Hu. rewrite <- app_assoc in Hu. unfold SerReadWrite_unser.
    destruct (Unserialize_enc s x _ Hv Hs Hu) as (s1 & -> & Hu1 & Hs1). cbn [mbind res_bind].
    destruct (IH Hok o s1 (u64 (n + 0)) Hvs Hs1 Hu1) as (s' & n' & -> & Hu' & Hs'). cbn [mbind res_bind].
    by exists s', n'.
Qed.

(** The bytes of an object are its members' one after the other.  A class without
    members writes nothing at all. *)
#[export] Program Instance class_ok (f : field) (fs : list field) (Hok : fields_ok (f :: fs)) : SerializableOk (object (f :: fs)) := {|
  enc o := class_enc (f :: fs) Hok (members o);
  valid o := class_valid (f :: fs) Hok (members o)
|}.
Next Obligation.
  intros f fs [Hf Hok] S ? ? s [o]. cbn. by rewrite Serialize_enc, (ser_statements_enc _ Hok).
Qed.
Next Obligation.
  intros f fs Hok [o] Hv. cbn [members] in *.
  assert (forall fs n (o : tuple fs), u64 n = n -> u64 (size_statements fs n o) = size_statements fs n o) as Hu.
  { clear. induction fs as [|f fs IH]; intros n o Hn; [done|]. apply (IH _ o.2). ints. }
  change (GetSerializeSize (Obj o)) with (size_statements (f :: fs) 0 o).
  by rewrite <- (Hu _ 0 o), (size_statements_enc _ Hok).
Qed.
Next Obligation.
  intros f fs Hok S ? ? s [o] rest Hv Hs Hu. cbn [members] in *.
  destruct (unser_statements_enc _ Hok s 0 o rest Hv Hs Hu) as (s' & n & E & Hu' & Hs').
  exists s'. split; [|done]. unfold Unserialize, class_serializable. by rewrite E.
Qed.

#[export] Program Instance flat_ok (n : Z) : SerializableOk (flat n) := {|
  enc o := flat_bytes o;
  valid o := zlen (flat_bytes o) = n
|}.
Next Obligation. done. Qed.
Next Obligation. intros n [b] <-. done. Qed.
Next Obligation.
  intros n S ? ? s [b] rest <- Hs Hu. cbn in *. destruct (read_ok s b rest Hs Hu) as (s' & -> & Hu' & Hs'). by exists s'.
Qed.

(** ** Type soundness *)

Fixpoint fields_typed (fs : list field) : Type :=
  match fs with [] => unit | f :: fs => (UnserializeTyped (f_type f) * fields_typed fs)%type end.

Existing Class fields_typed.
#[export] Instance fields_typed_nil : fields_typed [] := tt.
#[export] Instance fields_typed_cons (f : field) fs (H : UnserializeTyped (f_type f)) (Hfs : fields_typed fs) : fields_typed (f :: fs) := (H, Hfs).

Fixpoint class_typed (fs : list field) : fields_typed fs -> tuple fs -> Prop :=
  match fs with
  | [] => fun _ _ => True
  | f :: fs => fun H o => @typed _ _ H.1 o.1 /\ class_typed fs H.2 o.2
  end.

Lemma unser_statements_typed {S} `{IStream S} `{!IStreamTyped S} fs (Ht : fields_typed fs) (s : S) n o s' n' :
  bytes_ok s -> unser_statements fs s n = Ret (o, s', n') -> class_typed fs Ht o /\ bytes_ok s'.
Proof.
  revert s n o. induction fs as [|f fs IH]; intros s n o Hs; cbn; [by intros [= _ <- _]|].
  destruct Ht as [Hf Ht]. intros Hr. unfold SerReadWrite_unser in Hr.
  apply res_bind_ret in Hr as ([[x s1] n1] & Hx & Hr). apply res_bind_ret in Hx as ([x1 s2] & Hx & E).
  injection E as <- <- <-. apply Unserialize_typed in Hx as [Hx Hs1]; [|done].
  apply res_bind_ret in Hr as ([[o1 s3] n3] & Ho & E). injection E as <- <- <-.
  destruct (IH Ht _ _ _ Hs1 Ho). done.
Qed.

#[export] Program Instance object_typed (fs : list field) (Ht : fields_typed fs) : UnserializeTyped (object fs) := {|
  typed o := class_typed fs Ht (members o)
|}.
Next Obligation.
  intros fs Ht S ? ? s [o] s' Hs Hr. apply res_bind_ret in Hr as ([[o1 s1] n1] & Ho & E).
  injection E as <- <-. by eapply unser_statements_typed.
Qed.

#[export] Program Instance flat_typed (n : Z) (Hn : 0 <= n) : UnserializeTyped (flat n) := {|
  typed o := is_bytes (flat_bytes o) /\ zlen (flat_bytes o) = n
|}.
Next Obligation.
  intros n Hn S ? ? s [b] s' Hs Hr. apply res_bind_ret in Hr as ([b1 s1] & Hb & E). injection E as <- <-.
  apply read_typed in Hb as (? & ? & ?); done.
Qed.

(** ** A class in a vector, in a stream *)

Module Demo.

(** [IMPLEMENT_SERIALIZE(READWRITE(name); READWRITE(age); READWRITE(FLATDATA(mac));)] *)
Definition person : list field := [Field sstring; Field (val HUN); Field (flat 2)].

Definition ada : object person := Obj (fs := person) (SStr (str "ada"), (@Val HUN 36, (@Flat 2 [1; 2], tt))).
Definition bob : object person := Obj (fs := person) (SStr [], (@Val HUN 7, (@Flat 2 [3; 255], tt))).

#[export] Instance person_size : CppSize (object person).
Proof. exists 40. lia. Defined.

Example person_bytes : CDataStream.vch (CDataStream.shl (CDataStream.make [] 0) ada) = [3; 97; 100; 97; 36; 0; 0; 0; 1; 2].
Proof. vm_compute. reflexivity. Qed.

(** Both promises are found for a vector of them. *)
#[export] Instance people_ok : SerializableOk (list (object person)) := _.
#[export] Instance mac_typed : UnserializeTyped (flat 2).
Proof. apply flat_typed. lia. Defined.
#[export] Instance people_typed : UnserializeTyped (object person) := _.

Definition show (o : object person) : bytes * Z * bytes :=
  let '(name, (age, (mac, _))) := members o in (chars name, num age, flat_bytes mac).

Example people_roundtrip :
  match CDataStream.shr (T := list (object person)) (CDataStream.shl (CDataStream.make [] 0) [ada; bob]) with
  | Ret (l, s) => (map show l, CDataStream.eof s)
  | Throw _ => ([], false)
  end = ([([97; 100; 97], 36, [1; 2]); ([], 7, [3; 255])], true).
Proof. vm_compute. reflexivity. Qed.

Example people_size : zlen (enc [ada; bob]) = 18 /\ GetSerializeSize [ada; bob] = 18.
Proof. split; vm_compute; reflexivity. Qed.

End Demo.
