(* ===== verification/AutoFile.v ===== *)
(** * Serialization to files and wrappers: [CAutoFile], [CFlatData], [CVarInt] of [src/hserialize.h]

    [CAutoFile] is a stream over a [FILE]: with the laws of [Serialize] and
    [SerializeProofs], every serializable value goes through a file. *)

From S2P Require Import Prelude StdString OrdMap Serialize SerializeProofs DataStream.

Module CAutoFile.

(** A file as its content before and behind the position, and the room left on its device;
    the standard streams are not closed. *)
Record FILE : Type := File { before : bytes; behind : bytes; room : nat; standard : bool }.

(** [undefined] is set by an operation on a null [file]. *)
Record t : Type := Mk { file : option FILE; state : Z; exceptmask : Z; undefined : bool; closed : list FILE }.

Definition CAutoFile (filenew : option FILE) (garbage : Z) : t := Mk filenew 0 garbage false [].

Definition fclose (s : t) : t :=
  Mk None (state s) (exceptmask s) (undefined s)
    (match file s with Some f => if standard f then closed s else f :: closed s | None => closed s end).

Definition dtor : t -> t := fclose.

Definition release (s : t) : option FILE * t := (file s, Mk None (state s) (exceptmask s) (undefined s) (closed s)).
Definition assign (pnew : option FILE) (s : t) : option FILE * t := (pnew, Mk pnew (state s) (exceptmask s) (undefined s) (closed s)).
Definition is_null (s : t) : bool := match file s with None => true | Some _ => false end.

(** [short] arithmetic. *)
Definition setstate (b : Z) (s : t) : t := Mk (file s) (Z.lor (state s) b) (exceptmask s) (undefined s) (closed s).
Definition good (s : t) : bool := state s =? 0.
Definition clear (n : Z) (s : t) : t := Mk (file s) n (exceptmask s) (undefined s) (closed s).
Definition exceptions (mask : Z) (s : t) : Z * t := (exceptmask s, setstate 0 (Mk (file s) (state s) mask (undefined s) (closed s))).

(** [fwrite]: what there is room for, over or behind what the file holds. *)
Definition fwrite (b : bytes) (f : FILE) : FILE :=
  let w := take (room f) b in
  File (before f ++ w) (drop (length w) (behind f)) (room f - length w) (standard f).

(** The count [fwrite] returns is ignored. *)
Definition write (s : t) (b : bytes) : t :=
  match file s with
  | None => Mk None (state s) (exceptmask s) true (closed s)
  | Some f => Mk (Some (fwrite b f)) (state s) (exceptmask s) (undefined s) (closed s)
  end.

(** So is the one of [fread]: after a short read the rest of the destination is what it was,
    which is not in the file. *)
Definition read (s : t) (nSize : Z) : res (bytes * t) :=
  match file s with
  | None => Throw UB
  | Some f =>
    let got := take (Z.to_nat nSize) (behind f) in
    _ ← check_ub (nSize <=? zlen got);
    Ret (got, Mk (Some (File (before f ++ got) (drop (length got) (behind f)) (room f) (standard f))) (state s) (exceptmask s) (undefined s) (closed s))
  end.

#[export] Instance ostream : OStream t := write.
#[export] Instance istream : IStream t := read.

Definition GetSerializeSize {T} `{Serializable T} (obj : T) : Z := u32 (Serialize.GetSerializeSize obj).
Definition shl {T} `{Serializable T} (s : t) (obj : T) : t := Serialize s obj.
Definition shr {T} `{Serializable T} (s : t) : res (T * t) := Unserialize s.

(** ** Properties *)

Lemma take_room n (a b : bytes) : take n (a ++ b) = take n a ++ take (n - length (take n a)) b.
Proof.
  rewrite take_app, length_take. f_equal. destruct (decide (n <= length a)%nat); [|f_equal; lia].
  by rewrite !(proj2 (Nat.sub_0_le _ _)) by lia.
Qed.

Lemma fwrite_fwrite f a b : fwrite b (fwrite a f) = fwrite (a ++ b) f.
Proof.
  unfold fwrite. cbn [before behind room standard]. rewrite take_room, length_app, drop_drop, <- app_assoc. f_equal. lia.
Qed.

#[global] Instance ostream_ok : OStreamOk t.
Proof.
  split. intros [[f|] st ex ub cl] a b; [|done]. unfold Serialize.write, ostream, write. cbn [file state exceptmask undefined closed].
  by rewrite fwrite_fwrite.
Qed.

#[global] Instance istream_ok : IStreamOk t.
Proof.
  refine {| unread s := match file s with Some f => behind f | None => [] end;
            stream_ok s := match file s with Some _ => True | None => False end |}.
  intros [[f|] st ex ub cl] a b Hs Hu; cbn [file] in *; [|done].
  unfold Serialize.read, istream, read. cbn [file]. rewrite Hu. unfold zlen. rewrite Nat2Z.id, take_app_length, Z.leb_refl.
  cbn [check_ub mbind res_bind]. eexists. split; [reflexivity|]. cbn [file behind]. split; [|done]. by rewrite drop_app_length.
Defined.

(** The file a program opens again at its start. *)
Definition reopen (f : FILE) : FILE := File [] (before f ++ behind f) (room f) (standard f).

(** What is written to a new file and read from its start again is what was written, for
    every serializable type, when the device had room for it. *)
Theorem file_roundtrip {T U} `{SerializableOk T} `{SerializableOk U} n (x : T) (y : U) garbage :
  valid x -> valid y -> zlen (enc x ++ enc y) <= Z.of_nat n ->
  exists f s1 s2, file (shl (shl (CAutoFile (Some (File [] [] n false)) garbage) x) y) = Some f /\
    shr (CAutoFile (Some (reopen f)) garbage) = Ret (x, s1) /\ shr s1 = Ret (y, s2).
Proof.
  intros Hx Hy Hn. unfold shl, shr. rewrite !Serialize_enc, write_write by done.
  unfold Serialize.write at 1, ostream at 1, write. cbn [file CAutoFile].
  eexists. unfold fwrite. cbn [before behind room standard app]. rewrite firstn_all2 by (unfold zlen in Hn; lia). rewrite drop_nil.
  destruct (Unserialize_enc (CAutoFile (Some (reopen (File (enc x ++ enc y) [] (n - length (enc x ++ enc y)) false))) garbage) x (enc y))
    as (s1 & E1 & Hu & Hs1); [done|done|cbn; by rewrite app_nil_r|].
  destruct (Unserialize_enc s1 y []) as (s2 & E2 & _); [done|done|by rewrite app_nil_r|]. by exists s1, s2.
Qed.

(** A full device is not noticed: the state stays good, and what is read back is not there. *)
Theorem full_device {T} `{SerializableOk T} n (x : T) garbage :
  Z.of_nat n < zlen (enc x) ->
  let s := shl (CAutoFile (Some (File [] [] n false)) garbage) x in
  good s = true /\ file s = Some (File (take n (enc x)) [] 0 false).
Proof.
  intros Hn s. unfold s, shl. rewrite Serialize_enc by apply ostream_ok. split; [done|]. unfold Serialize.write, ostream, write. cbn [file CAutoFile].
  unfold fwrite. cbn [before behind room standard app]. rewrite drop_nil, length_take. do 2 f_equal. unfold zlen in Hn. lia.
Qed.

(** A file that ends within a value. *)
Example short_file : shr (T := val HN) (CAutoFile (Some (File [] [1; 2] 0 false)) 0) = Throw UB.
Proof. by vm_compute. Qed.

(** An object without a file. *)
Example null_file : undefined (shl (CAutoFile None 0) (@Val HN 1)) = true.
Proof. by vm_compute. Qed.

Lemma file_roundtrip_witness :
  exists f s1 s2, file (shl (shl (CAutoFile (Some (File [] [] 100 false)) 0) (SStr (str "ab"))) (@Val HN (-5))) = Some f /\
    shr (CAutoFile (Some (reopen f)) 0) = Ret (SStr (str "ab"), s1) /\ shr s1 = Ret (@Val HN (-5), s2).
Proof. apply (file_roundtrip 100); [cbn; by apply (bool_decide_eq_true _)|cbn; by apply (bool_decide_eq_true _)|by vm_compute]. Defined.

Lemma full_device_witness : good (shl (CAutoFile (Some (File [] [] 2 false)) 0) (@Val HN 7)) = true.
Proof. apply (full_device 2 (@Val HN 7) 0). by vm_compute. Defined.

End CAutoFile.

(** ** The wrappers *)

Module CFlatData.

(** The bytes from [pbegin] to [pend]. *)
Definition t : Type := bytes.

Definition GetSerializeSize (s : t) : Z := zlen s.
Definition Serialize {S} `{OStream S} (s : S) (d : t) : S := write s d.
Definition Unserialize {S} `{IStream S} (s : S) (d : t) : res (t * S) := read s (zlen d).

Lemma flat_roundtrip {S} `{IStreamOk S} (s : S) (d old : t) rest :
  zlen old = zlen d -> stream_ok s -> unread s = d ++ rest ->
  exists s', Unserialize s old = Ret (d, s') /\ unread s' = rest /\ stream_ok s'.
Proof. intros Hl Hs Hu. unfold Unserialize. rewrite Hl. by apply read_ok. Qed.

End CFlatData.

Module CVarInt.

(** The variable it refers to. *)
Definition GetSerializeSize (t : cint) (n : Z) : option Z := GetSizeOfVarInt t n.
Definition Serialize {S} `{OStream S} (t : cint) (s : S) (n : Z) : res S := WriteVarInt t s n.
Definition Unserialize {S} `{IStream S} (t : cint) (fuel : nat) (s : S) : option (res (Z * S)) := ReadVarInt t fuel s.
Definition WrapVarInt (n : Z) : Z := n.

End CVarInt.
