(* ===== verification/HMstr.v ===== *)
(** * [HMstr]: the string map of [src/hmstr.h] and [src/hmstr.cpp]

    The class extends [std::map<std::string, std::string>]: a list of pairs
    strictly sorted by key (see [OrdMap]).  [noexcept] methods that let an
    exception escape end in [std::terminate]. *)

From stdpp Require Import gmap.
From S2P Require Import Prelude StdString OrdMap HStr.

Module HMstr.
Import HStr.

(** ** Definitions *)

Definition t : Type := list (bytes * bytes).

Definition SetValue (m : t) (key val : bytes) : t :=
  match get fst key m with
  | Some _ => assign fst (key, val) m        (* fit->second = val *)
  | None => ins fst (key, val) m
  end.

Definition SetValueInt (m : t) (key : bytes) (val : Z) : t := SetValue m key (FromN val).

(** [out]: what the format and its arguments print. *)
Definition SetValueFormat (m : t) (key : bytes) (out : option bytes) : res t := v ← vFormat out; Ret (SetValue m key v).

Definition GetValueDef (m : t) (key default_val : bytes) : bytes :=
  match get fst key m with Some kv => kv.2 | None => default_val end.

Definition GetValue (m : t) (key : bytes) : bytes := GetValueDef m key [].

Definition GetIntDef (m : t) (key : bytes) (n : Z) : res Z :=
  noexcept match get fst key m with Some kv => ToN kv.2 | None => Ret n end.

Definition GetInt (m : t) (key : bytes) : res Z := GetIntDef m key 0.

Definition IsDigit (m : t) (key : bytes) : bool := IsAllDigit (GetValue m key).

Definition Exists (m : t) (key : bytes) : bool := bool_decide (get fst key m <> None).

Definition Remove (m : t) (key : bytes) : t * Z :=
  (del fst key m, if Exists m key then 1 else 0).

Definition param_item (kv : bytes * bytes) : bytes := kv.1 ++ str "=" ++ kv.2.

Definition ToParamString (m : t) : res bytes :=
  let ss := foldl (fun ss kv => ss ++ param_item kv ++ str "&") [] m in
  substr ss 0 (u64 (zlen ss - 1)).

(** 34 is the double quote. *)
Definition json_item (kv : bytes * bytes) : bytes :=
  str "{" ++ [34] ++ kv.1 ++ [34] ++ str ":" ++ [34] ++ kv.2 ++ [34] ++ str "},".

Definition ToJson (m : t) : bytes :=
  let ss := foldl (fun ss kv => ss ++ json_item kv) (str "{ ") m in
  RemoveRight ss 1 ++ str "}".

(** ** Lemmas *)

Definition wf (m : t) : Prop := sorted fst m.

(** [m] holds the bindings of the finite map [g]. *)
Definition repr (m : t) (g : gmap bytes bytes) : Prop :=
  wf m /\ forall k, (snd <$> get (@fst bytes bytes) k m) = g !! k.

Lemma SetValue_assign (m : t) k v : SetValue m k v = assign fst (k, v) m.
Proof. unfold SetValue. destruct (get fst k m) eqn:E; [done|]. by apply (ins_assign fst (k, v)). Qed.

Lemma wf_SetValue m k v : wf m -> wf (SetValue m k v).
Proof. rewrite SetValue_assign. apply sorted_assign. Qed.

Lemma repr_SetValue m g k v : repr m g -> repr (SetValue m k v) (<[k := v]> g).
Proof.
  intros [Hw Hg]. split; [by apply wf_SetValue|]. intros k'. rewrite SetValue_assign.
  destruct (decide (k' = k)) as [->|Hk].
  - rewrite (get_assign_eq fst (k, v)) by done. by rewrite lookup_insert_eq.
  - rewrite get_assign_ne by done. by rewrite lookup_insert_ne.
Qed.

Lemma foldl_items (f : bytes * bytes -> bytes) (m : t) (s : bytes) :
  foldl (fun ss kv => ss ++ f kv) s m = s ++ concat (map f m).
Proof.
  revert s. induction m as [|kv m IH]; intros s; cbn; [by rewrite app_nil_r|].
  by rewrite IH, <- app_assoc.
Qed.

Lemma concat_sep (sep : bytes) (xs : list bytes) :
  concat (map (fun x => x ++ sep) xs) = sep_all sep xs.
Proof. induction xs as [|x xs IH]; cbn; [done|]. by rewrite IH, app_assoc. Qed.

(** [sep_all] is [join] with one more separator. *)
Lemma sep_all_join sep xs : xs <> [] -> sep_all sep xs = join sep xs ++ sep.
Proof.
  induction xs as [|x xs IH]; [done|]. intros _. destruct xs as [|y xs]; cbn [sep_all join].
  - by rewrite app_nil_r.
  - rewrite <- !app_assoc. do 2 f_equal. by apply IH.
Qed.

Lemma join_cons sep y xs : xs <> [] -> join sep (y :: xs) = y ++ sep ++ join sep xs.
Proof. by destruct xs. Qed.

Lemma zlen_join_elem sep x xs : x ∈ xs -> zlen x <= zlen (join sep xs).
Proof.
  induction xs as [|y xs IH]; [by intros ?%not_elem_of_nil|].
  destruct (decide (xs = [])) as [->|Hne]; [by intros ->%list_elem_of_singleton|].
  rewrite join_cons, !zlen_app by done.
  pose proof (zlen_nonneg sep). pose proof (zlen_nonneg (join sep xs)). pose proof (zlen_nonneg y).
  intros [->|Hin]%elem_of_cons; [lia|]. specialize (IH Hin). lia.
Qed.

(** *** Joining at a one-byte separator loses nothing *)

Lemma no_occ_char c s : no_occ [c] s <-> c ∉ s.
Proof.
  rewrite no_occ_spec. split.
  - intros H [i Hi]%list_elem_of_lookup. pose proof (lookup_lt_Some _ _ _ Hi).
    specialize (H i ltac:(lia)). rewrite (drop_S _ _ _ Hi) in H. cbn in H.
    by rewrite Z.eqb_refl in H.
  - intros H i _. destruct (drop i s) as [|d r] eqn:E; [done|]. cbn.
    rewrite andb_true_r. apply Z.eqb_neq. intros <-. apply H.
    apply list_elem_of_lookup. exists i. rewrite <- (Nat.add_0_r i), <- lookup_drop, E. done.
Qed.

Lemma app_sep_inj (c : Z) (x y r q : bytes) :
  c ∉ x -> c ∉ y -> x ++ c :: r = y ++ c :: q -> x = y /\ r = q.
Proof.
  revert y. induction x as [|a x IH]; intros [|b y] Hx Hy; cbn; intros E.
  - by injection E.
  - injection E as -> _. set_solver.
  - injection E as -> _. set_solver.
  - injection E as -> E. destruct (IH y) as [-> ->]; set_solver.
Qed.

Lemma join_inj c (xs ys : list bytes) :
  xs <> [] -> ys <> [] -> Forall (fun x => c ∉ x) xs -> Forall (fun x => c ∉ x) ys ->
  join [c] xs = join [c] ys -> xs = ys.
Proof.
  intros Hx Hy HX. revert Hx ys Hy. induction HX as [|x xs Hcx HX IH]; [done|].
  intros _ [|y ys] Hy HYs; [done|]. apply Forall_cons in HYs as [Hcy HY].
  destruct xs as [|x' xs], ys as [|y' ys]; cbn [join app].
  - by intros ->.
  - intros ->. set_solver.
  - intros <-. set_solver.
  - intros [-> E]%app_sep_inj; [|done|done]. f_equal. by apply IH.
Qed.

(** [HStr::Split] inverts [join] at a one-byte separator. *)
Lemma Split_of_join c (xs : list bytes) acc :
  xs <> [] -> Forall (fun x => c ∉ x) xs -> join [c] xs <> [] -> zlen (join [c] xs) < npos ->
  Split (join [c] xs) [c] acc 0 = Some (Ret (OK, acc ++ xs)).
Proof.
  intros Hx HX Hne Hl.
  destruct (Split_unfold (join [c] xs) [c] acc 0) as (ps & -> & Hps & Hj & HF);
    [done|done|done|lia|]. rewrite drop_0 in Hj. do 4 f_equal.
  apply (join_inj c); try done. eapply Forall_impl; [exact HF|]. apply no_occ_char.
Qed.

Lemma ToParamString_join m :
  m <> [] -> zlen (join (str "&") (map param_item m)) < 2 ^ 64 - 1 ->
  ToParamString m = Ret (join (str "&") (map param_item m)).
Proof.
  intros Hm Hl. unfold ToParamString.
  rewrite (foldl_items (fun kv => param_item kv ++ str "&")). cbn [app].
  rewrite <- (map_map param_item (fun x => x ++ str "&")), concat_sep, sep_all_join
    by (by destruct m). rewrite zlen_app. change (zlen (str "&")) with 1.
  pose proof (zlen_nonneg (join (str "&") (map param_item m))).
  rewrite u64_id by lia. rewrite substr_0 by lia. f_equal. apply take_app_length'.
  unfold zlen. lia.
Qed.

(** One entry as the object it is printed as. *)
Definition json_obj (kv : bytes * bytes) : bytes :=
  str "{" ++ [34] ++ kv.1 ++ [34] ++ str ":" ++ [34] ++ kv.2 ++ [34] ++ str "}".

Lemma json_item_obj kv : json_item kv = json_obj kv ++ str ",".
Proof. unfold json_item, json_obj. by rewrite <- !app_assoc. Qed.

Lemma RemoveRight_last s c : RemoveRight (s ++ [c]) 1 = s.
Proof.
  unfold RemoveRight. rewrite zlen_app, zlen_cons, zlen_nil. pose proof (zlen_nonneg s).
  destruct (decide (zlen s = 0)); ztest.
  - symmetry. apply zlen_le_0. lia.
  - apply take_app_length'. unfold zlen in *. lia.
Qed.

(** *** The operations on what a map represents *)

Section repr.
Context (m : t) (g : gmap bytes bytes) (Hr : repr m g).

Lemma repr_Exists k : Exists m k = bool_decide (k ∈ dom g).
Proof using Hr.
  destruct Hr as [_ Hg]. unfold Exists. apply bool_decide_ext. rewrite elem_of_dom, <- Hg, fmap_is_Some.
  destruct (get fst k m); naive_solver.
Qed.

Lemma repr_Remove k :
  repr (Remove m k).1 (delete k g) /\ (Remove m k).2 = if bool_decide (k ∈ dom g) then 1 else 0.
Proof using Hr.
  unfold Remove. cbn. rewrite repr_Exists. split; [|done]. destruct Hr as [Hw Hg].
  split; [by apply sorted_del|]. intros k'. destruct (decide (k' = k)) as [->|].
  - by rewrite get_del_eq, lookup_delete_eq.
  - by rewrite get_del_ne, lookup_delete_ne.
Qed.

Lemma repr_GetValueDef k d : GetValueDef m k d = default d (g !! k).
Proof using Hr. destruct Hr as [_ Hg]. unfold GetValueDef. rewrite <- Hg. by destruct (get fst k m). Qed.

Lemma repr_GetIntDef k d :
  GetIntDef m k d =
  match g !! k with
  | None => Ret d
  | Some v => match strtol v with
              | Some n => if bool_decide (in_s 32 n) then Ret n else Throw Terminate
              | None => Throw Terminate
              end
  end.
Proof using Hr.
  destruct Hr as [_ Hg]. unfold GetIntDef, ToN, stoi. rewrite <- Hg. destruct (get fst k m) as [[k' v]|]; [|done]. cbn.
  destruct (strtol v) as [n|]; [|done]. case_bool_decide; [by rewrite decide_True|by rewrite decide_False].
Qed.

Lemma repr_SetValueFormat k out :
  match out with
  | None => exists m', SetValueFormat m k out = Ret m' /\ repr m' (<[k := []]> g)
  | Some o => if zlen o <? HSTRING_LEN
              then exists m', SetValueFormat m k out = Ret m' /\ repr m' (<[k := c_str o]> g)
              else SetValueFormat m k out = Throw UB
  end.
Proof using Hr.
  unfold SetValueFormat, vFormat. destruct out as [o|]; [|exists (SetValue m k []); split; [done|by apply repr_SetValue]].
  destruct (zlen o <? HSTRING_LEN) eqn:E; bool_to_prop; ztest; cbn [check_ub mbind res_bind]; [|done].
  exists (SetValue m k (c_str o)). split; [done|by apply repr_SetValue].
Qed.

Lemma repr_perm : m ≡ₚ map_to_list g.
Proof using Hr.
  destruct Hr as [Hw Hg]. apply NoDup_Permutation; [by eapply sorted_NoDup|apply NoDup_map_to_list|]. intros [k v].
  rewrite elem_of_map_to_list, <- Hg, (elem_of_sorted fst (k, v) m Hw). cbn.
  split; [intros ->; done|]. destruct (get fst k m) as [[k' v']|] eqn:E; [|done]. cbn. intros [= ->].
  apply get_Some in E as [_ E]. cbn in E. by subst.
Qed.

End repr.

Lemma ToParamString_text (m : t) :
  zlen (join (str "&") (map param_item m)) < 2 ^ 64 - 1 -> ToParamString m = Ret (join (str "&") (map param_item m)).
Proof. destruct m as [|kv m]; [by vm_compute|]. by apply ToParamString_join. Qed.

Lemma ToJson_text (m : t) :
  ToJson m = match m with [] => str "{}" | _ => str "{ " ++ join (str ",") (map json_obj m) ++ str "}" end.
Proof.
  destruct m as [|kv m']; [done|]. set (m := kv :: m'). unfold ToJson. rewrite foldl_items.
  rewrite (map_ext json_item (fun kv => json_obj kv ++ str ",")) by apply json_item_obj.
  rewrite <- (map_map json_obj (fun x => x ++ str ",")), concat_sep, sep_all_join by done.
  rewrite app_assoc. etrans; [exact (f_equal (fun x => x ++ str "}") (RemoveRight_last _ 44))|].
  by rewrite <- app_assoc.
Qed.

(** ** Properties *)

(** C32: A map that holds the bindings of a finite map [g], sorted by key: every operation of the
    class (constructors and assignment aside, which are those of [std::map]) does to it what its
    name says of [g].  The three [SetValue]s bind the text, the decimal text of the number, and
    what the format prints - where that overruns the buffer nothing is defined; [Remove] and
    [Exists] say truly whether there was a binding; [GetValue] and [GetInt] fall back to their
    default where there is none, and [GetInt] of a text that does not begin with a number of an
    [int] ends the process; [IsDigit] asks for digits only, and of no binding says yes;
    [ToParamString] gives the bindings in the order of their keys, joined by equality signs and
    ampersands, of no bindings the empty text; [ToJson] gives them in the same order as objects
    of one member each. *)
Theorem map_refines (m : t) (g : gmap bytes bytes) :
  repr m g ->
  (forall k v, repr (SetValue m k v) (<[k := v]> g)) /\
  (forall k n, repr (SetValueInt m k n) (<[k := to_string n]> g)) /\
  (forall k out, match out with
     | None => exists m', SetValueFormat m k out = Ret m' /\ repr m' (<[k := []]> g)
     | Some o => if zlen o <? HSTRING_LEN
                 then exists m', SetValueFormat m k out = Ret m' /\ repr m' (<[k := c_str o]> g)
                 else SetValueFormat m k out = Throw UB
     end) /\
  (forall k, repr (Remove m k).1 (delete k g) /\ (Remove m k).2 = if bool_decide (k ∈ dom g) then 1 else 0) /\
  (forall k, Exists m k = bool_decide (k ∈ dom g)) /\
  (forall k d, GetValueDef m k d = default d (g !! k)) /\
  (forall k, GetValue m k = default [] (g !! k)) /\
  (forall k d, GetIntDef m k d =
     match g !! k with
     | None => Ret d
     | Some v => match strtol v with
                 | Some n => if bool_decide (in_s 32 n) then Ret n else Throw Terminate
                 | None => Throw Terminate
                 end
     end) /\
  (forall k, GetInt m k = GetIntDef m k 0) /\
  (forall k, IsDigit m k = true <-> Forall (fun c => isdigit c = true) (default [] (g !! k))) /\
  (m ≡ₚ map_to_list g /\
   (zlen (join (str "&") (map param_item m)) < 2 ^ 64 - 1 ->
    ToParamString m = Ret (join (str "&") (map param_item m))) /\
   ToJson m = if bool_decide (g = ∅) then str "{}" else str "{ " ++ join (str ",") (map json_obj m) ++ str "}").
Proof.
  intros Hr. pose proof Hr as [Hw Hg]. split_and!.
  - intros. by apply repr_SetValue.
  - intros. by apply repr_SetValue.
  - intros k. by apply repr_SetValueFormat.
  - intros k. by apply repr_Remove.
  - intros k. by apply repr_Exists.
  - intros k d. by apply repr_GetValueDef.
  - intros k. unfold GetValue. by apply repr_GetValueDef.
  - intros k d. by apply repr_GetIntDef.
  - done.
  - intros k. unfold IsDigit, GetValue. by rewrite IsAllDigit_spec, (repr_GetValueDef m g).
  - by apply repr_perm.
  - apply ToParamString_text.
  - rewrite ToJson_text. apply repr_perm in Hr. case_bool_decide as E.
    + subst g. rewrite map_to_list_empty in Hr. by apply Permutation_nil_r in Hr as ->.
    + destruct m as [|kv m]; [|done]. destruct E. apply map_to_list_empty_iff. by apply Permutation_nil_l in Hr.
Qed.

(** Two bindings; one is a number. *)
Lemma map_refines_witness :
  let m := [(str "a", str "12"); (str "b", str "x")] in
  repr (SetValue m (str "c") (str "2")) (<[str "c" := str "2"]> (<[str "a" := str "12"]> {[str "b" := str "x"]})) /\
  GetIntDef m (str "a") 7 = Ret 12 /\ GetIntDef m (str "b") 7 = Throw Terminate /\
  ToParamString m = Ret (str "a=12&b=x").
Proof.
  destruct (map_refines [(str "a", str "12"); (str "b", str "x")] (<[str "a" := str "12"]> {[str "b" := str "x"]}))
    as (H1 & _ & _ & _ & _ & _ & _ & H8 & _ & _ & _ & H11 & _).
  - split; [by repeat constructor|]. intros k. destruct (decide (k = str "a")) as [->|Ha]; [by rewrite lookup_insert_eq|].
    rewrite lookup_insert_ne by done. destruct (decide (k = str "b")) as [->|Hb]; [by rewrite lookup_singleton_eq|].
    rewrite lookup_singleton_ne by done. 
    destruct (get fst k _) as [kv|] eqn:E; [|done]. apply get_Some in E as [Hin <-].
    apply elem_of_cons in Hin as [->|Hin]; [done|]. by apply list_elem_of_singleton in Hin as ->.
  - split; [apply H1|]. split; [rewrite H8; by vm_compute|]. split; [rewrite H8; by vm_compute|]. apply H11. by vm_compute.
Defined.

(** An integer stored in the map is read back; a value that is no number, or
    too large for an [int], ends the process, since [GetInt] is [noexcept]. *)
Theorem GetInt_spec (m : t) k n v d :
  wf m ->
  (in_s 32 n -> GetIntDef (SetValueInt m k n) k d = Ret n) /\
  ((forall i, strtol v = Some i -> ~ in_s 32 i) ->
   GetIntDef (SetValue m k v) k d = Throw Terminate).
Proof.
  intros Hw. unfold SetValueInt, GetIntDef, ToN, FromN. rewrite !SetValue_assign.
  rewrite (get_assign_eq fst (k, to_string n)), (get_assign_eq fst (k, v)) by done. cbn [snd].
  split.
  - intros Hn. by rewrite stoi_to_string.
  - intros Hv. unfold stoi. destruct (strtol v) as [i|]; [|done].
    rewrite decide_False; [done|by apply Hv].
Qed.

Lemma GetInt_spec_witness :
  GetInt (SetValueInt [] (str "port") (-80)) (str "port") = Ret (-80) /\
  GetInt (SetValue [] (str "port") (str "http")) (str "port") = Throw Terminate.
Proof.
  split; apply (GetInt_spec [] (str "port") (-80) (str "http") 0);
    try done; by apply (bool_decide_eq_true _).
Defined.

(** The parameter string of a map splits, at '&' and then at '=', into the
    entries of the map in key order. *)
Theorem ToParamString_splits m :
  m <> [] -> zlen (join (str "&") (map param_item m)) < 2 ^ 64 - 1 ->
  Forall (fun kv => 38 ∉ kv.1 ++ kv.2 /\ 61 ∉ kv.1 ++ kv.2) m ->
  exists s, ToParamString m = Ret s /\
    Split s (str "&") [] 0 = Some (Ret (OK, map param_item m)) /\
    Forall (fun kv => Split (param_item kv) (str "=") [] 0 = Some (Ret (OK, [kv.1; kv.2]))) m.
Proof.
  intros Hm Hl HF. exists (join (str "&") (map param_item m)).
  split_and!; [by apply ToParamString_join| |].
  - apply (Split_of_join 38).
    + by destruct m.
    + apply Forall_fmap. eapply Forall_impl; [exact HF|]. cbn. unfold param_item. set_solver.
    + destruct m as [|kv [|kv' m]]; [done| |]; cbn; destruct kv as [[|a k] v]; done.
    + exact Hl.
  - rewrite Forall_forall in HF |- *. intros [k v] Hin.
    pose proof (HF _ Hin) as [_ H61]. cbn in H61.
    apply (Split_of_join 61 [k; v]); [done|repeat constructor; set_solver|by destruct k|].
    assert (zlen (param_item (k, v)) <= zlen (join (str "&") (map param_item m)))
      by (apply zlen_join_elem; by apply (list_elem_of_fmap_2 param_item)).
    unfold npos. change (join [61] [k; v]) with (param_item (k, v)). lia.
Qed.

Lemma ToParamString_splits_witness :
  exists s, ToParamString [(str "a", str "1"); (str "b", [])] = Ret s /\
    Split s (str "&") [] 0 = Some (Ret (OK, [str "a=1"; str "b="])) /\
    Forall (fun kv => Split (param_item kv) (str "=") [] 0 = Some (Ret (OK, [kv.1; kv.2])))
      [(str "a", str "1"); (str "b", [])].
Proof.
  apply (ToParamString_splits [(str "a", str "1"); (str "b", [])]); [done|by vm_compute|].
  by apply (bool_decide_eq_true _).
Defined.

(** [ToJson] of a map with entries lists one object per entry inside braces
    that open an object themselves, so the text is not a JSON value; only the
    empty map gives one. *)
Theorem ToJson_objects m :
  ToJson [] = str "{}" /\
  (m <> [] -> ToJson m = str "{ " ++ join (str ",") (map json_obj m) ++ str "}").
Proof. split; [done|]. intros Hm. rewrite ToJson_text. by destruct m. Qed.

Lemma ToJson_objects_witness :
  ToJson [(str "a", str "1")] = str "{ " ++ json_obj (str "a", str "1") ++ str "}".
Proof. by apply (ToJson_objects [(str "a", str "1")]). Defined.

End HMstr.
