(* ===== verification/NormalConf.v ===== *)
(** * Configuration files: [src/hnormalconf.h], [src/hnormalconf.cpp] and the
    reading side of [src/hfilestr.cpp]

    [LoadConfig] reads a file into a string, splits it into lines, each line at
    '=', and keeps the trimmed first two pieces as a binding.  The kernel's
    answers are parameters: whether the file opens, and the buffers that
    successive [read] calls deliver. *)

From S2P Require Import Prelude StdString OrdMap HStr HMstr.

Module HFileStr.

(** An opened file is the list of its [read] results: the bytes delivered, or
    an error; after the last one [read] gives 0. *)
Definition fd : Type := option (list (option bytes)).

Definition IsInvalid (f : fd) : bool := bool_decide (f = None).

(** [HFileHandle::ReadString]: append until [read] gives 0 or -1. *)
Fixpoint ReadString_loop (reads : list (option bytes)) (s : bytes) : bytes :=
  match reads with
  | Some (c :: buf) :: rest => ReadString_loop rest (s ++ c :: buf)
  | _ => s
  end.

Definition ReadString (reads : list (option bytes)) : bytes := ReadString_loop reads [].

Definition ReadToString (f : fd) (s : bytes) : herr * bytes :=
  match f with
  | None => (ERR_STATUS, s)
  | Some reads => (OK, ReadString reads)
  end.

End HFileStr.

Module HNormalConfig.
Import HStr.

(** ** Definitions *)

Definition MIN_CONTENT_LENGTH : Z := 10.

(** [adapt::line_br()] off Windows: a line feed. *)
Definition line_br : bytes := [10].

(** The only member is [m_conf]. *)
Definition t : Type := HMstr.t.

Definition isNoteLine (l : bytes) : res bool :=
  if zlen l <? 3 then Ret true
  else p ← substr l 0 2; Ret (bool_decide (p = str ";;")).

(** The body of the loop over the lines; [ret] is the variable of that name. *)
Definition load_line (conf : t) (ret : herr) (l : bytes) : res (t * herr) :=
  note ← isNoteLine l;
  if (note : bool) then Ret (conf, ret)
  else match Split l (str "=") [] 0 with
       | None => Throw Diverge
       | Some m =>
         '(e, vs) ← m;
         if negb (IS_OK e) then Ret (conf, e)
         else match vs with
              | k :: v :: _ => Ret (HMstr.SetValue conf (Trim k None) (Trim v None), e)
              | _ => Ret (conf, e)
              end
       end.

Fixpoint load_lines (conf : t) (ret : herr) (lines : list bytes) : res (t * herr) :=
  match lines with
  | [] => Ret (conf, ret)
  | l :: lines' => '(conf', ret') ← load_line conf ret l; load_lines conf' ret' lines'
  end.

(** [open] is what [HFileStr(strConfigFileName)] opens. *)
Definition LoadConfig (open : bytes -> HFileStr.fd) (conf : t) (strConfigFileName : bytes)
  : res (t * herr) :=
  if bool_decide (strConfigFileName = []) then Ret (conf, INVL_PARA)
  else
    let '(e, content) := HFileStr.ReadToString (open strConfigFileName) [] in
    if negb (IS_OK e) then Ret (conf, e)
    else if negb (zlen content >? MIN_CONTENT_LENGTH) then Ret (conf, SRC_ERR)
    else match Split content line_br [] 0 with
         | None => Throw Diverge
         | Some m =>
           '(ret, lines) ← m;
           if negb (IS_OK ret) then Ret (conf, ret) else load_lines conf ret lines
         end.

Definition Clear (conf : t) : t := [].
Definition ToJson (conf : t) : bytes := HMstr.ToJson conf.
Definition GetValue (conf : t) (k : bytes) : bytes := HMstr.GetValue conf k.
Definition GetValueDef (conf : t) (k d : bytes) : bytes := HMstr.GetValueDef conf k d.
Definition GetIntValue (conf : t) (k : bytes) : res Z := HMstr.GetInt conf k.
Definition GetIntValueDef (conf : t) (k : bytes) (n : Z) : res Z := HMstr.GetIntDef conf k n.
Definition Exists (conf : t) (k : bytes) : bool := HMstr.Exists conf k.
Definition SetValue (conf : t) (k v : bytes) : t := HMstr.SetValue conf k v.

(** ** The format the file is meant to have *)

(** A line is a note, or pieces separated by '='. *)
Inductive entry : Type :=
  | Note (l : bytes)
  | Pieces (ps : list bytes).

Definition render (e : entry) : bytes :=
  match e with Note l => l | Pieces ps => join (str "=") ps end.

Definition is_note (l : bytes) : bool := (zlen l <? 3) || prefixb (str ";;") l.

Definition entry_ok (e : entry) : Prop :=
  match e with
  | Note l => is_note l = true
  | Pieces ps => ps <> [] /\ Forall (fun p => 61 ∉ p) ps /\ is_note (join (str "=") ps) = false
  end.

#[export] Instance entry_ok_dec e : Decision (entry_ok e).
Proof. destruct e; cbn; apply _. Defined.

(** The first piece is the key, the second one the value; the others are lost. *)
Definition apply_entry (conf : t) (e : entry) : t :=
  match e with
  | Pieces (k :: v :: _) => HMstr.SetValue conf (Trim k None) (Trim v None)
  | _ => conf
  end.

(** ** Lemmas *)

Lemma isNoteLine_spec l : isNoteLine l = Ret (is_note l).
Proof.
  unfold isNoteLine, is_note. destruct (zlen l <? 3) eqn:E; [done|]. bool_to_prop.
  rewrite substr_0 by lia. change (Z.to_nat 2) with 2%nat. cbn [orb mbind res_bind].
  f_equal. apply eq_true_iff_eq. rewrite bool_decide_eq_true, prefixb_spec. split.
  - intros <-. exists (drop 2 l). by rewrite take_drop.
  - intros [r ->]. done.
Qed.

Lemma Split_pieces ps :
  ps <> [] -> Forall (fun p => 61 ∉ p) ps -> join (str "=") ps <> [] ->
  zlen (join (str "=") ps) < npos ->
  Split (join (str "=") ps) (str "=") [] 0 = Some (Ret (OK, ps)).
Proof. apply (HMstr.Split_of_join 61 ps []). Qed.

Lemma load_line_spec conf ret e :
  entry_ok e -> zlen (render e) < npos -> exists ret',
    load_line conf ret (render e) = Ret (apply_entry conf e, ret') /\ (ret = OK -> ret' = OK).
Proof.
  intros He Hl. unfold load_line. rewrite isNoteLine_spec. cbn [mbind res_bind].
  destruct e as [l|ps]; cbn [render entry_ok apply_entry] in *; [rewrite He; eauto|].
  destruct He as (Hne & HF & Hn). rewrite Hn.
  rewrite Split_pieces; [|done|done| |done].
  - cbn [app IS_OK bool_decide decide negb mbind res_bind]. 
    destruct ps as [|k [|v ps]]; [done| |]; eauto.
  - intros E. by rewrite E in Hn.
Qed.

Lemma load_lines_spec es conf :
  Forall entry_ok es -> Forall (fun e => zlen (render e) < npos) es ->
  load_lines conf OK (map render es) = Ret (foldl apply_entry conf es, OK).
Proof.
  intros Hok. revert conf. induction Hok as [|e es He _ IH]; intros conf; [done|].
  intros [Hl HF]%Forall_cons. cbn [map load_lines foldl].
  destruct (load_line_spec conf OK e He Hl) as (ret' & -> & Hr). cbn [mbind res_bind].
  rewrite Hr by done. by apply IH.
Qed.

Lemma wf_apply conf e : HMstr.wf conf -> HMstr.wf (apply_entry conf e).
Proof. intros. destruct e as [|[|? []]]; cbn; try done. by apply HMstr.wf_SetValue. Qed.

Lemma wf_foldl es conf : HMstr.wf conf -> HMstr.wf (foldl apply_entry conf es).
Proof. revert conf. induction es as [|e es IH]; intros conf Hw; cbn; [done|]. by apply IH, wf_apply. Qed.

(** Every line has the format. *)
Lemma line_entry l : zlen l < npos -> exists e, render e = l /\ entry_ok e.
Proof.
  intros Hl. destruct (is_note l) eqn:E; [by exists (Note l)|].
  destruct (Split_unfold l (str "=") [] 0) as (ps & _ & Hne & Hj & HF);
    [by intros ->|done|done|lia|]. rewrite drop_0 in Hj.
  exists (Pieces ps). unfold render, entry_ok. rewrite Hj. split_and!; try done.
  eapply Forall_impl; [exact HF|]. intros p. apply (HMstr.no_occ_char 61).
Qed.

Lemma lines_entries ls :
  Forall (fun l => zlen l < npos) ls -> exists es, map render es = ls /\ Forall entry_ok es.
Proof.
  induction 1 as [|l ls Hl _ (es & <- & Hes)]; [by exists []|].
  destruct (line_entry l Hl) as (e & <- & He). exists (e :: es). auto.
Qed.

Lemma join_bound sep xs n : zlen (join sep xs) < n -> Forall (fun x => zlen x < n) xs.
Proof.
  intros Hn. apply Forall_forall. intros x Hx. pose proof (HMstr.zlen_join_elem sep _ _ Hx). lia.
Qed.

(** [LoadConfig] behind its three guards. *)
Lemma LoadConfig_read open conf name content :
  name <> [] -> HFileStr.ReadToString (open name) [] = (OK, content) ->
  zlen content > MIN_CONTENT_LENGTH ->
  LoadConfig open conf name =
    match Split content line_br [] 0 with
    | None => Throw Diverge
    | Some m => '(ret, lines) ← m;
                if negb (IS_OK ret) then Ret (conf, ret) else load_lines conf ret lines
    end.
Proof.
  intros Hn Hr Hl. unfold LoadConfig. rewrite bool_decide_eq_false_2, Hr by done.
  cbn [IS_OK bool_decide decide negb]. rewrite Z.gtb_ltb. by rewrite (proj2 (Z.ltb_lt _ _)) by lia.
Qed.

(** ** Properties *)

(** C33: Loading a file binds, line by line and in order, the trimmed text before
    the first '=' to the trimmed text between the first and the second one;
    notes and lines without '=' change nothing. *)
Theorem LoadConfig_lines open conf name content es :
  name <> [] -> HFileStr.ReadToString (open name) [] = (OK, content) ->
  content = join line_br (map render es) -> MIN_CONTENT_LENGTH < zlen content < npos ->
  Forall (fun e => entry_ok e /\ 10 ∉ render e) es ->
  LoadConfig open conf name = Ret (foldl apply_entry conf es, OK).
Proof.
  intros Hn Hr Hc [Hl Hl'] HF. rewrite (LoadConfig_read open conf name content) by (done || lia).
  rewrite Hc in *. apply Forall_and in HF as [Hok Hbr].
  unfold line_br in *.
  rewrite (HMstr.Split_of_join 10 (map render es) []); [| |by apply Forall_fmap| |done].
  - cbn [app mbind res_bind IS_OK bool_decide decide negb]. apply load_lines_spec; [done|].
    pose proof (join_bound [10] _ _ Hl') as Hb. by apply Forall_fmap in Hb.
  - intros E. by rewrite E in Hl.
  - intros E. by rewrite E in Hl.
Qed.

Lemma LoadConfig_lines_witness :
  LoadConfig (fun _ => Some [Some (str "a = 1;"); Some ([10] ++ str ";; a=3" ++ [10] ++ str "b=2=x")])
    [] (str "app.conf") = Ret ([(str "a", str "1;"); (str "b", str "2")], OK).
Proof.
  apply (LoadConfig_lines _ [] (str "app.conf") (str "a = 1;" ++ [10] ++ str ";; a=3" ++ [10] ++ str "b=2=x")
    [Pieces [str "a "; str " 1;"]; Note (str ";; a=3"); Pieces [str "b"; str "2"; str "x"]]);
    [done|done|done|split; by vm_compute|by apply (bool_decide_eq_true _)].
Defined.

(** Loading never throws and never hangs, keeps the map sorted, leaves it alone
    on an error, and succeeds exactly when the file opens and holds more than
    ten bytes. *)
Theorem LoadConfig_total open conf name :
  HMstr.wf conf -> (forall reads, open name = Some reads -> zlen (HFileStr.ReadString reads) < npos) ->
  exists conf' e, LoadConfig open conf name = Ret (conf', e) /\ HMstr.wf conf' /\
    (e <> OK -> conf' = conf) /\
    (e = OK <-> name <> [] /\ exists reads, open name = Some reads /\
                MIN_CONTENT_LENGTH < zlen (HFileStr.ReadString reads)).
Proof.
  intros Hw Hl. destruct (decide (name = [])) as [->|Hn].
  { exists conf, INVL_PARA. split_and!; try done. split; [done|]. by intros [? _]. }
  destruct (open name) as [reads|] eqn:Ho.
  2:{ exists conf, ERR_STATUS. unfold LoadConfig. rewrite bool_decide_eq_false_2, Ho by done.
      split_and!; try done. split; [done|]. by intros (_ & ? & ? & _). }
  specialize (Hl _ eq_refl). set (content := HFileStr.ReadString reads) in *.
  assert (HFileStr.ReadToString (open name) [] = (OK, content)) as Hr by by rewrite Ho.
  destruct (decide (MIN_CONTENT_LENGTH < zlen content)) as [Hm|Hm].
  2:{ exists conf, SRC_ERR. unfold LoadConfig. rewrite bool_decide_eq_false_2, Hr by done.
      cbn [IS_OK bool_decide decide negb]. rewrite Z.gtb_ltb.
      rewrite (proj2 (Z.ltb_ge _ _)) by lia. split_and!; try done.
      split; [done|]. intros (_ & r' & E & ?). injection E as <-. done. }
  destruct (Split_unfold content line_br [] 0) as (ls & _ & Hne & Hj & HF);
    [intros E; by rewrite E in Hm|done|done|lia|]. rewrite drop_0 in Hj.
  pose proof Hl as Hb. rewrite <- Hj in Hb. apply join_bound in Hb.
  destruct (lines_entries ls Hb) as (es & <- & Hes).
  exists (foldl apply_entry conf es), OK. split_and!; try done.
  - apply (LoadConfig_lines _ _ _ content es); try done.
    apply Forall_and. split; [done|]. change (map render es) with (render <$> es) in HF.
    rewrite Forall_fmap in HF.
    eapply Forall_impl; [exact HF|]. intros e. apply (HMstr.no_occ_char 10).
  - by apply wf_foldl.
  - split; [|done]. intros _. eauto.
Qed.

Lemma LoadConfig_total_witness :
  exists conf' e, LoadConfig (fun _ => Some [Some (str "short")]) [] (str "f") = Ret (conf', e) /\
    HMstr.wf conf' /\ (e <> OK -> conf' = []) /\
    (e = OK <-> str "f" <> [] /\ exists reads, Some [Some (str "short")] = Some reads /\
                MIN_CONTENT_LENGTH < zlen (HFileStr.ReadString reads)).
Proof.
  apply (LoadConfig_total (fun _ => Some [Some (str "short")])); [done|].
  intros ? [= <-]. by vm_compute.
Defined.

End HNormalConfig.
