(* ===== verification/DList.v ===== *)
(** * Circular doubly linked lists on a heap

    The delay queue and the handler set of [src/detail/scheduler] keep their
    entries in rings of nodes with [m_next] and [m_prev] pointers and a sentinel
    node inside the owning object.  A heap maps addresses to nodes; a null
    pointer is [None]; following a null or dangling pointer is undefined.  The
    statements of the two components that relink nodes are [link_before] and
    [unlink]; [ring] says which list of addresses a heap holds. *)

From stdpp Require Export gmap.
From S2P Require Import Prelude.

Section nodes.
Context {A : Type}.

Record node : Type := Node { n_next : option nat; n_prev : option nat; n_data : A }.

#[local] Abbreviation heap := (gmap nat node).
Implicit Types (h : heap) (a b p q x : nat) (l : list nat).

Definition load h a : res node := match h !! a with Some n => Ret n | None => Throw UB end.

Definition ptr (o : option nat) : res nat := match o with Some a => Ret a | None => Throw UB end.

(** [a->field = v] *)
Definition upd h a (f : node -> node) : res heap :=
  match h !! a with Some n => Ret (<[a := f n]> h) | None => Throw UB end.

Definition set_next (v : option nat) (n : node) : node := Node v (n_prev n) (n_data n).
Definition set_prev (v : option nat) (n : node) : node := Node (n_next n) v (n_data n).
Definition set_data (v : A) (n : node) : node := Node (n_next n) (n_prev n) v.

Definition next_of h a : option nat := h !! a ≫= n_next.
Definition prev_of h a : option nat := h !! a ≫= n_prev.
Definition data_of h a : option A := n_data <$> h !! a.

(** [x->m_next = cur; x->m_prev = cur->m_prev; cur->m_prev = x; x->m_prev->m_next = x] *)
Definition link_before h x cur : res heap :=
  h ← upd h x (set_next (Some cur));
  nc ← load h cur;
  h ← upd h x (set_prev (n_prev nc));
  nx ← load h x;
  pr ← ptr (n_prev nx);
  h ← upd h pr (set_next (Some x));
  upd h cur (set_prev (Some x)).

(** [x->m_prev->m_next = x->m_next; x->m_next->m_prev = x->m_prev] *)
Definition unlink h x : res heap :=
  nx ← load h x;
  pr ← ptr (n_prev nx);
  h ← upd h pr (set_next (n_next nx));
  nx ← load h x;
  nt ← ptr (n_next nx);
  upd h nt (set_prev (n_prev nx)).

(** ** Rings *)

(** Neighbours in the sequence [p], [l], [q]. *)
Definition pairs p l q : list (nat * nat) := zip (p :: l) (l ++ [q]).

Definition linked h : list (nat * nat) -> Prop :=
  Forall (fun ab => next_of h ab.1 = Some ab.2 /\ prev_of h ab.2 = Some ab.1).

(** The sentinel [s] heads the ring of the nodes [l]. *)
Definition ring h s l : Prop := NoDup (s :: l) /\ linked h (pairs s l s).

Definition last_of p l : nat := default p (last l).
Definition first_of l q : nat := hd q l.

Lemma pairs_app p l1 l2 q :
  pairs p (l1 ++ l2) q =
  zip (p :: l1) l1 ++ (last_of p l1, first_of l2 q) :: zip l2 (tail l2 ++ [q]).
Proof.
  revert p. induction l1 as [|a l1 IH]; intros p.
  - by destruct l2.
  - change (pairs p ((a :: l1) ++ l2) q) with ((p, a) :: pairs a (l1 ++ l2) q). rewrite IH.
    change (zip (p :: a :: l1) (a :: l1)) with ((p, a) :: zip (a :: l1) l1).
    cbn [app]. do 3 f_equal. unfold last_of. rewrite last_cons. by destruct (last l1).
Qed.

Lemma pairs_insert p l1 x l2 q :
  pairs p (l1 ++ x :: l2) q =
  zip (p :: l1) l1 ++ (last_of p l1, x) :: (x, first_of l2 q) :: zip l2 (tail l2 ++ [q]).
Proof. rewrite pairs_app. cbn. by destruct l2. Qed.

Lemma fst_pairs p l q : map fst (pairs p l q) = p :: l.
Proof. apply fst_zip. cbn. rewrite length_app. cbn. lia. Qed.

Lemma snd_pairs p l q : map snd (pairs p l q) = l ++ [q].
Proof. apply snd_zip. cbn. rewrite length_app. cbn. lia. Qed.

Lemma NoDup_snd s l : NoDup (s :: l) -> NoDup (l ++ [s]).
Proof. intros H. eapply (NoDup_Permutation_proper _ (s :: l)); [|done]. by rewrite Permutation_app_comm. Qed.

(** Two heaps that agree on the pointers a list of neighbours reads. *)
Lemma linked_frame h h' ps :
  linked h ps ->
  Forall (fun ab => next_of h' ab.1 = next_of h ab.1 /\ prev_of h' ab.2 = prev_of h ab.2) ps ->
  linked h' ps.
Proof.
  intros H1 H2.
  apply Forall_forall. intros [a b] Hin.
  eapply (Forall_forall _ ps) in H1; [|exact Hin]. eapply (Forall_forall _ ps) in H2; [|exact Hin].
  cbn in *. destruct H2 as [-> ->]. done.
Qed.

Lemma next_of_insert h a n b :
  next_of (<[a := n]> h) b = if decide (a = b) then n_next n else next_of h b.
Proof.
  unfold next_of. case_decide; [subst; by rewrite lookup_insert_eq|by rewrite lookup_insert_ne].
Qed.

Lemma prev_of_insert h a n b :
  prev_of (<[a := n]> h) b = if decide (a = b) then n_prev n else prev_of h b.
Proof.
  unfold prev_of. case_decide; [subst; by rewrite lookup_insert_eq|by rewrite lookup_insert_ne].
Qed.

Lemma data_of_insert h a n b :
  data_of (<[a := n]> h) b = if decide (a = b) then Some (n_data n) else data_of h b.
Proof.
  unfold data_of. case_decide; [subst; by rewrite lookup_insert_eq|by rewrite lookup_insert_ne].
Qed.

(** What an assignment changes. *)
Lemma upd_next h a v : is_Some (h !! a) -> exists h', upd h a (set_next v) = Ret h' /\
  dom h' = dom h /\ (forall b, data_of h' b = data_of h b) /\ (forall b, prev_of h' b = prev_of h b) /\
  (forall b, next_of h' b = if decide (a = b) then v else next_of h b).
Proof.
  intros [n Hn]. unfold upd. rewrite Hn. eexists. split_and!; [done| | | |].
  - apply dom_insert_lookup_L. eauto.
  - intros b. rewrite data_of_insert. case_decide; [|done]. subst. unfold data_of. by rewrite Hn.
  - intros b. rewrite prev_of_insert. case_decide; [|done]. subst. unfold prev_of. by rewrite Hn.
  - intros b. by rewrite next_of_insert.
Qed.

Lemma upd_prev h a v : is_Some (h !! a) -> exists h', upd h a (set_prev v) = Ret h' /\
  dom h' = dom h /\ (forall b, data_of h' b = data_of h b) /\ (forall b, next_of h' b = next_of h b) /\
  (forall b, prev_of h' b = if decide (a = b) then v else prev_of h b).
Proof.
  intros [n Hn]. unfold upd. rewrite Hn. eexists. split_and!; [done| | | |].
  - apply dom_insert_lookup_L. eauto.
  - intros b. rewrite data_of_insert. case_decide; [|done]. subst. unfold data_of. by rewrite Hn.
  - intros b. rewrite next_of_insert. case_decide; [|done]. subst. unfold next_of. by rewrite Hn.
  - intros b. by rewrite prev_of_insert.
Qed.

Lemma upd_data h a d : is_Some (h !! a) -> exists h', upd h a (set_data d) = Ret h' /\
  dom h' = dom h /\ (forall b, next_of h' b = next_of h b) /\ (forall b, prev_of h' b = prev_of h b) /\
  (forall b, data_of h' b = if decide (a = b) then Some d else data_of h b).
Proof.
  intros [n Hn]. unfold upd. rewrite Hn. eexists. split_and!; [done| | | |].
  - apply dom_insert_lookup_L. eauto.
  - intros b. rewrite next_of_insert. case_decide; [|done]. subst. unfold next_of. by rewrite Hn.
  - intros b. rewrite prev_of_insert. case_decide; [|done]. subst. unfold prev_of. by rewrite Hn.
  - intros b. by rewrite data_of_insert.
Qed.

(** The two pointer fields are independent. *)
Lemma upd_comm h a b v w :
  (h' ← upd h a (set_next v); upd h' b (set_prev w)) =
  (h' ← upd h b (set_prev w); upd h' a (set_next v)).
Proof.
  unfold upd. destruct (decide (a = b)) as [<-|Hab].
  - destruct (h !! a) as [n|]; cbn [mbind res_bind]; [|done].
    by rewrite !lookup_insert_eq, !insert_insert_eq.
  - destruct (h !! a) as [n|] eqn:Ea, (h !! b) as [m|] eqn:Eb; cbn [mbind res_bind];
      rewrite ?lookup_insert_ne, ?Ea, ?Eb by done; try done.
    by rewrite insert_insert_ne by done.
Qed.

Lemma load_upd_ne h h' a b f : upd h a f = Ret h' -> b <> a -> load h' b = load h b.
Proof.
  unfold upd, load. intros E Hb. destruct (h !! a); [|done]. injection E as <-.
  by rewrite lookup_insert_ne.
Qed.

Lemma upd_same h a f : upd h a f = match h !! a with Some n => Ret (<[a := f n]> h) | None => Throw UB end.
Proof. done. Qed.

Lemma is_Some_dom h h' a : dom h' = dom h -> is_Some (h !! a) -> is_Some (h' !! a).
Proof. intros E. by rewrite <- !elem_of_dom, E. Qed.

Lemma load_ok h a : is_Some (h !! a) -> exists n, load h a = Ret n /\
  next_of h a = n_next n /\ prev_of h a = n_prev n /\ data_of h a = Some (n_data n).
Proof. intros [n Hn]. exists n. unfold load, next_of, prev_of, data_of. by rewrite Hn. Qed.

Lemma ring_heap h s l a : ring h s l -> a ∈ s :: l -> is_Some (h !! a).
Proof.
  intros [_ Hl] Ha. rewrite <- (fst_pairs s l s) in Ha.
  apply list_elem_of_fmap in Ha as ([c b] & -> & Hin).
  eapply Forall_forall in Hl; [|exact Hin]. destruct Hl as [Hn _]. cbn in *. unfold next_of in Hn.
  destruct (h !! c); [eauto|done].
Qed.

Lemma last_of_elem p l : last_of p l ∈ p :: l.
Proof.
  unfold last_of. destruct (last l) eqn:E; cbn; [|set_solver].
  apply last_Some_elem_of in E. set_solver.
Qed.

Lemma first_of_elem l q : first_of l q ∈ l ++ [q].
Proof. destruct l; cbn; set_solver. Qed.

(** The neighbours around a gap of the ring: both end points occur once. *)
Lemma ring_gap h s l1 l2 :
  ring h s (l1 ++ l2) ->
  next_of h (last_of s l1) = Some (first_of l2 s) /\
  prev_of h (first_of l2 s) = Some (last_of s l1) /\
  linked h (zip (s :: l1) l1) /\ linked h (zip l2 (tail l2 ++ [s])) /\
  last_of s l1 ∉ map fst (zip (s :: l1) l1 ++ zip l2 (tail l2 ++ [s])) /\
  first_of l2 s ∉ map snd (zip (s :: l1) l1 ++ zip l2 (tail l2 ++ [s])).
Proof.
  intros [Hnd Hl]. pose proof (NoDup_snd _ _ Hnd) as Hnd2.
  rewrite <- (fst_pairs s (l1 ++ l2) s), pairs_app in Hnd.
  rewrite <- (snd_pairs s (l1 ++ l2) s), pairs_app in Hnd2.
  rewrite pairs_app in Hl. unfold linked in *. apply Forall_app in Hl as [Ha Hl].
  apply Forall_cons in Hl as [[Hn Hp] Hb]. cbn in Hn, Hp.
  rewrite map_app in Hnd, Hnd2. cbn [map fst snd] in Hnd, Hnd2.
  apply NoDup_app in Hnd as (_ & Hd & [Hf _]%NoDup_cons).
  apply NoDup_app in Hnd2 as (_ & Hd2 & [Hf2 _]%NoDup_cons).
  rewrite !map_app. split_and!; try done.
  - intros [H|H]%elem_of_app; [by apply (Hd _ H), elem_of_cons; left|done].
  - intros [H|H]%elem_of_app; [by apply (Hd2 _ H), elem_of_cons; left|done].
Qed.

(** The positions around a node: each occurs once as a source and once as a target. *)
Lemma ring_node h s l1 x l2 (P := zip (s :: l1) l1) (Q := zip l2 (tail l2 ++ [s]))
    (pr := last_of s l1) (nt := first_of l2 s) :
  ring h s (l1 ++ x :: l2) ->
  next_of h pr = Some x /\ prev_of h x = Some pr /\ next_of h x = Some nt /\ prev_of h nt = Some x /\
  linked h P /\ linked h Q /\
  NoDup (map fst P ++ pr :: x :: map fst Q) /\ NoDup (map snd P ++ x :: nt :: map snd Q).
Proof.
  intros [Hnd Hl]. pose proof (NoDup_snd _ _ Hnd) as Hnd2.
  rewrite <- (fst_pairs s (l1 ++ x :: l2) s), pairs_insert, map_app in Hnd.
  rewrite <- (snd_pairs s (l1 ++ x :: l2) s), pairs_insert, map_app in Hnd2.
  rewrite pairs_insert in Hl. unfold linked in *. apply Forall_app in Hl as [Ha Hl].
  apply Forall_cons in Hl as [[Hn Hp] Hl]. apply Forall_cons in Hl as [[Hn2 Hp2] Hb]. cbn in *.
  by split_and!.
Qed.

(** Heaps that agree on the links between neighbours. *)
Lemma linked_agree h h' ps :
  linked h ps -> (forall a, a ∈ map fst ps -> next_of h' a = next_of h a) ->
  (forall b, b ∈ map snd ps -> prev_of h' b = prev_of h b) -> linked h' ps.
Proof.
  intros H Hn Hp. eapply linked_frame; [exact H|]. apply Forall_forall. intros [a b] Hin.
  split; [apply Hn; by apply (list_elem_of_fmap_2 fst) in Hin|].
  apply Hp. by apply (list_elem_of_fmap_2 snd) in Hin.
Qed.

Lemma fst_zip_elem (l k : list nat) a : a ∈ map fst (zip l k) -> a ∈ l.
Proof.
  intros ([c d] & -> & H)%list_elem_of_fmap. by apply elem_of_zip_l in H.
Qed.

Lemma snd_zip_elem (l k : list nat) a : a ∈ map snd (zip l k) -> a ∈ k.
Proof.
  intros ([c d] & -> & H)%list_elem_of_fmap. by apply elem_of_zip_r in H.
Qed.

Lemma tail_elem (l : list nat) a : a ∈ tail l -> a ∈ l.
Proof. destruct l; set_solver. Qed.

(** Linking [x] in front of the first node of [l2]. *)
Lemma link_before_ring h s l1 l2 x :
  ring h s (l1 ++ l2) -> x ∉ s :: l1 ++ l2 -> is_Some (h !! x) ->
  exists h', link_before h x (first_of l2 s) = Ret h' /\ ring h' s (l1 ++ x :: l2) /\
    (forall a, data_of h' a = data_of h a) /\ dom h' = dom h.
Proof.
  intros Hr Hx Hhx. pose proof (ring_gap _ _ _ _ Hr) as (Hn & Hp & HA & HB & Hpr & Hcur).
  set (cur := first_of l2 s) in *. set (pr := last_of s l1) in *.
  assert (cur ∈ s :: l1 ++ l2) as Hcin by (pose proof (first_of_elem l2 s); set_solver).
  assert (pr ∈ s :: l1 ++ l2) as Hpin by (pose proof (last_of_elem s l1); set_solver).
  assert (x <> cur /\ x <> pr) as [Hxc Hxp] by (split; intros ->; contradiction).
  unfold link_before.
  destruct (upd_next h x (Some cur)) as (h1 & -> & D1 & d1 & p1 & n1); [done|].
  cbn [mbind res_bind]. pose proof (ring_heap _ _ _ _ Hr Hcin) as Hhc.
  destruct (load_ok h1 cur) as (nc & -> & _ & Epc & _); [by apply (is_Some_dom h)|].
  cbn [mbind res_bind]. rewrite p1, Hp in Epc. rewrite <- Epc.
  destruct (upd_prev h1 x (Some pr)) as (h2 & -> & D2 & d2 & n2 & p2); [by apply (is_Some_dom h)|].
  cbn [mbind res_bind].
  destruct (load_ok h2 x) as (nx & -> & _ & Epx & _); [apply (is_Some_dom h); [congruence|done]|].
  cbn [mbind res_bind]. rewrite p2, decide_True in Epx by done. rewrite <- Epx. cbn [ptr mbind res_bind].
  destruct (upd_next h2 pr (Some x)) as (h3 & -> & D3 & d3 & p3 & n3);
    [apply (is_Some_dom h); [congruence|by eapply ring_heap]|]. cbn [mbind res_bind].
  destruct (upd_prev h3 cur (Some x)) as (h4 & -> & D4 & d4 & n4 & p4);
    [apply (is_Some_dom h); [congruence|done]|].
  exists h4. split_and!; [done| |congruence|congruence].
  assert (forall b, b <> x -> b <> pr -> next_of h4 b = next_of h b) as Fn
    by (intros; rewrite n4, n3, n2, n1, !decide_False; done).
  assert (forall b, b <> x -> b <> cur -> prev_of h4 b = prev_of h b) as Fp
    by (intros; rewrite p4, p3, p2, p1, !decide_False; done).
  rewrite map_app in Hpr, Hcur.
  split.
  - destruct Hr as [Hnd _]. rewrite NoDup_cons in *. destruct Hnd as [? Hnd]. split; [set_solver|].
    apply NoDup_app in Hnd as (H1 & H2 & H3). apply NoDup_app. split_and!; [done|set_solver|].
    apply NoDup_cons. split; [set_solver|done].
  - rewrite pairs_insert. fold cur pr. apply Forall_app. split; [|constructor; [|constructor]].
    + apply (linked_agree h); [done| |]; intros b Hb.
      * apply Fn; intros ->; [|set_solver]. apply fst_zip_elem in Hb. set_solver.
      * apply Fp; intros ->; [|set_solver]. apply snd_zip_elem in Hb. set_solver.
    + cbn. rewrite n4, n3, decide_True, p4, p3, p2, decide_False, decide_True by done. done.
    + cbn. rewrite n4, n3, decide_False, n2, n1, decide_True, p4, decide_True by done. done.
    + apply (linked_agree h); [done| |]; intros b Hb.
      * apply Fn; intros ->; [|set_solver]. apply fst_zip_elem in Hb. set_solver.
      * apply Fp; intros ->; [|set_solver]. apply snd_zip_elem in Hb.
        apply elem_of_app in Hb as [Hb%tail_elem|Hb]; set_solver.
Qed.

(** Unlinking a node of the ring; its own pointers stay. *)
Lemma unlink_ring h s l1 x l2 :
  ring h s (l1 ++ x :: l2) ->
  exists h', unlink h x = Ret h' /\ ring h' s (l1 ++ l2) /\
    (forall a, data_of h' a = data_of h a) /\ dom h' = dom h.
Proof.
  intros Hr. pose proof (ring_node _ _ _ _ _ Hr) as (Hn & Hp & Hn2 & Hp2 & HA & HB & N1 & N2).
  set (nt := first_of l2 s) in *. set (pr := last_of s l1) in *.
  apply NoDup_app in N1 as (_ & N1 & [Npr N1']%NoDup_cons).
  apply NoDup_cons in N1' as [Nx _].
  apply NoDup_app in N2 as (_ & N2 & [Nx2 N2']%NoDup_cons). apply NoDup_cons in N2' as [Nnt _].
  assert (is_Some (h !! x)) as Hhx by (eapply ring_heap; [exact Hr|set_solver]).
  assert (is_Some (h !! pr)) as Hhp
    by (eapply ring_heap; [exact Hr|pose proof (last_of_elem s l1); set_solver]).
  assert (is_Some (h !! nt)) as Hhn
    by (eapply ring_heap; [exact Hr|pose proof (first_of_elem l2 s); set_solver]).
  unfold unlink. destruct (load_ok h x) as (nx & -> & En & Ep & _); [done|].
  cbn [mbind res_bind]. rewrite <- Ep, Hp, <- En, Hn2. cbn [ptr mbind res_bind].
  destruct (upd_next h pr (Some nt)) as (h1 & -> & D1 & d1 & p1 & n1); [done|]. cbn [mbind res_bind].
  destruct (load_ok h1 x) as (nx' & -> & En' & Ep' & _); [by apply (is_Some_dom h)|].
  cbn [mbind res_bind]. rewrite <- En', <- Ep', p1, Hp, n1, decide_False, Hn2 by set_solver.
  cbn [ptr mbind res_bind].
  destruct (upd_prev h1 nt (Some pr)) as (h2 & -> & D2 & d2 & n2 & p2); [by apply (is_Some_dom h)|].
  exists h2. split_and!; [done| |congruence|congruence].
  assert (forall b, b <> pr -> next_of h2 b = next_of h b) as Fn
    by (intros; rewrite n2, n1, decide_False; done).
  assert (forall b, b <> nt -> prev_of h2 b = prev_of h b) as Fp
    by (intros; rewrite p2, p1, decide_False; done).
  split.
  - destruct Hr as [Hnd _]. rewrite NoDup_cons in *. destruct Hnd as [? Hnd]. split; [set_solver|].
    apply NoDup_app in Hnd as (H1 & H2 & [H3 H4]%NoDup_cons). apply NoDup_app. 
    split_and!; [done|set_solver|done].
  - rewrite pairs_app. fold nt pr. apply Forall_app. split; [|constructor].
    + apply (linked_agree h); [done| |]; intros b Hb; [apply Fn|apply Fp]; intros ->; set_solver.
    + cbn. by rewrite n2, n1, decide_True, p2, decide_True.
    + apply (linked_agree h); [done| |]; intros b Hb; [apply Fn|apply Fp]; intros ->; set_solver.
Qed.

(** The ring does not depend on the payload nor on nodes outside of it. *)
Lemma ring_same h h' s l :
  ring h s l -> (forall a, a ∈ s :: l -> next_of h' a = next_of h a) ->
  (forall a, a ∈ s :: l -> prev_of h' a = prev_of h a) -> ring h' s l.
Proof.
  intros [Hnd Hl] Hn Hp. split; [done|]. apply (linked_agree h); [done| |]; intros a.
  - rewrite fst_pairs. apply Hn.
  - rewrite snd_pairs. intros. apply Hp. set_solver.
Qed.

(** Following [m_next] from the first node walks the list and ends at the sentinel. *)
Fixpoint chain h l s : Prop :=
  match l with
  | [] => True
  | a :: l' => next_of h a = Some (first_of l' s) /\ chain h l' s
  end.

Lemma linked_chain h p l q : linked h (pairs p l q) -> next_of h p = Some (first_of l q) /\ chain h l q.
Proof.
  revert p. induction l as [|a l IH]; intros p; cbn.
  - intros [[? _] _]%Forall_cons. done.
  - intros [[? _] Hl]%Forall_cons. split; [done|]. by apply IH.
Qed.

Lemma ring_chain h s l : ring h s l -> next_of h s = Some (first_of l s) /\ chain h l s.
Proof. intros [_ Hl]. by apply linked_chain. Qed.

Lemma chain_same h h' l s : chain h l s -> (forall a, next_of h' a = next_of h a) -> chain h' l s.
Proof. intros H E. induction l; cbn in *; [done|]. rewrite E. naive_solver. Qed.

Lemma ring_length h s l : ring h s l -> (length l < size h)%nat.
Proof.
  intros Hr. pose proof Hr as [Hnd _].
  assert (list_to_set (s :: l) ⊆ dom h) as Hsub.
  { intros a Ha. apply elem_of_list_to_set in Ha. apply elem_of_dom. by eapply ring_heap. }
  apply subseteq_size in Hsub. rewrite size_list_to_set, size_dom in Hsub by done. cbn in Hsub. lia.
Qed.

End nodes.

Abbreviation heap A := (gmap nat (@node A)).
