(* ===== verification/Timeval.v ===== *)
(** * Times of the delay queue: [Timeval], [DelayInterval], [DelayEventTime]
    of [src/detail/scheduler/delayqueue_in.h] and [.cpp]

    A time is a pair of [long]s; the operators normalise the microseconds.  The
    theorems read a normal pair as its number of microseconds. *)

From S2P Require Import Prelude.

Module Timeval.

(** ** Definitions *)

Record t : Type := mk { Seconds : Z; Useconds : Z }.

#[export] Instance t_eq_dec : EqDecision t.
Proof. solve_decision. Defined.

Definition MILLION : Z := 1000000.

Definition geb (a b : t) : bool :=
  (Seconds a >? Seconds b) || ((Seconds a =? Seconds b) && (Useconds a >=? Useconds b)).

Definition leb (a b : t) : bool := geb b a.
Definition ltb (a b : t) : bool := negb (geb a b).
Definition gtb (a b : t) : bool := ltb b a.
Definition eqb (a b : t) : bool := geb a b && geb b a.
Definition neqb (a b : t) : bool := negb (eqb a b).

(** [operator+=] *)
Definition add (a b : t) : t :=
  let sec := s64 (Seconds a + Seconds b) in
  let usec := s64 (Useconds a + Useconds b) in
  if usec >=? MILLION then mk (s64 (sec + 1)) (s64 (usec - MILLION)) else mk sec usec.

(** [operator-=] *)
Definition sub (a b : t) : t :=
  let sec := s64 (Seconds a - Seconds b) in
  let usec := s64 (Useconds a - Useconds b) in
  let '(sec, usec) := if usec <? 0 then (s64 (sec - 1), s64 (usec + MILLION)) else (sec, usec) in
  if sec <? 0 then mk 0 0 else mk sec usec.

Definition DELAY_ZERO : t := mk 0 0.

(** [operator-]: the seconds are tested as an [int]. *)
Definition minus (a b : t) : t :=
  let secs := s64 (Seconds a - Seconds b) in
  let usecs := s64 (Useconds a - Useconds b) in
  let '(secs, usecs) := if usecs <? 0 then (s64 (secs - 1), s64 (usecs + MILLION)) else (secs, usecs) in
  if s32 secs <? 0 then DELAY_ZERO else mk secs usecs.

(** [operator*] *)
Definition mul (k : Z) (a : t) : t :=
  let secs := s64 (k * Seconds a) in
  let usecs := s64 (k * Useconds a) in
  let carry := Z.quot usecs MILLION in
  mk (s64 (secs + carry)) (s64 (usecs - carry * MILLION)).

Definition DELAY_SECOND : t := mk 1 0.
Definition DELAY_MINUTE : t := mul 60 DELAY_SECOND.
Definition DELAY_HOUR : t := mul 60 DELAY_MINUTE.
Definition DELAY_DAY : t := mul 24 DELAY_HOUR.

(** [LONG_MAX] seconds. *)
Definition ETERNITY : t := mk (2 ^ 63 - 1) (MILLION - 1).

(** ** Microseconds *)

Definition tval (a : t) : Z := Seconds a * MILLION + Useconds a.
Definition norm (a : t) : Prop := 0 <= Seconds a < 2 ^ 63 /\ 0 <= Useconds a < MILLION.
Definition LIM : Z := 2 ^ 63 * MILLION.

#[export] Instance norm_dec a : Decision (norm a).
Proof. unfold norm; apply _. Defined.

(** Reads the wrapped operations on values that are in range. *)
Ltac s64_ids := rewrite ?s64_id by (cbn; lia).

Lemma tval_bound a : norm a -> 0 <= tval a < LIM.
Proof. unfold norm, tval, LIM, MILLION. lia. Qed.

Lemma tval_inj a b : norm a -> norm b -> tval a = tval b -> a = b.
Proof.
  destruct a, b. unfold norm, tval, MILLION. cbn. intros ? ? ?. f_equal; lia.
Qed.

Lemma geb_tval a b : norm a -> norm b -> geb a b = (tval b <=? tval a).
Proof.
  unfold norm, tval, geb, MILLION. intros ? ?. rewrite Z.gtb_ltb, Z.geb_leb.
  apply eq_true_iff_eq. rewrite orb_true_iff, andb_true_iff, Z.ltb_lt, Z.eqb_eq, !Z.leb_le. lia.
Qed.

Lemma ltb_tval a b : norm a -> norm b -> ltb a b = (tval a <? tval b).
Proof. intros. unfold ltb. rewrite geb_tval by done. by rewrite <- Z.ltb_antisym. Qed.

Lemma eqb_tval a b : norm a -> norm b -> eqb a b = (tval a =? tval b).
Proof.
  intros. unfold eqb. rewrite !geb_tval by done. apply eq_true_iff_eq.
  rewrite andb_true_iff, !Z.leb_le, Z.eqb_eq. lia.
Qed.

Lemma eqb_zero a : norm a -> eqb a DELAY_ZERO = (tval a =? 0).
Proof. intros. by rewrite eqb_tval. Qed.

Lemma add_tval a b :
  norm a -> norm b -> tval a + tval b < LIM -> norm (add a b) /\ tval (add a b) = tval a + tval b.
Proof.
  unfold norm, tval, LIM, MILLION. intros ? ? Hl. unfold add, MILLION. cbv zeta.
  rewrite (s64_id (Seconds a + Seconds b)), (s64_id (Useconds a + Useconds b)) by lia.
  rewrite Z.geb_leb. case_test; cbn; rewrite ?s64_id by lia; lia.
Qed.

Lemma sub_tval a b :
  norm a -> norm b -> norm (sub a b) /\ tval (sub a b) = Z.max 0 (tval a - tval b).
Proof.
  unfold norm, tval, LIM, MILLION. intros ? ?. unfold sub, MILLION. cbv zeta.
  rewrite (s64_id (Seconds a - Seconds b)), (s64_id (Useconds a - Useconds b)) by lia.
  destruct (_ <? 0) eqn:E; bool_to_prop; rewrite ?s64_id by lia; case_test; cbn; lia.
Qed.

(** Within 68 years [operator-] is the difference, clipped at zero. *)
Lemma minus_tval a b :
  norm a -> norm b -> tval a - tval b < 2 ^ 31 * MILLION -> - 2 ^ 31 * MILLION <= tval a - tval b ->
  norm (minus a b) /\ tval (minus a b) = Z.max 0 (tval a - tval b).
Proof.
  unfold norm, tval, LIM, MILLION. intros ? ? ? ?. unfold minus, MILLION. cbv zeta.
  rewrite (s64_id (Seconds a - Seconds b)), (s64_id (Useconds a - Useconds b)) by lia.
  destruct (_ <? 0) eqn:E; bool_to_prop; rewrite ?s64_id by lia; rewrite s32_id by lia;
    case_test; cbn; lia.
Qed.

(** ** Properties *)

(** The operators on normal times are arithmetic on microseconds, kept normal:
    comparison, sum below the range of [long], difference clipped at zero. *)
Theorem operators_microseconds a b :
  norm a -> norm b ->
  geb a b = (tval b <=? tval a) /\ eqb a b = (tval a =? tval b) /\
  (tval a + tval b < LIM -> norm (add a b) /\ tval (add a b) = tval a + tval b) /\
  (norm (sub a b) /\ tval (sub a b) = Z.max 0 (tval a - tval b)) /\
  (Z.abs (tval a - tval b) < 2 ^ 31 * MILLION -> minus a b = sub a b).
Proof.
  intros Ha Hb. split_and!; [by apply geb_tval|by apply eqb_tval|by apply add_tval|
    by apply sub_tval|by apply sub_tval|].
  intros Hd. destruct (minus_tval a b Ha Hb) as [? E]; [lia|lia|].
  destruct (sub_tval a b Ha Hb) as [? E']. apply tval_inj; congruence.
Qed.

Lemma operators_microseconds_witness :
  minus (mk 7 100) (mk 5 200) = sub (mk 7 100) (mk 5 200).
Proof.
  apply (operators_microseconds (mk 7 100) (mk 5 200));
    [by apply (bool_decide_eq_true _)|by apply (bool_decide_eq_true _)|by vm_compute].
Defined.

(** The comment says that [operator-] gives zero only when the first time is
    not later; through the cast to [int] it also does for gaps between 2^31 and
    2^32 seconds. *)
Theorem minus_int_cast a b :
  norm a -> norm b -> 2 ^ 31 * MILLION <= tval a - tval b < 2 ^ 32 * MILLION ->
  minus a b = DELAY_ZERO.
Proof.
  unfold norm, tval, MILLION. intros ? ? ?. unfold minus, MILLION. cbv zeta.
  rewrite (s64_id (Seconds a - Seconds b)), (s64_id (Useconds a - Useconds b)) by lia.
  assert (forall z, 2 ^ 31 <= z < 2 ^ 32 -> s32 z <? 0 = true) as Hc.
  { intros z Hz. apply Z.ltb_lt. ints. }
  destruct (_ <? 0) eqn:E; bool_to_prop; rewrite ?s64_id by lia; rewrite Hc by lia; done.
Qed.

Lemma minus_int_cast_witness : minus (mk 3000000000 0) (mk 0 0) = DELAY_ZERO.
Proof. apply minus_int_cast; by apply (bool_decide_eq_true _). Defined.

End Timeval.
