(* ===== verification/DelayQueue.v ===== *)
(** * The delay queue: [src/detail/scheduler/delayqueue_in.h] and [.cpp]

    Entries form a ring around the queue object itself; each keeps the time
    that remains after its predecessor.  The queue object is the node at
    address 0.  [TimeNow] is an argument of the operations that read the clock;
    what a handler does to the queue is an argument of [HandleAlarm].

    The specification is a list of entries with their absolute deadlines, in
    order; [repr] relates it to the ring. *)

From stdpp Require Import sorting.
From S2P Require Import Prelude DList Timeval.
#[local] Open Scope Z_scope.

Module DelayQueue.
Import Timeval.

(** ** Definitions *)

(** [DelayQueueEntry] and the callback of [AlterHandler]. *)
Record entry : Type := Entry { m_delta : Timeval.t; m_bc : option nat }.

#[export] Instance entry_eq_dec : EqDecision entry.
Proof. solve_decision. Defined.

Record t : Type := mk { hp : heap entry; m_lastSyncTime : Timeval.t }.

Definition this : nat := 0.

Definition set_hp (q : t) (h : heap entry) : t := mk h (m_lastSyncTime q).

Definition set_delta (d : Timeval.t) (n : node) : node :=
  Node (n_next n) (n_prev n) (Entry d (m_bc (n_data n))).

(** [DelayQueue()]: the entry of the queue object is its own ring. *)
Definition init (now : Timeval.t) : t :=
  mk {[ this := Node (Some this) (Some this) (Entry ETERNITY None) ]} now.

(** [new AlterHandler(di, bc)] *)
Definition new_entry (q : t) (di : Timeval.t) (bc : option nat) : t * nat :=
  let a := fresh (dom (hp q)) in
  (set_hp q (<[a := Node (Some a) (Some a) (Entry di bc)]> (hp q)), a).

Definition head (h : heap entry) : res nat := n ← load h this; ptr (n_next n).

(** The loop and the last statement of [synchronize]. *)
Fixpoint sync_loop (fuel : nat) (h : heap entry) (since : Timeval.t) (cur : nat) : res (heap entry) :=
  match fuel with
  | O => Throw Diverge
  | S f =>
    nc ← load h cur;
    let d := m_delta (n_data nc) in
    if geb since d then
      h ← upd h cur (set_delta DELAY_ZERO);
      nxt ← ptr (n_next nc);
      sync_loop f h (sub since d) nxt
    else upd h cur (set_delta (sub d since))
  end.

Definition synchronize (now : Timeval.t) (q : t) : res t :=
  if ltb now (m_lastSyncTime q) then Ret (mk (hp q) now)
  else
    c ← head (hp q);
    h ← sync_loop (S (size (hp q))) (hp q) (minus now (m_lastSyncTime q)) c;
    Ret (mk h now).

(** The loop of [AddEntry]: the new entry [x] gives up the time of the entries
    it goes behind. *)
Fixpoint add_loop (fuel : nat) (h : heap entry) (x cur : nat) : res (heap entry * nat) :=
  match fuel with
  | O => Throw Diverge
  | S f =>
    nx ← load h x;
    nc ← load h cur;
    if geb (m_delta (n_data nx)) (m_delta (n_data nc)) then
      h ← upd h x (set_delta (sub (m_delta (n_data nx)) (m_delta (n_data nc))));
      nxt ← ptr (n_next nc);
      add_loop f h x nxt
    else Ret (h, cur)
  end.

Definition AddEntry (now : Timeval.t) (q : t) (newEntry : nat) : res t :=
  q ← synchronize now q;
  c ← head (hp q);
  '(h, cur) ← add_loop (S (size (hp q))) (hp q) newEntry c;
  nc ← load h cur;
  nx ← load h newEntry;
  h ← upd h cur (set_delta (sub (m_delta (n_data nc)) (m_delta (n_data nx))));
  h ← link_before h newEntry cur;
  Ret (set_hp q h).

(** A null entry, or one that is not linked, is left alone. *)
Definition RemoveEntry (q : t) (e : option nat) : res t :=
  match e with
  | None => Ret q
  | Some x =>
    nx ← load (hp q) x;
    match n_next nx with
    | None => Ret q
    | Some nt =>
      nn ← load (hp q) nt;
      h ← upd (hp q) nt (set_delta (add (m_delta (n_data nn)) (m_delta (n_data nx))));
      h ← unlink h x;
      h ← upd h x (set_prev None);
      h ← upd h x (set_next None);
      Ret (set_hp q h)
    end
  end.

Definition UpdateEntry (now : Timeval.t) (q : t) (e : option nat) (newDelay : Timeval.t) : res t :=
  match e with
  | None => Ret q
  | Some x =>
    q ← RemoveEntry q e;
    h ← upd (hp q) x (set_delta newDelay);
    AddEntry now (set_hp q h) x
  end.

Definition head_delta (q : t) : res Timeval.t :=
  c ← head (hp q); n ← load (hp q) c; Ret (m_delta (n_data n)).

Definition TimeToNextAlarm (now : Timeval.t) (q : t) : res (Timeval.t * t) :=
  d ← head_delta q;
  if eqb d DELAY_ZERO then Ret (DELAY_ZERO, q)
  else q ← synchronize now q; d ← head_delta q; Ret (d, q).

(** Callbacks act on the whole world [W] the queue is part of: [run bc w] is what
    the callback of a fired entry does. *)
Section HandleAlarm.
Context {W : Type} (get : W -> t) (put : W -> t -> W) (run : option nat -> W -> res W).

Fixpoint alarm_loop (fuel : nat) (w : W) : res W :=
  match fuel with
  | O => Throw Diverge
  | S f =>
    d ← head_delta (get w);
    if eqb d DELAY_ZERO then
      toRemove ← head (hp (get w));
      q ← RemoveEntry (get w) (Some toRemove);
      n ← load (hp q) toRemove;
      w ← run (m_bc (n_data n)) (put w q);
      _ ← load (hp (get w)) toRemove;
      alarm_loop f (put w (set_hp (get w) (delete toRemove (hp (get w)))))
    else Ret w
  end.

Definition HandleAlarm (fuel : nat) (now : Timeval.t) (w : W) : res W :=
  d ← head_delta (get w);
  q ← (if neqb d DELAY_ZERO then synchronize now (get w) else Ret (get w));
  alarm_loop fuel (put w q).
End HandleAlarm.

(** [~DelayQueue]: remove and delete the entries one by one. *)
Fixpoint destroy (fuel : nat) (q : t) : res t :=
  match fuel with
  | O => Throw Diverge
  | S f =>
    c ← head (hp q);
    if bool_decide (c = this) then Ret q
    else
      q ← RemoveEntry q (Some c);
      _ ← load (hp q) c;
      destroy f (set_hp q (delete c (hp q)))
  end.

(** ** Deadlines *)

(** The node [a] has [d] microseconds left after its predecessor. *)
Definition delta_is (h : heap entry) (a : nat) (d : Z) : Prop :=
  exists e, data_of h a = Some e /\ norm (m_delta e) /\ tval (m_delta e) = d.

(** The times left along the ring, for the deadlines [rq] as seen at time [now];
    [prev] is the deadline before, [hor] the one of the queue object. *)
Fixpoint deltas (h : heap entry) (now prev : Z) (rq : list (nat * Z)) (hor : Z) : Prop :=
  match rq with
  | [] => delta_is h this (hor - prev)
  | (a, dl) :: rq' => delta_is h a (Z.max dl now - prev) /\ deltas h now (Z.max dl now) rq' hor
  end.

Record repr (q : t) (rq : list (nat * Z)) (hor : Z) : Prop := {
  repr_ring : ring (hp q) this (map fst rq);
  repr_last : norm (m_lastSyncTime q);
  repr_deltas : deltas (hp q) (tval (m_lastSyncTime q)) (tval (m_lastSyncTime q)) rq hor;
  repr_sorted : StronglySorted Z.le (map snd rq);
  repr_hor : hor - tval (m_lastSyncTime q) < LIM
}.

(** The queue object is due after everything else. *)
Definition below (rq : list (nat * Z)) (hor : Z) : Prop := Forall (fun ad => ad.2 < hor) rq.

(** An entry goes behind those due at the same time. *)
Fixpoint insert_dl (x : nat) (dl : Z) (rq : list (nat * Z)) : list (nat * Z) :=
  match rq with
  | [] => [(x, dl)]
  | (a, d) :: rq' => if d <=? dl then (a, d) :: insert_dl x dl rq' else (x, dl) :: (a, d) :: rq'
  end.

(** ** Lemmas *)

Lemma delta_same h h' a d : data_of h' a = data_of h a -> delta_is h a d -> delta_is h' a d.
Proof. intros E (e & ? & ? & ?). exists e. by rewrite E. Qed.

Lemma deltas_same h h' now p rq hor :
  (forall a, a ∈ this :: map fst rq -> data_of h' a = data_of h a) ->
  deltas h now p rq hor -> deltas h' now p rq hor.
Proof.
  revert p. induction rq as [|[a d] rq IH]; intros p E; cbn.
  - apply delta_same, E. set_solver.
  - intros [H1 H2]. split; [|apply IH; [|done]].
    + eapply delta_same; [|exact H1]. apply E. set_solver.
    + intros b Hb. apply E. set_solver.
Qed.

(** Deadlines that are all later than the clock are seen the same a little later. *)
Lemma deltas_later h now now' p rq hor :
  now <= now' <= p -> deltas h now p rq hor -> deltas h now' p rq hor.
Proof.
  revert p. induction rq as [|[a d] rq IH]; intros p Hp; cbn; [done|].
  intros [(e & E1 & E2 & E3) H]. pose proof (tval_bound _ E2) as Hb. rewrite E3 in Hb.
  destruct (decide (d <= now')).
  - assert (Z.max d now = p) as Hm by lia. rewrite Hm in *.
    replace (Z.max d now') with p by lia. split; [by exists e|]. apply IH; [lia|done].
  - replace (Z.max d now') with (Z.max d now) by lia. split; [by exists e|].
    apply IH; [lia|done].
Qed.

Lemma deltas_hor h now p rq hor : now <= p -> deltas h now p rq hor -> p <= hor.
Proof.
  revert p. induction rq as [|[a d] rq IH]; intros p Hp; cbn.
  - intros (e & _ & En & E). pose proof (tval_bound _ En). lia.
  - intros [(e & _ & En & E) H]. apply IH in H; [|lia]. pose proof (tval_bound _ En). lia.
Qed.

(** [h'] differs from [h] in times left only. *)
Record same_links (h h' : heap entry) : Prop := {
  sl_next : forall a, next_of h' a = next_of h a;
  sl_prev : forall a, prev_of h' a = prev_of h a;
  sl_dom : dom h' = dom h;
  sl_bc : forall a, (m_bc <$> data_of h' a) = m_bc <$> data_of h a
}.

Lemma same_links_refl h : same_links h h.
Proof. done. Qed.

Lemma same_links_trans h1 h2 h3 : same_links h1 h2 -> same_links h2 h3 -> same_links h1 h3.
Proof. intros [] []. split; congruence. Qed.

Lemma upd_delta h a d e :
  data_of h a = Some e -> exists h', upd h a (set_delta d) = Ret h' /\ same_links h h' /\
    data_of h' a = Some (Entry d (m_bc e)) /\ (forall b, b <> a -> data_of h' b = data_of h b).
Proof.
  unfold data_of. intros (n & Hn & ->)%fmap_Some. unfold upd. rewrite Hn. eexists.
  split_and!; [done| | |].
  - split; intros; rewrite ?next_of_insert, ?prev_of_insert, ?data_of_insert.
    + case_decide; [|done]. subst. unfold next_of. by rewrite Hn.
    + case_decide; [|done]. subst. unfold prev_of. by rewrite Hn.
    + apply dom_insert_lookup_L. eauto.
    + case_decide; [|done]. subst. unfold data_of. by rewrite Hn.
  - by rewrite lookup_insert_eq.
  - intros. by rewrite lookup_insert_ne.
Qed.

(** Reading a node whose time left is known. *)
Lemma load_delta h a d :
  delta_is h a d -> exists n, load h a = Ret n /\ data_of h a = Some (n_data n) /\
    norm (m_delta (n_data n)) /\ tval (m_delta (n_data n)) = d /\ next_of h a = n_next n.
Proof.
  intros (e & E & Hn & Hv). unfold data_of in E. apply fmap_Some in E as (n & En & ->).
  exists n. unfold load, data_of, next_of. by rewrite En.
Qed.

Lemma sync_loop_spec rq : forall fuel h now N p hor since,
  (length rq < fuel)%nat -> chain h (map fst rq) this -> NoDup (this :: map fst rq) ->
  deltas h now p rq hor -> now <= p <= N -> N < hor -> norm since -> tval since = N - p ->
  exists h', sync_loop fuel h since (first_of (map fst rq) this) = Ret h' /\
    deltas h' N N rq hor /\ same_links h h' /\
    (forall a, a ∉ this :: map fst rq -> data_of h' a = data_of h a).
Proof.
  induction rq as [|[a d] rq IH]; intros fuel h now N p hor since Hf Hc Hnd Hd Hp HN Hs Hv;
    (destruct fuel as [|fuel]; [cbn in *; lia|]); cbn [length map fst first_of hd deltas sync_loop] in *.
  - destruct (load_delta _ _ _ Hd) as (nc & -> & Ed & Hn & Ht & _). cbn [mbind res_bind].
    rewrite geb_tval, Ht, Hv by done. ztest.
    destruct (upd_delta h this (sub (m_delta (n_data nc)) since) _ Ed) as (h' & -> & Hl & E1 & E2).
    exists h'. split_and!; try done.
    + eexists. split; [exact E1|]. cbn. destruct (sub_tval (m_delta (n_data nc)) since) as [? ->];
        [done|done|]. split; [done|lia].
    + intros b Hb. apply E2. set_solver.
  - destruct Hd as [Ha Hd]. destruct Hc as [Hca Hc].
    apply NoDup_cons in Hnd as [Hth Hnd]. apply NoDup_cons in Hnd as [Hax Hnd].
    assert (NoDup (this :: map fst rq)) by (apply NoDup_cons; set_solver).
    destruct (load_delta _ _ _ Ha) as (nc & -> & Ed & Hn & Ht & Enx). cbn [mbind res_bind].
    rewrite geb_tval, Ht, Hv by done.
    destruct (decide (Z.max d now <= N)); ztest.
    + destruct (upd_delta h a DELAY_ZERO _ Ed) as (h1 & -> & Hl & E1 & E2). cbn [mbind res_bind].
      rewrite <- Enx, Hca. cbn [ptr mbind res_bind].
      destruct (sub_tval since (m_delta (n_data nc))) as [Hsn Hsv]; [done|done|].
      destruct (IH fuel h1 now N (Z.max d now) hor (sub since (m_delta (n_data nc))))
        as (h' & -> & Hd' & Hl' & Hfr); try done; [lia| | |lia|lia|].
      * eapply chain_same; [exact Hc|apply Hl].
      * eapply deltas_same; [|exact Hd]. intros b Hb. apply E2. set_solver.
      * exists h'. replace (Z.max d N) with N by lia. split_and!; try done.
        -- replace (N - N) with 0 by lia. exists (Entry DELAY_ZERO (m_bc (n_data nc))).
           rewrite Hfr, E1 by set_solver. done.
        -- by eapply same_links_trans.
        -- intros b Hb. rewrite Hfr, E2 by set_solver. done.
    + destruct (upd_delta h a (sub (m_delta (n_data nc)) since) _ Ed) as (h' & -> & Hl & E1 & E2).
      destruct (sub_tval (m_delta (n_data nc)) since) as [Hsn Hsv]; [done|done|].
      exists h'. replace (Z.max d N) with (Z.max d now) by lia. split_and!; try done.
      * eexists. split; [exact E1|]. split; [done|]. cbn. lia.
      * eapply deltas_same; [|eapply deltas_later; [|exact Hd]; lia].
        intros b Hb. apply E2. set_solver.
      * intros b Hb. apply E2. set_solver.
Qed.

Lemma ring_same_links h h' s l : same_links h h' -> ring h s l -> ring h' s l.
Proof. intros [Hn Hp _ _] Hr. by eapply ring_same. Qed.

Lemma head_first q rq hor :
  repr q rq hor -> head (hp q) = Ret (first_of (map fst rq) this).
Proof.
  intros [Hr _ _ _ _]. unfold head. destruct (load_ok (hp q) this) as (n & -> & En & _).
  { eapply ring_heap; [exact Hr|]. set_solver. }
  cbn [mbind res_bind]. rewrite <- En. destruct (ring_chain _ _ _ Hr) as [-> _]. done.
Qed.

Lemma synchronize_spec q rq hor now :
  repr q rq hor -> norm now -> tval (m_lastSyncTime q) <= tval now < hor ->
  tval now - tval (m_lastSyncTime q) < 2 ^ 31 * MILLION ->
  exists q', synchronize now q = Ret q' /\ repr q' rq hor /\ m_lastSyncTime q' = now /\
    same_links (hp q) (hp q') /\
    (forall a, a ∉ this :: map fst rq -> data_of (hp q') a = data_of (hp q) a).
Proof.
  intros Hq Hn [Hle Hlt] Hel. pose proof Hq as [Hr Hl Hd Hs Hh]. unfold synchronize.
  rewrite ltb_tval by done. ztest. rewrite (head_first _ _ _ Hq). cbn [mbind res_bind].
  destruct (minus_tval now (m_lastSyncTime q)) as [Hsn Hsv]; [done|done|done|unfold MILLION; lia|].
  destruct (ring_chain _ _ _ Hr) as [_ Hc].
  destruct (sync_loop_spec rq (S (size (hp q))) (hp q) (tval (m_lastSyncTime q)) (tval now)
    (tval (m_lastSyncTime q)) hor (minus now (m_lastSyncTime q))) as (h' & -> & Hd' & Hl' & Hf);
    try done; [|apply Hr|lia|].
  { apply ring_length in Hr. rewrite length_map in Hr. lia. }
  cbn [mbind res_bind]. eexists. split; [done|]. split_and!; try done.
  split; cbn; try done; [by eapply ring_same_links|lia].
Qed.

(** *** Adding *)

Lemma insert_dl_split x D rq :
  exists rq1 rq2, rq = rq1 ++ rq2 /\ insert_dl x D rq = rq1 ++ (x, D) :: rq2.
Proof.
  induction rq as [|[a d] rq (r1 & r2 & -> & E)]; cbn; [by exists [], []|].
  case_match; [exists ((a, d) :: r1), r2; by rewrite E|by exists [], ((a, d) :: r1 ++ r2)].
Qed.

Lemma insert_dl_sorted x D rq :
  StronglySorted Z.le (map snd rq) -> StronglySorted Z.le (map snd (insert_dl x D rq)).
Proof.
  induction rq as [|[a d] rq IH]; cbn; intros Hs; [by repeat constructor|].
  apply StronglySorted_inv in Hs as [Hs HF]. destruct (d <=? D) eqn:E; bool_to_prop; cbn.
  - constructor; [by apply IH|]. clear - HF E. induction rq as [|[b d'] rq IH]; cbn in *.
    + by repeat constructor.
    + apply Forall_cons in HF as [? HF]. case_match; cbn; repeat constructor; auto.
  - constructor; [by constructor|]. constructor; [lia|].
    eapply Forall_impl; [exact HF|]. cbn. lia.
Qed.

(** The loop of [AddEntry] and the update of the entry it stops at. *)
Lemma add_loop_spec rq : forall fuel h now p hor x D,
  (length rq < fuel)%nat -> chain h (map fst rq) this -> NoDup (this :: map fst rq) ->
  x ∉ this :: map fst rq -> deltas h now p rq hor -> delta_is h x (D - p) -> now <= p -> 
  now <= D < hor ->
  exists h1 rq1 rq2 e1 ec,
    let cur := first_of (map fst rq2) this in
    add_loop fuel h x (first_of (map fst rq) this) = Ret (h1, cur) /\
    rq = rq1 ++ rq2 /\ insert_dl x D rq = rq1 ++ (x, D) :: rq2 /\
    data_of h1 x = Some e1 /\ data_of h1 cur = Some ec /\ same_links h h1 /\
    (forall a, a <> x -> data_of h1 a = data_of h a) /\
    forall h2 bc, data_of h2 cur = Some (Entry (sub (m_delta ec) (m_delta e1)) bc) ->
      (forall a, a <> cur -> data_of h2 a = data_of h1 a) ->
      deltas h2 now p (insert_dl x D rq) hor.
Proof.
  induction rq as [|[a d] rq IH]; intros fuel h now p hor x D Hf Hc Hnd Hx Hd Hdx Hp HD;
    (destruct fuel as [|fuel]; [cbn in *; lia|]);
    cbn [length map fst first_of hd deltas add_loop] in *;
    destruct (load_delta _ _ _ Hdx) as (nx & -> & Edx & Hnx & Htx & _); cbn [mbind res_bind].
  - destruct (load_delta _ _ _ Hd) as (nc & -> & Edc & Hnc & Htc & _). cbn [mbind res_bind].
    rewrite geb_tval, Htx, Htc by done. ztest.
    exists h, [], [], (n_data nx), (n_data nc). cbn. split_and!; try done.
    intros h2 bc E2 F2. replace (Z.max D now) with D by lia. split.
    + eapply delta_same; [|exact Hdx]. apply F2. set_solver.
    + eexists. split; [exact E2|]. cbn.
      destruct (sub_tval (m_delta (n_data nc)) (m_delta (n_data nx))) as [? ->]; [done|done|].
      split; [done|lia].
  - destruct Hd as [Ha Hd]. destruct Hc as [Hca Hc].
    apply NoDup_cons in Hnd as [Hth Hnd]. apply NoDup_cons in Hnd as [Hax Hnd].
    destruct (load_delta _ _ _ Ha) as (nc & -> & Edc & Hnc & Htc & Enx). cbn [mbind res_bind].
    rewrite geb_tval, Htx, Htc by done. cbn [insert_dl].
    destruct (decide (d <= D)) as [Hle|Hgt].
    + ztest. destruct (upd_delta h x (sub (m_delta (n_data nx)) (m_delta (n_data nc))) _ Edx)
        as (h1 & -> & Hl & E1 & F1). cbn [mbind res_bind].
      rewrite <- Enx, Hca. cbn [ptr mbind res_bind].
      destruct (sub_tval (m_delta (n_data nx)) (m_delta (n_data nc))) as [Hsn Hsv]; [done|done|].
      destruct (IH fuel h1 now (Z.max d now) hor x D)
        as (h2 & rq1 & rq2 & e1 & ec & -> & Erq & -> & G1 & G2 & Hl2 & G3 & G4);
        [lia|eapply chain_same; [exact Hc|apply Hl]|apply NoDup_cons; set_solver|set_solver| | |lia|lia|].
      * eapply deltas_same; [|exact Hd]. intros b Hb. apply F1. set_solver.
      * eexists. split; [exact E1|]. cbn. split; [done|lia].
      * exists h2, ((a, d) :: rq1), rq2, e1, ec. cbn [app]. rewrite <- Erq. split_and!; try done.
        -- by eapply same_links_trans.
        -- intros b Hb. by rewrite G3, F1.
        -- intros h3 bc E3 F3. cbn [deltas]. split; [|by eapply G4].
           eapply delta_same; [|exact Ha].
           assert (first_of (map fst rq2) this ∈ this :: map fst rq).
           { pose proof (first_of_elem (map fst rq2) this). rewrite Erq, map_app. set_solver. }
           rewrite F3, G3, F1 by set_solver. done.
    + ztest. exists h, [], ((a, d) :: rq), (n_data nx), (n_data nc). cbn [app map fst first_of hd].
      split_and!; try done. intros h2 bc E2 F2. cbn [deltas].
      replace (Z.max D now) with D by lia. replace (Z.max d now) with d in * by lia. split_and!.
      * eapply delta_same; [|exact Hdx]. apply F2. set_solver.
      * eexists. split; [exact E2|]. cbn.
        destruct (sub_tval (m_delta (n_data nc)) (m_delta (n_data nx))) as [? ->]; [done|done|].
        split; [done|lia].
      * eapply deltas_same; [|exact Hd]. intros b Hb. apply F2. set_solver.
Qed.

(** What [AddEntry] leaves alone. *)
Lemma AddEntry_spec q rq hor now x d :
  repr q rq hor -> norm now -> tval (m_lastSyncTime q) <= tval now ->
  tval now - tval (m_lastSyncTime q) < 2 ^ 31 * MILLION ->
  x ∉ this :: map fst rq -> delta_is (hp q) x d -> tval now + d < hor ->
  exists q', AddEntry now q x = Ret q' /\ repr q' (insert_dl x (tval now + d) rq) hor /\
    m_lastSyncTime q' = now /\ dom (hp q') = dom (hp q) /\
    (forall a, (m_bc <$> data_of (hp q') a) = m_bc <$> data_of (hp q) a).
Proof.
  intros Hq Hn Hle Hel Hx Hdx Hd. unfold AddEntry.
  assert (0 <= d) by (destruct Hdx as (? & _ & Hn0 & <-); by apply tval_bound).
  destruct (synchronize_spec q rq hor now Hq Hn) as (q1 & -> & Hq1 & Hl1 & Hs1 & Hf1); [lia|done|].
  cbn [mbind res_bind]. rewrite (head_first _ _ _ Hq1). cbn [mbind res_bind].
  pose proof Hq1 as [Hr1 _ Hd1 Hso Hh1]. rewrite Hl1 in *.
  destruct (ring_chain _ _ _ Hr1) as [_ Hc1].
  destruct (add_loop_spec rq (S (size (hp q1))) (hp q1) (tval now) (tval now) hor x (tval now + d))
    as (h2 & rq1 & rq2 & e1 & ec & -> & Erq & Eins & G1 & G2 & Hl2 & G3 & G4);
    [|done|apply Hr1|done|done| |lia|lia|].
  { apply ring_length in Hr1. rewrite length_map in Hr1. lia. }
  { replace (tval now + d - tval now) with d by lia. eapply delta_same; [|exact Hdx]. by apply Hf1. }
  cbn [mbind res_bind]. set (cur := first_of (map fst rq2) this) in *.
  pose proof G1 as (nx & Enx & ->)%fmap_Some. pose proof G2 as (nc & Enc & ->)%fmap_Some.
  unfold load. rewrite Enc. cbn [mbind res_bind]. rewrite Enx. cbn [mbind res_bind].
  destruct (upd_delta h2 cur (sub (m_delta (n_data nc)) (m_delta (n_data nx))) _ G2)
    as (h3 & -> & Hl3 & E3 & F3). cbn [mbind res_bind].
  assert (ring h3 this (map fst rq1 ++ map fst rq2)) as Hr3.
  { rewrite <- map_app, <- Erq. eapply ring_same_links; [exact Hl3|].
    by eapply ring_same_links; [exact Hl2|]. }
  destruct (link_before_ring h3 this (map fst rq1) (map fst rq2) x) as (h4 & E4 & Hr4 & Hd4 & D4).
  { done. }
  { rewrite <- map_app, <- Erq. done. }
  { apply elem_of_dom. rewrite (sl_dom _ _ Hl3). apply elem_of_dom. eauto. }
  fold cur in E4. rewrite E4. cbn [mbind res_bind]. eexists. split; [done|]. split_and!; cbn.
  - split; cbn; try done.
    + rewrite Eins, map_app. done.
    + rewrite Hl1. done.
    + rewrite Hl1. eapply G4; [rewrite Hd4; exact E3|]. intros a Ha. rewrite Hd4. by apply F3.
    + by apply insert_dl_sorted.
    + rewrite Hl1. done.
  - done.
  - rewrite D4, (sl_dom _ _ Hl3), (sl_dom _ _ Hl2), (sl_dom _ _ Hs1). done.
  - intros a. rewrite Hd4, (sl_bc _ _ Hl3), (sl_bc _ _ Hl2), (sl_bc _ _ Hs1). done.
Qed.

(** *** Removing *)

(** The entries in front of a suffix, and the deadline they leave. *)
Fixpoint deltas_upto (h : heap entry) (now prev : Z) (rq : list (nat * Z)) : Prop :=
  match rq with
  | [] => True
  | (a, dl) :: rq' => delta_is h a (Z.max dl now - prev) /\ deltas_upto h now (Z.max dl now) rq'
  end.

Fixpoint prev_after (now prev : Z) (rq : list (nat * Z)) : Z :=
  match rq with [] => prev | (_, dl) :: rq' => prev_after now (Z.max dl now) rq' end.

Lemma deltas_app h now p rq1 rq2 hor :
  deltas h now p (rq1 ++ rq2) hor <->
  deltas_upto h now p rq1 /\ deltas h now (prev_after now p rq1) rq2 hor.
Proof.
  revert p. induction rq1 as [|[a d] rq1 IH]; intros p; cbn; [tauto|]. rewrite IH. tauto.
Qed.

Lemma prev_after_le now p rq : now <= p -> now <= prev_after now p rq.
Proof. revert p. induction rq as [|[a d] rq IH]; intros p Hp; cbn; [done|]. apply IH. lia. Qed.

Lemma deltas_upto_same h h' now p rq :
  (forall a, a ∈ map fst rq -> data_of h' a = data_of h a) ->
  deltas_upto h now p rq -> deltas_upto h' now p rq.
Proof.
  revert p. induction rq as [|[a d] rq IH]; intros p E; cbn; [done|].
  intros [H1 H2]. split; [|apply IH; [|done]].
  - eapply delta_same; [|exact H1]. apply E. set_solver.
  - intros b Hb. apply E. set_solver.
Qed.

(** The time left of the first of [rq], seen from the time [p]; what it becomes
    when the entry at [p'] in front of it goes. *)
Lemma deltas_first h now p rq hor :
  deltas h now p rq hor -> exists d, delta_is h (first_of (map fst rq) this) d /\
    (now <= p -> 0 <= d <= hor - p).
Proof.
  destruct rq as [|[a dl] rq]; cbn.
  - intros H. exists (hor - p). split; [done|]. intros _. destruct H as (? & _ & Hn & E).
    pose proof (tval_bound _ Hn). lia.
  - intros [H H2]. eexists. split; [exact H|]. intros Hp. apply deltas_hor in H2; [|lia].
    destruct H as (? & _ & Hn & E). pose proof (tval_bound _ Hn). lia.
Qed.

Lemma deltas_shift h h' now p p' rq hor d :
  deltas h now p rq hor -> NoDup (this :: map fst rq) ->
  delta_is h (first_of (map fst rq) this) d -> delta_is h' (first_of (map fst rq) this) (d + (p - p')) ->
  (forall a, a ∈ this :: map fst rq -> a <> first_of (map fst rq) this -> data_of h' a = data_of h a) ->
  deltas h' now p' rq hor.
Proof.
  assert (forall a d1 d2, delta_is h a d1 -> delta_is h a d2 -> d1 = d2) as Hfun.
  { intros a d1 d2 (e1 & E1 & _ & <-) (e2 & E2 & _ & <-). congruence. }
  destruct rq as [|[a dl] rq]; cbn [deltas map fst first_of hd].
  - intros H _ H1 H2 _. rewrite (Hfun _ _ _ H1 H) in H2. by replace (hor - p') with (hor - p + (p - p')) by lia.
  - intros [H H'] Hnd H1 H2 F. rewrite (Hfun _ _ _ H1 H) in H2.
    apply NoDup_cons in Hnd as [Hth Hnd]. apply NoDup_cons in Hnd as [Hax Hnd].
    split; [by replace (Z.max dl now - p') with (Z.max dl now - p + (p - p')) by lia|].
    eapply deltas_same; [|exact H']. intros b Hb. apply F; set_solver.
Qed.

Lemma sorted_remove rq1 x (d : Z) (rq2 : list (nat * Z)) :
  StronglySorted Z.le (map snd (rq1 ++ (x, d) :: rq2)) -> StronglySorted Z.le (map snd (rq1 ++ rq2)).
Proof.
  induction rq1 as [|[a e] rq1 IH]; cbn; intros Hs; apply StronglySorted_inv in Hs as [Hs HF]; [done|].
  constructor; [auto|]. rewrite map_app in *. apply Forall_app in HF as [? [_ ?]%Forall_cons].
  by apply Forall_app.
Qed.

Lemma RemoveEntry_spec q rq1 x d rq2 hor :
  repr q (rq1 ++ (x, d) :: rq2) hor ->
  exists q', RemoveEntry q (Some x) = Ret q' /\ repr q' (rq1 ++ rq2) hor /\
    m_lastSyncTime q' = m_lastSyncTime q /\ dom (hp q') = dom (hp q) /\
    data_of (hp q') x = data_of (hp q) x /\ next_of (hp q') x = None /\
    (forall a, (m_bc <$> data_of (hp q') a) = m_bc <$> data_of (hp q) a).
Proof.
  intros [Hr Hl Hd Hs Hh]. rewrite map_app in Hr. cbn [map fst] in Hr.
  set (L := tval (m_lastSyncTime q)) in *. apply deltas_app in Hd as [Hd1 [Hdx Hd2]].
  set (p := prev_after L L rq1) in *. assert (L <= p) as HLp by (by apply prev_after_le).
  pose proof Hr as [Hnd _]. apply NoDup_cons in Hnd as [Hth Hnd].
  pose proof Hnd as (N1 & N2 & [N3 N4]%NoDup_cons)%NoDup_app.
  pose proof (ring_node _ _ _ _ _ Hr) as (_ & _ & Hnx & _).
  set (nt := first_of (map fst rq2) this) in *.
  assert (nt <> x) as Hntx by (pose proof (first_of_elem (map fst rq2) this); set_solver).
  destruct (deltas_first _ _ _ _ _ Hd2) as (dn & Hdn & Hdb). fold nt in Hdn. specialize (Hdb ltac:(lia)).
  unfold RemoveEntry.
  destruct (load_delta _ _ _ Hdx) as (nx & -> & Edx & Hnn & Htx & Enx). cbn [mbind res_bind].
  rewrite <- Enx, Hnx. destruct (load_delta _ _ _ Hdn) as (nn & -> & Edn & Hnnn & Htn & _).
  cbn [mbind res_bind].
  destruct (add_tval (m_delta (n_data nn)) (m_delta (n_data nx))) as [Han Hav]; [done|done|lia|].
  destruct (upd_delta (hp q) nt (add (m_delta (n_data nn)) (m_delta (n_data nx))) _ Edn)
    as (h1 & -> & Hl1 & E1 & F1). cbn [mbind res_bind].
  destruct (unlink_ring h1 this (map fst rq1) x (map fst rq2)) as (h2 & -> & Hr2 & F2 & D2).
  { by eapply ring_same_links. }
  cbn [mbind res_bind].
  assert (forall h : heap entry, dom h = dom (hp q) -> is_Some (h !! x)) as Hdom.
  { intros h Eh. apply elem_of_dom. rewrite Eh. apply elem_of_dom. eapply ring_heap; [exact Hr|set_solver]. }
  destruct (upd_prev h2 x None) as (h3 & -> & D3 & d3 & n3 & p3);
    [apply Hdom; rewrite D2; apply Hl1|]. cbn [mbind res_bind].
  destruct (upd_next h3 x None) as (h4 & -> & D4 & d4 & p4 & n4);
    [apply Hdom; rewrite D3, D2; apply Hl1|]. cbn [mbind res_bind].
  eexists. split; [done|]. cbn [hp set_hp m_lastSyncTime].
  assert (forall a, data_of h4 a = data_of h1 a) as Fd by (intros; by rewrite d4, d3, F2).
  split_and!; [|done|rewrite D4, D3, D2; apply Hl1|rewrite Fd, F1; done|by rewrite n4, decide_True|
    intros a; rewrite Fd; apply Hl1].
  split; cbn [hp set_hp m_lastSyncTime]; fold L; try done; [|apply deltas_app; split|by eapply sorted_remove].
  - rewrite map_app. eapply ring_same; [exact Hr2| |]; intros a Ha.
    + rewrite n4, decide_False, n3; [done|]. intros ->. set_solver.
    + rewrite p4, p3, decide_False; [done|]. intros ->. set_solver.
  - eapply deltas_upto_same; [|exact Hd1]. intros a Ha. rewrite Fd. apply F1. intros ->.
    destruct (elem_of_app (map fst rq2) [this] nt) as [[Hf|Hf] _]; [apply first_of_elem| |].
    + apply (N2 _ Ha), elem_of_cons. by right.
    + apply list_elem_of_singleton in Hf. apply Hth, elem_of_app. left. by rewrite <- Hf.
  - fold p. apply (deltas_shift (hp q) h4 L (Z.max d L) p rq2 hor dn); try done.
    + apply NoDup_cons. set_solver.
    + fold nt. exists (Entry (add (m_delta (n_data nn)) (m_delta (n_data nx))) (m_bc (n_data nn))).
      rewrite Fd, E1. split_and!; [done|done|]. cbn. lia.
    + intros a _ Ha. rewrite Fd. by apply F1.
Qed.

(** *** Alarms *)

Lemma head_delta_spec q rq hor :
  repr q rq hor -> exists d, head_delta q = Ret d /\ norm d /\
    tval d = match rq with [] => hor | (_, dl) :: _ => Z.max dl (tval (m_lastSyncTime q)) end
             - tval (m_lastSyncTime q).
Proof.
  intros Hq. pose proof Hq as [Hr _ Hd _ _]. unfold head_delta. rewrite (head_first _ _ _ Hq).
  cbn [mbind res_bind]. set (L := tval (m_lastSyncTime q)) in *.
  assert (delta_is (hp q) (first_of (map fst rq) this)
    (match rq with [] => hor | (_, dl) :: _ => Z.max dl L end - L)) as Hdx
    by (destruct rq as [|[a dl] rq]; [exact Hd|apply Hd]).
  destruct (load_delta _ _ _ Hdx) as (n & -> & _ & Hn & Ht & _). cbn [mbind res_bind]. eauto.
Qed.

(** Deleting a node that is not in the ring. *)
Lemma repr_delete q rq hor a :
  repr q rq hor -> a ∉ this :: map fst rq -> repr (set_hp q (delete a (hp q))) rq hor.
Proof.
  intros [Hr Hl Hd Hs Hh] Ha.
  assert (forall b, b ∈ this :: map fst rq -> delete a (hp q) !! b = hp q !! b) as Hlk.
  { intros b Hb. apply lookup_delete_ne. intros ->. contradiction. }
  split; cbn; try done.
  - eapply ring_same; [exact Hr| |]; intros b Hb; unfold next_of, prev_of; by rewrite Hlk.
  - eapply deltas_same; [|exact Hd]. intros b Hb. unfold data_of. by rewrite Hlk.
Qed.

Definition due (T : Z) (rq : list (nat * Z)) : list nat := map fst (filter (fun ad => ad.2 <= T) rq).
Definition not_due (T : Z) (rq : list (nat * Z)) : list (nat * Z) := filter (fun ad => T < ad.2) rq.

Lemma not_due_all T rq : StronglySorted Z.le (map snd rq) ->
  match rq with [] => True | (_, d) :: _ => T < d end -> due T rq = [] /\ not_due T rq = rq.
Proof.
  destruct rq as [|[a d] rq]; [done|]. cbn [map snd]. intros [_ HF]%StronglySorted_inv Hd.
  assert (forall ad, ad ∈ (a, d) :: rq -> T < ad.2) as Hall.
  { intros [b e] [[= -> ->]|Hin]%elem_of_cons; [done|]. cbn.
    apply (list_elem_of_fmap_2 snd) in Hin. rewrite Forall_forall in HF. specialize (HF _ Hin). cbn in HF. lia. }
  unfold due, not_due. split; [rewrite filter_all_false; [done|]|by rewrite filter_all_true].
  intros ad Hin. specialize (Hall _ Hin). lia.
Qed.

(** The callback of the entry [a]. *)
Definition bc_at (q : t) (a : nat) : option nat := mjoin (m_bc <$> data_of (hp q) a).

(** *** Callbacks that leave the queue alone *)

Section effects.
Context {W : Type} (get : W -> t) (put : W -> t -> W) (run : option nat -> W -> res W) (eff : option nat -> W -> W)
  (run_eff : forall bc w, run bc w = Ret (eff bc w)).
Context (get_put : forall w q, get (put w q) = q) (put_put : forall w q q', put (put w q) q' = put w q')
  (put_get : forall w, put w (get w) = w) (eff_put : forall bc w q, eff bc (put w q) = put (eff bc w) q).

(** What the callbacks of the entries [l] do, one after the other. *)
Definition effects (q : t) (l : list nat) (w : W) : W := fold_left (fun w a => eff (bc_at q a) w) l w.

Lemma effects_put q l : forall w q', effects q l (put w q') = put (effects q l w) q'.
Proof. unfold effects. induction l as [|a l IH]; intros w q'; cbn; [done|]. by rewrite eff_put. Qed.

Lemma effects_same q q' l w : (forall a, a ∈ l -> bc_at q' a = bc_at q a) -> effects q' l w = effects q l w.
Proof.
  unfold effects. revert w. induction l as [|a l IH]; intros w H; cbn; [done|]. rewrite H by set_solver. apply IH. set_solver.
Qed.

Lemma alarm_loop_spec rq : forall fuel w hor,
  (length rq < fuel)%nat -> repr (get w) rq hor -> tval (m_lastSyncTime (get w)) < hor ->
  let L := tval (m_lastSyncTime (get w)) in
  exists q', alarm_loop get put run fuel w = Ret (put (effects (get w) (due L rq) w) q') /\
    repr q' (not_due L rq) hor /\ dom (hp q') = dom (hp (get w)) ∖ list_to_set (due L rq).
Proof.
  induction rq as [|[a d] rq IH]; intros fuel w hor Hf Hq Hh L;
    (destruct fuel as [|fuel]; [cbn in *; lia|]); cbn [alarm_loop length] in *;
    destruct (head_delta_spec _ _ _ Hq) as (dl & -> & Hn & Hv); cbn [mbind res_bind];
    rewrite eqb_zero, Hv by done; fold L; fold L in Hh; pose proof (repr_sorted _ _ _ Hq) as Hs.
  - ztest. exists (get w). unfold due. cbn. rewrite put_get. split_and!; [done|done|]. set_solver.
  - destruct (decide (d <= L)) as [Hle|Hgt]; ztest.
    2:{ exists (get w). destruct (not_due_all L ((a, d) :: rq)) as [-> ->]; [done|lia|].
        cbn. rewrite put_get. split_and!; [done|done|]. set_solver. }
    rewrite (head_first _ _ _ Hq). cbn [map fst first_of hd mbind res_bind].
    destruct (RemoveEntry_spec (get w) [] a d rq hor Hq) as (q1 & -> & Hq1 & Hl1 & D1 & E1 & _ & B1).
    cbn [mbind res_bind app] in *.
    assert (is_Some (hp q1 !! a)) as Ha.
    { apply elem_of_dom. rewrite D1. apply elem_of_dom. eapply ring_heap; [apply Hq|set_solver]. }
    assert (a ∉ this :: map fst rq) as Hna.
    { pose proof (repr_ring _ _ _ Hq) as [Hnd _]. cbn in Hnd.
      apply NoDup_cons in Hnd as [Hth Hnd]. apply NoDup_cons in Hnd as [Hax _]. set_solver. }
    destruct (load_ok (hp q1) a Ha) as (n & En & _ & _ & Edn). rewrite En. cbn [mbind res_bind].
    assert (m_bc (n_data n) = bc_at (get w) a) as Eb.
    { unfold bc_at. rewrite <- B1, Edn. done. }
    rewrite run_eff. cbn [mbind res_bind]. rewrite eff_put, get_put, En. cbn [mbind res_bind]. set (q2 := set_hp q1 (delete a (hp q1))). rewrite put_put.
    assert (get (put (eff (m_bc (n_data n)) w) q2) = q2) as G by apply get_put.
    destruct (IH fuel (put (eff (m_bc (n_data n)) w) q2) hor) as (q' & -> & Hq' & Hd');
      [lia|rewrite G; by apply repr_delete|rewrite G; unfold q2; cbn; rewrite Hl1; exact Hh|].
    rewrite G in *. change (m_lastSyncTime q2) with (m_lastSyncTime q1) in *. rewrite Hl1 in *. fold L in Hq', Hd' |- *.
    exists q'. unfold due, not_due. rewrite filter_cons_True, filter_cons_False by (cbn; lia).
    fold (due L rq) (not_due L rq). cbn [map fst]. split_and!; [|done|].
    + rewrite effects_put, put_put, Eb. unfold effects at 2. cbn [fold_left]. fold (effects (get w) (due L rq) (eff (bc_at (get w) a) w)).
      f_equal. f_equal. apply effects_same. intros b Hb. unfold bc_at. f_equal.
      assert (b <> a) as Hba.
      { intros ->. apply Hna. apply elem_of_cons. right. unfold due in Hb.
        apply list_elem_of_fmap in Hb as (x & -> & [_ Hx]%list_elem_of_filter). by apply list_elem_of_fmap_2. }
      unfold q2. cbn [hp set_hp]. rewrite <- B1. unfold data_of. by rewrite lookup_delete_ne.
    + rewrite Hd'. unfold q2. cbn [hp set_hp]. rewrite dom_delete_L, D1. set_solver.
Qed.

(** The time up to which [HandleAlarm] at [now] fires. *)
Definition alarm_time (last now : Z) (rq : list (nat * Z)) : Z :=
  match rq with (_, dl) :: _ => if dl <=? last then last else now | [] => now end.

Lemma HandleAlarm_ok fuel w rq hor now :
  repr (get w) rq hor -> norm now -> tval (m_lastSyncTime (get w)) <= tval now < hor ->
  tval now - tval (m_lastSyncTime (get w)) < 2 ^ 31 * MILLION -> (length rq < fuel)%nat ->
  let T := alarm_time (tval (m_lastSyncTime (get w))) (tval now) rq in
  exists q', HandleAlarm get put run fuel now w = Ret (put (effects (get w) (due T rq) w) q') /\
    repr q' (not_due T rq) hor /\ dom (hp q') = dom (hp (get w)) ∖ list_to_set (due T rq).
Proof.
  intros Hq Hn Hle Hel Hf T. unfold HandleAlarm.
  destruct (head_delta_spec _ _ _ Hq) as (d & -> & Hnd & Hv). cbn [mbind res_bind].
  unfold neqb. rewrite eqb_zero by done.
  assert (forall q1, repr q1 rq hor -> tval (m_lastSyncTime q1) = T -> T < hor -> same_links (hp (get w)) (hp q1) ->
    exists q', alarm_loop get put run fuel (put w q1) = Ret (put (effects (get w) (due T rq) w) q') /\
      repr q' (not_due T rq) hor /\ dom (hp q') = dom (hp (get w)) ∖ list_to_set (due T rq)) as Hloop.
  { intros q1 Hq1 HT Hlt Hs1.
    destruct (alarm_loop_spec rq fuel (put w q1) hor Hf) as (q' & E & Hq' & Hd');
      [by rewrite get_put|by rewrite get_put, HT|]. rewrite get_put, HT, effects_put, put_put in *. exists q'.
    rewrite Hd', (sl_dom _ _ Hs1), E. split_and!; [|done|done]. do 2 f_equal. apply effects_same. intros a _.
    unfold bc_at. f_equal. apply Hs1. }
  destruct (decide (tval d = 0)) as [Hz|Hz]; ztest.
  - cbn [mbind res_bind]. apply Hloop; [done| | |apply same_links_refl]; unfold T, alarm_time; destruct rq as [|[a dl] rq];
      ztest; lia.
  - destruct (synchronize_spec (get w) rq hor now Hq Hn Hle Hel) as (q1 & -> & Hq1 & Hl1 & Hs1 & _).
    cbn [mbind res_bind]. apply Hloop; [done|rewrite Hl1| |done]; unfold T, alarm_time; destruct rq as [|[a dl] rq];
      ztest; lia.
Qed.

End effects.

(** The deadline [TimeToNextAlarm] looks at. *)
Definition next_dl (rq : list (nat * Z)) (hor : Z) : Z :=
  match rq with [] => hor | (_, dl) :: _ => dl end.

Lemma TimeToNextAlarm_ok q rq hor now :
  repr q rq hor -> norm now -> tval (m_lastSyncTime q) <= tval now < hor ->
  tval now - tval (m_lastSyncTime q) < 2 ^ 31 * MILLION ->
  exists d q', TimeToNextAlarm now q = Ret (d, q') /\ repr q' rq hor /\ norm d /\
    tval d = (if next_dl rq hor <=? tval (m_lastSyncTime q) then 0
              else Z.max 0 (next_dl rq hor - tval now)) /\
    m_lastSyncTime q' = (if next_dl rq hor <=? tval (m_lastSyncTime q) then m_lastSyncTime q else now) /\
    same_links (hp q) (hp q').
Proof.
  intros Hq Hn Hle Hel. set (next := next_dl rq hor). unfold TimeToNextAlarm.
  destruct (head_delta_spec _ _ _ Hq) as (d & -> & Hnd & Hv). cbn [mbind res_bind].
  rewrite eqb_zero by done.
  assert (tval d = Z.max next (tval (m_lastSyncTime q)) - tval (m_lastSyncTime q)) as Ed
    by (rewrite Hv; unfold next, next_dl; destruct rq as [|[? ?] ?]; lia).
  destruct (decide (next <= tval (m_lastSyncTime q))); ztest.
  - by exists DELAY_ZERO, q.
  - destruct (synchronize_spec q rq hor now Hq Hn Hle Hel) as (q1 & -> & Hq1 & Hl1 & Hsl1 & _).
    cbn [mbind res_bind]. destruct (head_delta_spec _ _ _ Hq1) as (d1 & -> & Hnd1 & Hv1).
    cbn [mbind res_bind]. exists d1, q1. split_and!; try done. rewrite Hv1, Hl1.
    unfold next, next_dl. destruct rq as [|[? ?] ?]; lia.
Qed.

(** *** Callbacks that schedule *)

(** A task: the address of its entry, its deadline, its callback. *)
Abbreviation task := (nat * Z * option nat)%type.
Implicit Types (ts : list task).

(** The queue holds the tasks [ts]; the other nodes of the heap are [extra]. *)
Record tasked (q : t) (extra : gset nat) ts (hor : Z) : Prop := {
  tk_repr : repr q (map fst ts) hor;
  tk_bc : Forall (fun k => (m_bc <$> data_of (hp q) k.1.1) = Some k.2) ts;
  tk_dom : dom (hp q) = extra ∪ list_to_set (this :: map fst (map fst ts));
  tk_extra : extra ## list_to_set (this :: map fst (map fst ts))
}.

(** Another reading of the clock. *)
Lemma tasked_same q q' extra ts hor : tasked q extra ts hor -> repr q' (map fst ts) hor -> same_links (hp q) (hp q') ->
  tasked q' extra ts hor.
Proof.
  intros [_ Hb Hd He] Hq' Hs. constructor; [done| |by rewrite (sl_dom _ _ Hs)|done].
  eapply Forall_impl; [exact Hb|]. cbn. intros k Hk. by rewrite (sl_bc _ _ Hs).
Qed.

Definition by_now (T : Z) : task -> Prop := fun k => k.1.2 <= T.
Definition later (T : Z) : task -> Prop := fun k => T < k.1.2.

#[export] Instance by_now_dec T k : Decision (by_now T k).
Proof. unfold by_now. apply _. Defined.
#[export] Instance later_dec T k : Decision (later T k).
Proof. unfold later. apply _. Defined.

Lemma sorted_head (a : nat) d (rq : list (nat * Z)) : StronglySorted Z.le (map snd ((a, d) :: rq)) -> Forall (fun ad => d <= ad.2) rq.
Proof. cbn. intros [_ H]%StronglySorted_inv. by rewrite List.Forall_map in H. Qed.

Lemma task_sorted q rq hor k ts : repr q rq hor -> rq = map fst (k :: ts) -> Forall (fun k' : task => k.1.2 <= k'.1.2) ts.
Proof.
  intros Hq ->. pose proof (repr_sorted _ _ _ Hq) as Hs. cbn in Hs. apply StronglySorted_inv in Hs as [_ H].
  by rewrite map_map, List.Forall_map in H.
Qed.

Lemma by_now_later T ts : Forall (later T) ts -> filter (by_now T) ts = [].
Proof. intros H. rewrite Forall_forall in H. apply filter_all_false. intros k Hk. specialize (H k Hk). unfold by_now, later in *. lia. Qed.

Lemma later_all T ts : Forall (later T) ts -> filter (later T) ts = ts.
Proof. intros H. rewrite Forall_forall in H. by apply filter_all_true. Qed.

Lemma by_now_le T hi ts : T <= hi -> filter (by_now T) ts = filter (by_now T) (filter (by_now hi) ts).
Proof. intros Hle. induction ts as [|k ts IH]; [done|]. unfold by_now in *. rewrite !filter_cons. repeat case_decide; rewrite ?filter_cons; repeat case_decide; try lia; by rewrite IH. Qed.

Lemma by_now_split T ts : ts ≡ₚ filter (by_now T) ts ++ filter (later T) ts.
Proof.
  induction ts as [|k ts IH]; [done|]. rewrite !filter_cons. unfold by_now, later in *. repeat case_decide; try lia; cbn.
  - by rewrite <- IH.
  - by rewrite <- Permutation_middle, <- IH.
Qed.

(** The head of the ring leaves it, and stays in the heap while its callback runs. *)
Lemma take_head q extra a d bc ts hor : tasked q extra ((a, d, bc) :: ts) hor ->
  exists q1 n, RemoveEntry q (Some a) = Ret q1 /\ load (hp q1) a = Ret n /\ m_bc (n_data n) = bc /\
    tasked q1 ({[a]} ∪ extra) ts hor /\ m_lastSyncTime q1 = m_lastSyncTime q.
Proof.
  intros [Hq Hb Hd He]. cbn [map fst] in *.
  destruct (RemoveEntry_spec q [] a d (map fst ts) hor Hq) as (q1 & E1 & Hq1 & Hl1 & D1 & _ & _ & B1). cbn [app] in *.
  pose proof (repr_ring _ _ _ Hq) as [Hnd _]. cbn in Hnd. apply NoDup_cons in Hnd as [Hth Hnd]. apply NoDup_cons in Hnd as [Hax _].
  assert (is_Some (hp q1 !! a)) as Ha by (apply elem_of_dom; rewrite D1, Hd; set_solver).
  destruct (load_ok (hp q1) a Ha) as (n & En & _ & _ & Edn). apply Forall_cons in Hb as [Hba Hb]. cbn in Hba.
  exists q1, n. split_and!; [done|done| | |done].
  - rewrite <- B1, Edn in Hba. by injection Hba.
  - constructor; [done| |rewrite D1, Hd; set_solver|set_solver].
    eapply Forall_impl; [exact Hb|]. intros k Hk. cbn in *. by rewrite B1.
Qed.

Lemma drop_node q extra a ts hor : tasked q ({[a]} ∪ extra) ts hor -> a ∉ extra ->
  is_Some (hp q !! a) /\ tasked (set_hp q (delete a (hp q))) extra ts hor.
Proof.
  intros [Hq Hb Hd He] Ha. split; [apply elem_of_dom; rewrite Hd; set_solver|].
  assert (a ∉ this :: map fst (map fst ts)) as Hna by set_solver. constructor; cbn [hp set_hp].
  - by apply repr_delete.
  - apply Forall_forall. intros k Hk. rewrite Forall_forall in Hb. rewrite <- (Hb k Hk). unfold data_of.
    rewrite lookup_delete_ne; [done|]. intros ->. apply Hna, elem_of_cons. right. rewrite map_map. by apply (list_elem_of_fmap_2 (fun k => k.1.1)).
  - rewrite dom_delete_L, Hd. set_solver.
  - set_solver.
Qed.

Section alarms.
(** [log] is what the callbacks have left in the world: their calls and the tasks they
    have scheduled. *)
Context {W Ev : Type} (get : W -> t) (put : W -> t -> W) (run : option nat -> W -> res W) (P : W -> Prop).
Context (log : W -> list Ev) (called : Ev -> option nat) (booked : Ev -> option task).
Context (get_put : forall w q, get (put w q) = q) (P_put : forall w q, P w -> P (put w q))
  (log_put : forall w q, log (put w q) = log w).

Definition last (w : W) : Z := tval (m_lastSyncTime (get w)).

(** While the queue's clock is between [lo] and [hi], a callback leaves its call in the
    log and adds the tasks it leaves there, which are due after [hi]; the tasks
    that are due before stay in their order, and no other node is touched. *)
Definition schedules (lo hi hor : Z) : Prop :=
  forall bc w extra ts, tasked (get w) extra ts hor -> P w -> lo <= last w <= hi ->
  exists w' ts' evs, run bc w = Ret w' /\ tasked (get w') extra ts' hor /\ P w' /\
    log w' = log w ++ evs /\ omap called evs = option_list bc /\
    ts' ≡ₚ ts ++ omap booked evs /\ filter (by_now hi) ts' = filter (by_now hi) ts /\
    Forall (later hi) (omap booked evs) /\ last w <= last w' <= hi.

(** From [ts], what is due at the end has been called, in order; the rest is left, with
    what has been scheduled meanwhile. *)
Record served (hi : Z) (w w' : W) ts ts' (evs : list Ev) : Prop := {
  sv_log : log w' = log w ++ evs;
  sv_called : omap called evs = omap snd (filter (by_now (last w')) ts);
  sv_left : ts' ≡ₚ filter (later (last w')) ts ++ omap booked evs;
  sv_none_due : Forall (later (last w')) ts';
  sv_booked : Forall (later hi) (omap booked evs);
  sv_clock : last w <= last w' <= hi
}.

(** What the loop comes to from [w], with fuel enough. *)
Definition loop_serves (hi hor : Z) extra (n : nat) (w : W) ts : Prop :=
  exists w' ts' evs, (forall fuel, (n < fuel)%nat -> alarm_loop get put run fuel w = Ret w') /\
    tasked (get w') extra ts' hor /\ P w' /\ served hi w w' ts ts' evs.

Lemma alarm_loop_idle hi hor extra n w ts : hi < hor -> tasked (get w) extra ts hor -> P w -> last w <= hi ->
  match ts with [] => True | k :: _ => last w < k.1.2 end -> loop_serves hi hor extra n w ts.
Proof.
  intros Hh Ht HP Hc Hd. pose proof (tk_repr _ _ _ _ Ht) as Hq. destruct (head_delta_spec _ _ _ Hq) as (dl & Ed & Hnd & Hv). fold (last w) in Hv.
  assert (Forall (later (last w)) ts) as Hl.
  { destruct ts as [|k ts]; [done|]. constructor; [done|]. eapply Forall_impl; [by eapply task_sorted|]. unfold later. cbn. intros. lia. }
  exists w, ts, []. split_and!; [|done|done|].
  - intros [|fuel] Hf; [lia|]. cbn [alarm_loop]. rewrite Ed. cbn [mbind res_bind].
    rewrite eqb_zero by done. destruct ts as [|[[a d] bc] ts]; cbn in Hd, Hv; by ztest.
  - constructor; cbn; [by rewrite app_nil_r|by rewrite by_now_later|by rewrite later_all, app_nil_r|done|done|lia].
Qed.

Lemma alarm_loop_served lo hi hor extra : schedules lo hi hor -> hi < hor -> forall n w ts,
  tasked (get w) extra ts hor -> P w -> lo <= last w <= hi -> length (filter (by_now hi) ts) = n ->
  loop_serves hi hor extra n w ts.
Proof.
  intros Hrun Hh. induction n as [|n IH]; intros w ts Ht HP Hc Hn; pose proof (tk_repr _ _ _ _ Ht) as Hq;
    (destruct ts as [|[[a d] bc] ts]; [apply alarm_loop_idle; done || lia|]);
    (destruct (decide (last w < d)) as [Hd|Hd]; [apply alarm_loop_idle; done || lia|apply Z.nlt_ge in Hd]);
    rewrite filter_cons_True in Hn by (unfold by_now; cbn; lia); cbn in Hn; [done|].
  destruct (head_delta_spec _ _ _ Hq) as (dl & Ed & Hnd & Hv). fold (last w) in Hv.
  destruct (take_head _ _ _ _ _ _ _ Ht) as (q1 & nd & E1 & En & Eb & Ht1 & Hl1).
  assert (a ∉ extra) as Hax by (pose proof (tk_extra _ _ _ _ Ht); set_solver).
  assert (last (put w q1) = last w) as El by (unfold last; by rewrite get_put, Hl1).
  destruct (Hrun bc (put w q1) ({[a]} ∪ extra) ts) as (w1 & ts1 & evs1 & Er & Ht2 & HP2 & Hlog1 & Hcal1 & Hp & Hsoon & Hadd & Hc1);
    [by rewrite get_put|by apply P_put|by rewrite El|]. rewrite El in Hc1. rewrite log_put in Hlog1.
  destruct (drop_node _ _ _ _ _ Ht2 Hax) as [Ha1 Ht3]. destruct (load_ok (hp (get w1)) a Ha1) as (nd1 & En1 & _).
  set (w2 := put w1 (set_hp (get w1) (delete a (hp (get w1))))).
  assert (last w2 = last w1) as El2 by (unfold last, w2; by rewrite get_put).
  destruct (IH w2 ts1) as (w' & ts' & evs & E & Ht' & HP' & [L C D N A K]);
    [by unfold w2; rewrite get_put|by apply P_put|rewrite El2; lia|rewrite Hsoon; lia|].
  rewrite El2 in K. unfold w2 in L. rewrite log_put, Hlog1 in L.
  exists w', ts', (evs1 ++ evs). split_and!; [|done|done|].
  + intros [|fuel] Hf; [lia|]. cbn [alarm_loop]. rewrite Ed. cbn [mbind res_bind].
    rewrite eqb_zero by done. cbn [map fst] in Hv. ztest. rewrite (head_first _ _ _ Hq). cbn [map fst first_of hd mbind res_bind].
    rewrite E1. cbn [mbind res_bind]. rewrite En, <- Eb in *. cbn [mbind res_bind]. rewrite Er. cbn [mbind res_bind].
    rewrite En1. cbn [mbind res_bind]. fold w2. by rewrite E by lia.
  + assert (filter (by_now (last w')) ts1 = filter (by_now (last w')) ts) as Esoon.
    { rewrite (by_now_le (last w') hi ts1), Hsoon, <- by_now_le by lia. done. }
    constructor; rewrite ?omap_app; [by rewrite L, app_assoc| | |done|by apply Forall_app|lia].
    * rewrite filter_cons_True by (unfold by_now; cbn; lia). rewrite Hcal1, C, Esoon. cbn. by destruct bc.
    * rewrite filter_cons_False by (unfold later; cbn; lia). rewrite D, Hp, filter_app, (later_all _ (omap booked evs1)), app_assoc; [done|].
      eapply Forall_impl; [exact Hadd|]. unfold later. intros. lia.
Qed.

(** [HandleAlarm] at [now]. *)
Lemma HandleAlarm_served lo hi hor extra w ts now : schedules lo hi hor -> hi < hor ->
  tasked (get w) extra ts hor -> P w -> norm now -> lo <= last w <= tval now -> tval now <= hi ->
  tval now - last w < 2 ^ 31 * MILLION ->
  exists w' ts' evs N, (forall fuel, (N < fuel)%nat -> HandleAlarm get put run fuel now w = Ret w') /\
    tasked (get w') extra ts' hor /\ P w' /\ served hi w w' ts ts' evs /\
    (Forall (later (last w)) ts -> tval now <= last w').
Proof.
  intros Hrun Hh Ht HP Hn Hc Hnow Hel. pose proof (tk_repr _ _ _ _ Ht) as Hq. unfold HandleAlarm.
  destruct (head_delta_spec _ _ _ Hq) as (d & -> & Hnd & Hv). fold (last w) in Hv. cbn [mbind res_bind].
  unfold neqb. rewrite eqb_zero by done.
  assert (forall q1, tasked q1 extra ts hor -> last w <= tval (m_lastSyncTime q1) <= hi ->
    exists w' ts' evs N, (forall fuel, (N < fuel)%nat -> alarm_loop get put run fuel (put w q1) = Ret w') /\
      tasked (get w') extra ts' hor /\ P w' /\ served hi w w' ts ts' evs /\ tval (m_lastSyncTime q1) <= last w') as Hloop.
  { intros q1 Hq1 Hc1. assert (last (put w q1) = tval (m_lastSyncTime q1)) as El by (unfold last; by rewrite get_put).
    destruct (alarm_loop_served lo hi hor extra Hrun Hh (length (filter (by_now hi) ts)) (put w q1) ts)
      as (w' & ts' & evs & E & Ht' & HP' & [L C D N A K]); [by rewrite get_put|by apply P_put|rewrite El; lia|done|].
    rewrite El in K. rewrite log_put in L.
    exists w', ts', evs, (length (filter (by_now hi) ts)). split_and!; [done|done|done| |lia]. constructor; done || lia. }
  destruct (decide (tval d = 0)) as [Hz|Hz]; ztest; cbn [negb mbind res_bind].
  - destruct (Hloop (get w)) as (w' & ts' & evs & N & E & ? & ? & ? & K); [done|unfold last in *; lia|].
    exists w', ts', evs, N. split_and!; try done. intros Hs.
    destruct ts as [|[[a dl] bc] ts]; [cbn in Hv; lia|]. apply Forall_cons in Hs as [? _]. unfold later in *. cbn in *. lia.
  - destruct (synchronize_spec (get w) _ hor now Hq Hn) as (q1 & -> & Hq1 & Hl1 & Hs1 & _); [unfold last in *; lia|done|].
    cbn [mbind res_bind]. destruct (Hloop q1) as (w' & ts' & evs & N & E & ? & ? & ? & K).
    { by eapply tasked_same. }
    { rewrite Hl1; unfold last in *; lia. }
    exists w', ts', evs, N. split_and!; try done. intros _. by rewrite Hl1 in K.
Qed.

End alarms.

(** *** Construction *)

Lemma repr_init now : norm now -> repr (init now) [] (tval now + (LIM - 1)).
Proof.
  intros Hn. split; cbn [map fst snd hp init m_lastSyncTime]; try done; [| |by constructor|lia].
  - split; [apply NoDup_singleton|]. constructor; [|constructor]. done.
  - cbn. exists (Entry ETERNITY None). split; [done|]. split; [by apply (bool_decide_eq_true _)|].
    cbn [m_delta]. unfold tval at 1. cbn [Seconds Useconds ETERNITY]. unfold LIM, MILLION. lia.
Qed.

Lemma repr_new q rq hor di bc q' x :
  repr q rq hor -> norm di -> new_entry q di bc = (q', x) ->
  repr q' rq hor /\ x ∉ this :: map fst rq /\ delta_is (hp q') x (tval di) /\
  m_lastSyncTime q' = m_lastSyncTime q.
Proof.
  intros [Hr Hl Hd Hs Hh] Hn [= <- <-]. set (x := fresh (dom (hp q))) in *.
  assert (hp q !! x = None) as Hx by (apply not_elem_of_dom, is_fresh).
  assert (x ∉ this :: map fst rq) as Hnot.
  { intros H. apply (ring_heap _ _ _ _ Hr) in H as [n Hs']. congruence. }
  split_and!; [|done| |done].
  - split; cbn; try done.
    + eapply ring_same; [exact Hr| |]; intros b Hb; rewrite ?next_of_insert, ?prev_of_insert,
        decide_False; [done|by intros ->|done|by intros ->].
    + eapply deltas_same; [|exact Hd]. intros b Hb. rewrite data_of_insert, decide_False; [done|].
      by intros ->.
  - exists (Entry di bc). cbn. rewrite data_of_insert, decide_True by done. done.
Qed.

(** *** A new task *)

(** A task goes behind those due at the same time. *)
Fixpoint insert_task (k : task) ts : list task :=
  match ts with
  | [] => [k]
  | k' :: ts' => if k'.1.2 <=? k.1.2 then k' :: insert_task k ts' else k :: k' :: ts'
  end.

Lemma insert_task_fst k ts : map fst (insert_task k ts) = insert_dl k.1.1 k.1.2 (map fst ts).
Proof.
  destruct k as [[x d] bc]. induction ts as [|[[a e] b] ts IH]; cbn; [done|]. case_match; cbn; [by rewrite IH|done].
Qed.

Lemma insert_task_perm k ts : insert_task k ts ≡ₚ ts ++ [k].
Proof.
  induction ts as [|k' ts IH]; cbn; [done|]. case_match; [by rewrite IH|]. by rewrite (Permutation_app_comm ts [k]), Permutation_swap.
Qed.

Lemma insert_task_soon T k ts : later T k -> filter (by_now T) (insert_task k ts) = filter (by_now T) ts.
Proof.
  intros Hk. induction ts as [|k' ts IH]; cbn [insert_task].
  - rewrite filter_cons_False; [done|]. unfold later, by_now in *. lia.
  - case_match; [rewrite !filter_cons; by rewrite IH|]. rewrite filter_cons_False; [done|]. unfold later, by_now in *. lia.
Qed.

Lemma init_tasked now : norm now -> tasked (init now) ∅ [] (tval now + (LIM - 1)).
Proof.
  intros Hn. constructor; [by apply repr_init|constructor| |set_solver]. unfold init. cbn [hp map]. rewrite dom_singleton_L. set_solver.
Qed.

Lemma AddEntry_tasked q extra ts hor now di bc : tasked q extra ts hor -> norm now -> norm di ->
  tval (m_lastSyncTime q) <= tval now -> tval now - tval (m_lastSyncTime q) < 2 ^ 31 * MILLION ->
  tval now + tval di < hor -> let '(q1, x) := new_entry q di bc in
  x ∉ dom (hp q) /\ exists q', AddEntry now q1 x = Ret q' /\ m_lastSyncTime q' = now /\
    tasked q' extra (insert_task (x, tval now + tval di, bc) ts) hor.
Proof.
  intros [Hq Hb Hd He] Hn Hdi Hle Hel Hh. destruct (new_entry q di bc) as [q1 x] eqn:E.
  destruct (repr_new _ _ _ _ _ _ _ Hq Hdi E) as (Hq1 & Hx & Hdx & Hl1).
  destruct (AddEntry_spec q1 (map fst ts) hor now x (tval di)) as (q' & E2 & Hq' & Hl' & D' & B');
    [done|done|by rewrite Hl1|by rewrite Hl1|done|done|done|].
  injection E as <- Ex. cbn [hp set_hp] in *. assert (x ∉ dom (hp q)) as Hnew by (subst x; apply is_fresh). rewrite Ex in *.
  split; [done|]. exists q'. split_and!; [done|done|].
  assert (forall b, b ∈ dom (hp q) -> (m_bc <$> data_of (hp q') b) = (m_bc <$> data_of (hp q) b)) as Hold.
  { intros b Hbd. rewrite B', data_of_insert, decide_False; [done|]. by intros ->. }
  constructor.
  - by rewrite insert_task_fst.
  - rewrite insert_task_perm, Forall_app. split.
    + apply Forall_forall. intros k Hk. rewrite Forall_forall in Hb. rewrite <- (Hb k Hk). apply Hold. rewrite Hd.
      apply elem_of_union_r, elem_of_list_to_set, elem_of_cons. right. rewrite map_map. by apply (list_elem_of_fmap_2 (fun k => k.1.1)).
    + constructor; [|constructor]. cbn. by rewrite B', data_of_insert, decide_True.
  - rewrite D', dom_insert_L, Hd, insert_task_perm, !map_app. cbn. set_solver.
  - rewrite insert_task_perm, !map_app. cbn. set_solver.
Qed.

(** ** Properties *)

(** C13: Adding an entry puts its deadline, now plus its delay, behind all deadlines
    that are not later, and loses no other entry and no callback. *)
Theorem AddEntry_refines q rq hor now x d :
  repr q rq hor -> norm now -> tval (m_lastSyncTime q) <= tval now ->
  tval now - tval (m_lastSyncTime q) < 2 ^ 31 * MILLION ->
  x ∉ this :: map fst rq -> delta_is (hp q) x d -> tval now + d < hor ->
  exists q', AddEntry now q x = Ret q' /\ repr q' (insert_dl x (tval now + d) rq) hor /\
    m_lastSyncTime q' = now /\
    (forall a, (m_bc <$> data_of (hp q') a) = m_bc <$> data_of (hp q) a).
Proof.
  intros Hq ? ? ? ? ? ?. destruct (AddEntry_spec q rq hor now x d Hq) as (q' & ? & ? & ? & _ & ?);
    eauto.
Qed.

Lemma AddEntry_refines_witness :
  let q := (new_entry (init (Timeval.mk 100 0)) (Timeval.mk 5 0) (Some 7%nat)).1 in
  let x := (new_entry (init (Timeval.mk 100 0)) (Timeval.mk 5 0) (Some 7%nat)).2 in
  exists q', AddEntry (Timeval.mk 101 0) q x = Ret q' /\
    repr q' [(x, 106000000)] (100000000 + (LIM - 1)) /\ m_lastSyncTime q' = Timeval.mk 101 0 /\
    (forall a, (m_bc <$> data_of (hp q') a) = m_bc <$> data_of (hp q) a).
Proof.
  intros q x.
  destruct (repr_new (init (Timeval.mk 100 0)) [] (100000000 + (LIM - 1)) (Timeval.mk 5 0) (Some 7%nat) q x)
    as (Hq & Hx & Hd & Hl);
    [apply (repr_init (Timeval.mk 100 0)); by apply (bool_decide_eq_true _)|by apply (bool_decide_eq_true _)|done|].
  apply (AddEntry_refines q [] (100000000 + (LIM - 1)) (Timeval.mk 101 0) x 5000000);
    [exact Hq|by apply (bool_decide_eq_true _)|by vm_compute|by vm_compute|exact Hx|exact Hd|by vm_compute].
Defined.

(** Removing an entry leaves the deadlines of all others where they were; the
    entry can be added again, which is what [UpdateEntry] does. *)
Theorem UpdateEntry_refines q rq1 x d rq2 hor now nd :
  repr q (rq1 ++ (x, d) :: rq2) hor -> norm now -> norm nd ->
  tval (m_lastSyncTime q) <= tval now ->
  tval now - tval (m_lastSyncTime q) < 2 ^ 31 * MILLION -> tval now + tval nd < hor ->
  (exists q', RemoveEntry q (Some x) = Ret q' /\ repr q' (rq1 ++ rq2) hor) /\
  (exists q', UpdateEntry now q (Some x) nd = Ret q' /\
    repr q' (insert_dl x (tval now + tval nd) (rq1 ++ rq2)) hor).
Proof.
  intros Hq Hn Hnd Hle Hel Hh.
  destruct (RemoveEntry_spec _ _ _ _ _ _ Hq) as (q1 & E1 & Hq1 & Hl1 & D1 & Ed1 & En1 & _).
  split; [eauto|]. unfold UpdateEntry. rewrite E1. cbn [mbind res_bind].
  pose proof (repr_ring _ _ _ Hq) as [Hnx _]. rewrite map_app in Hnx. cbn [map fst] in Hnx.
  apply NoDup_cons in Hnx as [Hth Hnx]. apply NoDup_app in Hnx as (_ & N2 & [N3 _]%NoDup_cons).
  assert (x ∉ this :: map fst (rq1 ++ rq2)) as Hx.
  { rewrite map_app. intros [->|[H|H]%elem_of_app]%elem_of_cons.
    - apply Hth, elem_of_app. right. apply elem_of_cons. by left.
    - apply (N2 _ H), elem_of_cons. by left.
    - done. }
  assert (is_Some (hp q1 !! x)) as [n En].
  { apply elem_of_dom. rewrite D1. apply elem_of_dom.
    eapply ring_heap; [apply (repr_ring _ _ _ Hq)|]. rewrite map_app. cbn. set_solver. }
  assert (data_of (hp q1) x = Some (n_data n)) as Edx by (unfold data_of; by rewrite En).
  destruct (upd_delta (hp q1) x nd _ Edx) as (h & -> & Hsl & E2 & F2). cbn [mbind res_bind].
  destruct (AddEntry_spec (set_hp q1 h) (rq1 ++ rq2) hor now x (tval nd)) as (q2 & -> & Hq2 & _);
    [|done|cbn; by rewrite Hl1|cbn; by rewrite Hl1|done|by eexists|done|eauto].
  destruct Hq1 as [Hr1 Hl Hd1 Hs1 Hh1]. split; cbn; try done.
  - by eapply ring_same_links.
  - eapply deltas_same; [|exact Hd1]. intros b Hb. apply F2. by intros ->.
Qed.

Lemma UpdateEntry_refines_witness :
  let q := (new_entry (init (Timeval.mk 100 0)) (Timeval.mk 5 0) (Some 7%nat)).1 in
  let x := (new_entry (init (Timeval.mk 100 0)) (Timeval.mk 5 0) (Some 7%nat)).2 in
  exists q', AddEntry (Timeval.mk 101 0) q x = Ret q' /\
   exists q'', UpdateEntry (Timeval.mk 103 0) q' (Some x) (Timeval.mk 1 0) = Ret q'' /\
     repr q'' [(x, 104000000)] (100000000 + (LIM - 1)).
Proof.
  intros q x.
  destruct (repr_new (init (Timeval.mk 100 0)) [] (100000000 + (LIM - 1)) (Timeval.mk 5 0) (Some 7%nat) q x)
    as (Hq & Hx & Hd & Hl);
    [apply (repr_init (Timeval.mk 100 0)); by apply (bool_decide_eq_true _)|by apply (bool_decide_eq_true _)|done|].
  destruct (AddEntry_spec q [] (100000000 + (LIM - 1)) (Timeval.mk 101 0) x 5000000) as (q' & E & Hq' & Hl' & _);
    [exact Hq|by apply (bool_decide_eq_true _)|by vm_compute|by vm_compute|exact Hx|exact Hd|by vm_compute|].
  exists q'. split; [exact E|].
  apply (UpdateEntry_refines q' [] x 106000000 [] (100000000 + (LIM - 1)) (Timeval.mk 103 0) (Timeval.mk 1 0));
    [exact Hq'|by apply (bool_decide_eq_true _)|by apply (bool_decide_eq_true _)|
     rewrite Hl'; by vm_compute|rewrite Hl'; by vm_compute|by vm_compute].
Defined.

(** The time to the next alarm is zero when the first entry was due at the last
    synchronisation, and otherwise the time from now to its deadline. *)
Theorem TimeToNextAlarm_spec q rq hor now :
  repr q rq hor -> norm now -> tval (m_lastSyncTime q) <= tval now < hor ->
  tval now - tval (m_lastSyncTime q) < 2 ^ 31 * MILLION ->
  exists d q', TimeToNextAlarm now q = Ret (d, q') /\ repr q' rq hor /\ norm d /\
    tval d = if next_dl rq hor <=? tval (m_lastSyncTime q) then 0
             else Z.max 0 (next_dl rq hor - tval now).
Proof.
  intros Hq Hn Hle Hel. destruct (TimeToNextAlarm_ok q rq hor now Hq Hn Hle Hel) as (d & q' & ? & ? & ? & ? & _ & _).
  eauto 6.
Qed.

Lemma TimeToNextAlarm_spec_witness :
  exists d q', TimeToNextAlarm (Timeval.mk 101 0) (init (Timeval.mk 100 0)) = Ret (d, q') /\
    repr q' [] (100000000 + (LIM - 1)) /\ norm d /\
    tval d = if 100000000 + (LIM - 1) <=? tval (Timeval.mk 100 0) then 0
             else Z.max 0 (100000000 + (LIM - 1) - tval (Timeval.mk 101 0)).
Proof.
  apply (TimeToNextAlarm_spec (init (Timeval.mk 100 0)) [] (100000000 + (LIM - 1)) (Timeval.mk 101 0));
    [apply (repr_init (Timeval.mk 100 0)); by apply (bool_decide_eq_true _)|by apply (bool_decide_eq_true _)|
     split; by vm_compute|by vm_compute].
Defined.


(** A callback that schedules itself again, three seconds later. *)
Definition again (bc : option nat) (w : t * list (nat + task)) : res (t * list (nat + task)) :=
  match bc with
  | None => Ret w
  | Some b =>
    let now := m_lastSyncTime w.1 in
    let '(q, x) := new_entry w.1 (Timeval.mk 3 0) (Some b) in
    q ← AddEntry now q x;
    Ret (q, w.2 ++ [inl b; inr (x, tval now + 3000000, Some b)])
  end.

Definition left_of (e : nat + task) : option nat := match e with inl b => Some b | inr _ => None end.
Definition right_of (e : nat + task) : option task := match e with inl _ => None | inr k => Some k end.

Lemma again_schedules lo hi hor : hi - lo < 3000000 -> hi + 3000000 < hor ->
  schedules fst again (fun _ => True) snd left_of right_of lo hi hor.
Proof.
  intros Hlo Hh bc [q l] extra ts Ht _ Hc. unfold last in *. cbn [fst snd] in *. destruct bc as [b|]; cbn [again fst snd].
  - pose proof (AddEntry_tasked q extra ts hor (m_lastSyncTime q) (Timeval.mk 3 0) (Some b) Ht (repr_last _ _ _ (tk_repr _ _ _ _ Ht))) as H.
    destruct (new_entry q (Timeval.mk 3 0) (Some b)) as [q1 x].
    destruct H as (_ & q' & -> & Hl' & Ht'); [by apply (bool_decide_eq_true _)|lia|by rewrite Z.sub_diag; vm_compute|..].
    { change (tval (Timeval.mk 3 0)) with 3000000. lia. }
    change (tval (Timeval.mk 3 0)) with 3000000 in Ht'. cbn [mbind res_bind]. set (k := (x, tval (m_lastSyncTime q) + 3000000, Some b)) in *.
    assert (later hi k) as Hk by (unfold later; cbn; lia).
    exists (q', l ++ [inl b; inr k]), (insert_task k ts), [inl b; inr k]. cbn [fst snd]. split_and!; try done.
    + apply insert_task_perm.
    + by apply insert_task_soon.
    + by repeat constructor.
    + rewrite Hl'. lia.
    + rewrite Hl'. lia.
  - exists (q, l), ts, []. split_and!; try done; cbn; rewrite ?app_nil_r; first [done|lia].
Qed.

(** The second of two tasks is not due yet when the first is called. *)
Definition two_tasks : res t :=
  let now := Timeval.mk 100 0 in
  let '(q, x) := new_entry (init now) (Timeval.mk 1 0) (Some 7%nat) in
  q ← AddEntry now q x;
  let '(q, y) := new_entry q (Timeval.mk 5 0) (Some 8%nat) in
  AddEntry now q y.

Lemma two_tasks_tasked : exists q x y, two_tasks = Ret q /\ m_lastSyncTime q = Timeval.mk 100 0 /\
  tasked q ∅ [(x, 101000000, Some 7%nat); (y, 105000000, Some 8%nat)] (100000000 + (LIM - 1)).
Proof.
  set (now := Timeval.mk 100 0). assert (norm now) as Hn by (by apply (bool_decide_eq_true _)).
  pose proof (init_tasked now Hn : tasked (init now) ∅ [] (100000000 + (LIM - 1))) as Ht0.
  unfold two_tasks. fold now. pose proof (AddEntry_tasked (init now) ∅ [] _ now (Timeval.mk 1 0) (Some 7%nat) Ht0 Hn) as H.
  destruct (new_entry (init now) _ _) as [q1 x]. destruct H as (_ & q2 & -> & Hl2 & Ht2);
    [by apply (bool_decide_eq_true _)|done|by vm_compute|by vm_compute|]. cbn [mbind res_bind].
  pose proof (AddEntry_tasked q2 ∅ _ _ now (Timeval.mk 5 0) (Some 8%nat) Ht2 Hn) as H.
  destruct (new_entry q2 _ _) as [q3 y]. destruct H as (_ & q4 & -> & Hl4 & Ht4);
    [by apply (bool_decide_eq_true _)|by rewrite Hl2|rewrite Hl2; by vm_compute|by vm_compute|].
  exists q4, x, y. by split_and!.
Qed.


End DelayQueue.
