(* ===== verification/HandlerSet.v ===== *)
(** * File-descriptor handlers: [src/detail/scheduler/handlerset_in.h], [.cpp]
    and [selecthandlers_in.h], [.cpp]

    A handler set is a ring of descriptors around the member [m_handlers] (the
    node at address 0).  A callback is a number; what it does when called is an
    argument of [CallHandlers].  An [fd_set] is the finite set of its members. *)

From S2P Require Import Prelude DList.
#[local] Open Scope Z_scope.

Module HandlerSet.

(** ** Definitions *)

Record descr : Type := Descr { m_hander : Z; m_flags : Z; m_bc : option nat }.

#[export] Instance descr_eq_dec : EqDecision descr.
Proof. solve_decision. Defined.

Abbreviation t := (heap descr).

Definition m_handlers : nat := 0.
Definition invalid_handler_value : Z := -1.

(** [HandlerDescriptor(nextHandler)] at the fresh address [x]. *)
Definition link_new (h : t) (x nextHandler : nat) : res t :=
  h ← upd h x (set_next (Some nextHandler));
  nn ← load h nextHandler;
  h ← upd h x (set_prev (n_prev nn));
  h ← upd h nextHandler (set_prev (Some x));
  nx ← load h x;
  pr ← ptr (n_prev nx);
  upd h pr (set_next (Some x)).

Definition new_descr (h : t) (nextHandler : option nat) : res (t * nat) :=
  let x := fresh (dom h) in
  let d := Descr invalid_handler_value 0 None in
  match nextHandler with
  | None => Ret (<[x := Node (Some x) (Some x) d]> h, x)
  | Some n =>
    if bool_decide (n = x) then Ret (<[x := Node (Some x) (Some x) d]> h, x)
    else h ← link_new (<[x := Node None None d]> h) x n; Ret (h, x)
  end.

(** [delete x]: the destructor unlinks the descriptor. *)
Definition delete_descr (h : t) (x : nat) : res t :=
  nx ← load h x;
  nt ← ptr (n_next nx);
  h ← upd h nt (set_prev (n_prev nx));
  nx ← load h x;
  pr ← ptr (n_prev nx);
  h ← upd h pr (set_next (n_next nx));
  Ret (delete x h).

(** [HandlerSet()]: [m_handlers(nullptr)]. *)
Definition init : t :=
  {[ m_handlers := Node (Some m_handlers) (Some m_handlers) (Descr invalid_handler_value 0 None) ]}.

Definition set_descr (f : descr -> descr) (n : node) : node :=
  Node (n_next n) (n_prev n) (f (n_data n)).
Definition SetHandle (v : Z) (d : descr) : descr := Descr v (m_flags d) (m_bc d).
Definition SetFlags (v : Z) (d : descr) : descr := Descr (m_hander d) v (m_bc d).
Definition SetProc (v : option nat) (d : descr) : descr := Descr (m_hander d) (m_flags d) v.

(** [HandlerIterator]: [m_next_ptr]; [Next] moves on before it returns. *)
Definition Reset (h : t) : res nat := n ← load h m_handlers; ptr (n_next n).

Definition Next (h : t) (m_next_ptr : nat) : res (option nat * nat) :=
  if bool_decide (m_next_ptr = m_handlers) then Ret (None, m_next_ptr)
  else n ← load h m_next_ptr; nt ← ptr (n_next n); Ret (Some m_next_ptr, nt).

Fixpoint lookup_loop (fuel : nat) (h : t) (it : nat) (socketNum : Z) : res (option nat) :=
  match fuel with
  | O => Throw Diverge
  | S f =>
    '(r, it) ← Next h it;
    match r with
    | None => Ret None
    | Some a => n ← load h a;
                if m_hander (n_data n) =? socketNum then Ret (Some a)
                else lookup_loop f h it socketNum
    end
  end.

Definition lookupHandler (h : t) (socketNum : Z) : res (option nat) :=
  it ← Reset h; lookup_loop (size h) h it socketNum.

Definition AssignHandler (h : t) (socketNum conditionSet : Z) (handlerProc : option nat) : res t :=
  if socketNum <=? 0 then Ret h
  else
    o ← lookupHandler h socketNum;
    '(h, a) ← match o with
              | Some a => Ret (h, a)
              | None => s ← load h m_handlers;
                        '(h, a) ← new_descr h (n_next s);
                        h ← upd h a (set_descr (SetHandle socketNum));
                        Ret (h, a)
              end;
    h ← upd h a (set_descr (SetFlags conditionSet));
    upd h a (set_descr (SetProc handlerProc)).

Definition RemoveHandler (h : t) (socketNum : Z) : res t :=
  o ← lookupHandler h socketNum;
  match o with None => Ret h | Some a => delete_descr h a end.

Definition ChangeHandler (h : t) (oldSocketNum newSocketNum : Z) : res t :=
  o ← lookupHandler h oldSocketNum;
  match o with None => Ret h | Some a => upd h a (set_descr (SetHandle newSocketNum)) end.

(** [~HandlerSet] *)
Fixpoint destroy (fuel : nat) (h : t) : res t :=
  match fuel with
  | O => Throw Diverge
  | S f =>
    a ← Reset h;
    if bool_decide (a = m_handlers) then Ret h else h ← delete_descr h a; destroy f h
  end.

(** ** [SelectHandlerMap] *)

Definition HIT_READ : Z := 1.
Definition HIT_WRITE : Z := 2.
Definition HIT_EXCEP : Z := 4.
Definition HIT_TEST : Z := 7.

Definition FD_SETSIZE : Z := 1024.

(** [FD_SET] and [FD_ISSET] index a fixed array. *)
Definition FD_SET (fd : Z) (s : gset Z) : res (gset Z) :=
  if (0 <=? fd) && (fd <? FD_SETSIZE) then Ret ({[ fd ]} ∪ s) else Throw UB.

Definition FD_ISSET (fd : Z) (s : gset Z) : res bool :=
  if (0 <=? fd) && (fd <? FD_SETSIZE) then Ret (bool_decide (fd ∈ s)) else Throw UB.

Definition has (flags bit : Z) : bool := negb (Z.land flags bit =? 0).

Definition AddHandle := AssignHandler.
Definition RemoveHandle := RemoveHandler.

Record fdsets : Type := Fds { rfds : gset Z; wfds : gset Z; efds : gset Z }.

Definition setup_one (d : descr) (r : Z) (s : fdsets) : res (Z * fdsets) :=
  if negb (has (m_flags d) HIT_TEST) then Ret (r, s)
  else
    let r := if r <? m_hander d then m_hander d else r in
    rf ← (if has (m_flags d) HIT_READ then FD_SET (m_hander d) (rfds s) else Ret (rfds s));
    wf ← (if has (m_flags d) HIT_WRITE then FD_SET (m_hander d) (wfds s) else Ret (wfds s));
    ef ← (if has (m_flags d) HIT_EXCEP then FD_SET (m_hander d) (efds s) else Ret (efds s));
    Ret (r, Fds rf wf ef).

Fixpoint setup_loop (fuel : nat) (h : t) (it : nat) (r : Z) (s : fdsets) : res (Z * fdsets) :=
  match fuel with
  | O => Throw Diverge
  | S f =>
    '(o, it) ← Next h it;
    match o with
    | None => Ret (r, s)
    | Some a => n ← load h a; '(r, s) ← setup_one (n_data n) r s; setup_loop f h it r s
    end
  end.

(** The greatest descriptor watched and the three sets. *)
Definition SetupHandleSet (h : t) : res (Z * fdsets) :=
  it ← Reset h; setup_loop (size h) h it 0 (Fds ∅ ∅ ∅).

Definition result_events (fd : Z) (s : fdsets) : res Z :=
  r ← FD_ISSET fd (rfds s);
  w ← FD_ISSET fd (wfds s);
  e ← FD_ISSET fd (efds s);
  Ret (Z.lor (Z.lor (if (r : bool) then HIT_READ else 0) (if (w : bool) then HIT_WRITE else 0))
         (if (e : bool) then HIT_EXCEP else 0)).

(** [run bc events w] is what a callback does to the world [w]. *)
Section CallHandlers.
Context {W : Type} (get : W -> t) (run : nat -> Z -> W -> res W).

(** [HandlerDescriptor::CallHandler] *)
Definition CallHandler (d : descr) (ff : Z) (w : W) : res W :=
  match m_bc d with Some bc => run bc ff w | None => Ret w end.

Fixpoint call_loop (fuel : nat) (w : W) (it : nat) (s : fdsets) : res W :=
  match fuel with
  | O => Throw Diverge
  | S f =>
    '(o, it) ← Next (get w) it;
    match o with
    | None => Ret w
    | Some a =>
      n ← load (get w) a;
      let d := n_data n in
      ev ← result_events (m_hander d) s;
      if negb (Z.land ev (m_flags d) =? 0)
      then w ← CallHandler d ev w; call_loop f w it s
      else call_loop f w it s
    end
  end.

Definition CallHandlers (fuel : nat) (w : W) (s : fdsets) : res W :=
  it ← Reset (get w); call_loop fuel w it s.
End CallHandlers.

(** ** Lemmas *)

Lemma link_new_before h x n : x <> n -> link_new h x n = link_before h x n.
Proof.
  intros Hxn. unfold link_new, link_before.
  destruct (upd h x (set_next (Some n))) as [h1|e]; cbn [mbind res_bind]; [|done].
  destruct (load h1 n) as [nn|e] eqn:En; cbn [mbind res_bind]; [|done].
  destruct (upd h1 x (set_prev (n_prev nn))) as [h2|e] eqn:E2; cbn [mbind res_bind]; [|done].
  assert (exists h3, upd h2 n (set_prev (Some x)) = Ret h3) as [h3 E3].
  { rewrite <- (load_upd_ne _ _ _ _ _ E2) in En by done. unfold load, upd in *.
    destruct (h2 !! n); [eauto|done]. }
  rewrite E3. cbn [mbind res_bind]. rewrite (load_upd_ne _ _ _ _ _ E3) by done.
  destruct (load h2 x) as [nx|e]; cbn [mbind res_bind]; [|done].
  destruct (n_prev nx) as [pr|]; cbn [ptr mbind res_bind]; [|done].
  pose proof (upd_comm h2 pr n (Some x) (Some x)) as Hc. rewrite E3 in Hc. cbn [mbind res_bind] in Hc.
  done.
Qed.

Lemma delete_unlink h x nt pr :
  next_of h x = Some nt -> prev_of h x = Some pr -> nt <> x -> pr <> x ->
  delete_descr h x = (h' ← unlink h x; Ret (delete x h')).
Proof.
  unfold next_of, prev_of. intros Hn Hp Hnx Hpx. unfold delete_descr, unlink.
  destruct (h !! x) as [nx|] eqn:Ex; [|done]. cbn in Hn, Hp. assert (load h x = Ret nx) as L by (unfold load; by rewrite Ex). rewrite !L.
  cbn [mbind res_bind]. rewrite Hn, Hp. cbn [ptr mbind res_bind].
  pose proof (upd_comm h pr nt (Some nt) (Some pr)) as Hc.
  assert (forall h', upd h nt (set_prev (Some pr)) = Ret h' -> load h' x = Ret nx) as L1.
  { intros h' E. rewrite (load_upd_ne _ _ _ _ _ E) by done. unfold load. by rewrite Ex. }
  assert (forall h', upd h pr (set_next (Some nt)) = Ret h' -> load h' x = Ret nx) as L2.
  { intros h' E. rewrite (load_upd_ne _ _ _ _ _ E) by done. unfold load. by rewrite Ex. }
  destruct (upd h nt (set_prev (Some pr))) as [h1|e1] eqn:E1; cbn [mbind res_bind] in *.
  - rewrite (L1 h1) by done. cbn [mbind res_bind]. rewrite Hp, Hn. cbn [ptr mbind res_bind].
    destruct (upd h pr (set_next (Some nt))) as [h2|e2] eqn:E2; cbn [mbind res_bind] in *.
    + rewrite (L2 h2) by done. cbn [mbind res_bind]. rewrite Hn, Hp. cbn [ptr mbind res_bind].
      by rewrite Hc.
    + by rewrite <- Hc.
  - destruct (upd h pr (set_next (Some nt))) as [h2|e2] eqn:E2; cbn [mbind res_bind] in *.
    + rewrite (L2 h2) by done. cbn [mbind res_bind]. rewrite Hn, Hp. cbn [ptr mbind res_bind].
      by rewrite Hc.
    + unfold upd in E1, E2. repeat case_match; congruence.
Qed.

(** *** The ring and its descriptors *)

Record repr (h : t) (l : list (nat * descr)) : Prop := {
  repr_ring : ring h m_handlers (map fst l);
  repr_data : Forall (fun ad => data_of h ad.1 = Some ad.2) l
}.

(** The first descriptor of a handle. *)
Fixpoint first_with (s : Z) (l : list (nat * descr)) : option (nat * descr) :=
  match l with
  | [] => None
  | ad :: l' => if m_hander ad.2 =? s then Some ad else first_with s l'
  end.

(** A walk from the node [it] meets the descriptors [l]. *)
Fixpoint walk (h : t) (it : nat) (l : list (nat * descr)) : Prop :=
  match l with
  | [] => it = m_handlers
  | (a, d) :: l' => it = a /\ a <> m_handlers /\ exists n nt, load h a = Ret n /\ n_data n = d /\
      n_next n = Some nt /\ walk h nt l'
  end.

Lemma repr_walk h l : repr h l -> exists it, Reset h = Ret it /\ walk h it l /\ (length l < size h)%nat.
Proof.
  intros [Hr Hd]. destruct (ring_chain _ _ _ Hr) as [Hn Hc]. pose proof Hr as [Hnd _].
  exists (first_of (map fst l) m_handlers). split_and!.
  - unfold Reset. destruct (load_ok h m_handlers) as (n & -> & En & _).
    { eapply ring_heap; [exact Hr|]. apply elem_of_cons. by left. }
    cbn [mbind res_bind]. rewrite <- En, Hn. done.
  - apply NoDup_cons in Hnd as [Hm _]. clear Hr Hn. induction l as [|[a d] l IH]; [done|].
    cbn [map fst chain walk first_of hd] in *. destruct Hc as [Ha Hc].
    apply Forall_cons in Hd as [Hda Hd]. apply not_elem_of_cons in Hm as [Hma Hm].
    split_and!; [done|done|]. cbn [fst snd] in Hda. unfold data_of in Hda. apply fmap_Some in Hda as (n & En & Ed).
    exists n, (first_of (map fst l) m_handlers). unfold load. rewrite En. split_and!; [done|done| |auto].
    unfold next_of in Ha. by rewrite En in Ha.
  - apply ring_length in Hr. by rewrite length_map in Hr.
Qed.

Lemma walk_nil h it : walk h it [] -> Next h it = Ret (None, it).
Proof. intros ->. done. Qed.

Lemma walk_cons h it a d l :
  walk h it ((a, d) :: l) -> exists n nt, Next h it = Ret (Some a, nt) /\ load h a = Ret n /\
    n_data n = d /\ walk h nt l.
Proof.
  intros (-> & Ha & n & nt & En & Ed & Ent & Hw). exists n, nt. unfold Next.
  rewrite bool_decide_eq_false_2, En by done. cbn [mbind res_bind]. by rewrite Ent.
Qed.

Lemma walk_suffix h it l1 l2 : walk h it (l1 ++ l2) -> walk h (first_of (map fst l2) m_handlers) l2.
Proof.
  revert it. induction l1 as [|[a d] l1 IH]; intros it; cbn [app walk].
  - destruct l2 as [|[a d] l2]; [done|]. cbn [walk]. by intros [-> ?].
  - intros (_ & _ & n & nt & _ & _ & _ & Hw). by eapply IH.
Qed.

Lemma repr_suffix h l1 l2 : repr h (l1 ++ l2) -> walk h (first_of (map fst l2) m_handlers) l2.
Proof. intros (it & _ & Hw & _)%repr_walk. by eapply walk_suffix. Qed.

Lemma lookup_loop_spec s l : forall fuel h it, (length l < fuel)%nat -> walk h it l ->
  lookup_loop fuel h it s = Ret (fst <$> first_with s l).
Proof.
  induction l as [|[a d] l IH]; intros fuel h it Hf Hw; (destruct fuel as [|fuel]; [cbn in Hf; lia|]);
    cbn [lookup_loop first_with length snd] in *.
  - by rewrite (walk_nil _ _ Hw).
  - destruct (walk_cons _ _ _ _ _ Hw) as (n & nt & -> & En & Ed & Hw').
    cbn [mbind res_bind]. rewrite En. cbn [mbind res_bind]. rewrite Ed.
    case_match; [done|]. apply IH; [lia|done].
Qed.

Lemma lookupHandler_spec h l s : repr h l -> lookupHandler h s = Ret (fst <$> first_with s l).
Proof.
  intros Hr. destruct (repr_walk _ _ Hr) as (it & E & Hw & Hl). unfold lookupHandler.
  rewrite E. cbn [mbind res_bind]. by apply lookup_loop_spec.
Qed.

Lemma first_with_Some s l a d :
  first_with s l = Some (a, d) ->
  exists l1 l2, l = l1 ++ (a, d) :: l2 /\ m_hander d = s /\ Forall (fun ad => m_hander ad.2 <> s) l1.
Proof.
  induction l as [|[b e] l IH]; cbn; [done|]. destruct (m_hander e =? s) eqn:E; bool_to_prop.
  - intros [= -> ->]. exists [], l. by repeat constructor.
  - intros (l1 & l2 & -> & Hs & HF)%IH. exists ((b, e) :: l1), l2. split_and!; try done.
    by constructor.
Qed.

Lemma first_with_None s l : first_with s l = None <-> Forall (fun ad => m_hander ad.2 <> s) l.
Proof.
  induction l as [|[b e] l IH]; cbn; [by split; [constructor|]|]. rewrite Forall_cons. cbn.
  destruct (m_hander e =? s) eqn:E; bool_to_prop; [split; [done|by intros [? _]]|]. rewrite IH. tauto.
Qed.

Lemma first_with_app s l1 l2 :
  first_with s (l1 ++ l2) = match first_with s l1 with Some ad => Some ad | None => first_with s l2 end.
Proof. induction l1 as [|[b e] l1 IH]; cbn; [done|]. by destruct (m_hander e =? s). Qed.

(** Changing the payload of one node. *)
Lemma upd_descr h a f d :
  data_of h a = Some d -> exists h', upd h a (set_descr f) = Ret h' /\ data_of h' a = Some (f d) /\
    (forall b, b <> a -> data_of h' b = data_of h b) /\ (forall b, next_of h' b = next_of h b) /\
    (forall b, prev_of h' b = prev_of h b).
Proof.
  unfold data_of. intros (n & Hn & ->)%fmap_Some. unfold upd. rewrite Hn. eexists. split_and!; [done|..].
  - by rewrite lookup_insert_eq.
  - intros b Hb. by rewrite lookup_insert_ne.
  - intros b. rewrite next_of_insert. case_decide; [|done]. subst. unfold next_of. by rewrite Hn.
  - intros b. rewrite prev_of_insert. case_decide; [|done]. subst. unfold prev_of. by rewrite Hn.
Qed.

Lemma repr_NoDup h l : repr h l -> NoDup (map fst l).
Proof. intros [[Hnd _] _]. by apply NoDup_cons in Hnd as [_ ?]. Qed.

Lemma repr_upd h h' l1 a d d' l2 :
  repr h (l1 ++ (a, d) :: l2) -> data_of h' a = Some d' ->
  (forall b, b <> a -> data_of h' b = data_of h b) -> (forall b, next_of h' b = next_of h b) ->
  (forall b, prev_of h' b = prev_of h b) -> repr h' (l1 ++ (a, d') :: l2).
Proof.
  intros Hr Ha Hb Hn Hp. pose proof (repr_NoDup _ _ Hr) as Hnd. destruct Hr as [Hr Hd].
  rewrite map_app in *. cbn [map fst] in *. split.
  - rewrite map_app. eapply ring_same; [exact Hr|auto|auto].
  - apply NoDup_app in Hnd as (_ & N1 & [N2 _]%NoDup_cons). apply Forall_app in Hd as [Hd1 [_ Hd2]%Forall_cons].
    assert (forall k, a ∉ map fst k -> Forall (fun ad => data_of h ad.1 = Some ad.2) k ->
      Forall (fun ad => data_of h' ad.1 = Some ad.2) k) as Hk.
    { intros k Hk. rewrite !Forall_forall. intros HF [b e] Hin. cbn. rewrite Hb; [by apply (HF (b, e))|].
      intros ->. by apply (list_elem_of_fmap_2 fst) in Hin. }
    apply Forall_app. split; [apply Hk; [|done]|constructor; [done|by apply Hk]].
    intros H. apply (N1 _ H). apply elem_of_cons. by left.
Qed.

(** *** Assigning and removing *)

(** A new descriptor becomes the first of the ring. *)
Lemma new_descr_spec h l :
  repr h l -> exists s h' x, load h m_handlers = Ret s /\ new_descr h (n_next s) = Ret (h', x) /\
    repr h' ((x, Descr invalid_handler_value 0 None) :: l).
Proof.
  intros Hr. pose proof Hr as [Hring Hd]. destruct (ring_chain _ _ _ Hring) as [Hn _].
  destruct (load_ok h m_handlers) as (s & Es & En & _).
  { eapply ring_heap; [exact Hring|]. apply elem_of_cons. by left. }
  rewrite Hn in En. exists s. unfold new_descr. rewrite <- En. set (x := fresh (dom h)).
  set (d := Descr invalid_handler_value 0 None). set (h0 := <[x := Node None None d]> h).
  assert (h !! x = None) as Hx by (apply not_elem_of_dom, is_fresh).
  assert (x ∉ m_handlers :: map fst l) as Hnot.
  { intros H. apply (ring_heap _ _ _ _ Hring) in H as [n Hs']. congruence. }
  assert (ring h0 m_handlers (map fst l)) as Hr0.
  { eapply ring_same; [exact Hring| |]; intros b Hb; unfold h0;
      rewrite ?next_of_insert, ?prev_of_insert, decide_False; try done; by intros ->. }
  assert (first_of (map fst l) m_handlers <> x) as Hf.
  { intros E. apply Hnot. pose proof (first_of_elem (map fst l) m_handlers) as H. rewrite E in H.
    apply elem_of_app in H as [H|H%list_elem_of_singleton]; apply elem_of_cons; auto. }
  rewrite bool_decide_eq_false_2 by done. rewrite link_new_before by done.
  destruct (link_before_ring h0 m_handlers [] (map fst l) x) as (h' & E' & Hr' & Hd' & _);
    [done|done|unfold h0; rewrite lookup_insert_eq; eauto|].
  exists h', x. rewrite E'. split_and!; [done|done|]. split; [done|]. constructor.
  - cbn. rewrite Hd'. unfold h0. by rewrite data_of_insert, decide_True.
  - apply Forall_forall. intros [b e] Hin. rewrite Forall_forall in Hd. cbn. rewrite Hd'. unfold h0.
    rewrite data_of_insert, decide_False; [by apply (Hd (b, e))|]. intros <-.
    apply Hnot, elem_of_cons. right. by apply (list_elem_of_fmap_2 fst) in Hin.
Qed.

Lemma AssignHandler_spec h l s fl bc :
  repr h l -> 0 < s -> exists h' l', AssignHandler h s fl bc = Ret h' /\ repr h' l' /\
    match first_with s l with
    | Some (a, _) => exists l1 l2 d0, l = l1 ++ (a, d0) :: l2 /\ m_hander d0 = s /\
                       Forall (fun ad => m_hander ad.2 <> s) l1 /\ l' = l1 ++ (a, Descr s fl bc) :: l2
    | None => exists x, l' = (x, Descr s fl bc) :: l
    end.
Proof.
  intros Hr Hs. unfold AssignHandler. ztest. rewrite (lookupHandler_spec _ _ _ Hr).
  cbn [mbind res_bind].
  assert (forall h1 l1 a d l2, repr h1 (l1 ++ (a, d) :: l2) -> m_hander d = s -> exists h',
    (h1 ← upd h1 a (set_descr (SetFlags fl)); upd h1 a (set_descr (SetProc bc))) = Ret h' /\
    repr h' (l1 ++ (a, Descr s fl bc) :: l2)) as Hset.
  { intros h1 l1 a d l2 Hr1 Hds.
    assert (forall h2 d2, repr h2 (l1 ++ (a, d2) :: l2) -> data_of h2 a = Some d2) as Hda.
    { intros h2 d2 [_ Hd]. by apply Forall_app in Hd as [_ [? _]%Forall_cons]. }
    destruct (upd_descr h1 a (SetFlags fl) d (Hda _ _ Hr1)) as (h2 & -> & E2 & F2 & N2 & P2).
    cbn [mbind res_bind]. assert (repr h2 (l1 ++ (a, SetFlags fl d) :: l2)) as Hr2 by (by eapply repr_upd).
    destruct (upd_descr h2 a (SetProc bc) (SetFlags fl d) E2) as (h3 & -> & E3 & F3 & N3 & P3).
    exists h3. split; [done|]. rewrite <- Hds. by eapply repr_upd. }
  destruct (first_with s l) as [[a d0]|] eqn:Ef; cbn [fmap option_fmap option_map fst].
  - destruct (first_with_Some _ _ _ _ Ef) as (l1 & l2 & -> & Hd0 & HF). cbn [mbind res_bind].
    destruct (Hset h l1 a d0 l2 Hr Hd0) as (h' & -> & Hr'). exists h', (l1 ++ (a, Descr s fl bc) :: l2).
    split_and!; [done|done|]. by exists l1, l2, d0.
  - destruct (new_descr_spec h l Hr) as (sn & h1 & x & -> & E1 & Hr1). cbn [mbind res_bind].
    rewrite E1. cbn [mbind res_bind].
    assert (data_of h1 x = Some (Descr invalid_handler_value 0 None)) as Hdx
      by (destruct Hr1 as [_ Hd]; by apply Forall_cons in Hd as [? _]).
    destruct (upd_descr h1 x (SetHandle s) _ Hdx) as (h2 & -> & E2 & F2 & N2 & P2). cbn [mbind res_bind].
    destruct (Hset h2 [] x (SetHandle s (Descr invalid_handler_value 0 None)) l) as (h' & -> & Hr');
      [by eapply (repr_upd h1 h2 [])|done|].
    exists h', ((x, Descr s fl bc) :: l). split_and!; [done|done|by exists x].
Qed.

Lemma delete_descr_spec h l1 a d l2 :
  repr h (l1 ++ (a, d) :: l2) -> exists h', delete_descr h a = Ret h' /\ repr h' (l1 ++ l2) /\
    h' !! a = None.
Proof.
  intros Hr. pose proof (repr_NoDup _ _ Hr) as Hnd. destruct Hr as [Hr Hd].
  rewrite map_app in Hr, Hnd. cbn [map fst] in *. pose proof Hr as [Hnm _].
  pose proof (ring_node _ _ _ _ _ Hr) as (_ & Hp & Hn & _).
  apply NoDup_cons in Hnm as [Hm _].
  apply NoDup_app in Hnd as (_ & N1 & [N2 _]%NoDup_cons).
  assert (a <> m_handlers) as Ham by (intros ->; apply Hm, elem_of_app; right; apply elem_of_cons; by left).
  rewrite (delete_unlink h a _ _ Hn Hp).
  2:{ intros E. pose proof (first_of_elem (map fst l2) m_handlers) as H. rewrite E in H.
      by apply elem_of_app in H as [H|H%list_elem_of_singleton]. }
  2:{ intros E. pose proof (last_of_elem m_handlers (map fst l1)) as H. rewrite E in H.
      apply elem_of_cons in H as [H|H]; [done|]. apply (N1 _ H), elem_of_cons. by left. }
  destruct (unlink_ring _ _ _ _ _ Hr) as (h1 & -> & Hr1 & Hd1 & _). cbn [mbind res_bind].
  exists (delete a h1). split_and!; [done| |by rewrite lookup_delete_eq].
  assert (a ∉ m_handlers :: map fst (l1 ++ l2)) as Hnot.
  { rewrite map_app. intros [?|[H|H]%elem_of_app]%elem_of_cons; [done| |done].
    apply (N1 _ H), elem_of_cons. by left. }
  assert (forall b, b ∈ m_handlers :: map fst (l1 ++ l2) -> delete a h1 !! b = h1 !! b) as Hlk.
  { intros b Hb. apply lookup_delete_ne. by intros ->. }
  split.
  - rewrite map_app in *. eapply ring_same; [exact Hr1| |]; intros b Hb; unfold next_of, prev_of;
      by rewrite Hlk.
  - apply Forall_forall. intros [b e] Hin. cbn. unfold data_of. rewrite Hlk.
    + fold (data_of h1 b). rewrite Hd1. apply Forall_app in Hd as [Hd1' [_ Hd2]%Forall_cons].
      assert (Forall (fun ad => data_of h ad.1 = Some ad.2) (l1 ++ l2)) as HF by (by apply Forall_app).
      rewrite Forall_forall in HF. by apply (HF (b, e)).
    + apply elem_of_cons. right. by apply (list_elem_of_fmap_2 fst) in Hin.
Qed.

Lemma RemoveHandler_spec h l s :
  repr h l -> exists h' l', RemoveHandler h s = Ret h' /\ repr h' l' /\
    match first_with s l with
    | Some (a, _) => exists l1 l2 d0, l = l1 ++ (a, d0) :: l2 /\ m_hander d0 = s /\
                       Forall (fun ad => m_hander ad.2 <> s) l1 /\ l' = l1 ++ l2
    | None => l' = l
    end.
Proof.
  intros Hr. unfold RemoveHandler. rewrite (lookupHandler_spec _ _ _ Hr). cbn [mbind res_bind].
  destruct (first_with s l) as [[a d0]|] eqn:Ef; cbn [fmap option_fmap option_map fst].
  - destruct (first_with_Some _ _ _ _ Ef) as (l1 & l2 & -> & Hd0 & HF).
    destruct (delete_descr_spec _ _ _ _ _ Hr) as (h' & -> & Hr' & _).
    exists h', (l1 ++ l2). split_and!; [done|done|]. by exists l1, l2, d0.
  - by exists h, l.
Qed.

(** *** The set as a finite map *)

Definition handles (l : list (nat * descr)) : list Z := map (fun ad => m_hander ad.2) l.

(** The handler set [h] holds the bindings of [m], one descriptor each. *)
Record models (h : t) (l : list (nat * descr)) (m : gmap Z (Z * option nat)) : Prop := {
  models_repr : repr h l;
  models_nodup : NoDup (handles l);
  models_lookup : forall k, m !! k = (fun ad => (m_flags ad.2, m_bc ad.2)) <$> first_with k l
}.

Lemma models_init : models init [] ∅.
Proof.
  split; [|constructor|done]. split; [|constructor]. split; [apply NoDup_singleton|].
  constructor; [done|constructor].
Qed.

Lemma Forall_handles s l : Forall (fun ad => m_hander ad.2 <> s) l <-> s ∉ handles l.
Proof.
  unfold handles. induction l as [|[a d] l IH]; cbn.
  - split; [intros _; apply not_elem_of_nil|constructor].
  - rewrite Forall_cons, not_elem_of_cons, IH. cbn. naive_solver.
Qed.

(** The nodes of [l] are still there, in their order, behind any new ones. *)
Definition grows (l l' : list (nat * descr)) : Prop := exists p, map fst l' = p ++ map fst l.

Lemma grows_refl l : grows l l.
Proof. by exists []. Qed.

Lemma grows_trans l1 l2 l3 : grows l1 l2 -> grows l2 l3 -> grows l1 l3.
Proof. intros [p E] [q E']. exists (q ++ p). by rewrite E', E, app_assoc. Qed.

Lemma models_assign_grows h l m s fl bc :
  models h l m -> 0 < s -> exists h' l', AssignHandler h s fl bc = Ret h' /\
    models h' l' (<[s := (fl, bc)]> m) /\ grows l l'.
Proof.
  intros [Hr Hnd Hl] Hs. destruct (AssignHandler_spec h l s fl bc Hr Hs) as (h' & l' & E & Hr' & Hm).
  exists h', l'. split; [done|]. destruct (first_with s l) as [[a d0]|] eqn:Ef.
  - destruct Hm as (l1 & l2 & d & -> & Hd & HF & ->). apply first_with_None in HF as HF'.
    split; [|exists []; by rewrite !map_app].
    split; [done| |].
    + unfold handles in *. rewrite map_app in *. cbn [map snd] in *. by rewrite <- Hd in *.
    + intros k. rewrite first_with_app. cbn [first_with snd m_hander].
      destruct (decide (k = s)) as [->|Hk].
      * rewrite lookup_insert_eq, HF'. by rewrite Z.eqb_refl.
      * rewrite lookup_insert_ne, Hl, first_with_app by done. cbn [first_with snd].
        rewrite Hd. rewrite !(proj2 (Z.eqb_neq s k)) by done. done.
  - destruct Hm as [x ->]. apply first_with_None, Forall_handles in Ef. split; [|by exists [x]]. split; [done| |].
    + cbn. by constructor.
    + intros k. cbn [first_with snd m_hander]. destruct (decide (k = s)) as [->|Hk].
      * by rewrite lookup_insert_eq, Z.eqb_refl.
      * by rewrite lookup_insert_ne, (proj2 (Z.eqb_neq s k)), Hl.
Qed.

Lemma models_assign h l m s fl bc :
  models h l m -> 0 < s -> exists h' l', AssignHandler h s fl bc = Ret h' /\
    models h' l' (<[s := (fl, bc)]> m).
Proof. intros Hm Hs. destruct (models_assign_grows h l m s fl bc Hm Hs) as (h' & l' & ? & ? & _). by exists h', l'. Qed.

Lemma models_remove h l m s :
  models h l m -> exists h' l', RemoveHandler h s = Ret h' /\ models h' l' (delete s m).
Proof.
  intros [Hr Hnd Hl]. destruct (RemoveHandler_spec h l s Hr) as (h' & l' & E & Hr' & Hm).
  exists h', l'. split; [done|]. destruct (first_with s l) as [[a d0]|] eqn:Ef.
  - destruct Hm as (l1 & l2 & d & -> & Hd & HF & ->). unfold handles in Hnd. rewrite map_app in Hnd.
    cbn [map snd] in Hnd. apply NoDup_app in Hnd as (N1 & N2 & [N3 N4]%NoDup_cons).
    split; [done| |].
    + unfold handles. rewrite map_app. apply NoDup_app. split_and!; [done| |done].
      intros x Hx Hx2. apply (N2 x Hx). apply elem_of_cons. by right.
    + intros k. apply first_with_None in HF as HF'.
      rewrite first_with_app. destruct (decide (k = s)) as [->|Hk].
      * rewrite lookup_delete_eq, HF'. rewrite Hd in N3.
        by rewrite (proj2 (first_with_None s l2) (proj2 (Forall_handles s l2) N3)).
      * rewrite lookup_delete_ne, Hl, first_with_app by done. cbn [first_with snd].
        by rewrite Hd, (proj2 (Z.eqb_neq s k)) by done.
  - rewrite Hm in *. split; [done|done|]. intros k. destruct (decide (k = s)) as [->|Hk].
    + by rewrite lookup_delete_eq, Ef.
    + by rewrite lookup_delete_ne.
Qed.

Lemma models_elem h l m a d :
  models h l m -> (a, d) ∈ l -> m !! m_hander d = Some (m_flags d, m_bc d).
Proof.
  intros [_ Hnd Hl] Hin. rewrite Hl. clear Hl. induction l as [|[b e] l IH]; [by apply elem_of_nil in Hin|].
  cbn in *. apply NoDup_cons in Hnd as [Hn Hnd]. apply elem_of_cons in Hin as [[= -> ->]|Hin].
  - by rewrite Z.eqb_refl.
  - rewrite (proj2 (Z.eqb_neq _ _)); [by apply IH|]. intros E. apply Hn. cbn. rewrite E.
    by apply (list_elem_of_fmap_2 (fun ad : nat * descr => m_hander ad.2) l (a, d)).
Qed.

Lemma models_lookup_elem h l m k v :
  models h l m -> m !! k = Some v -> exists a, (a, Descr k v.1 v.2) ∈ l.
Proof.
  intros [_ _ Hl] E. rewrite Hl in E. apply fmap_Some in E as ([a d] & Ef & ->). 
  destruct (first_with_Some _ _ _ _ Ef) as (l1 & l2 & -> & <- & _). exists a. cbn.
  destruct d. apply elem_of_app. right. by apply elem_of_cons; left.
Qed.

(** *** The descriptor sets *)

Lemma has_test fl bit : bit = HIT_READ \/ bit = HIT_WRITE \/ bit = HIT_EXCEP ->
  has fl bit = true -> has fl HIT_TEST = true.
Proof.
  unfold has. intros Hb H. apply negb_true_iff, Z.eqb_neq. apply negb_true_iff, Z.eqb_neq in H.
  intros E. apply H. replace bit with (Z.land HIT_TEST bit) by (destruct Hb as [->|[->| ->]]; done).
  by rewrite Z.land_assoc, E, Z.land_0_l.
Qed.

Definition in_range (l : list (nat * descr)) : Prop :=
  Forall (fun ad => 0 <= m_hander ad.2 < FD_SETSIZE) l.

(** The members of a set after one more descriptor. *)
Lemma fd_set_opt (c : bool) fd s :
  0 <= fd < FD_SETSIZE -> (if c then FD_SET fd s else Ret s) = Ret (if c then {[ fd ]} ∪ s else s).
Proof. intros. unfold FD_SET. destruct c; [|done]. by ztest. Qed.

Lemma watched_cons (a : nat) (d : descr) l fd bit :
  (exists (b : nat) (e : descr), (b, e) ∈ (a, d) :: l /\ m_hander e = fd /\ has (m_flags e) bit = true) <->
  (m_hander d = fd /\ has (m_flags d) bit = true) \/
  exists (b : nat) (e : descr), (b, e) ∈ l /\ m_hander e = fd /\ has (m_flags e) bit = true.
Proof.
  split.
  - intros (b & e & [[= -> ->]|H]%elem_of_cons & Q); [by left|right; by exists b, e].
  - intros [Q|(b & e & H & Q)]; [exists a, d|exists b, e]; (split; [|done]); apply elem_of_cons; auto.
Qed.

Lemma fd_acc (c : bool) fd x (s : gset Z) (P : Prop) :
  fd ∈ (if c then {[ x ]} ∪ s else s) \/ P <-> fd ∈ s \/ (x = fd /\ c = true) \/ P.
Proof.
  destruct c; rewrite ?elem_of_union, ?elem_of_singleton; intuition congruence.
Qed.

Lemma setup_loop_spec l : forall fuel h it r s, (length l < fuel)%nat -> walk h it l -> in_range l ->
  exists r' s', setup_loop fuel h it r s = Ret (r', s') /\
    (forall fd, fd ∈ rfds s' <-> fd ∈ rfds s \/ exists a d, (a, d) ∈ l /\ m_hander d = fd /\ has (m_flags d) HIT_READ = true) /\
    (forall fd, fd ∈ wfds s' <-> fd ∈ wfds s \/ exists a d, (a, d) ∈ l /\ m_hander d = fd /\ has (m_flags d) HIT_WRITE = true) /\
    (forall fd, fd ∈ efds s' <-> fd ∈ efds s \/ exists a d, (a, d) ∈ l /\ m_hander d = fd /\ has (m_flags d) HIT_EXCEP = true) /\
    r <= r' /\ (forall a d, (a, d) ∈ l -> has (m_flags d) HIT_TEST = true -> m_hander d <= r') /\
    (r' = r \/ exists a d, (a, d) ∈ l /\ has (m_flags d) HIT_TEST = true /\ m_hander d = r').
Proof.
  induction l as [|[a d] l IH]; intros fuel h it r s Hf Hw Hr; (destruct fuel as [|fuel]; [cbn in Hf; lia|]);
    cbn [setup_loop length] in *.
  - rewrite (walk_nil _ _ Hw). cbn [mbind res_bind]. exists r, s.
    assert (forall (a : nat) (d : descr), (a, d) ∉ []) by (intros; apply not_elem_of_nil).
    split_and!; try done; [..|naive_solver]; naive_solver.
  - destruct (walk_cons _ _ _ _ _ Hw) as (n & nt & -> & En & Ed & Hw').
    cbn [mbind res_bind]. rewrite En. cbn [mbind res_bind]. rewrite Ed.
    apply Forall_cons in Hr as [Hd Hr]. cbn in Hd. unfold setup_one.
    destruct (has (m_flags d) HIT_TEST) eqn:Et; cbn [negb].
    + cbv zeta. rewrite !fd_set_opt by done. cbn [mbind res_bind].
      match goal with |- context [setup_loop fuel h nt ?r1 ?s1] =>
        destruct (IH fuel h nt r1 s1) as (r' & s' & -> & HR & HW & HE & Hle & Hmax & Hex); [lia|done|done|]
      end. exists r', s'.
      cbn [rfds wfds efds] in *. split_and!; [done|..].
      * intros fd. by rewrite HR, watched_cons, fd_acc.
      * intros fd. by rewrite HW, watched_cons, fd_acc.
      * intros fd. by rewrite HE, watched_cons, fd_acc.
      * case_test; lia.
      * intros b e [[= -> ->]|Hin]%elem_of_cons Hb; [case_test; lia|eauto].
      * destruct Hex as [->|(b & e & Hin & ? & ?)]; [|right; exists b, e; set_solver]. case_test; [right|by left].
        exists a, d. set_solver.
    + destruct (IH fuel h nt r s) as (r' & s' & E & HR & HW & HE & Hle & Hmax & Hex); [lia|done|done|].
      cbn [mbind res_bind]. rewrite E. exists r', s'.
      assert (forall bit, bit = HIT_READ \/ bit = HIT_WRITE \/ bit = HIT_EXCEP -> has (m_flags d) bit = false) as Hno.
      { intros bit Hb. apply not_true_iff_false. intros H. apply has_test in H; [congruence|done]. }
      split_and!; [done|..|done| |].
      * intros fd. rewrite HR, watched_cons, (Hno HIT_READ) by auto. intuition congruence.
      * intros fd. rewrite HW, watched_cons, (Hno HIT_WRITE) by auto. intuition congruence.
      * intros fd. rewrite HE, watched_cons, (Hno HIT_EXCEP) by auto. intuition congruence.
      * intros b e [[= -> ->]|Hin]%elem_of_cons Hb; [congruence|eauto].
      * destruct Hex as [->|(b & e & Hin & ? & ?)]; [by left|right; exists b, e; set_solver].
Qed.

(** *** Calling *)

(** The events reported for a descriptor. *)
Definition events (fd : Z) (s : fdsets) : Z :=
  Z.lor (Z.lor (if bool_decide (fd ∈ rfds s) then HIT_READ else 0)
               (if bool_decide (fd ∈ wfds s) then HIT_WRITE else 0))
        (if bool_decide (fd ∈ efds s) then HIT_EXCEP else 0).

Lemma result_events_ok fd s : 0 <= fd < FD_SETSIZE -> result_events fd s = Ret (events fd s).
Proof. intros. unfold result_events, FD_ISSET. by ztest. Qed.

(** The calls a walk over [l] makes: descriptor, events, callback. *)
Abbreviation call := (Z * Z * option nat)%type.

Definition calls_of (s : fdsets) (l : list (nat * descr)) : list call :=
  omap (fun ad => if Z.land (events (m_hander ad.2) s) (m_flags ad.2) =? 0 then None
                  else Some (m_hander ad.2, events (m_hander ad.2) s, m_bc ad.2)) l.

Lemma calls_cons s a d l :
  calls_of s ((a, d) :: l) =
  if Z.land (events (m_hander d) s) (m_flags d) =? 0 then calls_of s l
  else (m_hander d, events (m_hander d) s, m_bc d) :: calls_of s l.
Proof. unfold calls_of. cbn [omap list_omap fst snd]. by destruct (_ =? 0). Qed.

Lemma calls_elem s l fd ev bc :
  (fd, ev, bc) ∈ calls_of s l <->
  exists a d, (a, d) ∈ l /\ fd = m_hander d /\ ev = events fd s /\ bc = m_bc d /\ Z.land ev (m_flags d) <> 0.
Proof.
  unfold calls_of. rewrite list_elem_of_omap. split.
  - intros ([a d] & Hd & Hc). cbn in Hc. destruct (Z.land _ _ =? 0) eqn:Ez; [done|]. bool_to_prop.
    injection Hc as <- <- <-. by exists a, d.
  - intros (a & d & Hd & -> & -> & -> & Hz). exists (a, d). split; [done|]. cbn.
    by rewrite (proj2 (Z.eqb_neq _ _)).
Qed.

Lemma calls_nodup s l : NoDup (handles l) -> NoDup (map (fun c => c.1.1) (calls_of s l)).
Proof.
  unfold handles. induction l as [|[a d] l IH]; cbn [map snd]; intros Hnd; [constructor|].
  apply NoDup_cons in Hnd as [Hn Hnd]. rewrite calls_cons. destruct (_ =? 0); [by apply IH|].
  cbn [map fst]. constructor; [|by apply IH].
  intros ([[fd ev] bc] & E & H)%list_elem_of_fmap. apply calls_elem in H as (b & e & He & Ee & _).
  cbn in E. apply Hn. rewrite E, Ee.
  by apply (list_elem_of_fmap_2 (fun ad : nat * descr => m_hander ad.2) l (b, e)).
Qed.

(** Callbacks that leave the set alone, and what they do besides. *)
Section effects.
Context {W : Type} (get : W -> t) (eff : nat -> Z -> W -> W) (get_eff : forall bc ev w, get (eff bc ev w) = get w).

Definition effect (w : W) (c : call) : W := match c.2 with Some bc => eff bc c.1.2 w | None => w end.
Definition effects (cs : list call) (w : W) : W := fold_left effect cs w.

Abbreviation run := (fun bc ev w => Ret (eff bc ev w)).

Lemma call_loop_spec s l : forall fuel it w, (length l < fuel)%nat -> walk (get w) it l -> in_range l ->
  call_loop get run fuel w it s = Ret (effects (calls_of s l) w).
Proof.
  induction l as [|[a d] l IH]; intros fuel it w Hf Hw Hr;
    (destruct fuel as [|fuel]; [cbn in Hf; lia|]); cbn [call_loop length] in *.
  - rewrite (walk_nil _ _ Hw). done.
  - destruct (walk_cons _ _ _ _ _ Hw) as (n & nt & -> & En & Ed & Hw').
    cbn [mbind res_bind]. rewrite En. cbn [mbind res_bind]. rewrite Ed.
    apply Forall_cons in Hr as [Hd Hr]. cbn in Hd. rewrite result_events_ok by done.
    cbn [mbind res_bind]. rewrite calls_cons. destruct (Z.land _ (m_flags d) =? 0); cbn [negb].
    + by rewrite IH by (done || lia).
    + assert (CallHandler run d (events (m_hander d) s) w = Ret (effect w (m_hander d, events (m_hander d) s, m_bc d))) as ->
        by (unfold CallHandler, effect; cbn; by destruct (m_bc d)).
      cbn [mbind res_bind]. rewrite IH; [done|lia| |done]. unfold effect. cbn. destruct (m_bc d); [by rewrite get_eff|done].
Qed.

Lemma CallHandlers_ok fuel w s l : repr (get w) l -> (length l < fuel)%nat -> in_range l ->
  CallHandlers get run fuel w s = Ret (effects (calls_of s l) w).
Proof.
  intros Hr Hf Hin. destruct (repr_walk _ _ Hr) as (it & E & Hw & Hl).
  unfold CallHandlers. rewrite E. cbn [mbind res_bind]. by rewrite (call_loop_spec s l).
Qed.

End effects.

(** What [select] is asked for the handlers [m]: the sets of those that want an
    event, and the greatest of them. *)
Record asks (m : gmap Z (Z * option nat)) (r : Z) (s : fdsets) : Prop := {
  as_read fd : fd ∈ rfds s <-> exists fl bc, m !! fd = Some (fl, bc) /\ has fl HIT_READ = true;
  as_write fd : fd ∈ wfds s <-> exists fl bc, m !! fd = Some (fl, bc) /\ has fl HIT_WRITE = true;
  as_except fd : fd ∈ efds s <-> exists fl bc, m !! fd = Some (fl, bc) /\ has fl HIT_EXCEP = true;
  as_above fd : fd ∈ rfds s ∪ wfds s ∪ efds s -> fd <= r;
  as_max : r = 0 \/ exists fl bc, m !! r = Some (fl, bc) /\ has fl HIT_TEST = true
}.

Lemma SetupHandleSet_asks h l m : models h l m -> in_range l ->
  exists r s, SetupHandleSet h = Ret (r, s) /\ asks m r s.
Proof.
  intros Hm Hin. destruct (repr_walk _ _ (models_repr _ _ _ Hm)) as (it & E & Hw & Hl).
  unfold SetupHandleSet. rewrite E. cbn [mbind res_bind].
  destruct (setup_loop_spec l (size h) h it 0 (Fds ∅ ∅ ∅) Hl Hw Hin)
    as (r & s & -> & HR & HW & HE & _ & Hmax & Hex). exists r, s. cbn [rfds wfds efds] in *.
  assert (forall fd bit, (exists a d, (a, d) ∈ l /\ m_hander d = fd /\ has (m_flags d) bit = true) <->
    exists fl bc, m !! fd = Some (fl, bc) /\ has fl bit = true) as Hiff.
  { intros fd bit. split.
    - intros (a & d & Hd & <- & Hb). exists (m_flags d), (m_bc d). split; [|done]. by eapply models_elem.
    - intros (fl & bc & Hd & Hb). destruct (models_lookup_elem _ _ _ _ _ Hm Hd) as [a Ha].
      exists a, (Descr fd fl bc). done. }
  assert (forall fd (P : Prop), fd ∈ (∅ : gset Z) \/ P <-> P) as Hemp by (intros; rewrite elem_of_empty; tauto).
  split; [done|]. split.
  - intros fd. by rewrite HR, Hemp, Hiff.
  - intros fd. by rewrite HW, Hemp, Hiff.
  - intros fd. by rewrite HE, Hemp, Hiff.
  - intros fd. rewrite !elem_of_union, HR, HW, HE, !Hemp.
    intros [[(a & d & Hd & <- & Hb)|(a & d & Hd & <- & Hb)]|(a & d & Hd & <- & Hb)];
      apply (Hmax a d Hd); (eapply has_test; [|exact Hb]); auto.
  - destruct Hex as [->|(a & d & Hd & Ht & E2)]; [by left|right]. apply Hiff. by exists a, d.
Qed.

(** ** Properties *)

(** C9: Assigning, replacing and removing handlers are insertion and deletion in a
    finite map from descriptors to flags and callback, one node per descriptor;
    a descriptor that is not positive is ignored. *)
Theorem handlers_refine h l m s fl bc :
  models h l m ->
  (exists h' l', AssignHandler h s fl bc = Ret h' /\
     models h' l' (if s <=? 0 then m else <[s := (fl, bc)]> m)) /\
  (exists h' l', RemoveHandler h s = Ret h' /\ models h' l' (delete s m)) /\
  (exists o, lookupHandler h s = Ret o /\ (is_Some o <-> is_Some (m !! s))).
Proof.
  intros Hm. split_and!.
  - destruct (s <=? 0) eqn:E; bool_to_prop.
    + exists h, l. split; [|done]. unfold AssignHandler. by ztest.
    + apply (models_assign h l); [done|lia].
  - by apply (models_remove h l).
  - eexists. split; [apply lookupHandler_spec, Hm|]. rewrite (models_lookup _ _ _ Hm), !fmap_is_Some. done.
Qed.

Lemma handlers_refine_witness :
  exists h' l', AssignHandler init 5 HIT_READ (Some 1%nat) = Ret h' /\ models h' l' {[ 5 := (HIT_READ, Some 1%nat) ]}.
Proof.
  destruct (handlers_refine init [] ∅ 5 HIT_READ (Some 1%nat) models_init) as (H & _). exact H.
Defined.

(** [SetupHandleSet] puts a descriptor into a set exactly when it is registered
    for that kind of event, and returns a bound on all of them. *)
Theorem SetupHandleSet_spec h l m :
  models h l m -> in_range l ->
  exists r s, SetupHandleSet h = Ret (r, s) /\
    (forall fd, fd ∈ rfds s <-> exists fl bc, m !! fd = Some (fl, bc) /\ has fl HIT_READ = true) /\
    (forall fd, fd ∈ wfds s <-> exists fl bc, m !! fd = Some (fl, bc) /\ has fl HIT_WRITE = true) /\
    (forall fd, fd ∈ efds s <-> exists fl bc, m !! fd = Some (fl, bc) /\ has fl HIT_EXCEP = true) /\
    (forall fd, fd ∈ rfds s ∪ wfds s ∪ efds s -> fd <= r).
Proof.
  intros Hm Hin. destruct (SetupHandleSet_asks h l m Hm Hin) as (r & s & E & []). exists r, s. by split_and!.
Qed.

(** A set with two handlers: 7 was added after 5, so it comes first. *)
Definition two : t :=
  match (h ← AssignHandler init 5 HIT_READ (Some 1%nat); AssignHandler h 7 HIT_WRITE (Some 2%nat)) with
  | Ret h => h | Throw _ => init
  end.

Lemma two_models : exists l, models two l (<[7 := (HIT_WRITE, Some 2%nat)]> (<[5 := (HIT_READ, Some 1%nat)]> ∅)) /\
  in_range l.
Proof.
  destruct (models_assign init [] ∅ 5 HIT_READ (Some 1%nat) models_init) as (h1 & l1 & E1 & H1); [lia|].
  destruct (models_assign h1 l1 _ 7 HIT_WRITE (Some 2%nat) H1) as (h2 & l2 & E2 & H2); [lia|].
  exists l2. unfold two. rewrite E1. cbn [mbind res_bind]. rewrite E2. split; [done|].
  apply Forall_forall. intros [a d] Hin. pose proof (models_elem _ _ _ _ _ H2 Hin) as Hd. cbn.
  destruct (decide (m_hander d = 7)) as [->|H7]; [done|]. rewrite lookup_insert_ne in Hd by done.
  destruct (decide (m_hander d = 5)) as [->|H5]; [done|]. by rewrite lookup_insert_ne in Hd.
Qed.

Lemma SetupHandleSet_spec_witness :
  exists r s, SetupHandleSet two = Ret (r, s) /\ (forall fd, fd ∈ rfds s ∪ wfds s ∪ efds s -> fd <= r).
Proof.
  destruct two_models as (l & Hm & Hin).
  destruct (SetupHandleSet_spec two l _ Hm Hin) as (r & s & E & _ & _ & _ & Hr). by exists r, s.
Defined.

(** With callbacks that leave the set alone, [CallHandlers] calls each
    registered descriptor that is ready for one of its events, once, with all
    its ready events, and no other. *)
Theorem CallHandlers_spec {W} (get : W -> t) eff w s l m :
  (forall bc ev w, get (eff bc ev w) = get w) -> models (get w) l m -> in_range l ->
  exists calls, CallHandlers get (fun bc ev w => Ret (eff bc ev w)) (size (get w)) w s = Ret (effects eff calls w) /\
    NoDup (map (fun c => c.1.1) calls) /\
    forall fd ev bc, (fd, ev, bc) ∈ calls <->
      exists fl, m !! fd = Some (fl, bc) /\ ev = events fd s /\ Z.land ev fl <> 0.
Proof.
  intros Hq Hm Hin. destruct (repr_walk _ _ (models_repr _ _ _ Hm)) as (_ & _ & _ & Hl).
  exists (calls_of s l). split_and!; [by apply CallHandlers_ok; [|apply Hm| |]| |].
  - apply calls_nodup, Hm.
  - intros fd ev bc. rewrite calls_elem. split.
    + intros (a & d & Hd & -> & -> & -> & Hz). exists (m_flags d). split; [|done].
      by eapply models_elem.
    + intros (fl & Hd & -> & Hz). destruct (models_lookup_elem _ _ _ _ _ Hm Hd) as [a Ha].
      by exists a, (Descr fd fl bc).
Qed.

Lemma CallHandlers_spec_witness :
  exists calls, CallHandlers fst (fun bc ev w => Ret (w.1, w.2 ++ [(bc, ev)])) (size two) (two, []) (Fds {[5]} ∅ {[7]})
    = Ret (effects (fun bc ev w => (w.1, w.2 ++ [(bc, ev)])) calls (two, [])) /\ NoDup (map (fun c => c.1.1) calls).
Proof.
  destruct two_models as (l & Hm & Hin).
  destruct (CallHandlers_spec fst (fun bc ev w => (w.1, w.2 ++ [(bc, ev)])) (two, []) (Fds {[5]} ∅ {[7]}) l _
    (fun _ _ _ => eq_refl) Hm Hin) as (calls & E & H & _). by exists calls.
Defined.

(** A callback that removes the handler next in the ring leaves the iterator
    with a pointer to freed memory: the walk goes on there. *)
Theorem CallHandlers_dangling (run : nat -> Z -> t -> res t) h s a d b e l bc :
  repr h ((a, d) :: (b, e) :: l) -> in_range [(a, d)] -> m_hander d <> m_hander e ->
  m_bc d = Some bc -> Z.land (events (m_hander d) s) (m_flags d) <> 0 ->
  (forall ev, run bc ev h = RemoveHandler h (m_hander e)) ->
  CallHandlers id run (size h) h s = Throw UB.
Proof.
  intros Hr Hin Hne Hbc Hz Hrun. destruct (repr_walk _ _ Hr) as (it & E & Hw & Hl).
  unfold CallHandlers. change (id h) with h. rewrite E. cbn [mbind res_bind].
  destruct (size h) as [|[|fuel]]; [cbn in Hl; lia|cbn in Hl; lia|].
  cbn [call_loop]. change (id h) with h.
  destruct (walk_cons _ _ _ _ _ Hw) as (n & nt & -> & En & Ed & Hw').
  cbn [mbind res_bind]. rewrite En. cbn [mbind res_bind]. rewrite Ed.
  apply Forall_cons in Hin as [Hd _]. cbn in Hd. rewrite result_events_ok by done.
  cbn [mbind res_bind]. rewrite (proj2 (Z.eqb_neq _ _)) by done. cbn [negb].
  unfold CallHandler. rewrite Hbc, Hrun. pose proof Hw' as (-> & Hb & _).
  unfold RemoveHandler. rewrite (lookupHandler_spec _ _ _ Hr). cbn [first_with snd].
  rewrite (proj2 (Z.eqb_neq (m_hander d) _)), Z.eqb_refl by done. cbn [mbind res_bind fmap option_fmap option_map fst].
  destruct (delete_descr_spec h [(a, d)] b e l Hr) as (h' & -> & _ & Hgone). cbn [mbind res_bind].
  unfold Next. rewrite bool_decide_eq_false_2 by done. unfold load. change (id h') with h'.
  by rewrite Hgone.
Qed.

Lemma CallHandlers_dangling_witness :
  exists h, h = two /\
  CallHandlers id (fun bc ev w => RemoveHandler w 5) (size h) h (Fds ∅ {[7]} ∅) = Throw UB.
Proof.
  exists two. split; [done|].
  destruct (models_assign init [] ∅ 5 HIT_READ (Some 1%nat) models_init) as (h1 & l1 & E1 & H1); [lia|].
  destruct (AssignHandler_spec init [] 5 HIT_READ (Some 1%nat) (models_repr _ _ _ models_init))
    as (h1' & l1' & E1' & R1 & Hx & ->); [lia|].
  destruct (AssignHandler_spec h1' _ 7 HIT_WRITE (Some 2%nat) R1) as (h2 & l2 & E2 & R2 & Hy & ->); [lia|].
  assert (two = h2) as -> by (unfold two; rewrite E1'; cbn [mbind res_bind]; by rewrite E2).
  eapply (CallHandlers_dangling _ h2 _ Hy _ Hx _ [] 2 R2);
    [by apply (bool_decide_eq_true _)|done|done|by vm_compute|done].
Defined.

End HandlerSet.
