(* ===== verification/Scheduler.v ===== *)
(** * The single-threaded scheduler: [src/hscheduler.h], [.cpp] and
    [src/detail/scheduler/scheduler_in], [delaytrigger_in]

    A scheduler owns a delay queue, a handler set and 128 trigger slots.  A
    callback is a number; what it does to the scheduler and to the state [E] that
    callbacks have captured is the argument [run].
    The answers of [gettimeofday] and [select] are arguments of a step. *)

From S2P Require Import Prelude DList Timeval DelayQueue HandlerSet.
#[local] Open Scope Z_scope.

Module TriggerSet.

(** ** Definitions *)

Definition max_trigger_count : Z := 128.

(** An empty [std::function] is [None]. *)
Definition t : Type := list (option nat).

Definition init : t := replicate (Z.to_nat max_trigger_count) None.

Fixpoint create_loop (i : Z) (l : t) (new_trigger : option nat) : t * Z :=
  match l with
  | [] => ([], -1)
  | None :: l' => (new_trigger :: l', i)
  | Some b :: l' => let '(l', r) := create_loop (i + 1) l' new_trigger in (Some b :: l', r)
  end.

Definition CreateTrigger (l : t) (new_trigger : option nat) : t * Z := create_loop 0 l new_trigger.

Definition RemoveTrigger (l : t) (tid : Z) : t :=
  if (tid <? 0) || (tid >=? max_trigger_count) then l else <[Z.to_nat tid := None]> l.

Section TriggeUpAll.
Context {W : Type} (get : W -> t) (run : nat -> W -> res W).

(** [n] slots from index [i] on. *)
Fixpoint trigge_loop (n i : nat) (w : W) : res W :=
  match n with
  | O => Ret w
  | S n' => match get w !! i with
            | Some (Some b) => w ← run b w; trigge_loop n' (S i) w
            | _ => trigge_loop n' (S i) w
            end
  end.

Definition TriggeUpAll (w : W) : res W := trigge_loop (Z.to_nat max_trigger_count) 0 w.
End TriggeUpAll.

(** ** Lemmas *)

Lemma create_loop_spec i l b :
  match list_find (fun o : option nat => o = None) l with
  | Some (n, _) => create_loop i l b = (<[n := b]> l, i + Z.of_nat n)
  | None => create_loop i l b = (l, -1)
  end.
Proof.
  revert i. induction l as [|[c|] l IH]; intros i; cbn; [done| |].
  - specialize (IH (i + 1)). destruct (list_find _ l) as [[n x]|]; cbn; rewrite IH; [|done].
    f_equal. lia.
  - f_equal. lia.
Qed.

(** Callbacks that leave the slots alone, and what they do besides. *)
Section effects.
Context {W : Type} (get : W -> t) (eff : nat -> W -> W) (get_eff : forall b w, get (eff b w) = get w).

Definition effects (bs : list nat) (w : W) : W := fold_left (fun w b => eff b w) bs w.

Lemma trigge_loop_spec n : forall i w,
  trigge_loop get (fun b w => Ret (eff b w)) n i w = Ret (effects (omap id (take n (drop i (get w)))) w).
Proof.
  induction n as [|n IH]; intros i w; cbn; [done|].
  destruct (get w !! i) as [o|] eqn:E.
  - rewrite (drop_S _ _ _ E). cbn [take omap list_omap]. destruct o as [b|]; cbn [id].
    + cbn [mbind res_bind]. by rewrite IH, get_eff.
    + by rewrite IH.
  - rewrite IH. apply lookup_ge_None in E. by rewrite !drop_ge, !take_nil by lia.
Qed.

Lemma TriggeUpAll_ok w :
  TriggeUpAll get (fun b w => Ret (eff b w)) w = Ret (effects (omap id (take 128 (get w))) w).
Proof. unfold TriggeUpAll. by rewrite trigge_loop_spec. Qed.

End effects.

(** ** Properties *)

(** [CreateTrigger] takes the first free slot and fails exactly when all are in
    use; it and [RemoveTrigger] touch no other slot. *)
Theorem triggers_spec l b tid :
  let '(l', i) := CreateTrigger l b in
  match list_find (fun o : option nat => o = None) l with
  | Some (n, _) => i = Z.of_nat n /\ l' = <[n := b]> l
  | None => i = -1 /\ l' = l /\ Forall is_Some l
  end /\
  length (RemoveTrigger l tid) = length l /\
  (forall j : nat, Z.of_nat j <> tid -> RemoveTrigger l tid !! j = l !! j) /\
  (0 <= tid < max_trigger_count -> tid < zlen l -> RemoveTrigger l tid !! Z.to_nat tid = Some None).
Proof.
  unfold CreateTrigger. pose proof (create_loop_spec 0 l b) as H.
  destruct (create_loop 0 l b) as [l' i]. split; [|unfold RemoveTrigger; split_and!].
  - destruct (list_find _ l) as [[n x]|] eqn:E; injection H as -> ->; [by rewrite Z.add_0_l|].
    split_and!; [done|done|]. apply list_find_None in E. eapply Forall_impl; [exact E|].
    intros o Ho. cbn in Ho. destruct o; [eauto|done].
  - case_test; [done|]. apply length_insert.
  - intros j Hj. case_test; [done|]. bool_to_prop. apply list_lookup_insert_ne. lia.
  - unfold zlen. intros Ht Hl. ztest. apply list_lookup_insert_eq. lia.
Qed.

End TriggerSet.

Module Scheduler.
Import Timeval.

(** ** Definitions *)

Record t : Type := mk {
  m_quit : bool;
  m_task_queue : DelayQueue.t;
  m_handlers : HandlerSet.t;
  m_trigers : TriggerSet.t
}.

(** [HSingleScheduler()], the clock showing [now]. *)
Definition init (now : Timeval.t) : t :=
  mk false (DelayQueue.init now) HandlerSet.init TriggerSet.init.

Definition put_queue (s : t) (q : DelayQueue.t) : t := mk (m_quit s) q (m_handlers s) (m_trigers s).
Definition put_handlers (s : t) (h : HandlerSet.t) : t := mk (m_quit s) (m_task_queue s) h (m_trigers s).
Definition put_trigers (s : t) (l : TriggerSet.t) : t := mk (m_quit s) (m_task_queue s) (m_handlers s) l.

Definition StopLoop (s : t) : t := mk true (m_task_queue s) (m_handlers s) (m_trigers s).

(** [microseconds] is unsigned, 64 bits wide. *)
Definition ScheduleDelayTask (now : Timeval.t) (s : t) (microseconds : Z) (proc : option nat)
  : res (t * nat) :=
  let di := Timeval.mk (s64 (u64 microseconds / MILLION)) (s64 (u64 microseconds mod MILLION)) in
  let '(q, x) := DelayQueue.new_entry (m_task_queue s) di proc in
  q ← DelayQueue.AddEntry now q x;
  Ret (put_queue s q, x).

Definition SetBackgroundHanding (s : t) (sfd flags : Z) (bc : option nat) : res t :=
  h ← HandlerSet.AddHandle (m_handlers s) sfd flags bc; Ret (put_handlers s h).

Definition RemoveBackgroundHandling (s : t) (sfd : Z) : res t :=
  h ← HandlerSet.RemoveHandle (m_handlers s) sfd; Ret (put_handlers s h).

Definition CreateTrigger (s : t) (bc : option nat) : t * Z :=
  let '(l, i) := TriggerSet.CreateTrigger (m_trigers s) bc in (put_trigers s l, i).

Definition RemoveTrigger (s : t) (tid : Z) : t :=
  put_trigers s (TriggerSet.RemoveTrigger (m_trigers s) tid).

(** What a step calls, in order. *)
Inductive callback : Type :=
  | CbBackground (bc : nat) (events : Z)
  | CbTrigger (bc : nat)
  | CbDelay (bc : nat).

(** The time [select] may wait: the delay, with at most a million seconds. *)
Definition select_timeout (d : Timeval.t) : Timeval.t :=
  Timeval.mk (if Seconds d >? MILLION then MILLION else Seconds d) (Useconds d).

(** The answers of the system in one step: the clock before and after the
    events, and [select] as a function of its arguments. *)
Record sys : Type := Sys {
  now1 : Timeval.t;
  now2 : Timeval.t;
  select : Z -> HandlerSet.fdsets -> Timeval.t -> Z * HandlerSet.fdsets
}.

Section run.
(** [E] is what the callbacks share outside the scheduler. *)
Context {E : Type} (run : callback -> t * E -> res (t * E)).

Abbreviation world := (t * E)%type.

Definition get_queue (w : world) : DelayQueue.t := m_task_queue w.1.
Definition set_queue (w : world) (q : DelayQueue.t) : world := (put_queue w.1 q, w.2).

Definition run_bg (bc : nat) (ev : Z) (w : world) : res world := run (CbBackground bc ev) w.
Definition run_trig (bc : nat) (w : world) : res world := run (CbTrigger bc) w.

(** [AlterHandler::handleTimeout] *)
Definition run_alarm (bc : option nat) (w : world) : res world :=
  match bc with Some b => run (CbDelay b) w | None => Ret w end.

Definition singleStep (fuel : nat) (y : sys) (w : world) : res world :=
  '(timeToDelay, q) ← DelayQueue.TimeToNextAlarm (now1 y) (get_queue w);
  let w := set_queue w q in
  '(mfd, sets) ← HandlerSet.SetupHandleSet (m_handlers w.1);
  let '(selectResult, sets) := select y (mfd + 1) sets (select_timeout timeToDelay) in
  if selectResult <? 0 then Throw Terminate
  else
    w ← (if selectResult >? 0
         then HandlerSet.CallHandlers (fun w => m_handlers w.1) run_bg fuel w sets
         else Ret w);
    w ← TriggerSet.TriggeUpAll (fun w => m_trigers w.1) run_trig w;
    DelayQueue.HandleAlarm get_queue set_queue run_alarm fuel (now2 y) w.

(** [DoEventLoop]: a step for each answer of the system until [StopLoop]. *)
Fixpoint DoEventLoop (fuel : nat) (ys : list sys) (w : world) : res world :=
  if m_quit w.1 then Ret w
  else match ys with
       | [] => Ret w
       | y :: ys' => w ← singleStep fuel y w; DoEventLoop fuel ys' w
       end.
End run.

(** ** Lemmas *)

Lemma u64_delay us :
  let di := Timeval.mk (s64 (u64 us / MILLION)) (s64 (u64 us mod MILLION)) in
  norm di /\ tval di = u64 us.
Proof.
  intros di. unfold di, norm, tval, MILLION. cbn. clear di. pose proof (wrapU_bound 64 us ltac:(lia)) as Hu.
  unfold in_u in Hu. change (wrapU 64 us) with (u64 us) in Hu. generalize dependent (u64 us). clear us. intros us Hu.
  assert (0 <= us / 1000000 < 2 ^ 63)
    by (split; [apply Z.div_pos; lia|apply Z.div_lt_upper_bound; lia]).
  pose proof (Z.mod_pos_bound us 1000000). rewrite !s64_id by lia.
  pose proof (Z.div_mod us 1000000). lia.
Qed.

(** ** Properties *)

(** A task scheduled with a delay of [us] microseconds is due that long from
    now, behind the tasks due at the same time.  The parameter is unsigned: the
    delay -1 is 2^64 - 1 microseconds, where the comment promises none. *)
Theorem ScheduleDelayTask_spec s rq hor now us proc :
  DelayQueue.repr (m_task_queue s) rq hor -> norm now ->
  tval (DelayQueue.m_lastSyncTime (m_task_queue s)) <= tval now ->
  tval now - tval (DelayQueue.m_lastSyncTime (m_task_queue s)) < 2 ^ 31 * MILLION ->
  tval now + u64 us < hor ->
  exists s' x, ScheduleDelayTask now s us proc = Ret (s', x) /\ x ∉ map fst rq /\
    DelayQueue.repr (m_task_queue s') (DelayQueue.insert_dl x (tval now + u64 us) rq) hor /\
    m_handlers s' = m_handlers s /\ m_trigers s' = m_trigers s /\
    (DelayQueue.m_bc <$> data_of (DelayQueue.hp (m_task_queue s')) x) = Some proc.
Proof.
  intros Hq Hn Hle Hel Hh. unfold ScheduleDelayTask. destruct (u64_delay us) as [Hdn Hdv].
  set (di := Timeval.mk _ _) in *.
  destruct (DelayQueue.new_entry (m_task_queue s) di proc) as [q x] eqn:E.
  destruct (DelayQueue.repr_new _ _ _ _ _ _ _ Hq Hdn E) as (Hq1 & Hx & Hd & Hl).
  rewrite Hdv in Hd.
  destruct (DelayQueue.AddEntry_spec q rq hor now x (u64 us)) as (q' & -> & Hq' & _ & _ & Hbc);
    [done|done|by rewrite Hl|by rewrite Hl|done|done|done|].
  cbn [mbind res_bind]. eexists _, x. split_and!; try done.
  - intros H. apply Hx. apply elem_of_cons. by right.
  - cbn. rewrite Hbc. injection E as <- <-. cbn. by rewrite data_of_insert, decide_True.
Qed.

Lemma ScheduleDelayTask_spec_witness :
  exists s' x, ScheduleDelayTask (Timeval.mk 101 0) (init (Timeval.mk 100 0)) 2500000 (Some 3%nat) = Ret (s', x) /\
    x ∉ map fst (@nil (nat * Z)) /\
    DelayQueue.repr (m_task_queue s') [(x, 103500000)] (100000000 + (LIM - 1)) /\
    m_handlers s' = HandlerSet.init /\ m_trigers s' = TriggerSet.init /\
    (DelayQueue.m_bc <$> data_of (DelayQueue.hp (m_task_queue s')) x) = Some (Some 3%nat).
Proof.
  apply (ScheduleDelayTask_spec (init (Timeval.mk 100 0)) [] (100000000 + (LIM - 1)) (Timeval.mk 101 0) 2500000);
    [apply (DelayQueue.repr_init (Timeval.mk 100 0)); by apply (bool_decide_eq_true _)|
     by apply (bool_decide_eq_true _)|by vm_compute|by vm_compute|by vm_compute].
Defined.

(** *** A step whose callbacks leave the scheduler alone *)

(** The callbacks of a step, in order: the descriptors [calls], the triggers in their
    slots, the entries [fired] of the queue. *)
Definition bg_callbacks (calls : list HandlerSet.call) : list callback :=
  omap (fun c => (fun bc => CbBackground bc c.1.2) <$> c.2) calls.
Definition trig_callbacks (s : t) : list callback := map CbTrigger (omap id (take 128 (m_trigers s))).
Definition alarm_callbacks (s : t) (fired : list nat) : list callback :=
  omap (fun a => CbDelay <$> DelayQueue.bc_at (m_task_queue s) a) fired.

Section effects.
Context {E : Type} (eff : callback -> E -> E).
Implicit Types (w : t * E).

Definition on_env (c : callback) w : t * E := (w.1, eff c w.2).
Definition after (cs : list callback) (e : E) : E := fold_left (fun e c => eff c e) cs e.

Abbreviation run := (fun c w => Ret (on_env c w)).

Lemma after_app cs1 cs2 e : after (cs1 ++ cs2) e = after cs2 (after cs1 e).
Proof. apply fold_left_app. Qed.

Lemma bg_effects calls : forall w,
  HandlerSet.effects (fun bc ev => on_env (CbBackground bc ev)) calls w = (w.1, after (bg_callbacks calls) w.2).
Proof.
  unfold HandlerSet.effects, after, bg_callbacks. induction calls as [|[[fd ev] [bc|]] calls IH]; intros [s e]; cbn [fold_left omap list_omap]; [done|..];
    unfold HandlerSet.effect at 2; cbn; by rewrite IH.
Qed.

Lemma trig_effects bs : forall w,
  TriggerSet.effects (fun bc => on_env (CbTrigger bc)) bs w = (w.1, after (map CbTrigger bs) w.2).
Proof. unfold TriggerSet.effects, after. induction bs as [|b bs IH]; intros [s e]; cbn; [done|]. by rewrite IH. Qed.

(** [run_alarm] as an effect. *)
Definition alarm_effect (bc : option nat) w : t * E := match bc with Some b => on_env (CbDelay b) w | None => w end.

Lemma alarm_effects q l : forall w,
  DelayQueue.effects alarm_effect q l w = (w.1, after (omap (fun a => CbDelay <$> DelayQueue.bc_at q a) l) w.2).
Proof.
  unfold DelayQueue.effects, after. induction l as [|a l IH]; intros [s e]; cbn; [done|]. rewrite IH.
  by destruct (DelayQueue.bc_at q a).
Qed.

Lemma run_alarm_effect bc w : run_alarm run bc w = Ret (alarm_effect bc w).
Proof. by destruct bc. Qed.

Lemma alarms_ok fuel now s e rq hor : let last := DelayQueue.m_lastSyncTime (m_task_queue s) in
  DelayQueue.repr (m_task_queue s) rq hor -> norm now -> tval last <= tval now < hor -> tval now - tval last < 2 ^ 31 * MILLION ->
  (length rq < fuel)%nat -> let T := DelayQueue.alarm_time (tval last) (tval now) rq in
  exists q', DelayQueue.HandleAlarm get_queue set_queue (run_alarm run) fuel now (s, e) =
      Ret (put_queue s q', after (alarm_callbacks s (DelayQueue.due T rq)) e) /\
    DelayQueue.repr q' (DelayQueue.not_due T rq) hor /\
    dom (DelayQueue.hp q') = dom (DelayQueue.hp (m_task_queue s)) ∖ list_to_set (DelayQueue.due T rq).
Proof.
  intros last Hq Hn Hle Hel Hf T.
  destruct (DelayQueue.HandleAlarm_ok get_queue set_queue (run_alarm run) alarm_effect run_alarm_effect (fun _ _ => eq_refl) (fun _ _ _ => eq_refl)
    ltac:(by intros [[] ?]) ltac:(by intros [?|] [? ?] ?) fuel (s, e) rq hor now Hq Hn Hle Hel Hf) as (q' & -> & Hq' & Hd').
  exists q'. split_and!; [|done|done]. rewrite alarm_effects. done.
Qed.

End effects.

(** ** Properties *)

#[local] Opaque TriggerSet.TriggeUpAll HandlerSet.CallHandlers DelayQueue.HandleAlarm.

(** C6: One step asks [select] for exactly the descriptors that are watched, and to wait
    no longer than to the next alarm and at most a million seconds.  A negative
    answer aborts; otherwise, when the callbacks leave the scheduler alone, they are
    called one after the other and each once: those of the ready descriptors, of
    every trigger in slot order, and of exactly the alarms that are due, whose
    entries are deleted. *)
Theorem singleStep_spec {E} (eff : callback -> E -> E) fuel y s e rq hor l m :
  DelayQueue.repr (m_task_queue s) rq hor -> HandlerSet.models (m_handlers s) l m ->
  HandlerSet.in_range l -> norm (now1 y) -> norm (now2 y) ->
  let last := DelayQueue.m_lastSyncTime (m_task_queue s) in
  tval last <= tval (now1 y) <= tval (now2 y) -> tval (now2 y) < hor ->
  tval (now2 y) - tval last < 2 ^ 31 * MILLION ->
  (length rq < fuel)%nat -> (length l < fuel)%nat ->
  let next := DelayQueue.next_dl rq hor in
  let wait := if next <=? tval last then 0 else Z.max 0 (next - tval (now1 y)) in
  let T := if next <=? tval last then tval last
           else if next <=? tval (now1 y) then tval (now1 y) else tval (now2 y) in
  exists mfd sets tv, HandlerSet.asks m mfd sets /\
    Seconds tv = Z.min (wait / MILLION) MILLION /\ Useconds tv = wait mod MILLION /\
    let '(r, ready) := select y (mfd + 1) sets tv in
    let calls := (if r >? 0 then bg_callbacks (HandlerSet.calls_of ready l) else []) ++
      trig_callbacks s ++ alarm_callbacks s (DelayQueue.due T rq) in
    if r <? 0 then singleStep (fun c w => Ret (on_env eff c w)) fuel y (s, e) = Throw Terminate
    else exists q', singleStep (fun c w => Ret (on_env eff c w)) fuel y (s, e) = Ret (put_queue s q', after eff calls e) /\
      DelayQueue.repr q' (DelayQueue.not_due T rq) hor /\
      dom (DelayQueue.hp q') = dom (DelayQueue.hp (m_task_queue s)) ∖ list_to_set (DelayQueue.due T rq).
Proof.
  intros Hq Hm Hin Hn1 Hn2 last Hle Hh Hel Hf Hfl next wait T. unfold singleStep. change (get_queue (s, e)) with (m_task_queue s).
  destruct (DelayQueue.TimeToNextAlarm_ok (m_task_queue s) rq hor (now1 y) Hq Hn1)
    as (d & q & -> & Hq1 & Hnd & Hd & Hl1 & Hs1); [fold last; lia|fold last; lia|].
  fold last next wait in Hd, Hl1. cbn [mbind res_bind m_handlers put_queue set_queue fst snd].
  destruct (HandlerSet.SetupHandleSet_asks _ _ _ Hm Hin) as (mfd & sets & -> & Hasks). cbn [mbind res_bind].
  exists mfd, sets, (select_timeout d).
  assert (Seconds d = wait / MILLION /\ Useconds d = wait mod MILLION) as [Es Eu].
  { unfold norm, tval, MILLION in *. rewrite <- Hd. split; [apply Z.div_unique with (Useconds d)|apply Z.mod_unique with (Seconds d)]; lia. }
  split_and!; [done| |done|].
  { unfold select_timeout. cbn. rewrite <- Es, Z.gtb_ltb. case_test; lia. }
  destruct (select y (mfd + 1) sets (select_timeout d)) as [r ready].
  destruct (r <? 0) eqn:Er; [done|].
  set (s1 := put_queue s q).
  assert (exists q', DelayQueue.HandleAlarm get_queue set_queue (run_alarm (fun c w => Ret (on_env eff c w))) fuel (now2 y)
      (s1, after eff (trig_callbacks s) (after eff (if r >? 0 then bg_callbacks (HandlerSet.calls_of ready l) else []) e))
    = Ret (put_queue s q', after eff (alarm_callbacks s (DelayQueue.due T rq)) (after eff (trig_callbacks s)
        (after eff (if r >? 0 then bg_callbacks (HandlerSet.calls_of ready l) else []) e))) /\
    DelayQueue.repr q' (DelayQueue.not_due T rq) hor /\
    dom (DelayQueue.hp q') = dom (DelayQueue.hp (m_task_queue s)) ∖ list_to_set (DelayQueue.due T rq)) as (q' & Ea & Hq' & Hd').
  { assert (DelayQueue.alarm_time (tval (DelayQueue.m_lastSyncTime (m_task_queue s1))) (tval (now2 y)) rq = T) as ET.
    { change (m_task_queue s1) with q. rewrite Hl1. unfold T, DelayQueue.alarm_time, next, DelayQueue.next_dl.
      destruct rq as [|[a dl] rq]; [by ztest|]. destruct (dl <=? tval last) eqn:E1; [by rewrite E1|]. done. }
    destruct (alarms_ok eff fuel (now2 y) s1 (after eff (trig_callbacks s) (after eff (if r >? 0 then bg_callbacks (HandlerSet.calls_of ready l) else []) e)) rq hor)
      as (q' & E1 & Hq' & Hd'); [done|done|change (m_task_queue s1) with q; rewrite Hl1; case_match; lia|
        change (m_task_queue s1) with q; rewrite Hl1; case_match; lia|done|].
    rewrite ET in *. exists q'. split_and!; [|done|rewrite Hd'; f_equal; apply Hs1]. rewrite E1. do 3 f_equal.
    unfold alarm_callbacks. apply list_omap_ext. apply Forall2_same_length_lookup. split; [done|].
    intros i a b Ha Hb. assert (a = b) as <- by congruence. unfold DelayQueue.bc_at. f_equal. f_equal. apply Hs1. }
  exists q'. split_and!; [|done|done]. eapply bind_Ret.
  { instantiate (1 := (s1, after eff (if r >? 0 then bg_callbacks (HandlerSet.calls_of ready l) else []) e)).
    destruct (r >? 0); [|done].
    etransitivity; [apply (HandlerSet.CallHandlers_ok (fun w : t * E => m_handlers w.1) (fun bc ev => on_env eff (CbBackground bc ev)) (fun _ _ _ => eq_refl)); [apply Hm|done|done]|].
    by rewrite bg_effects. }
  cbv beta. eapply bind_Ret.
  { etransitivity; [apply (TriggerSet.TriggeUpAll_ok (fun w : t * E => m_trigers w.1) (fun bc => on_env eff (CbTrigger bc)) (fun _ _ => eq_refl))|].
    rewrite trig_effects. reflexivity. }
  cbv beta. cbn [fst snd]. fold (trig_callbacks s). rewrite !after_app. exact Ea.
Qed.

(** One alarm, due in the step, and one trigger. *)
Definition demo : t :=
  match ScheduleDelayTask (Timeval.mk 100 0) (CreateTrigger (init (Timeval.mk 100 0)) (Some 9%nat)).1 10 (Some 1%nat) with
  | Ret (s, _) => s
  | Throw _ => init (Timeval.mk 100 0)
  end.

(** The callbacks leave their numbers. *)
Lemma singleStep_spec_witness :
  exists q', singleStep (fun c w => Ret (on_env (fun c l => l ++ [c]) c w)) 5
      (Sys (Timeval.mk 101 0) (Timeval.mk 101 0) (fun _ s _ => (0, s))) (demo, []) =
    Ret (put_queue demo q', [CbTrigger 9; CbDelay 1]) /\ DelayQueue.repr q' [] (100000000 + (LIM - 1)).
Proof.
  set (s0 := (CreateTrigger (init (Timeval.mk 100 0)) (Some 9%nat)).1).
  assert (norm (Timeval.mk 100 0)) as Hn by (by apply (bool_decide_eq_true _)).
  assert (DelayQueue.repr (m_task_queue s0) [] (100000000 + (LIM - 1))) as Hq0
    by exact (DelayQueue.repr_init (Timeval.mk 100 0) Hn).
  destruct (ScheduleDelayTask_spec s0 [] (100000000 + (LIM - 1)) (Timeval.mk 100 0) 10 (Some 1%nat) Hq0 Hn)
    as (s1 & x & E1 & _ & Hq1 & Hh1 & Ht1 & Hb1); [by vm_compute|by vm_compute|by vm_compute|].
  assert (demo = s1) as -> by (unfold demo; fold s0; by rewrite E1).
  assert (tval (DelayQueue.m_lastSyncTime (m_task_queue s1)) = 100000000) as Hl1.
  { clear -E1. vm_compute in E1. injection E1 as <- _. by vm_compute. }
  assert (DelayQueue.bc_at (m_task_queue s1) x = Some 1%nat) as Hbx by (unfold DelayQueue.bc_at; by rewrite Hb1).
  destruct (singleStep_spec (fun c l => l ++ [c]) 5
      (Sys (Timeval.mk 101 0) (Timeval.mk 101 0) (fun _ s _ => (0, s))) s1 []
      [(x, 100000010)] (100000000 + (LIM - 1)) [] ∅)
    as (mfd & sets & tv & _ & _ & _ & H);
    [exact Hq1|rewrite Hh1; exact HandlerSet.models_init|by constructor|by apply (bool_decide_eq_true _)|
     by apply (bool_decide_eq_true _)|rewrite Hl1; split; by vm_compute|by vm_compute|
     rewrite Hl1; by vm_compute|cbn; lia|cbn; lia|].
  cbn [select] in H. destruct H as (q' & E & Hq' & _). exists q'. rewrite Hl1 in E, Hq'. split; [|exact Hq'].
  rewrite E. do 2 f_equal. unfold trig_callbacks. rewrite Ht1. change (DelayQueue.due _ _) with [x].
  unfold alarm_callbacks. cbn [omap list_omap]. by rewrite Hbx.
Defined.

End Scheduler.
