(* ===== verification/EventLoop.v ===== *)
(** * The event loop with callbacks that schedule: [src/hscheduler.cpp], [src/detail/scheduler/*]

    [Scheduler] describes a step whose callbacks leave the scheduler alone.  Here
    they are programs: lists of calls of the scheduler's operations, made while
    the loop runs, as the tasks of a real program schedule themselves again, watch
    a descriptor or set up a trigger.  What is scheduled is conserved from step
    to step: it has been fired, not before its time, or it is still in the queue,
    not yet due.  Left out by [polite]: a descriptor's callback that removes a
    handler, which may be the next one to be called ([HandlerSet.CallHandlers_dangling]).
    A callback is a number here: one whose function is replaced or removed while it
    runs is taken not to use what it has captured any more. *)

From stdpp Require Import gmap sorting.
From S2P Require Import Prelude DList Timeval DelayQueue HandlerSet Scheduler.
#[local] Open Scope Z_scope.

Module EventLoop.
Import Timeval.

(** ** Definitions *)

(** What a callback does to the scheduler. *)
Inductive task_act : Type :=
  | Delay (us : Z) (proc : option nat)      (* ScheduleDelayTask *)
  | Stop                                    (* StopLoop *)
  | Watch (sfd flags : Z) (bc : option nat) (* SetBackgroundHanding *)
  | Unwatch (sfd : Z)                       (* RemoveBackgroundHandling *)
  | NewTrigger (bc : option nat)            (* CreateTrigger *)
  | DropTrigger (tid : Z).                  (* RemoveTrigger *)

(** What the callbacks write down, in the state they share outside the scheduler: each
    its call, and the tasks it has scheduled, with the address of the entry, the deadline
    and the function. *)
Inductive event : Type :=
  | Called (c : Scheduler.callback)
  | Booked (k : DelayQueue.task).

Abbreviation world := (Scheduler.t * list event)%type.

Definition note (ev : event) (w : world) : world := (w.1, w.2 ++ [ev]).

Section programs.
(** The acts of callback [n] of each kind, and the clock it finds. *)
Context (program : Scheduler.callback -> list task_act) (clock : Scheduler.callback -> Scheduler.t -> Timeval.t).

Definition perform (c : Scheduler.callback) (a : task_act) (w : world) : res world :=
  let s := w.1 in
  match a with
  | Delay us proc =>
      let now := clock c s in
      '(s, x) ← Scheduler.ScheduleDelayTask now s us proc;
      Ret (note (Booked (x, tval now + u64 us, proc)) (s, w.2))
  | Stop => Ret (Scheduler.StopLoop s, w.2)
  | Watch sfd flags bc => s ← Scheduler.SetBackgroundHanding s sfd flags bc; Ret (s, w.2)
  | Unwatch sfd => s ← Scheduler.RemoveBackgroundHandling s sfd; Ret (s, w.2)
  | NewTrigger bc => Ret (fst (Scheduler.CreateTrigger s bc), w.2)
  | DropTrigger tid => Ret (Scheduler.RemoveTrigger s tid, w.2)
  end.

Fixpoint perform_all (c : Scheduler.callback) (l : list task_act) (w : world) : res world :=
  match l with [] => Ret w | a :: l => w ← perform c a w; perform_all c l w end.

Definition run_program (c : Scheduler.callback) (w : world) : res world :=
  perform_all c (program c) (note (Called c) w).

End programs.

(** The tasks called and scheduled in a log. *)
Definition called (ev : event) : option nat := match ev with Called (Scheduler.CbDelay b) => Some b | _ => None end.
Definition booked (ev : event) : option DelayQueue.task := match ev with Booked k => Some k | _ => None end.

(** ** Descriptors and triggers whose callbacks add to them *)

Section keeps.
Context {W : Type} (I : W -> Prop).

(** New descriptors come before the one that is called, and the others stay where they are. *)
Lemma grows_suffix (l1 l2 : list (nat * HandlerSet.descr)) l' : HandlerSet.grows (l1 ++ l2) l' ->
  exists l1' l2', l' = l1' ++ l2' /\ map fst l2' = map fst l2.
Proof.
  intros [p E]. exists (take (length p + length l1) l'), (drop (length p + length l1) l'). split; [by rewrite take_drop|].
  rewrite <- skipn_map, E, map_app, app_assoc. apply drop_app_length'. by rewrite length_app, length_map.
Qed.

Lemma call_loop_grows (get : W -> HandlerSet.t) (on : list (nat * HandlerSet.descr) -> W -> Prop) run ready :
  (forall l w, on l w -> HandlerSet.repr (get w) l /\ HandlerSet.in_range l) ->
  (forall bc ev w l, I w -> on l w -> exists w' l', run bc ev w = Ret w' /\ I w' /\ on l' w' /\ HandlerSet.grows l l') ->
  forall l2 l1 w, I w -> on (l1 ++ l2) w ->
  exists w', I w' /\ forall fuel, (length l2 < fuel)%nat ->
    HandlerSet.call_loop get run fuel w (first_of (map fst l2) HandlerSet.m_handlers) ready = Ret w'.
Proof.
  intros Hrepr Hrun l2. remember (length l2) as n eqn:El. revert l2 El.
  induction n as [|n IH]; intros l2 El l1 w HI Hon; destruct (Hrepr _ _ Hon) as [Hr Hin]; (destruct l2 as [|[a d] l2]; [|]); try done.
  - exists w. split; [done|]. by intros [|fuel] Hf; [lia|].
  - destruct (HandlerSet.walk_cons _ _ _ _ _ (HandlerSet.repr_suffix _ _ _ Hr)) as (nd & nt & En & Eld & Ed & Hw).
    assert (nt = first_of (map fst l2) HandlerSet.m_handlers) as -> by (destruct l2 as [|[? ?] ?]; apply Hw).
    pose proof Hin as [_ [Hd _]%Forall_cons]%Forall_app. cbn in Hd. cbn in El. injection El as El.
    set (ev := HandlerSet.events (HandlerSet.m_hander d) ready).
    assert (exists w1 l', (if negb (Z.land ev (HandlerSet.m_flags d) =? 0) then HandlerSet.CallHandler run d ev w else Ret w) = Ret w1 /\
      I w1 /\ on l' w1 /\ HandlerSet.grows ((l1 ++ [(a, d)]) ++ l2) l') as (w1 & l' & E1 & HI1 & Hon1 & Hg).
    { rewrite <- app_assoc. destruct (negb _); [|exists w, (l1 ++ (a, d) :: l2); split_and!; try done; apply HandlerSet.grows_refl].
      unfold HandlerSet.CallHandler. destruct (HandlerSet.m_bc d); [by apply Hrun|].
      exists w, (l1 ++ (a, d) :: l2). split_and!; try done. apply HandlerSet.grows_refl. }
    destruct (grows_suffix _ _ _ Hg) as (l1' & l2' & -> & Em).
    destruct (IH l2' ltac:(rewrite El, <- (length_map fst l2), <- Em; apply length_map) l1' w1 HI1 Hon1) as (w' & HI' & E).
    rewrite Em in E. exists w'.
    split; [done|]. intros [|fuel] Hf; [lia|]. cbn [HandlerSet.call_loop]. rewrite En. cbn [mbind res_bind].
    rewrite Eld. cbn [mbind res_bind]. rewrite Ed, HandlerSet.result_events_ok by done. cbn [mbind res_bind]. fold ev.
    destruct (negb _); [rewrite E1; cbn [mbind res_bind]|injection E1 as <-]; by rewrite E by lia.
Qed.

Lemma CallHandlers_grows (get : W -> HandlerSet.t) (on : list (nat * HandlerSet.descr) -> W -> Prop) run w ready l :
  (forall l w, on l w -> HandlerSet.repr (get w) l /\ HandlerSet.in_range l) ->
  (forall bc ev w l, I w -> on l w -> exists w' l', run bc ev w = Ret w' /\ I w' /\ on l' w' /\ HandlerSet.grows l l') ->
  I w -> on l w -> exists w', I w' /\ forall fuel, (length l < fuel)%nat ->
    HandlerSet.CallHandlers get run fuel w ready = Ret w'.
Proof.
  intros Hrepr Hrun HI Hon. destruct (HandlerSet.repr_walk _ _ (proj1 (Hrepr _ _ Hon))) as (it & E & Hw & _).
  destruct (call_loop_grows get on run ready Hrepr Hrun l [] w HI Hon) as (w' & HI' & Ec).
  exists w'. split; [done|]. intros fuel Hf. unfold HandlerSet.CallHandlers. rewrite E. cbn [mbind res_bind].
  assert (it = first_of (map fst l) HandlerSet.m_handlers) as -> by (destruct l as [|[? ?] ?]; apply Hw). by apply Ec.
Qed.

(** A trigger may be set up while they run. *)
Lemma trigge_loop_keeps (get : W -> TriggerSet.t) run n :
  (forall b w, I w -> exists w', run b w = Ret w' /\ I w') ->
  forall i w, I w -> exists w', I w' /\ TriggerSet.trigge_loop get run n i w = Ret w'.
Proof.
  intros Hrun. induction n as [|n IH]; intros i w HI; cbn [TriggerSet.trigge_loop]; [eauto|].
  destruct (get w !! i) as [[b|]|]; [|by apply IH..].
  destruct (Hrun b w HI) as (w1 & -> & HI1). by apply IH.
Qed.

End keeps.

(** ** One step *)

Section step.
Import DelayQueue.
Context (program : Scheduler.callback -> list task_act) (clock : Scheduler.callback -> Scheduler.t -> Timeval.t).
Implicit Types (s : Scheduler.t) (w : world) (ts : list task).

Definition synced s : Z := tval (m_lastSyncTime (Scheduler.m_task_queue s)).

Abbreviation get := (@Scheduler.get_queue (list event)).
Abbreviation put := (@Scheduler.set_queue (list event)).

(** Up to [hi], callback [c] finds a clock that has not gone back and is not past [hi]. *)
Definition good_clock (hi : Z) (c : Scheduler.callback) : Prop := forall s,
  norm (m_lastSyncTime (Scheduler.m_task_queue s)) -> synced s <= hi ->
  norm (clock c s) /\ synced s <= tval (clock c s) <= hi /\ tval (clock c s) - synced s < 2 ^ 31 * MILLION.

(** The handlers are a finite map whose descriptors fit the sets of [select]. *)
Definition watched_at (l : list (nat * HandlerSet.descr)) s : Prop :=
  exists m, HandlerSet.models (Scheduler.m_handlers s) l m /\ HandlerSet.in_range l.

Definition watched s : Prop := exists l, watched_at l s.

Definition keeps_nodes (a : task_act) : Prop := match a with Unwatch _ => False | _ => True end.

Definition act_range (a : task_act) : Prop :=
  match a with Watch sfd _ _ => sfd < HandlerSet.FD_SETSIZE | _ => True end.

(** No descriptor's callback removes a handler. *)
Definition polite_act (c : Scheduler.callback) (a : task_act) : Prop :=
  act_range a /\ match c with Scheduler.CbBackground _ _ => keeps_nodes a | _ => True end.

Definition polite : Prop := forall c, Forall (polite_act c) (program c).

Lemma polite_range c : polite -> Forall act_range (program c).
Proof. intros H. eapply Forall_impl; [apply H|]. by intros a []. Qed.

Lemma polite_nodes bc ev : polite -> Forall keeps_nodes (program (Scheduler.CbBackground bc ev)).
Proof. intros H. eapply Forall_impl; [apply H|]. by intros a []. Qed.

Lemma models_range h l m : HandlerSet.models h l m ->
  (forall k, is_Some (m !! k) -> 0 <= k < HandlerSet.FD_SETSIZE) -> HandlerSet.in_range l.
Proof. intros Hm Hk. apply Forall_forall. intros [a d] Hin. cbn. eapply Hk. by rewrite (HandlerSet.models_elem _ _ _ _ _ Hm Hin). Qed.

Lemma range_models h l m k : HandlerSet.models h l m -> HandlerSet.in_range l -> is_Some (m !! k) -> 0 <= k < HandlerSet.FD_SETSIZE.
Proof.
  intros Hm Hin [v Hk]. destruct (HandlerSet.models_lookup_elem _ _ _ _ _ Hm Hk) as [a Ha].
  unfold HandlerSet.in_range in Hin. rewrite Forall_forall in Hin. apply (Hin _ Ha).
Qed.

Lemma watched_set l s sfd flags bc : watched_at l s -> sfd < HandlerSet.FD_SETSIZE ->
  exists h' l', Scheduler.SetBackgroundHanding s sfd flags bc = Ret (Scheduler.put_handlers s h') /\
    watched_at l' (Scheduler.put_handlers s h') /\ HandlerSet.grows l l'.
Proof.
  intros (m & Hm & Hin) Hs. unfold Scheduler.SetBackgroundHanding, HandlerSet.AddHandle.
  destruct (decide (sfd <= 0)) as [Hz|Hz].
  - exists (Scheduler.m_handlers s), l. split_and!; [|by exists m|apply HandlerSet.grows_refl].
    unfold HandlerSet.AssignHandler. rewrite (proj2 (Z.leb_le _ _)) by done. by destruct s.
  - destruct (HandlerSet.models_assign_grows _ _ _ sfd flags bc Hm ltac:(lia)) as (h' & l' & -> & Hm' & Hg).
    exists h', l'. split_and!; [done| |done]. eexists. split; [exact Hm'|]. apply (models_range _ _ _ Hm').
    intros k. rewrite lookup_insert_is_Some. intros [->|[_ Hk]]; [lia|exact (range_models _ _ _ _ Hm Hin Hk)].
Qed.

Lemma watched_remove s sfd : watched s ->
  exists h', Scheduler.RemoveBackgroundHandling s sfd = Ret (Scheduler.put_handlers s h') /\
    watched (Scheduler.put_handlers s h').
Proof.
  intros (l & m & Hm & Hin). unfold Scheduler.RemoveBackgroundHandling, HandlerSet.RemoveHandle.
  destruct (HandlerSet.models_remove _ _ _ sfd Hm) as (h' & l' & -> & Hm').
  exists h'. split; [done|]. eexists l', _. split; [exact Hm'|]. apply (models_range _ _ _ Hm').
  intros k. rewrite lookup_delete_is_Some. intros [_ Hk]. exact (range_models _ _ _ _ Hm Hin Hk).
Qed.

(** No delay reaches beyond the horizon of the queue. *)
Definition fits (hi hor : Z) : Prop := forall c us proc, Delay us proc ∈ program c -> hi + u64 us < hor.

(** What the acts of a callback lead to, with delays of [D] at least. *)
Record scheduled (hi hor D : Z) w (extra : gset nat) ts w' ts' (evs : list event) : Prop := {
  sc_tasked : tasked (get w') extra ts' hor;
  sc_log : w'.2 = w.2 ++ evs;
  sc_called : omap called evs = [];
  sc_queue : ts' ≡ₚ ts ++ omap booked evs;
  sc_soon T : Forall (later T) (omap booked evs) -> filter (by_now T) ts' = filter (by_now T) ts;
  sc_delay : Forall (fun k => synced w.1 + D <= k.1.2) (omap booked evs);
  sc_clock : synced w.1 <= synced w'.1 <= hi;
  sc_watched : watched w'.1
}.

Lemma scheduled_same hi hor D w extra ts s' : tasked (get w) extra ts hor -> synced w.1 <= hi ->
  Scheduler.m_task_queue s' = Scheduler.m_task_queue w.1 -> watched s' -> scheduled hi hor D w extra ts (s', w.2) ts [].
Proof.
  intros Hq Hc Eq Hw. constructor; unfold synced, Scheduler.get_queue in *; cbn; rewrite ?Eq, ?app_nil_r; try done; lia.
Qed.

Lemma scheduled_trans hi hor D w extra ts w1 ts1 evs1 w2 ts2 evs2 :
  scheduled hi hor D w extra ts w1 ts1 evs1 -> scheduled hi hor D w1 extra ts1 w2 ts2 evs2 ->
  scheduled hi hor D w extra ts w2 ts2 (evs1 ++ evs2).
Proof.
  intros [R1 L1 E1 P1 S1 D1 C1 H1] [R2 L2 E2 P2 S2 D2 C2 H2]. constructor; rewrite ?omap_app; [done|by rewrite L2, L1, app_assoc|by rewrite E1, E2| | | |lia|done].
  - by rewrite P2, P1, app_assoc.
  - intros T [? ?]%Forall_app. by rewrite S2, S1.
  - apply Forall_app. split; [done|]. eapply Forall_impl; [exact D2|]. cbn. intros. lia.
Qed.

(** A task scheduled by a callback. *)
Lemma schedule_ok hor now s extra ts us proc : tasked (Scheduler.m_task_queue s) extra ts hor -> norm now ->
  synced s <= tval now -> tval now - synced s < 2 ^ 31 * MILLION -> tval now + u64 us < hor ->
  exists q' x, Scheduler.ScheduleDelayTask now s us proc = Ret (Scheduler.put_queue s q', x) /\
    m_lastSyncTime q' = now /\ tasked q' extra (insert_task (x, tval now + u64 us, proc) ts) hor.
Proof.
  intros Ht Hn Hle Hel Hh. destruct (Scheduler.u64_delay us) as [Hdn Hdv]. unfold Scheduler.ScheduleDelayTask.
  set (di := Timeval.mk _ _) in *. pose proof (AddEntry_tasked _ extra ts hor now di proc Ht Hn Hdn Hle Hel) as H. rewrite Hdv in H.
  destruct (new_entry (Scheduler.m_task_queue s) di proc) as [q x]. destruct (H Hh) as (_ & q' & -> & Hl' & Ht').
  by exists q', x.
Qed.

Definition delay_within (hi hor D : Z) (a : task_act) : Prop :=
  match a with Delay us _ => D <= u64 us /\ hi + u64 us < hor | _ => True end.

Lemma perform_ok hi hor D c a w extra ts : good_clock hi c -> tasked (get w) extra ts hor -> synced w.1 <= hi ->
  watched w.1 -> act_range a -> delay_within hi hor D a ->
  exists w' ts' evs, perform clock c a w = Ret w' /\ scheduled hi hor D w extra ts w' ts' evs.
Proof.
  intros Hclk Hq Hc Hw Hr Ha. destruct a as [us proc| |sfd flags bc|sfd|bc|tid]; cbn [perform act_range delay_within] in *.
  - destruct Ha as [HD Hh]. destruct (Hclk w.1 (repr_last _ _ _ (tk_repr _ _ _ _ Hq)) Hc) as (Hn & Hle & Hel).
    destruct (schedule_ok hor (clock c w.1) w.1 extra ts us proc) as (q' & x & -> & Hl' & Ht'); [done|done|lia|done|lia|].
    cbn [mbind res_bind]. set (k := (x, tval (clock c w.1) + u64 us, proc)) in *.
    exists (note (Booked k) (Scheduler.put_queue w.1 q', w.2)), (insert_task k ts), [Booked k].
    split; [reflexivity|]. constructor; cbn; [done|done|done|apply insert_task_perm| | |unfold synced in *; cbn; rewrite Hl'; lia|done].
    + intros T [Hk _]%Forall_cons. by apply insert_task_soon.
    + constructor; [cbn; unfold synced in *; lia|constructor].
  - eexists _, ts, []. split; [done|]. by apply scheduled_same.
  - destruct Hw as [l Hw]. destruct (watched_set l w.1 sfd flags bc Hw Hr) as (h' & l' & -> & Hw' & _).
    eexists _, ts, []. split; [done|]. apply scheduled_same; [done..|by exists l'].
  - destruct (watched_remove w.1 sfd Hw) as (h' & -> & Hw'). eexists _, ts, []. split; [done|]. by apply scheduled_same.
  - unfold Scheduler.CreateTrigger. destruct (TriggerSet.CreateTrigger _ _) as [l i].
    eexists _, ts, []. split; [done|]. by apply scheduled_same.
  - eexists _, ts, []. split; [done|]. by apply scheduled_same.
Qed.

Lemma perform_all_ok hi hor D c l w extra ts : good_clock hi c -> tasked (get w) extra ts hor -> synced w.1 <= hi ->
  watched w.1 -> Forall act_range l -> Forall (delay_within hi hor D) l ->
  exists w' ts' evs, perform_all clock c l w = Ret w' /\ scheduled hi hor D w extra ts w' ts' evs.
Proof.
  intros Hclk. revert w ts. induction l as [|a l IH]; intros w ts Hq Hc Hw Hr Hl; cbn [perform_all].
  - exists (w.1, w.2), ts, []. split; [by destruct w|]. by apply scheduled_same.
  - apply Forall_cons in Hr as [Hra Hr]. apply Forall_cons in Hl as [Ha Hl].
    destruct (perform_ok hi hor D c a w extra ts) as (w1 & ts1 & evs1 & -> & S1); [done..|].
    cbn [mbind res_bind]. destruct (IH w1 ts1) as (w2 & ts2 & evs2 & -> & S2); [apply S1|apply S1|apply S1|done|done|].
    exists w2, ts2, (evs1 ++ evs2). split; [done|]. by eapply scheduled_trans.
Qed.

Lemma perform_grows c a l w w' : keeps_nodes a -> act_range a -> watched_at l w.1 -> perform clock c a w = Ret w' ->
  exists l', watched_at l' w'.1 /\ HandlerSet.grows l l'.
Proof.
  intros Hk Hr Hw. destruct a as [us proc| |sfd flags bc|sfd|bc|tid]; cbn [perform keeps_nodes act_range] in *; try done.
  - unfold Scheduler.ScheduleDelayTask. destruct (new_entry _ _ _) as [q x].
    destruct (AddEntry _ q x); cbn [mbind res_bind]; [|done]. intros [= <-]. exists l. split; [done|apply HandlerSet.grows_refl].
  - intros [= <-]. exists l. split; [done|apply HandlerSet.grows_refl].
  - destruct (watched_set l w.1 sfd flags bc Hw Hr) as (h' & l' & -> & Hw' & Hg). intros [= <-]. by exists l'.
  - unfold Scheduler.CreateTrigger. destruct (TriggerSet.CreateTrigger _ _). intros [= <-]. exists l. split; [done|apply HandlerSet.grows_refl].
  - intros [= <-]. exists l. split; [done|apply HandlerSet.grows_refl].
Qed.

Lemma perform_all_grows c acts l w w' : Forall keeps_nodes acts -> Forall act_range acts -> watched_at l w.1 ->
  perform_all clock c acts w = Ret w' -> exists l', watched_at l' w'.1 /\ HandlerSet.grows l l'.
Proof.
  revert l w. induction acts as [|a acts IH]; intros l w Hk Hr Hw; cbn [perform_all].
  - intros [= <-]. exists l. split; [done|apply HandlerSet.grows_refl].
  - apply Forall_cons in Hk as [Hka Hk]. apply Forall_cons in Hr as [Hra Hr].
    destruct (perform clock c a w) as [w1|] eqn:E; cbn [mbind res_bind]; [|done]. intros H.
    destruct (perform_grows c a l w w1 Hka Hra Hw E) as (l1 & Hw1 & Hg1).
    destruct (IH l1 w1 Hk Hr Hw1 H) as (l' & Hw' & Hg'). exists l'. split; [done|]. by eapply HandlerSet.grows_trans.
Qed.

Abbreviation run := (run_program program clock).

(** Tasks that tasks schedule are due [D] later at least. *)
Definition delayed (D : Z) : Prop := forall b us proc, Delay us proc ∈ program (Scheduler.CbDelay b) -> D <= u64 us.

Lemma delays_within hi hor D c : fits hi hor -> (forall us proc, Delay us proc ∈ program c -> D <= u64 us) ->
  Forall (delay_within hi hor D) (program c).
Proof. intros Hfit HD. apply Forall_forall. intros [us proc| | | | |] Hin; [|done..]. split; [by eapply HD|by eapply Hfit]. Qed.

Lemma alarms_schedule lo hi hor D : (forall b, good_clock hi (Scheduler.CbDelay b)) -> fits hi hor -> delayed D -> polite -> hi - lo < D ->
  schedules get (Scheduler.run_alarm run) (fun w => watched w.1) snd called booked lo hi hor.
Proof.
  intros Hclk Hfit HD Hpol Hlo bc w extra ts Hq Hw Hc. change (last get w) with (synced w.1) in *.
  destruct bc as [b|]; cbn [Scheduler.run_alarm option_list].
  - destruct (perform_all_ok hi hor D (Scheduler.CbDelay b) (program (Scheduler.CbDelay b)) (note (Called (Scheduler.CbDelay b)) w) extra ts)
      as (w' & ts' & evs & E & [R1 L1 E1 P1 S1 D1 C1 H1]); [done|done|cbn; lia|done|by apply polite_range|apply delays_within; [done|apply HD]|].
    cbn [note fst snd] in *. assert (Forall (later hi) (omap booked evs)) as Hl by (eapply Forall_impl; [exact D1|]; unfold later; cbn; intros; lia).
    exists w', ts', (Called (Scheduler.CbDelay b) :: evs). split_and!; try done; cbn; [by rewrite L1, <- app_assoc|by rewrite E1|by apply S1|..]; apply C1.
  - exists w, ts, []. split_and!; try done; cbn; rewrite ?app_nil_r; first [done|apply Hc].
Qed.

(** Between two steps: the queue holds the tasks [ts], none of them due, and the handlers are sound. *)
Record ready (hor : Z) s ts : Prop := {
  rd_queue : tasked (Scheduler.m_task_queue s) ∅ ts hor;
  rd_none_due : Forall (later (synced s)) ts;
  rd_watched : watched s
}.

(** The answers of one step and the time it ends at: the clock does not go back,
    [select] does not fail, and the step is shorter than the delays of the tasks. *)
Record answers (D : Z) (y : Scheduler.sys) (till : Z) : Prop := {
  an_norm : norm (Scheduler.now1 y) /\ norm (Scheduler.now2 y);
  an_order : tval (Scheduler.now1 y) <= tval (Scheduler.now2 y) <= till;
  an_short : till - tval (Scheduler.now1 y) < D;
  an_select n sets tv : 0 <= fst (Scheduler.select y n sets tv)
}.

Definition is_alarm (c : Scheduler.callback) : bool := match c with Scheduler.CbDelay _ => true | _ => false end.

(** The callbacks of descriptors and triggers run before the clock is read again, the tasks' after it. *)
Definition clocks (y : Scheduler.sys) (till : Z) : Prop := forall c,
  good_clock (if is_alarm c then till else tval (Scheduler.now2 y)) c.

(** What a step has done: it ends at [till] at the latest. *)
Record stepped (y : Scheduler.sys) (till : Z) w w' ts ts' (fired : list task) (evs : list event) : Prop := {
  st_log : w'.2 = w.2 ++ evs;
  st_called : omap called evs = omap snd fired;
  st_conserved : ts ++ omap booked evs ≡ₚ fired ++ ts';
  st_due : Forall (by_now till) fired;
  st_clock : tval (Scheduler.now1 y) <= synced w'.1 <= till
}.

(** The part of the world that callbacks of descriptors and triggers may change. *)
Definition during (lo hi hor : Z) ts0 (e0 : list event) w : Prop := exists ts evs,
  tasked (get w) ∅ ts hor /\ w.2 = e0 ++ evs /\ omap called evs = [] /\ ts ≡ₚ ts0 ++ omap booked evs /\
  lo <= synced w.1 <= hi /\ watched w.1.

Lemma during_run lo hi hor ts0 e0 c w : is_alarm c = false -> good_clock hi c -> fits hi hor -> polite -> during lo hi hor ts0 e0 w ->
  exists w', run c w = Ret w' /\ during lo hi hor ts0 e0 w'.
Proof.
  intros Hna Hclk Hfit Hpol (ts & evs & Hq & He & Hcal & Hp & Hc & Hw).
  destruct (perform_all_ok hi hor 0 c (program c) (note (Called c) w) ∅ ts) as (w' & ts' & evs' & E & [R1 L1 E1 P1 S1 D1 C1 H1]);
    [done|done|cbn; lia|done|by apply polite_range| |].
  { apply delays_within; [done|]. intros us proc _. pose proof (wrapU_bound 64 us ltac:(lia)). unfold in_u in *. unfold u64. lia. }
  exists w'. split; [done|]. cbn [note fst snd] in *. exists ts', (evs ++ Called c :: evs'). split_and!; [done| | | |lia|lia|done].
  - by rewrite L1, He, <- !app_assoc.
  - rewrite omap_app, Hcal. cbn. rewrite E1. by destruct c.
  - rewrite P1, Hp, omap_app. cbn. by rewrite app_assoc.
Qed.

(** The two rounds of callbacks before the alarms. *)
Lemma callbacks_during lo hi hor ts0 e0 w0 (r : Z) ready l : (forall c, is_alarm c = false -> good_clock hi c) -> fits hi hor -> polite ->
  watched_at l w0.1 -> during lo hi hor ts0 e0 w0 ->
  exists w1 w2, during lo hi hor ts0 e0 w2 /\
    (forall fuel, (length l < fuel)%nat ->
      (if r >? 0 then HandlerSet.CallHandlers (fun w => Scheduler.m_handlers w.1) (Scheduler.run_bg run) fuel w0 ready else Ret w0) = Ret w1) /\
    TriggerSet.TriggeUpAll (fun w => Scheduler.m_trigers w.1) (Scheduler.run_trig run) w1 = Ret w2.
Proof.
  intros Hclk Hfit Hpol Hw0 HI.
  assert (exists w1, during lo hi hor ts0 e0 w1 /\ forall fuel, (length l < fuel)%nat ->
      (if r >? 0 then HandlerSet.CallHandlers (fun w => Scheduler.m_handlers w.1) (Scheduler.run_bg run) fuel w0 ready else Ret w0) = Ret w1)
    as (w1 & HI1 & E1).
  { destruct (r >? 0); [|by exists w0].
    apply (CallHandlers_grows (during lo hi hor ts0 e0) (fun w => Scheduler.m_handlers w.1) (fun l w => watched_at l w.1)); [| |done|done].
    - intros k w (m & Hm & ?). split; [apply Hm|done].
    - intros bc ev w k Hw Hk. destruct (during_run lo hi hor ts0 e0 (Scheduler.CbBackground bc ev) w) as (w' & E & ?); [auto..|].
      destruct (perform_all_grows (Scheduler.CbBackground bc ev) _ k (note (Called (Scheduler.CbBackground bc ev)) w) w'
        (polite_nodes bc ev Hpol) (polite_range _ Hpol) Hk E) as (l' & ? & ?).
      by exists w', l'. }
  destruct (trigge_loop_keeps (during lo hi hor ts0 e0) (fun w => Scheduler.m_trigers w.1) (Scheduler.run_trig run) 128) with (i := 0%nat) (w := w1)
    as (w2 & HI2 & E2); [|done|].
  { intros b w Hw. apply (during_run lo hi hor ts0 e0 (Scheduler.CbTrigger b) w); auto. }
  exists w1, w2. split_and!; [done|done|]. exact E2.
Qed.

Lemma singleStep_served hor w ts y till D : ready hor w.1 ts -> answers D y till ->
  clocks y till -> fits till hor -> delayed D -> polite -> synced w.1 <= tval (Scheduler.now1 y) -> till < hor ->
  till - synced w.1 < 2 ^ 31 * MILLION ->
  exists w' ts' fired evs N, (forall fuel, (N < fuel)%nat -> Scheduler.singleStep run fuel y w = Ret w') /\
    ready hor w'.1 ts' /\ stepped y till w w' ts ts' fired evs.
Proof.
  intros [Ht Hnd Hw0] [[Hn1 Hn2] Ho Hs Hsel] Hclk Hfit HD Hpol Hle Hh Hel. unfold Scheduler.singleStep.
  pose proof Hw0 as (l & m & Hm & Hin). assert (watched_at l w.1) as Hl0 by (by exists m). pose proof (tk_repr _ _ _ _ Ht) as Hq.
  change (get w) with (Scheduler.m_task_queue w.1).
  destruct (TimeToNextAlarm_ok (Scheduler.m_task_queue w.1) (map fst ts) hor (Scheduler.now1 y) Hq Hn1)
    as (d & q & -> & Hq1 & _ & _ & Hl1 & Hsl); [unfold synced in *; lia|unfold synced in *; lia|].
  assert (m_lastSyncTime q = Scheduler.now1 y) as Hl.
  { rewrite Hl1. fold (synced w.1). destruct ts as [|[[a dl] bc] ts]; cbn [map fst next_dl].
    - by ztest.
    - apply Forall_cons in Hnd as [? _]. unfold later in *. cbn in *. by ztest. }
  clear Hl1. cbn [mbind res_bind Scheduler.m_handlers Scheduler.put_queue Scheduler.set_queue fst].
  destruct (HandlerSet.SetupHandleSet_asks _ _ _ Hm Hin) as (mfd & sets & -> & _). cbn [mbind res_bind].
  specialize (Hsel (mfd + 1) sets (Scheduler.select_timeout d)).
  destruct (Scheduler.select y (mfd + 1) sets (Scheduler.select_timeout d)) as [r ready_fds]. cbn [fst] in Hsel.
  rewrite (proj2 (Z.ltb_ge r 0)) by done.
  set (w0 := put w q).
  assert (synced w0.1 = tval (Scheduler.now1 y)) as Hs0 by (unfold synced; cbn; by rewrite Hl).
  destruct (callbacks_during (tval (Scheduler.now1 y)) (tval (Scheduler.now2 y)) hor ts w.2 w0 r ready_fds l)
    as (w1 & w2 & HI & E1 & E2); try done.
  { intros c Hc. specialize (Hclk c). by rewrite Hc in Hclk. }
  { intros c us proc Hc. specialize (Hfit c us proc Hc). lia. }
  { exists ts, []. split_and!; [|by rewrite app_nil_r|done|by rewrite app_nil_r|lia|lia|done].
    by eapply tasked_same. }
  destruct HI as (ts2 & evs1 & Ht2 & He2 & Hcal2 & Hp2 & Hc2 & Hw2).
  destruct (HandleAlarm_served get put (Scheduler.run_alarm run) (fun w => watched w.1) snd called booked
    ltac:(done) ltac:(done) ltac:(done) (tval (Scheduler.now1 y)) till hor ∅ w2 ts2 (Scheduler.now2 y))
    as (w' & ts' & evs2 & N & E3 & Ht' & Hw' & [L C Lf Nd A K] & _);
    [eapply alarms_schedule; [intros b; apply (Hclk (Scheduler.CbDelay b))|done..]|lia|done|done|done
    |change (last get w2) with (synced w2.1); lia|lia|change (last get w2) with (synced w2.1); lia|].
  change (last get w') with (synced w'.1) in *. change (last get w2) with (synced w2.1) in *.
  exists w', ts', (filter (by_now (synced w'.1)) ts2), (evs1 ++ evs2), (length l + N)%nat.
  split_and!.
  - intros fuel Hf. eapply bind_Ret; [apply E1; lia|]. cbv beta. eapply bind_Ret; [exact E2|]. cbv beta. apply E3. lia.
  - by constructor.
  - constructor; rewrite ?omap_app; [by rewrite L, He2, app_assoc|by rewrite Hcal2, C| | |lia].
    + rewrite Lf, (app_assoc _ (filter (later _) _)), <- by_now_split, app_assoc. by rewrite <- Hp2.
    + apply Forall_forall. intros k [Hk _]%list_elem_of_filter. unfold by_now in *. lia.
Qed.

(** ** The loop *)

(** Steps with the times they end at, from [t0] to [t1], one after the other. *)
Fixpoint steps (D t0 : Z) (ys : list (Scheduler.sys * Z)) (t1 : Z) : Prop :=
  match ys with
  | [] => t0 <= t1
  | (y, till) :: ys => t0 <= tval (Scheduler.now1 y) /\ answers D y till /\ clocks y till /\ steps D till ys t1
  end.

Lemma steps_le D t0 ys t1 : steps D t0 ys t1 -> t0 <= t1.
Proof.
  revert t0. induction ys as [|[y till] ys IH]; cbn; intros t0; [done|].
  intros (? & [_ ? _ _] & _ & ?%IH). lia.
Qed.


End step.

(** ** A task that schedules itself again each second, and watches a descriptor *)

Definition periodic (c : Scheduler.callback) : list task_act :=
  match c with
  | Scheduler.CbDelay 1 => [Delay 1000000 (Some 1%nat); Watch 5 HandlerSet.HIT_READ (Some 2%nat)]
  | Scheduler.CbBackground 2 _ => [NewTrigger (Some 3%nat); Watch 6 HandlerSet.HIT_READ (Some 4%nat)]
  | _ => []
  end.

(** Callbacks that take no time. *)
Definition frozen (_ : Scheduler.callback) (s : Scheduler.t) : Timeval.t := DelayQueue.m_lastSyncTime (Scheduler.m_task_queue s).

Definition at_time (sec : Z) : Scheduler.sys * Z :=
  (Scheduler.Sys (Timeval.mk sec 0) (Timeval.mk sec 0) (fun _ s _ => (0, s)), sec * 1000000).

Definition begin : res Scheduler.t :=
  '(s, _) ← perform_all frozen (Scheduler.CbDelay 0) [Delay 1000000 (Some 1%nat)] (Scheduler.init (Timeval.mk 100 0), []); Ret s.

(** What the callbacks have written down after each of [ys], by one run of the loop for each of its beginnings. *)
Definition logs_after (ys : list Scheduler.sys) : list (res (list event)) :=
  map (fun n => s ← begin; '(_, l) ← Scheduler.DoEventLoop (run_program periodic frozen) 3 (take n ys) (s, []); Ret l) (seq 1 (length ys)).

(** It is fired once in each step from its first deadline on. *)
Example fired_each_second :
  map (fun r => l ← r; Ret (length (omap called l))) (logs_after (map fst (map at_time [100; 101; 102; 103])))
  = [Ret 0%nat; Ret 1%nat; Ret 2%nat; Ret 3%nat].
Proof. vm_compute. reflexivity. Qed.

(** [select] answers what it is asked to watch. *)
Definition readable (sec : Z) : Scheduler.sys :=
  Scheduler.Sys (Timeval.mk sec 0) (Timeval.mk sec 0) (fun _ s _ => (Z.of_nat (size (HandlerSet.rfds s)), s)).

Definition other_call (ev : event) : option Scheduler.callback :=
  match ev with Called (Scheduler.CbDelay _) | Booked _ => None | Called c => Some c end.

(** The descriptor the task watches is served in the next step, and the trigger its
    callback sets up runs in that step; the descriptor it watches in turn is served
    a step later, before it. *)
Example watched_and_triggered :
  (s ← begin; '(_, l) ← Scheduler.DoEventLoop (run_program periodic frozen) 3 (map readable [100; 101; 102; 103]) (s, []);
   Ret (omap (M:=list) other_call l)) = Ret [Scheduler.CbBackground 2 1; Scheduler.CbTrigger 3;
         Scheduler.CbBackground 4 1; Scheduler.CbBackground 2 1; Scheduler.CbTrigger 3; Scheduler.CbTrigger 3].
Proof. vm_compute. reflexivity. Qed.

Lemma frozen_good hi c : good_clock frozen hi c.
Proof. intros s Hn Hs. unfold frozen, synced in *. rewrite Z.sub_diag. by split_and!. Qed.

Lemma periodic_acts c us proc : Delay us proc ∈ periodic c -> us = 1000000.
Proof. unfold periodic. intros H. repeat case_match; set_solver. Qed.

Lemma periodic_polite : polite periodic.
Proof.
  intros [[|[|[]]] ev|b|[|[]]]; cbn; repeat constructor; done.
Qed.

Lemma begin_ready : exists s x, begin = Ret s /\ ready (100000000 + (LIM - 1)) s [(x, 101000000, Some 1%nat)] /\ synced s = 100000000.
Proof.
  set (now := Timeval.mk 100 0). assert (norm now) as Hn by (by apply (bool_decide_eq_true _)).
  destruct (schedule_ok (100000000 + (LIM - 1)) now (Scheduler.init now) ∅ [] 1000000 (Some 1%nat) (DelayQueue.init_tasked now Hn) Hn)
    as (q' & x & E & Hl & Ht); [by vm_compute|by vm_compute|by vm_compute|].
  assert (synced (Scheduler.put_queue (Scheduler.init now) q') = 100000000) as Es by (unfold synced; cbn; by rewrite Hl).
  exists (Scheduler.put_queue (Scheduler.init now) q'), x. split_and!; [|constructor|done].
  - unfold begin. cbn [perform_all perform fst snd]. fold now.
    change (frozen (Scheduler.CbDelay 0) (Scheduler.init now)) with now. by rewrite E.
  - exact Ht.
  - rewrite Es. constructor; [unfold DelayQueue.later; cbn; lia|constructor].
  - exists [], ∅. split; [apply HandlerSet.models_init|constructor].
Qed.

Lemma at_time_answers sec : norm (Timeval.mk sec 0) -> answers 1000000 (at_time sec).1 (at_time sec).2.
Proof. intros Hn. constructor; cbn; [done|unfold tval, MILLION; cbn; lia|unfold tval, MILLION; cbn; lia|done]. Qed.

Lemma at_time_step t0 t1 sec secs : norm (Timeval.mk sec 0) -> t0 <= sec * 1000000 ->
  steps frozen 1000000 (sec * 1000000) (map at_time secs) t1 -> steps frozen 1000000 t0 (map at_time (sec :: secs)) t1.
Proof.
  intros Hn Ht Hs. cbn [map steps]. split_and!; [|by apply (at_time_answers sec)|intros c; apply frozen_good|exact Hs].
  cbn. unfold tval, MILLION. cbn. lia.
Qed.

Lemma four_steps : steps frozen 1000000 100000000 (map at_time [100; 101; 102; 103]) 103000000.
Proof. repeat (apply at_time_step; [by apply (bool_decide_eq_true _)|lia|]). cbn. lia. Qed.


(** ** Tasks that schedule themselves without a delay *)

Definition restless (c : Scheduler.callback) : list task_act :=
  match c with Scheduler.CbDelay b => [Delay 0 (Some b)] | _ => [] end.

Section starve.
Import DelayQueue.
Implicit Types (w : world) (ts : list task).

Abbreviation get := (@Scheduler.get_queue (list event)).
Abbreviation put := (@Scheduler.set_queue (list event)).
Abbreviation restless_alarm := (Scheduler.run_alarm (run_program restless frozen)).

(** Some entry is due and has a callback. *)
Definition busy w ts : Prop := exists a d b, (a, d, Some b) ∈ ts /\ d <= synced w.1.

(** One alarm of a busy queue: the callback runs, and the queue is busy again. *)
Lemma restless_called hor w q1 a bc d ts : tasked q1 {[a]} ts hor -> m_lastSyncTime q1 = m_lastSyncTime (get w) ->
  synced w.1 < hor -> busy w ((a, d, bc) :: ts) ->
  exists w1 ts1, restless_alarm bc (put w q1) = Ret w1 /\ tasked (get w1) {[a]} ts1 hor /\
    synced w1.1 = synced w.1 /\ busy w1 ts1.
Proof.
  intros Ht Hl Hh (a' & d' & b & Hin & Hd). assert (synced (put w q1).1 = synced w.1) as Es by (unfold synced; cbn; by rewrite Hl).
  destruct bc as [b0|]; cbn [Scheduler.run_alarm].
  - unfold run_program. cbn [restless perform_all perform note fst snd].
    change (frozen (Scheduler.CbDelay b0) (put w q1).1) with (m_lastSyncTime q1).
    destruct (schedule_ok hor (m_lastSyncTime q1) (put w q1).1 {[a]} ts 0 (Some b0)) as (q' & x & -> & Hl' & Ht');
      [done|apply (repr_last _ _ _ (tk_repr _ _ _ _ Ht))|unfold synced; cbn; lia|unfold synced; cbn; by rewrite Z.sub_diag| |].
    { change (u64 0) with 0. rewrite Hl. change (tval (m_lastSyncTime (get w))) with (synced w.1). lia. }
    cbn [mbind res_bind]. eexists _, _. split; [done|]. cbn [note fst snd].
    assert (tval (m_lastSyncTime q') = synced w.1) as Eq by (rewrite Hl', Hl; done). split_and!; [exact Ht'|exact Eq|].
    exists x, (tval (m_lastSyncTime q1) + u64 0), b0. split.
    + rewrite insert_task_perm. set_solver.
    + change (synced _) with (tval (m_lastSyncTime q')). change (u64 0) with 0. rewrite Hl'. lia.
  - exists (put w q1), ts. split_and!; [done|done|done|]. exists a', d', b. rewrite Es. split; [|done].
    by apply elem_of_cons in Hin as [?|?].
Qed.

Lemma restless_loop hor fuel : forall w ts, tasked (get w) ∅ ts hor -> synced w.1 < hor -> busy w ts ->
  alarm_loop get put restless_alarm fuel w = Throw Diverge.
Proof.
  induction fuel as [|fuel IH]; intros w ts Ht Hh Hb; [done|]. cbn [alarm_loop].
  pose proof (tk_repr _ _ _ _ Ht) as Hq.
  destruct (head_delta_spec _ _ _ Hq) as (dl & -> & Hnd & Hv). change (tval (m_lastSyncTime (get w))) with (synced w.1) in Hv. cbn [mbind res_bind].
  rewrite eqb_zero by done. pose proof Hb as (a & d & b & Hin & Hd).
  destruct ts as [|[[a0 d0] bc0] ts]; [by apply elem_of_nil in Hin|].
  assert (d0 <= d) as Hd0.
  { apply elem_of_cons in Hin as [[= -> ->]|Hin]; [lia|]. pose proof (task_sorted _ _ _ _ _ Hq eq_refl) as Hs.
    rewrite Forall_forall in Hs. apply (Hs _ Hin). }
  cbn [map fst] in Hv. ztest. rewrite (head_first _ _ _ Hq). cbn [map fst first_of hd mbind res_bind].
  destruct (take_head _ _ _ _ _ _ _ Ht) as (q1 & n & -> & En & Eb & Ht1 & Hl1). cbn [mbind res_bind]. rewrite En. cbn [mbind res_bind]. rewrite Eb.
  rewrite (right_id_L ∅ (∪)) in Ht1.
  destruct (restless_called hor w q1 a0 bc0 d0 ts Ht1 Hl1 Hh Hb) as (w1 & ts1 & -> & Ht2 & Es & Hb1). cbn [mbind res_bind].
  destruct (drop_node (get w1) ∅ a0 ts1 hor) as [Ha Ht3]; [by rewrite (right_id_L ∅ (∪))|set_solver|].
  destruct (load_ok _ _ Ha) as (n1 & -> & _). cbn [mbind res_bind].
  eapply IH; [exact Ht3|change (synced w1.1 < hor); lia|exact Hb1].
Qed.

(** A task that is due and schedules itself without a delay keeps [HandleAlarm]
    for ever: the next step, with the descriptors and the triggers, never
    begins. *)
Theorem zero_delay_starves fuel hor w ts now a d b : tasked (get w) ∅ ts hor ->
  norm now -> synced w.1 <= tval now < hor -> tval now - synced w.1 < 2 ^ 31 * MILLION ->
  (a, d, Some b) ∈ ts -> d <= alarm_time (synced w.1) (tval now) (map fst ts) ->
  HandleAlarm get put restless_alarm fuel now w = Throw Diverge.
Proof.
  intros Ht Hn Hc Hel Hin Hd. unfold HandleAlarm. pose proof (tk_repr _ _ _ _ Ht) as Hq.
  destruct (head_delta_spec _ _ _ Hq) as (dl & -> & Hnd & Hv). change (tval (m_lastSyncTime (get w))) with (synced w.1) in Hv. cbn [mbind res_bind].
  unfold neqb. rewrite eqb_zero by done. destruct ts as [|[[a0 d0] bc0] ts]; [by apply elem_of_nil in Hin|]. cbn [map fst] in *. cbn in Hd.
  destruct (decide (tval dl = 0)) as [Hz|Hz]; ztest; cbn [negb mbind res_bind].
  - apply (restless_loop hor _ _ ((a0, d0, bc0) :: ts)); [exact Ht|change (synced w.1 < hor); lia|].
    exists a, d, b. split; [done|]. revert Hd. ztest. done.
  - destruct (synchronize_spec (get w) _ hor now Hq Hn) as (q1 & -> & Hq1 & Hl1 & Hsl & _); [exact Hc|exact Hel|].
    cbn [mbind res_bind]. assert (synced (put w q1).1 = tval now) as Es by (unfold synced; cbn; by rewrite Hl1).
    apply (restless_loop hor _ _ ((a0, d0, bc0) :: ts)); [|lia|exists a, d, b; split; [done|]; rewrite Es; revert Hd; by ztest].
    by eapply tasked_same.
Qed.

End starve.

End EventLoop.
