(* ===== verification/FastQueue.v ===== *)
(** * The lock-free queue of [src/hsinglefastqueue.h]

    One producer calls [Push], one consumer calls [Get].  A slot of [m_data] is
    [Some v] while an object with value [v] lives in it.  First the methods as
    they run alone, then [Push] and [Get] as the steps other threads can see:
    each load and store of an index is one step, and so are the construction in
    and the move out of a slot.  The acquire/release pairs order the slot
    accesses, so interleaving the steps is what the two threads can do. *)

From S2P Require Import Prelude.

Module FastQueue.

Section queue.
Context {V : Type} (trivially_destructible : bool).

(** ** Definitions *)

Record t : Type := mk {
  m_size : Z;
  m_data : list (option V);
  m_read_index : Z;
  m_write_index : Z
}.

Definition make (size : Z) : t := mk size (replicate (Z.to_nat size) None) 0 0.

Definition set_data (q : t) (d : list (option V)) : t :=
  mk (m_size q) d (m_read_index q) (m_write_index q).
Definition set_read (q : t) (i : Z) : t := mk (m_size q) (m_data q) i (m_write_index q).
Definition set_write (q : t) (i : Z) : t := mk (m_size q) (m_data q) (m_read_index q) i.

(** The position after [i] in the ring. *)
Definition next_pos (size i : Z) : Z := let n := u32 (i + 1) in if n =? size then 0 else n.

(** Placement new; destructor; move out of a slot. *)
Definition construct (q : t) (i : Z) (v : V) : t := set_data q (<[Z.to_nat i := Some v]> (m_data q)).

Definition destroy_at (q : t) (i : Z) : res t :=
  if trivially_destructible then Ret q
  else match m_data q !! Z.to_nat i with
       | Some (Some _) => Ret (set_data q (<[Z.to_nat i := None]> (m_data q)))
       | _ => Throw UB
       end.

Definition value_at (q : t) (i : Z) : res V :=
  match m_data q !! Z.to_nat i with Some (Some v) => Ret v | _ => Throw UB end.

Definition Push (q : t) (v : V) : t * bool :=
  let nx := next_pos (m_size q) (m_write_index q) in
  if negb (nx =? m_read_index q) then (set_write (construct q nx v) nx, true) else (q, false).

Definition Get (q : t) : res (t * option V) :=
  let cur := m_read_index q in
  if cur =? m_write_index q then Ret (q, None)
  else
    let nx := next_pos (m_size q) cur in
    v ← value_at q nx;
    q ← destroy_at q cur;
    Ret (set_read q nx, Some v).

(** The slot [FrontPtr] points to. *)
Definition FrontPtr (q : t) : option Z :=
  if m_read_index q =? m_write_index q then None else Some (m_read_index q).

Definition popFront (q : t) : res t :=
  let cur := m_read_index q in
  if cur =? m_write_index q then Throw Terminate
  else q' ← destroy_at q cur; Ret (set_read q' (next_pos (m_size q) cur)).

Definition isEmpty (q : t) : bool := m_read_index q =? m_write_index q.

Definition isFull (q : t) : bool := next_pos (m_size q) (m_write_index q) =? m_read_index q.

(** [HN res = write - read]: unsigned subtraction, then [int]. *)
Definition GuestSize (q : t) : Z :=
  let res := s32 (u32 (m_write_index q - m_read_index q)) in
  u64 (if res <? 0 then s32 (u32 (u32 res + m_size q)) else res).

Definition Capacity (q : t) : Z := u32 (m_size q - 1).

(** [~HSingleFastQueue] *)
Fixpoint destruct_loop (fuel : nat) (q : t) (read_index : Z) : res t :=
  match fuel with
  | O => Throw Diverge
  | S f =>
    if read_index =? m_write_index q then Ret q
    else q ← destroy_at q read_index;
         destruct_loop f q (if read_index + 1 =? m_size q then 0 else read_index + 1)
  end.

(** *** Steps *)

Inductive ppc : Type :=
  | PIdle
  | PLoaded (v : V) (nx : Z)        (* write index read *)
  | PRoom (v : V) (nx : Z)          (* read index read, not full *)
  | PBuilt (v : V) (nx : Z).        (* slot constructed *)

Inductive cpc : Type :=
  | CIdle
  | CLoaded (cur : Z)               (* read index read *)
  | CSome (cur nx : Z)              (* write index read, not empty *)
  | CMoved (nx : Z) (v : V).        (* value moved out, old slot destroyed *)

(** The queue, the two threads, and what they have pushed and got so far. *)
Record st : Type := St { s_q : t; s_p : ppc; s_c : cpc; s_pushed : list V; s_got : list V }.

(** A step of the producer, who wants to push [v] next. *)
Definition pstep (v : V) (s : st) : st :=
  let q := s_q s in
  match s_p s with
  | PIdle => St q (PLoaded v (next_pos (m_size q) (m_write_index q))) (s_c s) (s_pushed s) (s_got s)
  | PLoaded v nx =>
    St q (if negb (nx =? m_read_index q) then PRoom v nx else PIdle) (s_c s) (s_pushed s) (s_got s)
  | PRoom v nx => St (construct q nx v) (PBuilt v nx) (s_c s) (s_pushed s) (s_got s)
  | PBuilt v nx => St (set_write q nx) PIdle (s_c s) (s_pushed s ++ [v]) (s_got s)
  end.

Definition cstep (s : st) : res st :=
  let q := s_q s in
  match s_c s with
  | CIdle => Ret (St q (s_p s) (CLoaded (m_read_index q)) (s_pushed s) (s_got s))
  | CLoaded cur =>
    Ret (St q (s_p s) (if cur =? m_write_index q then CIdle else CSome cur (next_pos (m_size q) cur))
           (s_pushed s) (s_got s))
  | CSome cur nx =>
    v ← value_at q nx;
    q ← destroy_at q cur;
    Ret (St q (s_p s) (CMoved nx v) (s_pushed s) (s_got s))
  | CMoved nx v => Ret (St (set_read q nx) (s_p s) CIdle (s_pushed s) (s_got s ++ [v]))
  end.

Inductive step : st -> res st -> Prop :=
  | step_p s v : step s (Ret (pstep v s))
  | step_c s : step s (cstep s).

Inductive reach (s0 : st) : res st -> Prop :=
  | reach_refl : reach s0 (Ret s0)
  | reach_step s r : reach s0 (Ret s) -> step s r -> reach s0 r.

Definition start (size : Z) : st := St (make size) PIdle CIdle [] [].

(** ** The ring *)

(** [n] positions further. *)
Definition adv (size i n : Z) : Z := (i + n) mod size.

Lemma next_adv size i : 2 <= size < 2 ^ 32 -> 0 <= i < size -> next_pos size i = adv size i 1.
Proof.
  intros Hs Hi. unfold next_pos, adv. cbv zeta. rewrite u32_id by lia.
  destruct (decide (i + 1 = size)) as [E|E]; ztest.
  - rewrite E. by rewrite Z.mod_same by lia.
  - by rewrite Z.mod_small by lia.
Qed.

Lemma adv_adv size i n m : 0 < size -> adv size (adv size i n) m = adv size i (n + m).
Proof. intros. unfold adv. rewrite Z.add_mod_idemp_l by lia. f_equal. lia. Qed.

Lemma adv_bound size i n : 0 < size -> 0 <= adv size i n < size.
Proof. intros. apply Z.mod_pos_bound. lia. Qed.

Lemma adv_0 size i : 0 <= i < size -> adv size i 0 = i.
Proof. intros. unfold adv. rewrite Z.add_0_r. by apply Z.mod_small. Qed.

Lemma adv_inj size i n m :
  0 < size -> 0 <= n < size -> 0 <= m < size -> adv size i n = adv size i m -> n = m.
Proof.
  unfold adv. intros Hs Hn Hm E. pose proof (Z.div_mod (i + n) size ltac:(lia)).
  pose proof (Z.div_mod (i + m) size ltac:(lia)). rewrite E in *.
  assert (size * ((i + n) / size - (i + m) / size) = n - m) by lia.
  destruct (decide ((i + n) / size = (i + m) / size)); nia.
Qed.

(** The values [vs] lie in the slots behind position [r]. *)
Definition holds (size : Z) (d : list (option V)) (r : Z) (vs : list V) : Prop :=
  forall k v, vs !! k = Some v -> d !! Z.to_nat (adv size r (Z.of_nat k + 1)) = Some (Some v).

(** The queue object is in order and contains [vs]. *)
Record contains (q : t) (vs : list V) : Prop := {
  c_size : 2 <= m_size q < 2 ^ 32;
  c_data : length (m_data q) = Z.to_nat (m_size q);
  c_read : 0 <= m_read_index q < m_size q;
  c_write : m_write_index q = adv (m_size q) (m_read_index q) (zlen vs);
  c_len : zlen vs < m_size q;
  c_holds : holds (m_size q) (m_data q) (m_read_index q) vs
}.

Lemma contains_make size : 2 <= size < 2 ^ 32 -> contains (make size) [].
Proof.
  intros H. split; cbn; try done; try lia.
  - apply length_replicate.
  - unfold zlen. cbn. lia.
Qed.

Lemma nx_write q vs :
  contains q vs -> next_pos (m_size q) (m_write_index q) = adv (m_size q) (m_read_index q) (zlen vs + 1).
Proof.
  intros [Hs _ Hr Hw _ _]. rewrite next_adv by (rewrite ?Hw; (apply adv_bound; lia) || lia).
  by rewrite Hw, adv_adv by lia.
Qed.

Lemma nx_read q vs : contains q vs -> next_pos (m_size q) (m_read_index q) = adv (m_size q) (m_read_index q) 1.
Proof. intros [Hs _ Hr _ _ _]. by apply next_adv. Qed.

Lemma full_iff q vs :
  contains q vs -> (next_pos (m_size q) (m_write_index q) =? m_read_index q) = (zlen vs + 1 =? m_size q).
Proof.
  intros Hc. rewrite (nx_write _ _ Hc). destruct Hc as [Hs _ Hr _ Hl _].
  pose proof (zlen_nonneg vs). destruct (decide (zlen vs + 1 = m_size q)) as [E|E].
  - rewrite E. ztest. apply Z.eqb_eq. unfold adv.
    replace (m_read_index q + m_size q) with (m_read_index q + 1 * m_size q) by lia.
    rewrite Z.mod_add by lia. by apply Z.mod_small.
  - ztest. apply Z.eqb_neq. intros Ea. rewrite <- (adv_0 (m_size q) (m_read_index q)) in Ea at 2 by lia.
    apply adv_inj in Ea; lia.
Qed.

Lemma empty_iff q vs : contains q vs -> (m_read_index q =? m_write_index q) = (zlen vs =? 0).
Proof.
  intros [Hs _ Hr Hw Hl _]. rewrite Hw. pose proof (zlen_nonneg vs).
  destruct (decide (zlen vs = 0)) as [E|E]; ztest.
  - rewrite E, adv_0 by lia. apply Z.eqb_refl.
  - apply Z.eqb_neq. intros Ea. rewrite <- (adv_0 (m_size q) (m_read_index q)) in Ea at 1 by lia.
    apply adv_inj in Ea; lia.
Qed.

(** Writing the slot behind the last one disturbs nothing. *)
Lemma holds_construct size d r vs v :
  2 <= size -> length d = Z.to_nat size -> 0 <= r < size -> zlen vs + 1 < size -> holds size d r vs ->
  holds size (<[Z.to_nat (adv size r (zlen vs + 1)) := Some v]> d) r (vs ++ [v]).
Proof.
  intros Hs Hd Hr Hl Hh k w Hk. pose proof (adv_bound size r (Z.of_nat k + 1) ltac:(lia)).
  pose proof (adv_bound size r (zlen vs + 1) ltac:(lia)).
  apply lookup_app_Some in Hk as [Hk|[Hge Hk]].
  - pose proof (lookup_lt_Some _ _ _ Hk). rewrite list_lookup_insert_ne; [by apply Hh|].
    intros E. assert (adv size r (zlen vs + 1) = adv size r (Z.of_nat k + 1)) as E' by lia.
    apply adv_inj in E'; unfold zlen in *; lia.
  - apply list_lookup_singleton_Some in Hk as [Hk ->]. replace (Z.of_nat k) with (zlen vs) by (unfold zlen; lia).
    apply list_lookup_insert_eq. lia.
Qed.

Lemma holds_tail size d r v vs :
  2 <= size -> 0 <= r < size -> holds size d r (v :: vs) -> holds size d (adv size r 1) vs.
Proof.
  intros Hs Hr Hh k w Hk. rewrite adv_adv by lia. specialize (Hh (S k) w Hk).
  by replace (1 + (Z.of_nat k + 1)) with (Z.of_nat (S k) + 1) by lia.
Qed.

Lemma value_at_head q v vs :
  contains q (v :: vs) -> value_at q (adv (m_size q) (m_read_index q) 1) = Ret v.
Proof.
  intros Hc. unfold value_at. pose proof (c_holds _ _ Hc 0%nat v eq_refl) as H.
  change (Z.of_nat 0 + 1) with 1 in H. by rewrite H.
Qed.

(** The consumer's index moves behind the first value. *)
Lemma contains_read q v vs :
  contains q (v :: vs) -> contains (set_read q (adv (m_size q) (m_read_index q) 1)) vs.
Proof.
  intros [Hs Hd Hr Hw Hl Hh]. rewrite zlen_cons in *. pose proof (zlen_nonneg vs).
  split; cbn; try done; try lia.
  - apply adv_bound. lia.
  - rewrite adv_adv by lia. done.
  - apply (holds_tail _ _ _ v); [lia|lia|done].
Qed.

Lemma contains_write q vs v (q' := construct q (adv (m_size q) (m_read_index q) (zlen vs + 1)) v) :
  contains q vs -> zlen vs + 1 < m_size q -> contains q' vs.
Proof.
  intros [Hs Hd Hr Hw Hl Hh] Hl'. split; cbn; try done; [by rewrite length_insert|].
  assert (2 <= m_size q) as Hs2 by lia. pose proof (holds_construct _ _ _ _ v Hs2 Hd Hr Hl' Hh) as H'.
  intros k w Hk. apply H'. by apply lookup_app_l_Some.
Qed.

(** ** One thread *)

Lemma Push_ok q vs v :
  contains q vs ->
  exists q', Push q v = (q', negb (zlen vs + 1 =? m_size q)) /\
    contains q' (if zlen vs + 1 =? m_size q then vs else vs ++ [v]) /\ m_size q' = m_size q.
Proof.
  intros Hc. unfold Push. rewrite (full_iff _ _ Hc). destruct (zlen vs + 1 =? m_size q) eqn:E;
    bool_to_prop; cbn [negb]; [by exists q|]. pose proof Hc as [Hs Hd Hr Hw Hl Hh].
  eexists. split; [done|]. split; [|done]. rewrite (nx_write _ _ Hc).
  split; cbn; try done; [by rewrite length_insert|by rewrite zlen_app|rewrite zlen_app; cbn; unfold zlen in *; cbn; lia|].
  apply holds_construct; lia || done.
Qed.

Lemma Get_ok q vs :
  trivially_destructible = true -> contains q vs ->
  exists q', Get q = Ret (q', head vs) /\ contains q' (tail vs) /\ m_size q' = m_size q.
Proof.
  intros Ht Hc. unfold Get. rewrite (empty_iff _ _ Hc). destruct vs as [|v vs].
  - by exists q.
  - rewrite zlen_cons. pose proof (zlen_nonneg vs). ztest. rewrite (nx_read _ _ Hc).
    rewrite (value_at_head _ _ _ Hc). cbn [mbind res_bind]. unfold destroy_at. rewrite Ht.
    cbn [mbind res_bind]. eexists. split; [done|]. split; [by eapply contains_read|done].
Qed.

(** ** Two threads *)

(** What holds between the steps: [vs] is what the consumer can still get. *)
Record inv (s : st) (vs : list V) : Prop := {
  i_contains : contains (s_q s) vs;
  i_fifo : s_pushed s = s_got s ++ vs;
  i_p : match s_p s with
        | PIdle => True
        | PLoaded v nx => nx = adv (m_size (s_q s)) (m_read_index (s_q s)) (zlen vs + 1)
        | PRoom v nx => nx = adv (m_size (s_q s)) (m_read_index (s_q s)) (zlen vs + 1) /\
                        zlen vs + 1 < m_size (s_q s)
        | PBuilt v nx => nx = adv (m_size (s_q s)) (m_read_index (s_q s)) (zlen vs + 1) /\
                         zlen vs + 1 < m_size (s_q s) /\
                         m_data (s_q s) !! Z.to_nat nx = Some (Some v)
        end;
  i_c : match s_c s with
        | CIdle => True
        | CLoaded cur => cur = m_read_index (s_q s)
        | CSome cur nx => cur = m_read_index (s_q s) /\ vs <> [] /\
                          nx = adv (m_size (s_q s)) (m_read_index (s_q s)) 1
        | CMoved nx v => exists vs', vs = v :: vs' /\
                          nx = adv (m_size (s_q s)) (m_read_index (s_q s)) 1
        end
}.

Lemma pstep_inv s vs v : inv s vs -> exists vs', inv (pstep v s) vs' /\ m_size (s_q (pstep v s)) = m_size (s_q s).
Proof.
  intros [Hc Hf Hp Hcc]. unfold pstep. destruct (s_p s) as [|w nx|w nx|w nx] eqn:Ep.
  - exists vs. split; [|done]. split; cbn; try done. by rewrite (nx_write _ _ Hc).
  - exists vs. split; [|done]. split; cbn; try done.
    assert ((nx =? m_read_index (s_q s)) = (zlen vs + 1 =? m_size (s_q s))) as ->
      by (by rewrite Hp, <- (nx_write _ _ Hc), (full_iff _ _ Hc)).
    destruct (zlen vs + 1 =? m_size (s_q s)) eqn:E; bool_to_prop; cbn [negb]; [done|].
    split; [done|]. pose proof (c_len _ _ Hc). lia.
  - destruct Hp as [-> Hl]. exists vs. split; [|done].
    pose proof (contains_write _ _ w Hc Hl) as Hc'. split; cbn; try done.
    split_and!; [done|done|]. apply list_lookup_insert_eq. rewrite (c_data _ _ Hc).
    pose proof (adv_bound (m_size (s_q s)) (m_read_index (s_q s)) (zlen vs + 1)). pose proof (c_size _ _ Hc). lia.
  - destruct Hp as (-> & Hl & Hd). exists (vs ++ [w]). split; [|done]. split; cbn; try done.
    + destruct Hc as [Hs Hdl Hr Hw _ Hh]. split; cbn; try done;
        [by rewrite zlen_app|rewrite zlen_app; unfold zlen in *; cbn; lia|].
      intros k u Hk. apply lookup_app_Some in Hk as [Hk|[Hge Hk]]; [by apply Hh|].
      apply list_lookup_singleton_Some in Hk as [Hk ->].
      by replace (Z.of_nat k) with (zlen vs) by (unfold zlen; lia).
    + by rewrite Hf, app_assoc.
    + destruct (s_c s) as [|cur|cur nx|nx u]; try done; [destruct Hcc as (? & ? & ?); split_and!; try done; by destruct vs|].
      destruct Hcc as (vs' & -> & ?). by exists (vs' ++ [w]).
Qed.

Lemma cstep_inv s vs :
  trivially_destructible = true -> inv s vs ->
  exists s' vs', cstep s = Ret s' /\ inv s' vs' /\ m_size (s_q s') = m_size (s_q s).
Proof.
  intros Ht [Hc Hf Hp Hcc]. unfold cstep. destruct (s_c s) as [|cur|cur nx|nx u] eqn:Ec.
  - eexists _, vs. split; [done|]. split; [|done]. by split.
  - eexists _, vs. split; [done|]. split; [|done]. split; cbn; try done. rewrite Hcc, (empty_iff _ _ Hc).
    destruct (zlen vs =? 0) eqn:E; bool_to_prop; [done|]. split_and!; [done| |by apply (nx_read _ vs)].
    intros ->. done.
  - destruct Hcc as (-> & Hne & ->). destruct vs as [|v vs]; [done|].
    rewrite (value_at_head _ _ _ Hc). cbn [mbind res_bind]. unfold destroy_at. rewrite Ht.
    cbn [mbind res_bind]. eexists _, (v :: vs). split; [done|]. split; [|done]. split; cbn; try done.
    by exists vs.
  - destruct Hcc as (vs' & -> & ->). eexists _, vs'. split; [done|]. split; [|done].
    rewrite zlen_cons in Hp. pose proof (c_size _ _ Hc). pose proof (zlen_nonneg vs').
    split; cbn; try done.
    + by apply (contains_read _ u).
    + by rewrite Hf, <- app_assoc.
    + rewrite !adv_adv by lia. replace (1 + (zlen vs' + 1)) with (1 + zlen vs' + 1) by lia.
      destruct (s_p s); try done; naive_solver lia.
Qed.

Lemma fifo_inv_start size : 2 <= size < 2 ^ 32 -> inv (start size) [].
Proof. intros H. split; cbn; try done. by apply contains_make. Qed.

Lemma fifo_reach_inv size r :
  trivially_destructible = true -> 2 <= size < 2 ^ 32 -> reach (start size) r ->
  exists s vs, r = Ret s /\ inv s vs /\ m_size (s_q s) = size.
Proof.
  intros Ht Hs Hr. induction Hr as [|s r Hr IH Hst].
  - exists (start size), []. split_and!; [done|by apply fifo_inv_start|done].
  - destruct IH as (s' & vs & [= <-] & Hi & Hm). inversion Hst; subst; clear Hst.
    + destruct (pstep_inv s vs v Hi) as (vs' & Hi' & Hm'). eexists _, vs'. split_and!; done.
    + destruct (cstep_inv s vs Ht Hi) as (s' & vs' & -> & Hi' & Hm'). exists s', vs'. split_and!; done.
Qed.

End queue.

(** ** Properties *)

(** C4: However the steps of one producer and one consumer interleave, no step
    reads a slot without an object, what the consumer has got is what the
    producer pushed, in order, and at most [size - 1] values are in between.
    Values with a trivial destructor; see [first_get_undefined]. *)
Theorem spsc_fifo {V : Type} size (r : res (@st V)) :
  2 <= size < 2 ^ 32 -> reach true (start size) r ->
  exists s vs, r = Ret s /\ s_pushed s = s_got s ++ vs /\ zlen vs <= Capacity (s_q s) /\
    (match s_p s, s_c s with
     | PRoom _ i, CSome j k => i <> j /\ i <> k
     | _, _ => True
     end).
Proof.
  intros Hs Hr. destruct (fifo_reach_inv true size r eq_refl Hs Hr) as (s & vs & -> & [Hc Hf Hp Hcc] & Hm).
  exists s, vs. pose proof (c_len _ _ Hc). pose proof (zlen_nonneg vs). split_and!; try done.
  - unfold Capacity. rewrite Hm in *. rewrite u32_id by lia. lia.
  - destruct (s_p s); try done. destruct (s_c s); try done. destruct Hp as [-> Hl].
    destruct Hcc as (-> & Hne & ->). pose proof (c_size _ _ Hc). pose proof (c_read _ _ Hc).
    destruct vs as [|u vs]; [done|]. rewrite zlen_cons in *. pose proof (zlen_nonneg vs). split.
    + intros E. rewrite <- (adv_0 (m_size (s_q s)) (m_read_index (s_q s))) in E at 2 by lia.
      apply adv_inj in E; lia.
    + intros E. apply adv_inj in E; lia.
Qed.

Lemma spsc_fifo_witness :
  exists s vs, cstep true (pstep 7 (pstep 7 (start 4))) = Ret s /\ s_pushed s = s_got s ++ vs /\
    zlen vs <= Capacity (s_q s) /\
    (match s_p s, s_c s with
     | PRoom _ i, CSome j k => i <> j /\ i <> k
     | _, _ => True
     end).
Proof.
  apply (spsc_fifo 4); [lia|]. eapply reach_step; [|apply step_c].
  eapply reach_step; [|apply step_p]. eapply reach_step; [|apply step_p]. apply reach_refl.
Defined.

(** Alone on one thread the methods are a bounded queue of [size - 1] values:
    [Push] appends unless it is full, [Get] takes the head, and the three
    observers tell the length. *)
Theorem bounded_queue {V : Type} (q : @t V) vs v :
  contains q vs ->
  (exists q', Push q v = (q', negb (zlen vs =? Capacity q)) /\
     contains q' (if zlen vs =? Capacity q then vs else vs ++ [v])) /\
  (exists q', Get true q = Ret (q', head vs) /\ contains q' (tail vs)) /\
  isEmpty q = (zlen vs =? 0) /\ isFull q = (zlen vs =? Capacity q) /\
  (m_size q < 2 ^ 31 -> GuestSize q = zlen vs).
Proof.
  intros Hc. pose proof (c_size _ _ Hc) as Hs. pose proof (c_read _ _ Hc) as Hr.
  pose proof (c_len _ _ Hc) as Hl. pose proof (zlen_nonneg vs).
  assert ((zlen vs =? Capacity q) = (zlen vs + 1 =? m_size q)) as ->.
  { unfold Capacity. rewrite u32_id by lia. apply eq_true_iff_eq. rewrite !Z.eqb_eq. lia. }
  split_and!.
  - destruct (Push_ok q vs v Hc) as (q' & E & Hc' & _). by exists q'.
  - destruct (Get_ok true q vs eq_refl Hc) as (q' & E & Hc' & _). by exists q'.
  - by apply empty_iff.
  - by apply full_iff.
  - intros Hb. unfold GuestSize. rewrite (c_write _ _ Hc). set (n := zlen vs) in *. set (z := m_size q) in *.
    set (i := m_read_index q) in *. unfold adv. destruct (decide (i + n < z)).
    + rewrite Z.mod_small by lia. rewrite u32_id, s32_id by lia. ztest. rewrite u64_id; lia.
    + assert ((i + n) mod z = i + n - z) as ->.
      { replace (i + n) with (i + n - z + 1 * z) at 1 by lia. rewrite Z.mod_add by lia. apply Z.mod_small. lia. }
      assert (s32 (u32 (i + n - z - i)) = n - z) as -> by ints. ztest.
      assert (s32 (u32 (u32 (n - z) + z)) = n) as -> by ints. rewrite u64_id; lia.
Qed.

Lemma bounded_queue_witness : GuestSize (Push (make 4) 7).1 = 1.
Proof.
  assert (contains (Push (make 4) 7).1 [7]) as Hc.
  { destruct (Push_ok (make 4) [] 7 (contains_make 4 ltac:(lia))) as (q' & E & H & _).
    rewrite E. exact H. }
  apply (bounded_queue (Push (make 4) 7).1 [7] 0 Hc). vm_compute. done.
Defined.

(** For values with a destructor, the first [Get] after the construction
    destroys slot 0, in which no object was ever constructed. *)
Theorem first_get_undefined {V : Type} size (v : V) :
  2 <= size < 2 ^ 32 -> Get false (Push (make size) v).1 = Throw UB.
Proof.
  intros Hs. destruct (Push_ok (make size) [] v (contains_make size Hs)) as (q' & E & Hc & _).
  rewrite E. cbn [fst]. rewrite zlen_nil in *. cbn [m_size make] in *.
  revert E Hc. destruct (0 + 1 =? size) eqn:E0; bool_to_prop; [lia|]. intros E Hc.
  assert (m_read_index q' = 0 /\ m_data q' !! 0%nat = Some None) as [Hr Hd].
  { unfold Push, make in E. cbn [m_size m_write_index m_read_index] in E.
    rewrite (next_adv size 0) in E by lia. unfold adv in E. rewrite Z.mod_small in E by lia.
    cbn in E. injection E as <-. split; [done|]. cbn.
    rewrite list_lookup_insert_ne by lia. apply lookup_replicate_2. lia. }
  unfold Get. rewrite (empty_iff _ _ Hc). cbn [app]. change (zlen [v] =? 0) with false. cbv iota.
  rewrite (nx_read _ _ Hc), (value_at_head _ _ _ Hc). cbn [mbind res_bind].
  unfold destroy_at. rewrite Hr. change (Z.to_nat 0) with 0%nat. by rewrite Hd.
Qed.

Lemma first_get_undefined_witness : Get false (Push (make 4) (str "job")).1 = Throw UB.
Proof. apply first_get_undefined. lia. Defined.

End FastQueue.
