(* ===== verification/MonitorQueue.v ===== *)
(** * The queues behind a mutex and a condition variable

    [HSyncBuffer], [JobQueue] and [RollFixBuffer::RefQueue] are one monitor in
    three copies, [JobPool] is the same without the condition.  A method is a
    list of instructions, a thread runs its calls one after the other, and any
    thread may step next.  The mutex and the condition are those of POSIX as
    [src/hmutex.cpp] wraps them: a signal wakes one of the waiters, whichever
    it is, a waiter may also wake for no reason, and a woken thread takes the
    mutex again before it goes on.  Touching the queue without the mutex is a
    data race and outside the language. *)

From S2P Require Import Prelude.

(** ** Definitions *)

Inductive instr {V : Type} : Type :=
  | ILock                 (* the constructor of HMutex_Lock_UnLock *)
  | IUnlock               (* its destructor *)
  | ISignal               (* m_locker.Signal() *)
  | IPush (v : V)         (* m_queue.push *)
  | IWhileEmptyWait       (* while (m_queue.empty()) m_locker.Wait(); *)
  | INullIfEmpty          (* if (m_queue.empty()) return nullptr; *)
  | ITake                 (* front() and pop() *)
  | ITakeLoop             (* while (not m_queue.empty()) { front(); pop(); } *)
  | ITest.                (* return m_queue.empty(); *)
#[global] Arguments instr V : clear implicits.

Inductive tstate : Type := Running | Waiting | Woken.

#[export] Instance tstate_eq_dec : EqDecision tstate.
Proof. solve_decision. Defined.

Section machine.
(** [handler i v] is what thread [i] calls next when a call of its has taken [v]. *)
Context {V op : Type} (code : op -> list (instr V)) (handler : nat -> V -> list op).

Record thread : Type := Th { t_state : tstate; t_code : list (instr V); t_calls : list op }.

Record st : Type := St {
  owner : option nat;
  queue : list V;
  threads : list thread;
  pushed : list V;                  (* every value pushed so far *)
  taken : list (nat * V);           (* every value taken so far, by whom *)
  answers : list (nat * bool)       (* what the tests returned *)
}.

Definition set_thread (i : nat) (t : thread) (s : st) : st :=
  St (owner s) (queue s) (<[i := t]> (threads s)) (pushed s) (taken s) (answers s).
Definition set_owner (o : option nat) (s : st) : st :=
  St o (queue s) (threads s) (pushed s) (taken s) (answers s).

Definition is_empty (s : st) : bool := match queue s with [] => true | _ => false end.
Definition is_waiting (t : thread) : bool := bool_decide (t_state t = Waiting).
Definition holds (s : st) (i : nat) : bool := bool_decide (owner s = Some i).

(** [HMutex::Lock]: [None] while another thread, or this one, has the mutex. *)
Definition Lock (i : nat) (s : st) : option st :=
  match owner s with None => Some (set_owner (Some i) s) | Some _ => None end.

Definition UnLock (i : nat) (s : st) : res st :=
  if holds s i then Ret (set_owner None s) else Throw UB.

(** [HCond::Signal] wakes the waiter [w]; [None] when the choice is not one. *)
Definition Signal (w : nat) (s : st) : option st :=
  if existsb is_waiting (threads s) then
    match threads s !! w with
    | Some t => if is_waiting t then Some (set_thread w (Th Woken (t_code t) (t_calls t)) s) else None
    | None => None
    end
  else Some s.

(** [HCond::Wait]: release the mutex and sleep. *)
Definition Wait (i : nat) (t : thread) (s : st) : res st :=
  s ← UnLock i s; Ret (set_thread i (Th Waiting (t_code t) (t_calls t)) s).

(** The queue operations, for a thread that must have the mutex. *)
Definition push (i : nat) (v : V) (s : st) : res st :=
  if holds s i then Ret (St (owner s) (queue s ++ [v]) (threads s) (pushed s ++ [v]) (taken s) (answers s))
  else Throw UB.

Definition pop (i : nat) (s : st) : res (V * st) :=
  if holds s i then
    match queue s with
    | [] => Throw UB
    | v :: q => Ret (v, St (owner s) q (threads s) (pushed s) (taken s ++ [(i, v)]) (answers s))
    end
  else Throw UB.

Definition empty (i : nat) (s : st) : res bool :=
  if holds s i then Ret (is_empty s) else Throw UB.

(** One step of thread [i]; [w] is the thread a signal wakes.  [None]: it cannot step. *)
Definition exec (i w : nat) (s : st) : option (res st) :=
  match threads s !! i with
  | None => None
  | Some t =>
    let go c s := set_thread i (Th Running c (t_calls t)) s in
    match t_state t with
    | Waiting => None
    | Woken => s ← Lock i s; Some (Ret (go (t_code t) s))
    | Running =>
      match t_code t with
      | [] =>
        match t_calls t with
        | [] => None
        | o :: os => Some (Ret (set_thread i (Th Running (code o) os) s))
        end
      | ILock :: c => s ← Lock i s; Some (Ret (go c s))
      | IUnlock :: c => Some (s ← UnLock i s; Ret (go c s))
      | ISignal :: c => s ← Signal w (go c s); Some (Ret s)
      | IPush v :: c => Some (s ← push i v s; Ret (go c s))
      | IWhileEmptyWait :: c =>
        Some (e ← empty i s; if (e : bool) then Wait i t s else Ret (go c s))
      | INullIfEmpty :: c =>
        Some (e ← empty i s; Ret (go (if (e : bool) then [IUnlock] else c) s))
      | ITake :: c =>
        Some ('(v, s) ← pop i s; Ret (set_thread i (Th Running c (handler i v ++ t_calls t)) s))
      | ITakeLoop :: c =>
        Some (e ← empty i s;
              if (e : bool) then Ret (go c s)
              else '(v, s) ← pop i s; Ret (go (ITakeLoop :: c) s))
      | ITest :: c =>
        Some (e ← empty i s;
              Ret (go c (St (owner s) (queue s) (threads s) (pushed s) (taken s)
                            (answers s ++ [(i, e)]))))
      end
    end
  end.

Inductive step : st -> res st -> Prop :=
  | step_exec i w s r : exec i w s = Some r -> step s r
  | step_spurious w t s :
      threads s !! w = Some t -> t_state t = Waiting ->
      step s (Ret (set_thread w (Th Woken (t_code t) (t_calls t)) s)).

Inductive reach (s0 : st) : res st -> Prop :=
  | reach_refl : reach s0 (Ret s0)
  | reach_step s r : reach s0 (Ret s) -> step s r -> reach s0 r.

(** A schedule: who steps and whom a signal wakes, step by step. *)
Fixpoint run (sched : list (nat * nat)) (s : st) : option (res st) :=
  match sched with
  | [] => Some (Ret s)
  | (i, w) :: rest =>
    match exec i w s with
    | Some (Ret s) => run rest s
    | r => match rest with [] => r | _ => None end
    end
  end.

(** Nobody can go on but by a wakeup for no reason. *)
Definition stuck (s : st) : Prop := forall i w, exec i w s = None.

(** Threads with calls to make around an empty queue. *)
Definition start (calls : list (list op)) : st :=
  St None [] (map (Th Running []) calls) [] [] [].

Lemma monitor_run_reach s0 sched s r : reach s0 (Ret s) -> run sched s = Some r -> reach s0 r.
Proof.
  revert s. induction sched as [|[i w] rest IH]; intros s Hs; cbn; [by intros [= <-]|].
  destruct (exec i w s) as [[s'|e]|] eqn:E; [|by destruct rest; [intros [= <-]; eapply reach_step; [|eapply step_exec]|]|by destruct rest].
  apply IH. eapply reach_step; [done|]. by eapply step_exec.
Qed.

Definition finished (t : thread) : Prop := t_state t = Running /\ t_code t = [] /\ t_calls t = [].

End machine.
#[global] Arguments thread V op : clear implicits.
#[global] Arguments st V op : clear implicits.

(** ** What a method must be like *)

Section static.
Context {V : Type}.
Implicit Types c : list (instr V).

Definition takes (x : instr V) : bool :=
  match x with ITake | ITakeLoop => true | _ => false end.
Definition has_take c : bool := existsb takes c.

(** The signals still to come less the values still to push. *)
Definition credit_of (x : instr V) : Z :=
  match x with ISignal => 1 | IPush _ => -1 | _ => 0 end.
Fixpoint credit c : Z := match c with [] => 0 | x :: c => credit_of x + credit c end.
Fixpoint signals_ok c : bool :=
  match c with [] => true | x :: c' => (0 <=? credit c) && signals_ok c' end.

(** [h]: the mutex is held; [ne]: the queue is known not to be empty. *)
Fixpoint safe (h ne : bool) c : bool :=
  match c with
  | [] => negb h
  | ILock :: c => negb h && safe true false c
  | IUnlock :: c => h && negb (has_take c) && safe false false c
  | ISignal :: c => safe h ne c
  | IPush _ :: c => h && safe true true c
  | IWhileEmptyWait :: c => h && has_take c && (credit c =? 0) && safe true true c
  | INullIfEmpty :: c => h && safe true true c
  | ITake :: c => h && ne && safe true false c
  | ITakeLoop :: c => h && safe true false c
  | ITest :: c => h && safe h ne c
  end.
End static.

(** What a component promises of its methods: the queue is touched with the
    mutex held and [front] is called on a queue with a value. *)
Class Monitor (V op : Type) : Type := {
  code : op -> list (instr V);
  code_safe o : safe false false (code o) = true
}.

(** A component whose methods wait also signals once per value it pushes. *)
Class Signalling (V op : Type) `{Monitor V op} : Prop :=
  code_signals o : signals_ok (code o) = true.

(** ** The components *)

(** [src/hsyncbuffer.cpp] *)
Module HSyncBuffer.

Inductive op : Type := PushData (mem : bytes) | PopData | PopAllData | HasData.

Definition code (o : op) : list (instr bytes) :=
  match o with
  | PushData mem => [ILock; IPush mem; IUnlock; ISignal]
  | PopData => [ILock; IWhileEmptyWait; ITake; IUnlock]
  | PopAllData => [ILock; IWhileEmptyWait; ITakeLoop; IUnlock]
  | HasData => [ILock; ITest; IUnlock]
  end.

(** [PushData(HCUSZ, HN)]: the vector of the bytes [cptr .. cptr + len]. *)
Definition PushData_ptr (cptr : bytes) (len : Z) : res op :=
  _ ← check_ub ((0 <=? len) && (len <=? zlen cptr)); Ret (PushData (take (Z.to_nat len) cptr)).

(** [PopData(HUSZ, HNR)] once the value [mem] is out of the queue: what it
    writes at [ptr] and the new [len]; [cap] bytes may be written there. *)
Definition PopData_copy (ptr : option Z) (len : Z) (mem : bytes) : res (bytes * Z) :=
  _ ← assert_throw (s32 (zlen mem) <=? len) INVL_PARA;
  match ptr with
  | None => Throw (HExc INVL_PARA)
  | Some cap => _ ← check_ub (zlen mem <=? cap); Ret (mem, s32 (zlen mem))
  end.

#[global] Instance monitor : Monitor bytes op.
Proof. exists code. by intros []. Defined.

#[global] Instance signalling : Signalling bytes op.
Proof. by intros []. Qed.

End HSyncBuffer.

(** [JobQueue] of [src/utils/summerworkermng.cpp]; a job is a pointer. *)
Module JobQueue.
Section jobs.
Context {job : Type}.

Inductive op : Type := PushJob (ptr : job) | PopJob | PopJobs | HasData.

Definition code (o : op) : list (instr job) :=
  match o with
  | PushJob ptr => [ILock; IPush ptr; IUnlock; ISignal]
  | PopJob => [ILock; IWhileEmptyWait; INullIfEmpty; ITake; IUnlock]
  | PopJobs => [ILock; IWhileEmptyWait; ITakeLoop; IUnlock]
  | HasData => [ILock; ITest; IUnlock]
  end.

#[global] Instance monitor : Monitor job op.
Proof. exists code. by intros []. Defined.

#[global] Instance signalling : Signalling job op.
Proof. by intros []. Qed.
End jobs.
Arguments op job : clear implicits.
End JobQueue.

(** [RollFixBuffer::RefQueue] of [src/utils/rollfixedbuffer.cpp] *)
Module RefQueue.
Section refs.
Context {ref : Type}.

Inductive op : Type := Push (ptr : ref) | Pop.

Definition code (o : op) : list (instr ref) :=
  match o with
  | Push ptr => [ILock; IPush ptr; IUnlock; ISignal]
  | Pop => [ILock; IWhileEmptyWait; INullIfEmpty; ITake; IUnlock]
  end.

#[global] Instance monitor : Monitor ref op.
Proof. exists code. by intros []. Defined.

#[global] Instance signalling : Signalling ref op.
Proof. by intros []. Qed.
End refs.
Arguments op ref : clear implicits.
End RefQueue.

(** [src/utils/jobpool.cpp]: [GetJob] does not wait. *)
Module JobPool.
Section jobs.
Context {job : Type}.

Inductive op : Type := PushJob (ptr : job) | GetJob | clear | allFinished.

Definition code (o : op) : list (instr job) :=
  match o with
  | PushJob ptr => [ILock; IPush ptr; IUnlock]
  | GetJob => [ILock; INullIfEmpty; ITake; IUnlock]
  | clear => [ILock; ITakeLoop; IUnlock]
  | allFinished => [ILock; ITest; IUnlock]
  end.

#[global] Instance monitor : Monitor job op.
Proof. exists code. by intros []. Defined.
End jobs.
Arguments op job : clear implicits.
End JobPool.

(** [SummerWorkerMng]: the children pop jobs and do them until a job ends the
    thread; [ExitWork] queues one such job per child. *)
Module SummerWorkerMng.
Section workers.
(** [is_exit]: an [ExitThreadJob]; [DoJob]: the jobs another job's [DoJob] pushes. *)
Context {job : Type} (is_exit : job -> bool) (DoJob : nat -> job -> list job).

Definition childThreadRun (i : nat) (v : job) : list (JobQueue.op job) :=
  if is_exit v then [] else map JobQueue.PushJob (DoJob i v) ++ [JobQueue.PopJob].

Definition ExitWork (childCount : nat) (exit_job : job) : list (JobQueue.op job) :=
  replicate childCount (JobQueue.PushJob exit_job).

(** The owner pushes [work], then calls [ExitWork]; [n] children run. *)
Definition pool (n : nat) (work : list job) (exit_job : job) : st job (JobQueue.op job) :=
  start ((map JobQueue.PushJob work ++ ExitWork n exit_job) :: replicate n [JobQueue.PopJob]).

End workers.
End SummerWorkerMng.

(** ** One step *)

Section facts.
Context {V : Type}.
Implicit Types c : list (instr V).

Lemma safe_mono h c : safe h false c = true -> safe h true c = true.
Proof.
  induction c as [|x c IH]; [done|]. destruct x; cbn; auto; intros H; bool_to_prop;
    rewrite ?andb_true_iff; auto; naive_solver.
Qed.

Lemma safe_ne h ne c : safe h false c = true -> safe h ne c = true.
Proof. destruct ne; auto using safe_mono. Qed.

Lemma signals_ok_tail x c : signals_ok (x :: c) = true -> signals_ok c = true.
Proof. cbn. intros H. by bool_to_prop. Qed.

Lemma signals_ok_credit c : signals_ok c = true -> 0 <= credit c.
Proof. destruct c; cbn; intros H; bool_to_prop; lia. Qed.
End facts.

Fixpoint sum_of {A} (f : A -> Z) (l : list A) : Z :=
  match l with [] => 0 | x :: l => f x + sum_of f l end.

Section sums.
Context {A : Type} (f : A -> Z).

Lemma sum_insert l i x y :
  l !! i = Some x -> sum_of f (<[i := y]> l) = sum_of f l - f x + f y.
Proof.
  revert i. induction l as [|z l IH]; intros [|i]; cbn; intros H; simplify_eq; [lia|].
  transitivity (f z + (sum_of f l - f x + f y)); [f_equal; exact (IH i H)|lia].
Qed.

Lemma sum_nonneg l : (forall x, x ∈ l -> 0 <= f x) -> 0 <= sum_of f l.
Proof.
  induction l as [|z l IH]; cbn; intros H; [lia|].
  pose proof (H z ltac:(left)). pose proof (IH (fun x Hx => H x (list_elem_of_further _ _ _ Hx))). lia.
Qed.

Lemma sum_zero l : (forall x, x ∈ l -> f x = 0) -> sum_of f l = 0.
Proof.
  induction l as [|z l IH]; cbn; intros H; [lia|].
  rewrite (H z) by left. rewrite IH; [lia|]. intros x Hx. apply H. by right.
Qed.

Lemma sum_app l k : sum_of f (l ++ k) = sum_of f l + sum_of f k.
Proof. induction l; cbn; lia. Qed.

Lemma sum_elem l x : (forall y, y ∈ l -> 0 <= f y) -> x ∈ l -> f x <= sum_of f l.
Proof.
  intros Hn Hx. apply list_elem_of_split in Hx as (l1 & l2 & ->). rewrite sum_app. cbn.
  pose proof (sum_nonneg l1 ltac:(set_solver)). pose proof (sum_nonneg l2 ltac:(set_solver)). lia.
Qed.
End sums.

Section proofs.
Context {V op : Type} `{Monitor V op} (handler : nat -> V -> list op).
Abbreviation st := (st V op).
Abbreviation thread := (thread V op).
Implicit Types (s : st) (t : thread).

(** What can happen, once no thread touches the queue without the mutex. *)
Inductive move (s : st) : st -> Prop :=
  | m_call i o os :
      threads s !! i = Some (Th Running [] (o :: os)) ->
      move s (set_thread i (Th Running (code o) os) s)
  | m_lock i c os :
      threads s !! i = Some (Th Running (ILock :: c) os) -> owner s = None ->
      move s (set_thread i (Th Running c os) (set_owner (Some i) s))
  | m_relock i c os :
      threads s !! i = Some (Th Woken c os) -> owner s = None ->
      move s (set_thread i (Th Running c os) (set_owner (Some i) s))
  | m_unlock i c os :
      threads s !! i = Some (Th Running (IUnlock :: c) os) -> owner s = Some i ->
      move s (set_thread i (Th Running c os) (set_owner None s))
  | m_signal_none i c os :
      threads s !! i = Some (Th Running (ISignal :: c) os) -> existsb is_waiting (threads s) = false ->
      move s (set_thread i (Th Running c os) s)
  | m_signal i c os w c' os' :
      threads s !! i = Some (Th Running (ISignal :: c) os) -> w <> i ->
      threads s !! w = Some (Th Waiting c' os') ->
      move s (set_thread w (Th Woken c' os') (set_thread i (Th Running c os) s))
  | m_push i v c os :
      threads s !! i = Some (Th Running (IPush v :: c) os) -> owner s = Some i ->
      move s (St (owner s) (queue s ++ [v]) (<[i := Th Running c os]> (threads s)) (pushed s ++ [v])
                 (taken s) (answers s))
  | m_wait i c os :
      threads s !! i = Some (Th Running (IWhileEmptyWait :: c) os) -> owner s = Some i -> queue s = [] ->
      move s (set_thread i (Th Waiting (IWhileEmptyWait :: c) os) (set_owner None s))
  | m_pass i x c os :
      x = IWhileEmptyWait \/ x = INullIfEmpty ->
      threads s !! i = Some (Th Running (x :: c) os) -> owner s = Some i -> queue s <> [] ->
      move s (set_thread i (Th Running c os) s)
  | m_null i c os :
      threads s !! i = Some (Th Running (INullIfEmpty :: c) os) -> owner s = Some i -> queue s = [] ->
      move s (set_thread i (Th Running [IUnlock] os) s)
  | m_take i v q c os :
      threads s !! i = Some (Th Running (ITake :: c) os) -> owner s = Some i -> queue s = v :: q ->
      move s (St (owner s) q (<[i := Th Running c (handler i v ++ os)]> (threads s)) (pushed s)
                 (taken s ++ [(i, v)]) (answers s))
  | m_loop_end i c os :
      threads s !! i = Some (Th Running (ITakeLoop :: c) os) -> owner s = Some i -> queue s = [] ->
      move s (set_thread i (Th Running c os) s)
  | m_loop_take i v q c os :
      threads s !! i = Some (Th Running (ITakeLoop :: c) os) -> owner s = Some i -> queue s = v :: q ->
      move s (St (owner s) q (<[i := Th Running (ITakeLoop :: c) os]> (threads s)) (pushed s)
                 (taken s ++ [(i, v)]) (answers s))
  | m_test i c os :
      threads s !! i = Some (Th Running (ITest :: c) os) -> owner s = Some i ->
      move s (St (owner s) (queue s) (<[i := Th Running c os]> (threads s)) (pushed s) (taken s)
                 (answers s ++ [(i, is_empty s)]))
  | m_wake i c os :
      threads s !! i = Some (Th Waiting c os) -> move s (set_thread i (Th Woken c os) s).

(** A thread that has ([h]) or has not the mutex, around an empty queue or not ([ne]). *)
Definition tinv (h ne : bool) (t : thread) : Prop :=
  match t_state t with
  | Running => safe h (h && ne) (t_code t) = true
  | _ => h = false /\ exists c, t_code t = IWhileEmptyWait :: c /\ safe true false (IWhileEmptyWait :: c) = true
  end.

Record inv (s : st) : Prop := {
  inv_fifo : pushed s = map snd (taken s) ++ queue s;
  inv_thread i t : threads s !! i = Some t -> tinv (holds s i) (negb (is_empty s)) t;
  inv_owner i : owner s = Some i -> is_Some (threads s !! i)
}.

Lemma holds_true s i : holds s i = true <-> owner s = Some i.
Proof. apply bool_decide_eq_true. Qed.

Lemma holds_ne s i j : owner s = Some i -> i <> j -> holds s j = false.
Proof. intros E Hn. unfold holds. rewrite E. apply bool_decide_eq_false. congruence. Qed.

Lemma tinv_idle ne ne' t : tinv false ne t -> tinv false ne' t.
Proof. done. Qed.

(** Thread [i] moves: what is left to show of the others. *)
Lemma inv_update s s' i t' :
  inv s -> is_Some (threads s !! i) -> threads s' = <[i := t']> (threads s) ->
  pushed s' = map snd (taken s') ++ queue s' ->
  (forall j, j <> i -> holds s' j = holds s j) ->
  (forall j, j <> i -> owner s = Some j -> queue s' = queue s) ->
  tinv (holds s' i) (negb (is_empty s')) t' -> inv s'.
Proof.
  intros [Hf Ht Ho] Hi Et Hf' Hh Hq Hti. split; [done| |].
  - intros j t Hj. rewrite Et in Hj. apply list_lookup_insert_Some in Hj as [(-> & -> & _)|[Hne Hj]]; [done|].
    specialize (Ht j t Hj). rewrite Hh by done. destruct (holds s j) eqn:E; [|done].
    apply holds_true in E. unfold is_empty. by rewrite (Hq j).
  - intros j Hj. rewrite Et. destruct (decide (j = i)) as [->|Hne].
    + apply lookup_lt_is_Some. rewrite length_insert. by apply lookup_lt_is_Some.
    + rewrite list_lookup_insert_ne by done. apply Ho. apply holds_true. rewrite <- Hh by done.
      by apply holds_true.
Qed.

(** What the mutex rules give a running thread. *)
Lemma inv_running s i x c os :
  inv s -> threads s !! i = Some (Th Running (x :: c) os) ->
  safe (holds s i) (holds s i && negb (is_empty s)) (x :: c) = true.
Proof. intros Hi Et. exact (inv_thread _ Hi _ _ Et). Qed.

Lemma inv_holds s i x c os :
  inv s -> threads s !! i = Some (Th Running (x :: c) os) ->
  (forall ne, safe false ne (x :: c) = false) -> owner s = Some i.
Proof.
  intros Hi Et Hs. apply holds_true. pose proof (inv_running _ _ _ _ _ Hi Et) as Hr.
  destruct (holds s i); [done|]. by rewrite Hs in Hr.
Qed.

Lemma is_empty_nil s : is_empty s = true <-> queue s = [].
Proof. unfold is_empty. by destruct (queue s). Qed.

Ltac have_mutex Hi Et :=
  let Ho := fresh "Ho" in
  pose proof (inv_holds _ _ _ _ _ Hi Et (fun _ => eq_refl)) as Ho;
  let Hh := fresh "Hh" in pose proof (proj2 (holds_true _ _) Ho) as Hh.

Lemma Signal_move s i c os w r :
  threads s !! i = Some (Th Running (ISignal :: c) os) ->
  Signal w (set_thread i (Th Running c os) s) = Some r -> move s r.
Proof.
  intros Et. unfold Signal. cbn [threads set_thread].
  assert (existsb is_waiting (<[i := Th Running c os]> (threads s)) = existsb is_waiting (threads s)) as ->.
  { apply eq_true_iff_eq. rewrite !existsb_exists. split; intros (t & Hin & Hw).
    - apply list_elem_of_In, list_elem_of_lookup in Hin as [j Hj].
      apply list_lookup_insert_Some in Hj as [(-> & <- & _)|[Hne Hj]]; [done|].
      exists t. split; [|done]. by apply list_elem_of_In, (list_elem_of_lookup_2 _ j).
    - apply list_elem_of_In, list_elem_of_lookup in Hin as [j Hj].
      exists t. split; [|done]. apply list_elem_of_In, (list_elem_of_lookup_2 _ j).
      rewrite list_lookup_insert_ne; [done|]. intros <-. rewrite Et in Hj. injection Hj as <-. done. }
  destruct (existsb is_waiting (threads s)) eqn:Ex; [|intros [= <-]; by apply m_signal_none].
  destruct (<[i := _]> (threads s) !! w) as [t|] eqn:Ew; [|done].
  destruct (is_waiting t) eqn:Ew'; [|done]. intros [= <-].
  apply bool_decide_eq_true in Ew'. apply list_lookup_insert_Some in Ew as [(-> & <- & _)|[Hne Ew]]; [done|].
  destruct t as [ts tc tcs]. cbn in Ew' |- *. subst ts. by apply m_signal.
Qed.

Lemma exec_move s i w r :
  inv s -> exec code handler i w s = Some r -> exists s', r = Ret s' /\ move s s'.
Proof.
  intros Hi. unfold exec. destruct (threads s !! i) as [[ts c os]|] eqn:Et; [|done].
  cbn [t_state t_code t_calls]. destruct ts; [|done|].
  2:{ unfold Lock. destruct (owner s) eqn:Ho; [done|]. intros [= <-]. eexists. split; [done|]. by apply m_relock. }
  destruct c as [|x c].
  { destruct os as [|o os]; [done|]. intros [= <-]. eexists. split; [done|]. by apply m_call. }
  destruct x.
  - unfold Lock. destruct (owner s) eqn:Ho; [done|]. intros [= <-]. eexists. split; [done|]. by apply m_lock.
  - have_mutex Hi Et. unfold UnLock. rewrite Hh. intros [= <-]. eexists. split; [done|]. by apply m_unlock.
  - cbn. destruct (Signal w _) as [s'|] eqn:Es; [|done]. intros [= <-]. eexists. split; [done|].
    by eapply Signal_move.
  - have_mutex Hi Et. unfold push. rewrite Hh. intros [= <-]. eexists. split; [done|].
    exact (m_push s i v c os Et Ho).
  - have_mutex Hi Et. unfold empty. rewrite Hh. intros [= <-]. cbn. destruct (is_empty s) eqn:Ee.
    + unfold Wait, UnLock. rewrite Hh. eexists. split; [done|]. apply m_wait; [done..|by apply is_empty_nil].
    + eexists. split; [done|]. eapply m_pass; [by left|done|done|]. intros E. apply is_empty_nil in E. congruence.
  - have_mutex Hi Et. unfold empty. rewrite Hh. intros [= <-]. cbn. eexists. split; [done|].
    destruct (is_empty s) eqn:Ee.
    + eapply m_null; [done..|by apply is_empty_nil].
    + eapply m_pass; [by right|done|done|]. intros E. apply is_empty_nil in E. congruence.
  - have_mutex Hi Et. unfold pop. rewrite Hh. pose proof (inv_running _ _ _ _ _ Hi Et) as Hs.
    rewrite Hh in Hs. cbn in Hs. unfold is_empty in Hs. destruct (queue s) as [|v q] eqn:Eq; [done|].
    intros [= <-]. eexists. split; [done|]. pose proof (m_take s i v q c os Et Ho Eq) as Hm. exact Hm.
  - have_mutex Hi Et. unfold empty. rewrite Hh. intros [= <-]. cbn. destruct (is_empty s) eqn:Ee.
    + eexists. split; [done|]. apply m_loop_end; [done..|by apply is_empty_nil].
    + unfold pop. rewrite Hh. unfold is_empty in Ee. destruct (queue s) as [|v q] eqn:Eq; [done|].
      eexists. split; [done|]. exact (m_loop_take s i v q c os Et Ho Eq).
  - have_mutex Hi Et. unfold empty. rewrite Hh. intros [= <-]. eexists. split; [done|].
    exact (m_test s i c os Et Ho).
Qed.

Lemma safe_now s i x c os :
  inv s -> threads s !! i = Some (Th Running (x :: c) os) -> owner s = Some i ->
  safe true (negb (is_empty s)) (x :: c) = true.
Proof.
  intros Hi Et Ho. pose proof (inv_running _ _ _ _ _ Hi Et) as Hs.
  by rewrite (proj2 (holds_true s i) Ho) in Hs.
Qed.

(** Whoever takes the mutex or gives it back is alone with it. *)
Lemma holds_others s i o j :
  owner s = None \/ owner s = Some i -> o = None \/ o = Some i -> j <> i ->
  holds (set_owner o s) j = holds s j.
Proof.
  intros Hs Ho Hne. unfold holds. cbn. rewrite (bool_decide_eq_false_2 (o = Some j)) by naive_solver.
  rewrite (bool_decide_eq_false_2 (owner s = Some j)) by naive_solver. done.
Qed.

Lemma inv_set_thread s i t t' :
  inv s -> threads s !! i = Some t -> tinv (holds s i) (negb (is_empty s)) t' -> inv (set_thread i t' s).
Proof. intros Hi Et Ht. eapply (inv_update s _ i t'); try done. apply (inv_fifo _ Hi). Qed.

Lemma inv_set_owner s i o t t' :
  inv s -> threads s !! i = Some t -> owner s = None \/ owner s = Some i -> o = None \/ o = Some i ->
  tinv (bool_decide (o = Some i)) (negb (is_empty s)) t' ->
  inv (set_thread i t' (set_owner o s)).
Proof.
  intros Hi Et Hs Ho Ht. eapply (inv_update s _ i t'); try done; [apply (inv_fifo _ Hi)|].
  intros j Hj. exact (holds_others s i o j Hs Ho Hj).
Qed.

(** The holder of the mutex changes the queue. *)
Lemma inv_set_queue s i t t' q p k a :
  inv s -> threads s !! i = Some t -> owner s = Some i -> p = map snd k ++ q ->
  safe true (match q with [] => false | _ => true end) (t_code t') = true -> t_state t' = Running ->
  inv (St (owner s) q (<[i := t']> (threads s)) p k a).
Proof.
  intros Hi Et Ho Hf Ht Er. eapply (inv_update s _ i t'); cbn; try done; [congruence|].
  unfold holds, tinv. cbn. rewrite Ho, bool_decide_eq_true_2, Er by done. cbn. by destruct q.
Qed.

Lemma move_inv s s' : inv s -> move s s' -> inv s'.
Proof.
  intros Hi Hm. destruct Hm as [i o os Et|i c os Et Ho|i c os Et Ho|i c os Et Ho|i c os Et Hw|i c os w c' os' Et Hne Ew
    |i v c os Et Ho|i c os Et Ho Hq|i x c os Hx Et Ho Hq|i c os Et Ho Hq|i v q c os Et Ho Hq|i c os Et Ho Hq
    |i v q c os Et Ho Hq|i c os Et Ho|i c os Et].
  - eapply inv_set_thread; [done..|]. pose proof (inv_thread _ Hi _ _ Et) as Ht. unfold tinv in *. cbn in *.
    destruct (holds s i); [done|]. apply code_safe.
  - eapply inv_set_owner; [done|done|by left|by right|]. pose proof (inv_running _ _ _ _ _ Hi Et) as Hs.
    rewrite bool_decide_eq_true_2 by done. unfold tinv. cbn in *. bool_to_prop. by apply safe_ne.
  - eapply inv_set_owner; [done|done|by left|by right|]. rewrite bool_decide_eq_true_2 by done.
    destruct (inv_thread _ Hi _ _ Et) as (_ & c' & E & Hs). unfold tinv in *. cbn in E |- *. subst c.
    by apply safe_ne.
  - eapply inv_set_owner; [done|done|by right|by left|]. pose proof (safe_now _ _ _ _ _ Hi Et Ho) as Hs.
    unfold tinv. cbn in *. bool_to_prop. done.
  - eapply inv_set_thread; [done..|]. exact (inv_running _ _ _ _ _ Hi Et).
  - assert (inv (set_thread i (Th Running c os) s)) as Hi'.
    { eapply inv_set_thread; [done..|]. exact (inv_running _ _ _ _ _ Hi Et). }
    eapply inv_set_thread; [done| |]; [cbn; by rewrite list_lookup_insert_ne|].
    exact (inv_thread _ Hi _ _ Ew).
  - eapply inv_set_queue; [done..| | |done]; [rewrite (inv_fifo _ Hi); by rewrite app_assoc|].
    pose proof (safe_now _ _ _ _ _ Hi Et Ho) as Hs. cbn in *. by destruct (queue s).
  - eapply inv_set_owner; [done|done|by right|by left|]. split; [done|]. exists c. split; [done|].
    pose proof (safe_now _ _ _ _ _ Hi Et Ho) as Hs. exact Hs.
  - eapply inv_set_thread; [done..|]. pose proof (safe_now _ _ _ _ _ Hi Et Ho) as Hs.
    unfold tinv. rewrite (proj2 (holds_true _ _) Ho). unfold is_empty. destruct (queue s); [done|]. cbn.
    destruct Hx as [-> | ->]; cbn in Hs; by bool_to_prop.
  - eapply inv_set_thread; [done..|]. unfold tinv. by rewrite (proj2 (holds_true _ _) Ho).
  - eapply inv_set_queue; [done..| | |done].
    + rewrite map_app, <- app_assoc. cbn. by rewrite <- Hq, (inv_fifo _ Hi).
    + pose proof (safe_now _ _ _ _ _ Hi Et Ho) as Hs. cbn in *. bool_to_prop. by apply safe_ne.
  - eapply inv_set_thread; [done..|]. unfold tinv. rewrite (proj2 (holds_true _ _) Ho).
    pose proof (safe_now _ _ _ _ _ Hi Et Ho) as Hs. cbn in *. by apply safe_ne.
  - eapply inv_set_queue; [done..| | |done].
    + rewrite map_app, <- app_assoc. cbn. by rewrite <- Hq, (inv_fifo _ Hi).
    + pose proof (safe_now _ _ _ _ _ Hi Et Ho) as Hs. exact Hs.
  - eapply inv_set_queue; [done..|apply (inv_fifo _ Hi)| |done].
    pose proof (safe_now _ _ _ _ _ Hi Et Ho) as Hs. cbn in *. unfold is_empty in Hs. by destruct (queue s).
  - eapply inv_set_thread; [done..|]. exact (inv_thread _ Hi _ _ Et).
Qed.

(** *** No wakeup is lost *)

(** What a thread will do for the waiters: the signals it owes, and itself when
    it was woken; and the holder of the mutex when it is about to take. *)
Definition woken (x : tstate) : Z := match x with Woken => 1 | _ => 0 end.
Definition contrib (t : thread) : Z := credit (t_code t) + woken (t_state t).

Definition b2z (b : bool) : Z := if b then 1 else 0.

Definition hold (s : st) : Z :=
  match owner s with
  | Some i => match threads s !! i with Some t => b2z (has_take (t_code t)) | None => 0 end
  | None => 0
  end.

Definition some_waiting (l : list thread) : Prop := exists i t, l !! i = Some t /\ t_state t = Waiting.

Record lw (s : st) : Prop := {
  lw_ok i t : threads s !! i = Some t -> signals_ok (t_code t) = true;
  lw_len : some_waiting (threads s) -> zlen (queue s) <= sum_of contrib (threads s) + hold s
}.

Lemma hold_nonneg s : 0 <= hold s.
Proof.
  unfold hold. destruct (owner s) as [i|]; [|done]. destruct (threads s !! i) as [t|]; [|done].
  by destruct (has_take _).
Qed.

Lemma contrib_nonneg t : signals_ok (t_code t) = true -> 0 <= contrib t.
Proof. intros H'. apply signals_ok_credit in H'. unfold contrib. destruct (t_state t); cbn; lia. Qed.

Lemma hold_mine s i t : owner s = Some i -> threads s !! i = Some t -> hold s = b2z (has_take (t_code t)).
Proof. intros Ho Et. unfold hold. by rewrite Ho, Et. Qed.

Lemma hold_none s : owner s = None -> hold s = 0.
Proof. intros Ho. unfold hold. by rewrite Ho. Qed.

Lemma hold_same s i t t' :
  threads s !! i = Some t -> (owner s = Some i -> has_take (t_code t') = has_take (t_code t)) ->
  hold (set_thread i t' s) = hold s.
Proof.
  intros Et Hh. unfold hold. cbn. destruct (owner s) as [j|] eqn:Ho; [|done].
  destruct (decide (j = i)) as [->|Hne].
  - rewrite list_lookup_insert_eq by (by eapply lookup_lt_Some). by rewrite Et, Hh.
  - by rewrite list_lookup_insert_ne.
Qed.

Lemma lw_ok_update s i t' l :
  lw s -> l = <[i := t']> (threads s) -> signals_ok (t_code t') = true ->
  forall j t, l !! j = Some t -> signals_ok (t_code t) = true.
Proof.
  intros [Hok _] -> Ht j t Hj. apply list_lookup_insert_Some in Hj as [(-> & <- & _)|[_ Hj]]; [done|].
  by eapply Hok.
Qed.

(** A step of thread [i] that keeps the balance. *)
Lemma lw_update s s' i t t' :
  lw s -> threads s !! i = Some t -> threads s' = <[i := t']> (threads s) ->
  signals_ok (t_code t') = true -> t_state t' <> Waiting ->
  zlen (queue s') - contrib t' - hold s' <= zlen (queue s) - contrib t - hold s -> lw s'.
Proof.
  intros Hl Et E Ht Hw Hb. split; [by eapply lw_ok_update|]. intros (j & u & Hj & Hu).
  assert (some_waiting (threads s)) as Hsw.
  { rewrite E in Hj. apply list_lookup_insert_Some in Hj as [(-> & <- & _)|[_ Hj]]; [done|]. by exists j, u. }
  pose proof (lw_len _ Hl Hsw). rewrite E, (sum_insert contrib _ i t t') by done. lia.
Qed.

(** Around an empty queue there is nothing to balance. *)
Lemma lw_nil s s' i t' :
  lw s -> threads s' = <[i := t']> (threads s) -> signals_ok (t_code t') = true -> queue s' = [] -> lw s'.
Proof.
  intros Hl E Ht Hq. pose proof (lw_ok_update s i t' _ Hl E Ht) as Hok. split; [done|].
  intros _. rewrite Hq, zlen_nil. pose proof (hold_nonneg s').
  pose proof (sum_nonneg contrib (threads s')) as Hs.
  assert (0 <= sum_of contrib (threads s')); [|lia]. apply Hs. intros u Hu.
  apply list_elem_of_lookup in Hu as [j Hj]. apply contrib_nonneg. by eapply Hok.
Qed.

Lemma contrib_Th x c os : contrib (Th x c os) = credit c + woken x.
Proof. done. Qed.

Lemma move_signal_lw s i c os w c' os' :
  lw s -> threads s !! i = Some (Th Running (ISignal :: c) os) -> w <> i ->
  threads s !! w = Some (Th Waiting c' os') ->
  lw (set_thread w (Th Woken c' os') (set_thread i (Th Running c os) s)).
Proof.
  intros Hl Et Hne Ew. pose proof (lw_ok _ Hl _ _ Et) as Hoi. pose proof (lw_ok _ Hl _ _ Ew) as How.
  apply signals_ok_tail in Hoi. cbn in How.
  assert (<[i := Th Running c os]> (threads s) !! w = Some (Th Waiting c' os')) as Ew'
    by (by rewrite list_lookup_insert_ne).
  split.
  - intros j u Hj. apply list_lookup_insert_Some in Hj as [(-> & <- & _)|[_ Hj]]; [done|].
    apply list_lookup_insert_Some in Hj as [(-> & <- & _)|[_ Hj]]; [done|]. by eapply lw_ok.
  - intros _. pose proof (lw_len _ Hl (ex_intro _ w (ex_intro _ _ (conj Ew eq_refl)))) as Hb.
    erewrite hold_same; [|exact Ew'|done]. erewrite hold_same; [|exact Et|done]. cbn [threads set_thread queue].
    rewrite (sum_insert contrib _ w _ _ Ew'), (sum_insert contrib _ i _ _ Et).
    rewrite !contrib_Th. cbn. lia.
Qed.

Ltac some_hold :=
  match goal with
  | |- context [hold ?s'] => let E := fresh "E" in pose proof (hold_nonneg s') as E; revert E; generalize (hold s'); intros
  end.

Lemma move_lw `{!Signalling V op} s s' : inv s -> lw s -> move s s' -> lw s'.
Proof.
  intros Hi Hl Hm. destruct Hm as [i o os Et|i c os Et Ho|i c os Et Ho|i c os Et Ho|i c os Et Hw|i c os w c' os' Et Hne Ew
    |i v c os Et Ho|i c os Et Ho Hq|i x c os Hx Et Ho Hq|i c os Et Ho Hq|i v q c os Et Ho Hq|i c os Et Ho Hq
    |i v q c os Et Ho Hq|i c os Et Ho|i c os Et];
    pose proof (lw_ok _ Hl _ _ Et) as Hok; cbn [t_code] in Hok.
  - eapply lw_update; [done|exact Et|done|apply code_signals|done|].
    pose proof (signals_ok_credit _ (code_signals o)). erewrite hold_same; [|exact Et|].
    + rewrite !contrib_Th. cbn. lia.
    + intros Ho. pose proof (inv_thread _ Hi _ _ Et) as Ht. unfold tinv in Ht. cbn in Ht.
      by rewrite (proj2 (holds_true _ _) Ho) in Ht.
  - apply signals_ok_tail in Hok. eapply lw_update; [done|exact Et|done|done|done|].
    rewrite (hold_none s) by done. some_hold. rewrite !contrib_Th. cbn. lia.
  - eapply lw_update; [done|exact Et|done|done|done|]. rewrite (hold_none s) by done.
    destruct (inv_thread _ Hi _ _ Et) as (_ & c' & E & Hs). cbn in E. subst c.
    rewrite (hold_mine _ i (Th Running (IWhileEmptyWait :: c') os)); [|done|].
    + rewrite !contrib_Th. cbn -[has_take] in *. bool_to_prop.
      assert (has_take (IWhileEmptyWait :: c') = true) as -> by done. cbn. lia.
    + cbn. apply list_lookup_insert_eq. by eapply lookup_lt_Some.
  - apply signals_ok_tail in Hok. eapply lw_update; [done|exact Et|done|done|done|].
    rewrite (hold_mine _ _ _ Ho Et), (hold_none (set_thread _ _ _)) by done.
    pose proof (safe_now _ _ _ _ _ Hi Et Ho) as Hs. cbn -[has_take] in Hs. bool_to_prop.
    assert (has_take (IUnlock :: c) = false) as E by done. cbn [t_code]. rewrite E. rewrite !contrib_Th. cbn. lia.
  - apply signals_ok_tail in Hok. split; [by eapply lw_ok_update|]. intros (j & u & Hj & Hu). exfalso.
    cbn in Hj. apply list_lookup_insert_Some in Hj as [(-> & <- & _)|[_ Hj]]; [done|].
    assert (existsb is_waiting (threads s) = true) as E; [|congruence]. apply existsb_exists. exists u.
    split; [by apply list_elem_of_In, (list_elem_of_lookup_2 _ j)|by apply bool_decide_eq_true_2].
  - by apply move_signal_lw.
  - apply signals_ok_tail in Hok. eapply lw_update; [done|exact Et|done|done|done|].
    rewrite (hold_mine _ _ _ Ho Et), (hold_mine _ i (Th Running c os)); [|done|];
      [|cbn; apply list_lookup_insert_eq; by eapply lookup_lt_Some].
    rewrite !contrib_Th. cbn. rewrite zlen_app. change (zlen [v]) with 1.
    change (has_take (IPush v :: c)) with (has_take c). lia.
  - by eapply lw_nil.
  - apply signals_ok_tail in Hok. eapply lw_update; [done|exact Et|done|done|done|].
    erewrite hold_same; [|exact Et|]; destruct Hx as [-> | ->]; rewrite ?contrib_Th; cbn; done || lia.
  - eapply lw_nil; [done|done|done|done].
  - apply signals_ok_tail in Hok. eapply lw_update; [done|exact Et|done|done|done|].
    rewrite (hold_mine _ _ _ Ho Et), Hq, zlen_cons. cbn [queue].
    some_hold. rewrite !contrib_Th. cbn. lia.
  - apply signals_ok_tail in Hok. by eapply lw_nil.
  - eapply lw_update; [done|exact Et|done|done|done|].
    rewrite (hold_mine _ _ _ Ho Et), Hq, zlen_cons. cbn [queue].
    some_hold. rewrite !contrib_Th. cbn. lia.
  - apply signals_ok_tail in Hok. eapply lw_update; [done|exact Et|done|done|done|].
    rewrite (hold_mine _ _ _ Ho Et), (hold_mine _ i (Th Running c os)); [|done|];
      [|cbn; apply list_lookup_insert_eq; by eapply lookup_lt_Some]. rewrite !contrib_Th. cbn.
    change (has_take (ITest :: c)) with (has_take c). lia.
  - eapply lw_update; [done|exact Et|done|done|done|]. erewrite hold_same; [|exact Et|done].
    rewrite !contrib_Th. cbn. lia.
Qed.

(** *** Runs *)

Lemma monitor_inv_start (calls : list (list op)) : inv (start calls).
Proof.
  split; [done| |done]. intros i t Hi. cbn in Hi. apply list_lookup_fmap_Some in Hi as (os & -> & _). done.
Qed.

Lemma lw_start (calls : list (list op)) : lw (start calls).
Proof.
  split; cbn.
  - intros i t Hi. apply list_lookup_fmap_Some in Hi as (os & -> & _). done.
  - intros (i & t & Hi & Ht). apply list_lookup_fmap_Some in Hi as (os & -> & _). done.
Qed.

Lemma step_move s r : inv s -> step code handler s r -> exists s', r = Ret s' /\ move s s'.
Proof.
  intros Hi Hs. destruct Hs as [i w s r Hx|w [x c os] s Hw Hx]; [by eapply exec_move|].
  cbn in Hx |- *. subst x. eexists. split; [done|]. by apply m_wake.
Qed.

(** What every move keeps holds in every state of a run. *)
Lemma reach_ind_moves (P : st -> Prop) s0 r :
  inv s0 -> P s0 -> (forall s s', inv s -> P s -> move s s' -> P s') ->
  reach code handler s0 r -> exists s, r = Ret s /\ inv s /\ P s.
Proof.
  intros Hi H0 Hm Hr. induction Hr as [|s r Hr IH Hs]; [by exists s0|].
  destruct IH as (s' & [= <-] & Hi' & HP). destruct (step_move s r Hi' Hs) as (s' & -> & Hmv).
  exists s'. split; [done|]. split; [by eapply move_inv|by eapply Hm].
Qed.

Lemma signal_can s i c os :
  threads s !! i = Some (Th Running (ISignal :: c) os) -> exists w r, exec code handler i w s = Some r.
Proof.
  intros Et. unfold exec. rewrite Et. cbn [t_state t_code t_calls].
  unfold Signal. destruct (existsb is_waiting _) eqn:Ex; [|by eexists 0%nat, _].
  apply existsb_exists in Ex as (t & Hin & Hw). apply list_elem_of_In, list_elem_of_lookup in Hin as [w Hw'].
  exists w. rewrite Hw', Hw. by eexists.
Qed.

Lemma stuck_free s : inv s -> stuck code handler s -> owner s = None.
Proof.
  intros Hi Hst. destruct (owner s) as [i|] eqn:Ho; [exfalso|done].
  pose proof (proj2 (holds_true _ _) Ho) as Hh.
  destruct (inv_owner _ Hi i Ho) as [[x c os] Et]. pose proof (inv_thread _ Hi _ _ Et) as Ht.
  rewrite Hh in Ht. unfold tinv in Ht. cbn in Ht. destruct x; [|by destruct Ht..].
  destruct c as [|x c]; [done|]. pose proof (Hst i 0%nat) as Hx. unfold exec in Hx. rewrite Et in Hx.
  destruct x; try done; cbn in Hx.
  by destruct (signal_can _ _ _ _ Et) as (w & r & E); rewrite Hst in E.
Qed.

Lemma stuck_threads s i t :
  inv s -> stuck code handler s -> threads s !! i = Some t -> finished t \/ t_state t = Waiting.
Proof.
  intros Hi Hst Et. pose proof (stuck_free _ Hi Hst) as Ho. destruct t as [x c os]. cbn.
  pose proof (Hst i 0%nat) as Hx. unfold exec, Lock in Hx. rewrite Et, Ho in Hx. cbn in Hx.
  destruct x; [|by right|done]. destruct c as [|x c]; [by destruct os; [left|]|].
  destruct x; try done; cbn in Hx. by destruct (signal_can _ _ _ _ Et) as (w & r & E); rewrite Hst in E.
Qed.

Lemma stuck_waiting_credit s i t :
  inv s -> threads s !! i = Some t -> t_state t = Waiting ->
  exists c, t_code t = IWhileEmptyWait :: c /\ has_take c = true /\ credit c = 0.
Proof.
  intros Hi Et Ex. pose proof (inv_thread _ Hi _ _ Et) as Ht. unfold tinv in Ht. rewrite Ex in Ht.
  destruct Ht as (_ & c & E & Hs). exists c. cbn -[has_take] in Hs. by bool_to_prop.
Qed.

Lemma stuck_queue s : inv s -> lw s -> stuck code handler s -> some_waiting (threads s) -> queue s = [].
Proof.
  intros Hi Hl Hst Hw. pose proof (lw_len _ Hl Hw) as Hb. pose proof (stuck_free _ Hi Hst) as Ho.
  rewrite (hold_none _ Ho) in Hb. rewrite sum_zero in Hb; [by apply zlen_le_0|].
  intros t Ht. apply list_elem_of_lookup in Ht as [i Et]. unfold contrib.
  destruct (stuck_threads _ _ _ Hi Hst Et) as [(-> & -> & _)|Ex]; [done|].
  destruct (stuck_waiting_credit _ _ _ Hi Et Ex) as (c & -> & _ & E). rewrite Ex. cbn. lia.
Qed.
End proofs.

(** *** The end of the workers *)

Section exit_work.
Context {job : Type} (is_exit : job -> bool) (DoJob : nat -> job -> list job).
Hypothesis DoJob_no_exit : forall i v, Forall (fun u => is_exit u = false) (DoJob i v).
Abbreviation op := (JobQueue.op job).
Abbreviation handler := (SummerWorkerMng.childThreadRun is_exit DoJob).
Implicit Types (s : st job op) (t : thread job op).

(** The weight of what a thread has still to do. *)
Definition op_weight (f : instr job -> Z) (o : op) : Z := sum_of f (code o).
Definition thread_weight (f : instr job -> Z) t : Z :=
  sum_of f (t_code t) + sum_of (op_weight f) (t_calls t).

Definition w_pop (x : instr job) : Z := match x with ITake => 1 | _ => 0 end.
Definition w_exit (x : instr job) : Z := match x with IPush v => b2z (is_exit v) | _ => 0 end.
Definition exits (l : list job) : Z := sum_of (fun v => b2z (is_exit v)) l.

(** A call of [PushJob] or [PopJob] and what may be left of one. *)
Definition plain (o : op) : Prop :=
  match o with JobQueue.PushJob _ | JobQueue.PopJob => True | _ => False end.
Definition busy (c : list (instr job)) : Prop := exists o, plain o /\ c `suffix_of` code o.

Record worker_ok t : Prop := {
  ok_busy : busy (t_code t);
  ok_plain : Forall plain (t_calls t);
  ok_role : thread_weight w_pop t = 0 \/ thread_weight w_exit t = 0
}.

Record exit_inv (n : Z) s : Prop := {
  ex_ok i t : threads s !! i = Some t -> worker_ok t;
  ex_taken : exits (map snd (taken s)) + sum_of (thread_weight w_pop) (threads s) = n;
  ex_pushed : n <= exits (pushed s) + sum_of (thread_weight w_exit) (threads s)
}.

Lemma weight_nonneg (f : instr job -> Z) t : (forall x, 0 <= f x) -> 0 <= thread_weight f t.
Proof.
  intros Hf. unfold thread_weight.
  pose proof (sum_nonneg f (t_code t) (fun x _ => Hf x)).
  pose proof (sum_nonneg (op_weight f) (t_calls t) (fun o _ => sum_nonneg f (code o) (fun x _ => Hf x))). lia.
Qed.

Lemma w_pop_nonneg x : 0 <= w_pop x.
Proof. by destruct x. Qed.
Lemma w_exit_nonneg x : 0 <= w_exit x.
Proof. destruct x; cbn; try done. by destruct (is_exit v). Qed.

Lemma busy_tail x c : busy (x :: c) -> busy c.
Proof. intros (o & Ho & Hs). exists o. split; [done|]. by eapply suffix_cons_l. Qed.

Lemma busy_code o : plain o -> busy (code o).
Proof. intros Ho. by exists o. Qed.

(** What can follow an instruction of the two methods. *)
Lemma busy_shape x c :
  busy (x :: c) ->
  match x with
  | IWhileEmptyWait => c = [INullIfEmpty; ITake; IUnlock]
  | INullIfEmpty => c = [ITake; IUnlock]
  | ITakeLoop | ITest => False
  | _ => True
  end.
Proof.
  intros (o & Ho & k & E). destruct o; try done; cbn in E;
    destruct k as [|? [|? [|? [|? [|? [|]]]]]]; cbn in E; by simplify_eq.
Qed.

(** A thread goes from [t] to [t'], with [a] new exit jobs pushed and [b] taken. *)
Lemma exit_update n s s' i t t' a b :
  exit_inv n s -> threads s !! i = Some t -> threads s' = <[i := t']> (threads s) -> worker_ok t' ->
  exits (pushed s') = exits (pushed s) + a -> exits (map snd (taken s')) = exits (map snd (taken s)) + b ->
  thread_weight w_exit t <= thread_weight w_exit t' + a -> thread_weight w_pop t' + b = thread_weight w_pop t ->
  exit_inv n s'.
Proof.
  intros [Hok Ht Hp] Et E Ht' Ha Hb Hwa Hwb. split.
  - intros j u Hj. rewrite E in Hj. apply list_lookup_insert_Some in Hj as [(-> & <- & _)|[_ Hj]]; [done|].
    by eapply Hok.
  - rewrite E, (sum_insert _ _ i t t') by done. lia.
  - rewrite E, (sum_insert _ _ i t t') by done. lia.
Qed.

(** The executed instruction is behind the thread. *)
Lemma worker_ok_tail x y c os : worker_ok (Th x (y :: c) os) -> worker_ok (Th Running c os).
Proof.
  intros [Hb Hp Hr]. split; cbn in *; [by eapply busy_tail|done|].
  pose proof (weight_nonneg w_pop (Th Running c os) w_pop_nonneg) as H1.
  pose proof (weight_nonneg w_exit (Th Running c os) w_exit_nonneg) as H2.
  pose proof (w_pop_nonneg y). pose proof (w_exit_nonneg y). unfold thread_weight in *. cbn in *.
  destruct Hr; [left|right]; lia.
Qed.

Lemma handler_plain i v : Forall plain (handler i v).
Proof.
  unfold SummerWorkerMng.childThreadRun. destruct (is_exit v); [done|].
  apply Forall_app. split; [|by repeat constructor]. by apply Forall_fmap, Forall_true.
Qed.

Lemma handler_pops i v : sum_of (op_weight w_pop) (handler i v) = 1 - b2z (is_exit v).
Proof.
  unfold SummerWorkerMng.childThreadRun. destruct (is_exit v); [done|].
  rewrite sum_app, sum_zero; [done|]. intros o Ho. by apply list_elem_of_fmap in Ho as (u & -> & _).
Qed.

Lemma handler_exits i v : sum_of (op_weight w_exit) (handler i v) = 0.
Proof.
  unfold SummerWorkerMng.childThreadRun. destruct (is_exit v); [done|].
  rewrite sum_app, sum_zero; [done|]. intros o Ho. apply list_elem_of_fmap in Ho as (u & -> & Hu).
  pose proof (proj1 (Forall_forall _ _) (DoJob_no_exit i v) u Hu) as E. cbn. by rewrite E.
Qed.

Lemma exits_app l k : exits (l ++ k) = exits l + exits k.
Proof. apply sum_app. Qed.

(** A thread that takes [v] and goes on with what its handler says. *)
Lemma worker_ok_take i v c os :
  worker_ok (Th Running (ITake :: c) os) -> worker_ok (Th Running c (handler i v ++ os)).
Proof.
  intros [Hb Hp Hr]. split; cbn in *; [by eapply busy_tail| |].
  - apply Forall_app. split; [apply handler_plain|done].
  - unfold thread_weight in *. cbn in *. rewrite !sum_app, handler_exits. right.
    pose proof (weight_nonneg w_pop (Th Running c os) w_pop_nonneg) as H1. unfold thread_weight in H1. cbn in H1.
    destruct Hr; lia.
Qed.

Lemma worker_ok_call o os : worker_ok (Th Running [] (o :: os)) -> worker_ok (Th Running (code o) os).
Proof.
  intros [_ Hp Hr]. cbn in Hp. apply Forall_cons in Hp as [Ho Hp].
  split; [by apply busy_code|done|]. exact Hr.
Qed.

Lemma worker_ok_state x y c os : worker_ok (Th x c os) -> worker_ok (Th y c os).
Proof. by intros []. Qed.

Ltac weigh := unfold thread_weight, op_weight; cbn; lia.

Lemma exit_tail n s i x y c os o :
  exit_inv n s -> threads s !! i = Some (Th x (y :: c) os) -> w_pop y = 0 -> w_exit y = 0 ->
  exit_inv n (set_thread i (Th Running c os) (set_owner o s)).
Proof.
  intros Hx Et H1 H2. eapply (exit_update n s _ i _ (Th Running c os) 0 0); try done; try by rewrite Z.add_0_r.
  - eapply worker_ok_tail, (ex_ok _ _ Hx _ _ Et).
  - weigh.
  - weigh.
Qed.

Lemma exit_state n s i x y c os o :
  exit_inv n s -> threads s !! i = Some (Th x c os) ->
  exit_inv n (set_thread i (Th y c os) (set_owner o s)).
Proof.
  intros Hx Et. eapply (exit_update n s _ i _ (Th y c os) 0 0); try done; try by rewrite Z.add_0_r.
  eapply worker_ok_state, (ex_ok _ _ Hx _ _ Et).
Qed.

(** About to test the queue for null. *)
Definition at_null t : Prop := t_state t = Running /\ exists c, t_code t = INullIfEmpty :: c.

Lemma move_exit n s s' :
  (forall i t, threads s !! i = Some t -> at_null t -> queue s <> []) -> exit_inv n s -> move handler s s' -> exit_inv n s'.
Proof.
  intros Hnull Hx Hm. destruct Hm as [i o os Et|i c os Et Ho|i c os Et Ho|i c os Et Ho|i c os Et Hw|i c os w c' os' Et Hne Ew
    |i v c os Et Ho|i c os Et Ho Hq|i x c os Hxx Et Ho Hq|i c os Et Ho Hq|i v q c os Et Ho Hq|i c os Et Ho Hq
    |i v q c os Et Ho Hq|i c os Et Ho|i c os Et]; pose proof (ex_ok _ _ Hx _ _ Et) as Hok.
  - eapply (exit_update n s _ i _ (Th Running (code o) os) 0 0); try done; try (by rewrite Z.add_0_r);
      [by apply worker_ok_call|weigh..].
  - by eapply exit_tail.
  - by eapply exit_state.
  - by eapply exit_tail.
  - by apply (exit_tail n s i Running ISignal c os (owner s)).
  - apply (exit_state n (set_thread i (Th Running c os) s) w Waiting Woken c' os' (owner s)).
    + by apply (exit_tail n s i Running ISignal c os (owner s)).
    + cbn. by rewrite list_lookup_insert_ne.
  - eapply (exit_update n s _ i _ (Th Running c os) (b2z (is_exit v)) 0); try done.
    + by eapply worker_ok_tail.
    + cbn [pushed]. rewrite exits_app. cbn. lia.
    + by rewrite Z.add_0_r.
    + weigh.
    + weigh.
  - by eapply exit_state.
  - apply (exit_tail n s i Running x c os (owner s)); [done|done|by destruct Hxx as [-> | ->]..].
  - exfalso. apply (Hnull i _ Et); [|done]. split; [done|by eexists].
  - eapply (exit_update n s _ i _ (Th Running c (handler i v ++ os)) 0 (b2z (is_exit v))); try done.
    + by apply worker_ok_take.
    + by rewrite Z.add_0_r.
    + cbn [taken]. rewrite map_app, exits_app. cbn. lia.
    + unfold thread_weight. cbn. rewrite sum_app, handler_exits. lia.
    + unfold thread_weight. cbn. rewrite sum_app, handler_pops. lia.
  - by destruct (busy_shape _ _ (ok_busy _ Hok)).
  - by destruct (busy_shape _ _ (ok_busy _ Hok)).
  - by destruct (busy_shape _ _ (ok_busy _ Hok)).
  - by apply (exit_state n s i Waiting Woken c os (owner s)).
Qed.

Lemma exit_start n work exit_job :
  is_exit exit_job = true -> Forall (fun v => is_exit v = false) work ->
  exit_inv (Z.of_nat n) (SummerWorkerMng.pool n work exit_job).
Proof.
  intros He Hw.
  assert (sum_of (thread_weight w_pop) (map (Th Running []) (replicate n [JobQueue.PopJob])) = Z.of_nat n /\
          sum_of (thread_weight w_exit) (map (Th Running []) (replicate n [@JobQueue.PopJob job])) = 0) as [Hp Hx].
  { clear. induction n as [|n [IH1 IH2]]; cbn [replicate map sum_of]; [done|]. rewrite IH1, IH2.
    split; [change (1 + Z.of_nat n = Z.of_nat (S n)); lia|done]. }
  assert (forall l, sum_of (op_weight w_pop) (map JobQueue.PushJob l) = 0 /\
                    sum_of (op_weight w_exit) (map JobQueue.PushJob l) = exits l) as Hm.
  { clear. intros l. induction l as [|v l [IH1 IH2]]; [done|]. cbn [map sum_of exits].
    rewrite IH1, IH2. unfold exits. cbn. lia. }
  assert (SummerWorkerMng.ExitWork n exit_job = map JobQueue.PushJob (replicate n exit_job)) as Er.
  { unfold SummerWorkerMng.ExitWork. by rewrite fmap_replicate. }
  unfold SummerWorkerMng.pool. rewrite Er. split; cbn [threads start taken pushed map sum_of].
  - intros [|i] t Hi; cbn in Hi.
    + injection Hi as <-. split; cbn; [exists JobQueue.PopJob; split; [done|]; apply suffix_nil| |].
      * apply Forall_app. by split; apply Forall_fmap, Forall_true.
      * left. unfold thread_weight. cbn. rewrite sum_app, !(proj1 (Hm _)). done.
    + apply list_lookup_fmap_Some in Hi as (os & -> & Hi). apply lookup_replicate in Hi as [-> _].
      split; cbn; [exists JobQueue.PopJob; split; [done|]; apply suffix_nil|by repeat constructor|by right].
  - rewrite Hp. unfold thread_weight. cbn. rewrite sum_app, !(proj1 (Hm _)). lia.
  - rewrite Hx. unfold thread_weight. cbn. rewrite sum_app, !(proj2 (Hm _)).
    assert (exits work = 0) as ->.
    { apply sum_zero. intros v Hv. by rewrite (proj1 (Forall_forall _ _) Hw v Hv). }
    assert (exits (replicate n exit_job) = Z.of_nat n) as ->; [|lia].
    clear -He. unfold exits. induction n; [done|]. cbn [replicate sum_of]. rewrite IHn, He. cbn. lia.
Qed.

(** *** What each child takes *)

Definition taken_by (i : nat) s : list job := map snd (filter (fun p => p.1 = i) (taken s)).

(** Jobs, and an exit job after them once nothing is [left] to take. *)
Definition worked (l : list job) (left role : Z) : Prop :=
  exists k e, l = k ++ e /\ Forall (fun v => is_exit v = false) k /\
    (e = [] \/ exists v, e = [v] /\ is_exit v = true) /\ zlen e + left = role.

(** The owner takes nothing. *)
Definition role (i : nat) : Z := match i with O => 0 | S _ => 1 end.

Record child_inv s : Prop := {
  ci_null i t : threads s !! i = Some t -> at_null t -> queue s <> [];
  ci_worked i t : threads s !! i = Some t -> worked (taken_by i s) (thread_weight w_pop t) (role i)
}.

Lemma busy_null y c : busy (y :: INullIfEmpty :: c) -> y = IWhileEmptyWait.
Proof.
  intros (o & Ho & k & E). destruct o; try done; cbn in E;
    destruct k as [|? [|? [|? [|? [|? [|]]]]]]; cbn in E; by simplify_eq.
Qed.

(** The test for null is made with the mutex. *)
Lemma null_owner s i t : inv s -> threads s !! i = Some t -> at_null t -> owner s = Some i.
Proof.
  intros Hi Et (Ex & c & Ec). pose proof (inv_thread _ Hi _ _ Et) as Ht. unfold tinv in Ht. rewrite Ex, Ec in Ht. cbn in Ht.
  apply holds_true. by destruct (holds s i).
Qed.

Lemma worked_take l v left left' r : worked l left r -> r <= 1 -> 1 <= left -> left' + b2z (is_exit v) = left -> worked (l ++ [v]) left' r.
Proof.
  intros (k & e & -> & Hk & He & Hl) Hr H1 Hv. assert (e = []) as ->.
  { destruct He as [->|(w & -> & _)]; [done|]. unfold zlen in Hl. cbn in Hl. lia. }
  rewrite app_nil_r in *. unfold zlen in *. cbn in Hl. destruct (is_exit v) eqn:Ev; cbn in Hv.
  - exists k, [v]. split_and!; [done|done|right; eauto|unfold zlen; cbn; lia].
  - exists (k ++ [v]), []. split_and!; [by rewrite app_nil_r|by apply Forall_app; split; [|constructor]|by left|unfold zlen; cbn; lia].
Qed.

Lemma taken_by_app i s s' l : taken s' = taken s ++ l -> taken_by i s' = taken_by i s ++ map snd (filter (fun p => p.1 = i) l).
Proof. intros E. unfold taken_by. by rewrite E, filter_app, map_app. Qed.

(** Thread [i] goes from [t] to [t'] and takes [l]. *)
Lemma child_update s s' i t t' l : inv s -> child_inv s -> threads s !! i = Some t -> threads s' = <[i := t']> (threads s) ->
  taken s' = taken s ++ map (pair i) l -> (queue s' = queue s \/ owner s = Some i) -> (at_null t' -> queue s' <> []) ->
  (l = [] /\ thread_weight w_pop t' = thread_weight w_pop t \/
   exists v, l = [v] /\ 1 <= thread_weight w_pop t /\ thread_weight w_pop t' + b2z (is_exit v) = thread_weight w_pop t) ->
  child_inv s'.
Proof.
  intros Hi [Hn Hw] Et Ets Etk Eq Hn' Hl. split.
  - intros j u Hj Hu. rewrite Ets in Hj. apply list_lookup_insert_Some in Hj as [(-> & <- & _)|[Hne Hj]]; [by apply Hn'|].
    pose proof (null_owner _ _ _ Hi Hj Hu) as Ho. destruct Eq as [->|Ho']; [by eapply Hn|congruence].
  - intros j u Hj. rewrite Ets in Hj. rewrite (taken_by_app j _ _ _ Etk).
    apply list_lookup_insert_Some in Hj as [(-> & <- & _)|[Hne Hj]].
    + destruct Hl as [[-> ->]|(v & -> & H1 & Hv)].
      * cbn. rewrite app_nil_r. by apply Hw.
      * cbn [map]. rewrite filter_cons_True by done. cbn. eapply worked_take; [by apply Hw| |done|done]. by destruct j.
    + rewrite filter_all_false; [rewrite app_nil_r; by apply Hw|]. intros p (v & -> & _)%list_elem_of_fmap. cbn. congruence.
Qed.

(** An instruction that neither takes nor touches the queue. *)
Lemma child_tail s i x y c os o : inv s -> worker_ok (Th x (y :: c) os) -> child_inv s ->
  threads s !! i = Some (Th x (y :: c) os) -> w_pop y = 0 -> y <> IWhileEmptyWait ->
  child_inv (set_thread i (Th Running c os) (set_owner o s)).
Proof.
  intros Hi Hok Hc Et Hy Hne. eapply (child_update s _ i _ (Th Running c os) []); try done.
  - cbn. by rewrite app_nil_r.
  - by left.
  - intros (_ & c' & Ec). cbn in Ec. subst c. by apply ok_busy, busy_null in Hok.
  - left. split; [done|]. weigh.
Qed.

Lemma child_state s i x y c os o : inv s -> child_inv s -> threads s !! i = Some (Th x c os) ->
  (y = Running -> head c <> Some INullIfEmpty) -> child_inv (set_thread i (Th y c os) (set_owner o s)).
Proof.
  intros Hi Hc Et Hy. eapply (child_update s _ i _ (Th y c os) []); try done.
  - cbn. by rewrite app_nil_r.
  - by left.
  - intros (Ey & c' & Ec). cbn in Ey, Ec. subst. by destruct (Hy eq_refl).
  - by left.
Qed.

Lemma waiting_head s i x c os : inv s -> threads s !! i = Some (Th x c os) -> x <> Running -> head c <> Some INullIfEmpty.
Proof.
  intros Hi Et Hx. pose proof (inv_thread _ Hi _ _ Et) as Ht. unfold tinv in Ht. cbn in Ht.
  destruct x; [done|..]; destruct Ht as (_ & c' & -> & _); done.
Qed.

Lemma pop_left c os : 1 <= thread_weight w_pop (Th Running (ITake :: c) os).
Proof. pose proof (weight_nonneg w_pop (Th Running c os) w_pop_nonneg) as H. unfold thread_weight in *. cbn in *. lia. Qed.

Lemma move_child n s s' : inv s -> exit_inv n s -> child_inv s -> move handler s s' -> child_inv s'.
Proof.
  intros Hi Hx Hc Hm. destruct Hm as [i o os Et|i c os Et Ho|i c os Et Ho|i c os Et Ho|i c os Et Hw|i c os w c' os' Et Hne Ew
    |i v c os Et Ho|i c os Et Ho Hq|i x c os Hxx Et Ho Hq|i c os Et Ho Hq|i v q c os Et Ho Hq|i c os Et Ho Hq
    |i v q c os Et Ho Hq|i c os Et Ho|i c os Et]; pose proof (ex_ok _ _ Hx _ _ Et) as Hok.
  - eapply (child_update s _ i _ (Th Running (code o) os) []); try done.
    + cbn. by rewrite app_nil_r.
    + by left.
    + intros (_ & c & Ec). cbn in Ec. by destruct o.
    + by left.
  - by eapply child_tail.
  - eapply child_state; [done|done|exact Et|]. intros _. by eapply waiting_head.
  - by eapply child_tail.
  - by apply (child_tail s i Running ISignal c os (owner s)).
  - pose proof (child_tail s i Running ISignal c os (owner s) Hi Hok Hc Et eq_refl ltac:(done)) as H1.
    assert (threads (set_thread i (Th Running c os) s) !! w = Some (Th Waiting c' os')) as Ew' by (cbn; by rewrite list_lookup_insert_ne).
    assert (inv (set_thread i (Th Running c os) s)) as Hi1.
    { eapply (inv_set_thread s i _ (Th Running c os)); [done|exact Et|].
      pose proof (inv_running _ _ _ _ _ Hi Et) as Hs. exact Hs. }
    by apply (child_state (set_thread i (Th Running c os) s) w Waiting Woken c' os' (owner s)).
  - eapply (child_update s _ i _ (Th Running c os) []); try done.
    + cbn. by rewrite app_nil_r.
    + by right.
    + intros _. cbn. by destruct (queue s).
    + left. split; [done|]. weigh.
  - by eapply child_state.
  - destruct Hxx as [-> | ->].
    + eapply (child_update s _ i _ (Th Running c os) []); try done; [cbn; by rewrite app_nil_r|by left|left; split; [done|weigh]].
    + by apply (child_tail s i Running INullIfEmpty c os (owner s)).
  - exfalso. apply (ci_null _ Hc i _ Et); [|done]. split; [done|by eexists].
  - eapply (child_update s _ i _ (Th Running c (handler i v ++ os)) [v]); try done.
    + by right.
    + intros (_ & c' & Ec). cbn in Ec. subst c. by apply ok_busy, busy_null in Hok.
    + right. exists v. split_and!; [done|apply pop_left|]. unfold thread_weight. cbn. rewrite sum_app, handler_pops. lia.
  - by destruct (busy_shape _ _ (ok_busy _ Hok)).
  - by destruct (busy_shape _ _ (ok_busy _ Hok)).
  - by destruct (busy_shape _ _ (ok_busy _ Hok)).
  - apply (child_state s i Waiting Woken c os (owner s)); done.
Qed.

Lemma child_start n work exit_job : child_inv (SummerWorkerMng.pool n work exit_job).
Proof.
  assert (forall l, sum_of (op_weight w_pop) (map (@JobQueue.PushJob job) l) = 0) as Hm.
  { clear. intros l. induction l as [|v l IH]; [done|]. cbn [map sum_of]. rewrite IH. done. }
  unfold SummerWorkerMng.pool. split; cbn [threads start].
  - intros i t Hi (_ & c & Ec). cbn in Hi. destruct i; cbn in Hi; [by injection Hi as <-|].
    by apply list_lookup_fmap_Some in Hi as (os & -> & _).
  - intros i t Hi. exists [], []. split_and!; [done|constructor|by left|]. unfold zlen. cbn [length].
    destruct i as [|i]; cbn in Hi.
    + injection Hi as <-. unfold thread_weight. cbn [t_code t_calls sum_of]. unfold SummerWorkerMng.ExitWork.
      rewrite <- fmap_replicate, sum_app, !Hm. done.
    + apply list_lookup_fmap_Some in Hi as (os & -> & Hi). by apply lookup_replicate in Hi as [-> _].
Qed.

(** *** What is pushed, and in what order *)

Definition push_of (x : instr job) : option job := match x with IPush v => Some v | _ => None end.

(** What a thread has still to push. *)
Definition pend t : list job := omap push_of (t_code t) ++ concat (map (fun o => omap push_of (code o)) (t_calls t)).

(** What the jobs that were taken push. *)
Definition born (l : list (nat * job)) : list job :=
  concat (map (fun p => if is_exit p.2 then [] else DoJob p.1 p.2) l).

(** [own] is what the owner pushes, in this order. *)
Record push_inv (own : list job) s : Prop := {
  pu_all : pushed s ++ concat (map pend (threads s)) ≡ₚ own ++ born (taken s);
  pu_own : exists t, threads s !! 0%nat = Some t /\ sublist own (pushed s ++ pend t)
}.

Lemma concat_update {A} (f : A -> list job) l i x y :
  l !! i = Some x -> exists r, concat (map f l) ≡ₚ f x ++ r /\ concat (map f (<[i := y]> l)) ≡ₚ f y ++ r.
Proof.
  intros Hl. exists (concat (map f (take i l)) ++ concat (map f (drop (S i) l))).
  split; [rewrite <- (take_drop_middle l i x Hl) at 1|rewrite insert_take_drop by (by eapply lookup_lt_Some)];
    rewrite map_app, concat_app; cbn; apply Permutation_app_swap_app.
Qed.

Lemma push_update own s s' i t t' a b :
  push_inv own s -> threads s !! i = Some t -> threads s' = <[i := t']> (threads s) ->
  pushed s' = pushed s ++ a -> taken s' = taken s ++ b ->
  pend t ++ born b ≡ₚ a ++ pend t' -> sublist (pend t) (a ++ pend t') -> push_inv own s'.
Proof.
  intros [Ha (t0 & E0 & Hs0)] Et Ets Ep Etk Hab Hsub. destruct (concat_update pend _ _ _ t' Et) as (r & E1 & E2). split.
  - rewrite Ets, Ep, Etk, E2. unfold born in *. rewrite map_app, concat_app, (app_assoc own), <- Ha, E1.
    rewrite <- (app_assoc (pushed s) a), (app_assoc a), <- Hab, <- !app_assoc. do 2 f_equiv. apply Permutation_app_comm.
  - rewrite Ets, Ep. destruct (decide (i = 0%nat)) as [->|Hne].
    + exists t'. split; [apply list_lookup_insert_eq; by eapply lookup_lt_Some|]. etrans; [exact Hs0|].
      assert (t0 = t) as -> by congruence. rewrite <- app_assoc. by apply sublist_app.
    + exists t0. split; [by rewrite list_lookup_insert_ne|]. etrans; [exact Hs0|]. rewrite <- app_assoc.
      apply sublist_app; [done|]. by apply sublist_inserts_l.
Qed.

(** An instruction that neither pushes nor takes. *)
Lemma push_tail own s i x y z c os o :
  push_inv own s -> threads s !! i = Some (Th x (y :: c) os) -> push_of y = None ->
  push_inv own (set_thread i (Th z c os) (set_owner o s)).
Proof.
  intros Hp Et Hy. eapply (push_update own s _ i _ (Th z c os) [] []); try done; try (cbn; by rewrite app_nil_r);
    unfold pend; cbn; rewrite Hy; [by rewrite app_nil_r|done].
Qed.

Lemma push_state own s i x y c os o :
  push_inv own s -> threads s !! i = Some (Th x c os) -> push_inv own (set_thread i (Th y c os) (set_owner o s)).
Proof.
  intros Hp Et. by eapply (push_update own s _ i _ (Th y c os) [] []); try done; cbn; rewrite app_nil_r.
Qed.

Lemma pend_handler i v : concat (map (fun o => omap push_of (code o)) (handler i v)) = born [(i, v)].
Proof.
  unfold SummerWorkerMng.childThreadRun, born. cbn. destruct (is_exit v); [done|]. cbn. rewrite map_app, concat_app, app_nil_r. cbn.
  rewrite app_nil_r. induction (DoJob i v) as [|u l IH]; [done|]. cbn. by rewrite IH.
Qed.

Lemma move_push n own s s' : exit_inv n s -> child_inv s -> push_inv own s -> move handler s s' -> push_inv own s'.
Proof.
  intros Hx Hc Hp Hm. destruct Hm as [i o os Et|i c os Et Ho|i c os Et Ho|i c os Et Ho|i c os Et Hw|i c os w c' os' Et Hne Ew
    |i v c os Et Ho|i c os Et Ho Hq|i x c os Hxx Et Ho Hq|i c os Et Ho Hq|i v q c os Et Ho Hq|i c os Et Ho Hq
    |i v q c os Et Ho Hq|i c os Et Ho|i c os Et]; pose proof (ex_ok _ _ Hx _ _ Et) as Hok.
  - by eapply (push_update own s _ i _ (Th Running (code o) os) [] []); try done; cbn; rewrite app_nil_r.
  - by eapply push_tail.
  - by eapply push_state.
  - by eapply push_tail.
  - by apply (push_tail own s i Running ISignal Running c os (owner s)).
  - apply (push_state own (set_thread i (Th Running c os) s) w Waiting Woken c' os' (owner s)).
    + by apply (push_tail own s i Running ISignal Running c os (owner s)).
    + cbn. by rewrite list_lookup_insert_ne.
  - by eapply (push_update own s _ i _ (Th Running c os) [v] []); try done; cbn; rewrite app_nil_r.
  - by eapply push_state.
  - apply (push_tail own s i Running x Running c os (owner s)); [done|done|by destruct Hxx as [-> | ->]].
  - exfalso. apply (ci_null _ Hc i _ Et); [|done]. split; [done|by eexists].
  - eapply (push_update own s _ i _ (Th Running c (handler i v ++ os)) [] [(i, v)]); try done; try (cbn; by rewrite app_nil_r);
      unfold pend; cbn [t_code t_calls omap list_omap push_of]; rewrite map_app, concat_app, pend_handler.
    + cbn [app]. rewrite <- app_assoc. f_equiv. apply Permutation_app_comm.
    + cbn [app]. apply sublist_app; [done|]. by apply sublist_inserts_l.
  - by destruct (busy_shape _ _ (ok_busy _ Hok)).
  - by destruct (busy_shape _ _ (ok_busy _ Hok)).
  - by destruct (busy_shape _ _ (ok_busy _ Hok)).
  - by apply (push_state own s i Waiting Woken c os (owner s)).
Qed.

Lemma push_start n work exit_job : push_inv (work ++ replicate n exit_job) (SummerWorkerMng.pool n work exit_job).
Proof.
  unfold SummerWorkerMng.pool, SummerWorkerMng.ExitWork. rewrite <- fmap_replicate.
  assert (forall l, concat (map (fun o => omap push_of (code o)) (map (@JobQueue.PushJob job) l)) = l) as Hl.
  { induction l as [|v l IH]; [done|]. cbn [map concat]. by rewrite IH. }
  assert (concat (map pend (map (Th Running []) (replicate n [@JobQueue.PopJob job]))) = []) as Hk.
  { induction n as [|n IH]; [done|]. cbn. exact IH. }
  split; cbn [threads pushed taken start map concat].
  - unfold pend at 1. cbn [t_code t_calls omap list_omap app]. rewrite <- map_app, Hl, Hk. done.
  - eexists. split; [done|]. unfold pend. cbn [t_code t_calls omap list_omap app]. by rewrite <- map_app, Hl.
Qed.

(** When the exit jobs are all taken, so is what the owner pushed before them. *)
Lemma own_taken n work exit_job (taken_ rest : list job) :
  (0 < n)%nat -> is_exit exit_job = true -> Forall (fun v => is_exit v = false) rest ->
  sublist (work ++ replicate n exit_job) (taken_ ++ rest) -> sublist (work ++ replicate n exit_job) taken_.
Proof.
  intros Hn He Hr Hs. apply sublist_app_r in Hs as (l1 & l2 & E & H1 & H2).
  destruct l2 as [|v l2 _] using rev_ind; [rewrite app_nil_r in E; by rewrite E|]. exfalso.
  destruct n as [|n]; [lia|]. rewrite replicate_S_end, !app_assoc in E. apply app_inj_tail in E as [_ <-].
  assert (exit_job ∈ rest) as Hin by (eapply elem_of_sublist; [|exact H2]; apply elem_of_app; right; by left).
  by rewrite (proj1 (Forall_forall _ _) Hr _ Hin) in He.
Qed.

Lemma move_length s s' : move handler s s' -> length (threads s') = length (threads s).
Proof. destruct 1; cbn; by rewrite ?length_insert. Qed.

Lemma pool_length n work exit_job : length (threads (SummerWorkerMng.pool n work exit_job : st job op)) = S n.
Proof. cbn. by rewrite length_map, length_replicate. Qed.

Lemma exit_stuck n s i t :
  inv s -> lw s -> exit_inv n s -> stuck code handler s -> threads s !! i = Some t -> finished t.
Proof.
  intros Hi Hl Hx Hst Et. destruct (stuck_threads _ _ _ _ Hi Hst Et) as [Hf|Hw]; [done|exfalso].
  assert (forall j u, threads s !! j = Some u -> t_state u = Waiting -> 1 <= thread_weight w_pop u) as Hpop.
  { intros j u Eu Hu. destruct (stuck_waiting_credit _ _ _ Hi Eu Hu) as (c & Ec & _).
    pose proof (ok_busy _ (ex_ok _ _ Hx _ _ Eu)) as Hb. rewrite Ec in Hb. apply busy_shape in Hb as ->.
    unfold thread_weight. rewrite Ec. cbn.
    pose proof (sum_nonneg (op_weight w_pop) (t_calls u) (fun o _ => sum_nonneg w_pop (code o) (fun x _ => w_pop_nonneg x))).
    lia. }
  assert (queue s = []) as Hq by (eapply stuck_queue; [done|done|done|by exists i, t]).
  pose proof (inv_fifo _ Hi) as Hf. rewrite Hq, app_nil_r in Hf.
  assert (sum_of (thread_weight w_exit) (threads s) = 0) as He.
  { apply sum_zero. intros u Hu. apply list_elem_of_lookup in Hu as [j Eu].
    destruct (stuck_threads _ _ _ _ Hi Hst Eu) as [(_ & E1 & E2)|Hu].
    - unfold thread_weight. by rewrite E1, E2.
    - specialize (Hpop j u Eu Hu). destruct (ok_role _ (ex_ok _ _ Hx _ _ Eu)); [lia|done]. }
  pose proof (ex_pushed _ _ Hx) as H1. pose proof (ex_taken _ _ Hx) as H2. rewrite Hf in H1.
  pose proof (sum_elem (thread_weight w_pop) (threads s) t
                (fun u _ => weight_nonneg w_pop u w_pop_nonneg) (list_elem_of_lookup_2 _ _ _ Et)) as H3.
  pose proof (Hpop i t Et Hw). lia.
Qed.

(** *** Together *)

Definition pool_inv n work exit_job s : Prop :=
  lw s /\ exit_inv (Z.of_nat n) s /\ child_inv s /\ push_inv (work ++ replicate n exit_job) s /\ length (threads s) = S n.

Lemma pool_inv_start n work exit_job :
  is_exit exit_job = true -> Forall (fun v => is_exit v = false) work ->
  pool_inv n work exit_job (SummerWorkerMng.pool n work exit_job).
Proof.
  intros He Hw. split_and!; [by apply lw_start|by apply exit_start|apply child_start|apply push_start|apply pool_length].
Qed.

Lemma move_pool n work exit_job s s' : inv s -> pool_inv n work exit_job s -> move handler s s' -> pool_inv n work exit_job s'.
Proof.
  intros Hi (Hl & Hx & Hc & Hp & Hlen) Hm. split_and!.
  - exact (move_lw _ s s' Hi Hl Hm).
  - apply (move_exit _ s); [exact (ci_null _ Hc)|done|done].
  - by eapply move_child.
  - by eapply move_push.
  - by rewrite (move_length s s' Hm).
Qed.

Lemma exits_none l : exits l = 0 -> Forall (fun v => is_exit v = false) l.
Proof.
  induction l as [|v l IH]; [constructor|]. unfold exits in *. cbn. intros E.
  assert (0 <= sum_of (fun v => b2z (is_exit v)) l) as Hn by (apply sum_nonneg; intros u _; by destruct (is_exit u)).
  destruct (is_exit v) eqn:Ev; cbn in E; [lia|]. constructor; [done|]. apply IH. lia.
Qed.

Lemma none_exits l : Forall (fun v => is_exit v = false) l -> exits l = 0.
Proof. intros Hl. apply sum_zero. intros v Hv. by rewrite (proj1 (Forall_forall _ _) Hl v Hv). Qed.

Lemma exits_perm l l' : l ≡ₚ l' -> exits l = exits l'.
Proof. unfold exits. induction 1; cbn; lia. Qed.

Lemma born_no_exit l : exits (born l) = 0.
Proof.
  apply none_exits. unfold born. apply Forall_concat, Forall_map, Forall_true. intros [i v]. cbn.
  destruct (is_exit v); [constructor|apply DoJob_no_exit].
Qed.

(** All have finished: what was pushed, and that no exit job is left. *)
Lemma pool_drained n work exit_job s :
  (forall i t, threads s !! i = Some t -> finished t) -> is_exit exit_job = true -> Forall (fun v => is_exit v = false) work ->
  exit_inv (Z.of_nat n) s -> push_inv (work ++ replicate n exit_job) s -> pushed s = map snd (taken s) ++ queue s ->
  pushed s ≡ₚ work ++ replicate n exit_job ++ born (taken s) /\ Forall (fun v => is_exit v = false) (queue s).
Proof.
  intros Hfin He Hw Hx Hp Hfifo.
  assert (Forall (fun t => pend t = [] /\ thread_weight w_pop t = 0) (threads s)) as Hdone.
  { apply Forall_lookup. intros i t Et. destruct (Hfin i t Et) as (_ & E1 & E2). unfold pend, thread_weight. by rewrite E1, E2. }
  assert (concat (map pend (threads s)) = []) as Hpend.
  { clear -Hdone. induction Hdone as [|t l [E _] _ IH]; [done|]. cbn. by rewrite E, IH. }
  assert (sum_of (thread_weight w_pop) (threads s) = 0) as Hpop.
  { apply sum_zero. intros t Ht. by apply (proj1 (Forall_forall _ _) Hdone t Ht). }
  pose proof (pu_all _ _ Hp) as Ha. rewrite Hpend, app_nil_r, <- app_assoc in Ha. split; [done|].
  pose proof (ex_taken _ _ Hx) as Ht. rewrite Hpop in Ht. apply exits_perm in Ha.
  rewrite Hfifo, !exits_app, born_no_exit, (none_exits work Hw) in Ha.
  assert (exits (replicate n exit_job) = Z.of_nat n) as En.
  { clear -He. unfold exits. induction n as [|n IH]; [done|]. cbn [replicate sum_of]. rewrite IH, He. cbn. lia. }
  apply exits_none. lia.
Qed.

Lemma pool_children n s i :
  (forall i t, threads s !! i = Some t -> finished t) -> child_inv s -> length (threads s) = S n -> (1 <= i <= n)%nat ->
  exists jobs e, taken_by i s = jobs ++ [e] /\ Forall (fun v => is_exit v = false) jobs /\ is_exit e = true.
Proof.
  intros Hfin Hc Hlen Hi0. destruct (lookup_lt_is_Some_2 (threads s) i) as [t Et]; [lia|].
  destruct (ci_worked _ Hc i t Et) as (k & e & -> & Hk & Hee & Hz). destruct (Hfin i t Et) as (_ & E1 & E2).
  unfold thread_weight in Hz. rewrite E1, E2 in Hz. destruct i; [lia|]. cbn in Hz.
  destruct Hee as [->|(v & -> & Hv)]; [done|]. by exists k, v.
Qed.
End exit_work.

(** ** Properties *)

(** C30: However the threads interleave, wake and choose whom to signal: no method
    touches the queue without the mutex, calls [front] on an empty queue or
    gives back a mutex it does not have, and the values come out in the order
    in which they went in, each of them once. *)
Theorem monitor_fifo {V op} `{Monitor V op} handler calls (r : res (st V op)) :
  reach code handler (start calls) r ->
  exists s, r = Ret s /\ pushed s = map snd (taken s) ++ queue s /\
    (forall i, owner s = Some i -> exists t, threads s !! i = Some t /\ t_state t = Running).
Proof.
  intros Hr. destruct (reach_ind_moves handler (fun _ => True) _ r (monitor_inv_start calls) I (fun _ _ _ _ _ => I) Hr)
    as (s & -> & Hi & _).
  exists s. split; [done|]. split; [apply (inv_fifo _ Hi)|]. intros i Ho.
  destruct (inv_owner _ Hi i Ho) as [t Et]. exists t. split; [done|]. pose proof (inv_thread _ Hi _ _ Et) as Ht.
  unfold tinv in Ht. rewrite (proj2 (holds_true _ _) Ho) in Ht. destruct (t_state t); [done|by destruct Ht..].
Qed.

Lemma monitor_fifo_witness :
  exists s : st Z (JobPool.op Z), run code (fun _ _ => []) [(0, 0); (1, 0); (1, 0); (1, 0)]%nat
      (start [[JobPool.GetJob]; [JobPool.PushJob 7]]) = Some (Ret s) /\
    pushed s = map snd (taken s) ++ queue s /\
    (forall i, owner s = Some i -> exists t, threads s !! i = Some t /\ t_state t = Running).
Proof.
  eexists. split; [vm_compute; reflexivity|].
  match goal with
  | |- pushed ?s = _ /\ _ =>
    destruct (monitor_fifo (fun _ _ => []) [[JobPool.GetJob]; [JobPool.PushJob 7]] (Ret s)) as (s' & E & H)
  end.
  - apply (monitor_run_reach _ _ _ [(0, 0); (1, 0); (1, 0); (1, 0)]%nat _ _ (reach_refl _ _ _)). vm_compute. reflexivity.
  - injection E as <-. exact H.
Defined.

(** C2: The wakeups suffice: when no thread can go on, the mutex is free, every
    thread has finished or waits, and one that waits does so around an empty
    queue, although [PushData], [PushJob] and [Push] signal after they have
    given the mutex back. *)
Theorem no_lost_wakeup {V op} `{Signalling V op} handler calls (s : st V op) :
  reach code handler (start calls) (Ret s) -> stuck code handler s ->
  owner s = None /\ (forall i t, threads s !! i = Some t -> finished t \/ t_state t = Waiting) /\
  ((exists i t, threads s !! i = Some t /\ t_state t = Waiting) -> queue s = []).
Proof.
  intros Hr Hst.
  destruct (reach_ind_moves handler lw _ _ (monitor_inv_start calls) (lw_start calls)
              (fun s s' Hi Hl Hm => move_lw handler s s' Hi Hl Hm) Hr) as (s' & [= <-] & Hi & Hl).
  split; [by eapply stuck_free|]. split; [intros i t; by eapply stuck_threads|].
  by eapply stuck_queue.
Qed.

(** Two readers, one value: the second reader waits in the end. *)
Lemma no_lost_wakeup_witness :
  exists s : st bytes HSyncBuffer.op, run code (fun _ _ => [])
      ([(0, 0); (0, 0); (0, 0); (2, 0); (1, 0); (1, 0); (1, 0); (2, 0); (2, 0); (2, 0); (2, 1);
        (1, 0); (1, 0); (1, 0); (1, 0)]%nat)
      (start [[HSyncBuffer.PopData]; [HSyncBuffer.PopData]; [HSyncBuffer.PushData [1; 2]]]) = Some (Ret s) /\
    map t_state (threads s) = [Waiting; Running; Running] /\ queue s = [].
Proof.
  eexists. split; [vm_compute; reflexivity|]. split; [reflexivity|].
  eapply (no_lost_wakeup (fun _ _ => []) [[HSyncBuffer.PopData]; [HSyncBuffer.PopData]; [HSyncBuffer.PushData [1; 2]]]).
  - apply (monitor_run_reach _ _ _ [(0, 0); (0, 0); (0, 0); (2, 0); (1, 0); (1, 0); (1, 0); (2, 0); (2, 0); (2, 0); (2, 1);
        (1, 0); (1, 0); (1, 0); (1, 0)]%nat _ _ (reach_refl _ _ _)). vm_compute. reflexivity.
  - intros [|[|[|i]]] w; reflexivity.
  - exists 0%nat. eexists. split; reflexivity.
Defined.

(** C10: [SummerWorkerMng::ExitWork] ends the pool: when nothing can go on after the owner has
    queued its work and one exit job per child, all threads have finished; each of the [n]
    children has taken jobs and after them one exit job, and nothing after that; what was pushed
    is the owner's work, the exit jobs and what each job that was taken pushes itself, nothing
    twice and nothing else; it was taken in the order it was pushed, up to what is left in the
    queue; and no job of the owner's is left there. *)
Theorem ExitWork_joins {job} (is_exit : job -> bool) DoJob n work exit_job s :
  (forall i v, Forall (fun u => is_exit u = false) (DoJob i v)) ->
  is_exit exit_job = true -> Forall (fun v => is_exit v = false) work ->
  reach code (SummerWorkerMng.childThreadRun is_exit DoJob) (SummerWorkerMng.pool n work exit_job) (Ret s) ->
  stuck code (SummerWorkerMng.childThreadRun is_exit DoJob) s ->
  Forall finished (threads s) /\
  (forall i, (1 <= i <= n)%nat -> exists jobs e, taken_by i s = jobs ++ [e] /\
     Forall (fun v => is_exit v = false) jobs /\ is_exit e = true) /\
  pushed s ≡ₚ work ++ replicate n exit_job ++
    concat (map (fun p => if is_exit p.2 then [] else DoJob p.1 p.2) (taken s)) /\
  pushed s = map snd (taken s) ++ queue s /\
  ((0 < n)%nat -> sublist (work ++ replicate n exit_job) (map snd (taken s)) /\ Forall (fun v => is_exit v = false) (queue s)).
Proof.
  intros Hd He Hw Hr Hst.
  destruct (reach_ind_moves _ (pool_inv is_exit DoJob n work exit_job) _ _ (monitor_inv_start _) (pool_inv_start is_exit DoJob n work exit_job He Hw)
              (move_pool is_exit DoJob Hd n work exit_job) Hr) as (s' & [= <-] & Hi & (Hl & Hx & Hc & Hp & Hlen)).
  assert (forall i t, threads s !! i = Some t -> finished t) as Hfin by (intros i t Et; by eapply exit_stuck).
  pose proof (inv_fifo _ Hi) as Hfifo.
  destruct (pool_drained is_exit DoJob Hd n work exit_job s Hfin He Hw Hx Hp Hfifo) as [Hpushed Hq].
  split_and!; [by apply Forall_lookup|intros i Hi0; by eapply pool_children|done|done|]. intros Hn. split; [|done].
  destruct (pu_own _ _ _ _ Hp) as (t & Et & Hs). destruct (Hfin _ _ Et) as (_ & E1 & E2).
  unfold pend in Hs. rewrite E1, E2, Hfifo in Hs. cbn in Hs. rewrite app_nil_r in Hs. by eapply own_taken.
Qed.

(** One child; the job before the exit job queues another, which nobody takes. *)
Lemma ExitWork_joins_witness :
  exists s : st Z (JobQueue.op Z), run code (SummerWorkerMng.childThreadRun (fun v => v =? 0) (fun _ v => if v =? 7 then [8] else []))
      (replicate 10 (0, 1) ++ replicate 17 (1, 0))%nat
      (SummerWorkerMng.pool 1 [7] 0) = Some (Ret s) /\
    taken s = [(1%nat, 7); (1%nat, 0)] /\ queue s = [8] /\ Forall finished (threads s) /\
    pushed s ≡ₚ [7] ++ [0] ++ concat (map (fun p => if p.2 =? 0 then [] else if p.2 =? 7 then [8] else []) (taken s)).
Proof.
  eexists. split; [vm_compute; reflexivity|]. split; [reflexivity|]. split; [reflexivity|].
  match goal with |- Forall finished (threads ?s) /\ _ =>
    destruct (ExitWork_joins (fun v => v =? 0) (fun _ v => if v =? 7 then [8] else []) 1 [7] 0 s) as (H1 & _ & H2 & _) end.
  - intros i v. destruct (v =? 7); repeat constructor.
  - reflexivity.
  - repeat constructor.
  - apply (monitor_run_reach _ _ _ (replicate 10 (0, 1) ++ replicate 17 (1, 0))%nat _ _ (reach_refl _ _ _)). vm_compute. reflexivity.
  - intros [|[|i]] w; reflexivity.
  - split; [exact H1|exact H2].
Defined.
