(* ===== verification/Memory.v ===== *)
(** * Raw memory blocks

    The effect of [memcpy], [memmove] and [memset] on one allocated block: a
    list of bytes, with an access outside of it as undefined behaviour. *)

From S2P Require Import Prelude.

Definition mem_read (buf : bytes) (off len : Z) : res bytes :=
  _ ← check_ub ((0 <=? off) && (0 <=? len) && (off + len <=? zlen buf));
  Ret (take (Z.to_nat len) (drop (Z.to_nat off) buf)).

Definition mem_write (buf : bytes) (off : Z) (data : bytes) : res bytes :=
  _ ← check_ub ((0 <=? off) && (off + zlen data <=? zlen buf));
  Ret (take (Z.to_nat off) buf ++ data ++ drop (Z.to_nat (off + zlen data)) buf).

Lemma mem_write_ok buf off data :
  0 <= off -> off + zlen data <= zlen buf ->
  mem_write buf off data = Ret (take (Z.to_nat off) buf ++ data ++ drop (Z.to_nat (off + zlen data)) buf).
Proof. intros H1 H2. unfold mem_write. by ztest. Qed.

Lemma mem_write_zlen buf off data buf' : mem_write buf off data = Ret buf' -> zlen buf' = zlen buf.
Proof.
  unfold mem_write, check_ub. case_test; [|done]. intros [= <-].
  unfold zlen in *. rewrite !length_app, length_take, length_drop. lia.
Qed.

Lemma mem_write_inside buf off data buf' :
  mem_write buf off data = Ret buf' -> 0 <= off /\ off + zlen data <= zlen buf.
Proof. unfold mem_write, check_ub. case_test; [|done]. intros _. lia. Qed.

(** Reading what was written. *)
Lemma mem_read_write buf off data buf' :
  mem_write buf off data = Ret buf' -> mem_read buf' off (zlen data) = Ret data.
Proof.
  intros Hw. pose proof (mem_write_inside _ _ _ _ Hw) as [Ho Hl].
  pose proof (mem_write_zlen _ _ _ _ Hw) as Hz. pose proof (zlen_nonneg data).
  unfold mem_read. ztest. rewrite mem_write_ok in Hw by done. injection Hw as <-. cbn [mbind res_bind check_ub].
  f_equal. rewrite drop_app_length' by (rewrite length_take; unfold zlen in *; lia).
  apply take_app_length'. unfold zlen. lia.
Qed.

Lemma mem_read_lookup buf off len r (k : nat) :
  mem_read buf off len = Ret r -> (k < Z.to_nat len)%nat -> r !! k = buf !! (Z.to_nat off + k)%nat.
Proof.
  unfold mem_read, check_ub. case_test; [|done]. intros [= <-] Hk.
  rewrite lookup_take_lt by done. apply lookup_drop.
Qed.

Lemma mem_write_lookup buf off data buf' (k : nat) :
  mem_write buf off data = Ret buf' -> Z.of_nat k < off \/ off + zlen data <= Z.of_nat k ->
  buf' !! k = buf !! k.
Proof.
  intros Hw Hk. pose proof (mem_write_inside _ _ _ _ Hw) as [Ho Hl].
  rewrite mem_write_ok in Hw by done. injection Hw as <-. unfold zlen in *. destruct Hk as [Hk|Hk].
  - rewrite lookup_app_l by (rewrite length_take; lia). apply lookup_take_lt. lia.
  - rewrite lookup_app_r by (rewrite length_take; lia). rewrite length_take.
    rewrite lookup_app_r by lia. rewrite lookup_drop. f_equal. lia.
Qed.

(** A write leaves every other place alone. *)
Lemma mem_read_write_ne buf off data buf' off' len :
  mem_write buf off data = Ret buf' -> off' + len <= off \/ off + zlen data <= off' ->
  mem_read buf' off' len = mem_read buf off' len.
Proof.
  intros Hw Hd. pose proof (mem_write_zlen _ _ _ _ Hw) as Hz. unfold mem_read. rewrite Hz.
  unfold check_ub. case_test; [|done]. cbn. f_equal. apply list_eq. intros k.
  destruct (decide (k < Z.to_nat len)%nat) as [Hk|Hk].
  - rewrite !lookup_take_lt, !lookup_drop by done. eapply mem_write_lookup; [done|lia].
  - by rewrite !lookup_take_ge by lia.
Qed.

Lemma mem_read_ok buf off len :
  0 <= off -> 0 <= len -> off + len <= zlen buf -> exists r, mem_read buf off len = Ret r /\ zlen r = len.
Proof.
  intros H1 H2 H3. unfold mem_read. ztest. eexists. split; [done|].
  unfold zlen in *. rewrite length_take, length_drop. lia.
Qed.
