(* ===== verification/Buffers.v ===== *)
(** * The small buffers

    [src/houtputpacketbuffer.cpp] (Modules [HOutputPacketBuffer] and
    [HIOOutputBuffer]), [src/hrefbuffer.cpp] (Module [HVRefBuffer]) and
    [src/hiobuffer.cpp] (Module [HIOBuffer]), on a little-endian machine. *)

From S2P Require Import Prelude Serialize SerializeProofs Memory.

(** [htonl] and [ntohl]: the bytes of a 32-bit word the other way round. *)
Definition htonl (w : Z) : Z := le_combine (reverse (le_bytes 4 w)).
Definition ntohl : Z -> Z := htonl.

Module HOutputPacketBuffer.

Record t : Type := mk { m_length : Z; m_current_pos : Z; m_buf : bytes }.

(** [malloc_ok]: whether [malloc] returns memory; nothing tests it. *)
Definition make (malloc_ok : bool) (length : Z) : res t :=
  _ ← check_ub malloc_ok; Ret (mk length 0 (replicate (Z.to_nat length) 0)).

Definition MAX_BUFFER_LENGTH : Z := 1536.

Definition Reset (p : t) : t := mk (m_length p) 0 (m_buf p).
Definition DataLength (p : t) : Z := m_current_pos p.
Definition increPos (n : Z) (p : t) : t := mk (m_length p) (u32 (m_current_pos p + n)) (m_buf p).

Definition Enqueue (data : bytes) (len : Z) (p : t) : res t :=
  src ← mem_read data 0 len;
  buf ← mem_write (m_buf p) (m_current_pos p) src;
  Ret (increPos len (mk (m_length p) (m_current_pos p) buf)).

Definition EnqueueWord (word : Z) (p : t) : res t := Enqueue (le_bytes 4 (htonl word)) 4 p.

Definition ExtractWord (position : Z) (p : t) : res Z :=
  b ← mem_read (m_buf p) position 4; Ret (ntohl (le_combine b)).

Definition InsertWord (word toPosition : Z) (p : t) : res t :=
  buf ← mem_write (m_buf p) toPosition (le_bytes 4 (htonl word));
  Ret (mk (m_length p) (m_current_pos p) buf).

End HOutputPacketBuffer.

Module HIOOutputBuffer.

(** [struct iovec]; the base as the memory it points to. *)
Record iovec : Type := Iov { iov_base : option bytes; iov_len : Z }.

Definition IO_COUNT : Z := 10.
Definition HEADER_LENGTH : Z := 128.

Record t : Type := mk {
  m_header : HOutputPacketBuffer.t;
  m_index : Z;
  m_vec : list iovec
}.

Definition Reset (b : t) : t :=
  mk (HOutputPacketBuffer.Reset (m_header b)) 1 (replicate (Z.to_nat IO_COUNT) (Iov None 0)).

Definition make (malloc_ok : bool) : res t :=
  h ← HOutputPacketBuffer.make malloc_ok HEADER_LENGTH; Ret (Reset (mk h 1 [])).

Definition AddIo (ptr : bytes) (length : Z) (b : t) : t * bool :=
  if m_index b >=? IO_COUNT then (b, false)
  else (mk (m_header b) (u32 (m_index b + 1))
           (<[Z.to_nat (m_index b) := Iov (Some ptr) length]> (m_vec b)), true).

(** The vectors handed to [sock.WriteV], whose result is the call's. *)
Definition WriteIo {R} (writev : list iovec -> R) (b : t) : t * R :=
  let h := m_header b in
  let v := <[0%nat := Iov (Some (HOutputPacketBuffer.m_buf h)) (HOutputPacketBuffer.DataLength h)]> (m_vec b) in
  (mk h (m_index b) v, writev (take (Z.to_nat (m_index b)) v)).

Fixpoint length_loop (l : list iovec) (acc : Z) : Z :=
  match l with [] => acc | v :: l => length_loop l (u32 (acc + iov_len v)) end.

Definition GetDataLength (b : t) : Z := length_loop (take (Z.to_nat (m_index b)) (m_vec b)) 0.

(** What [writev] sends of one vector. *)
Definition iov_bytes (v : iovec) : bytes :=
  match iov_base v with Some m => take (Z.to_nat (iov_len v)) m | None => [] end.

End HIOOutputBuffer.

(** [HRefBuffer] and [HVRefBuffer]: pointers are kept, not the data. *)
Module HVRefBuffer.
Section ptr.
Context {ptr : Type}.

Record HRefBuffer : Type := Ref { m_ptr : option ptr; m_length : Z }.

Definition ref_Reset : HRefBuffer := Ref None 0.
Definition ref_Assign (data : option ptr) (len : Z) : HRefBuffer := Ref data len.

#[local] Abbreviation t := (list HRefBuffer).

Definition Reset (b : t) : t := [].
Definition Add (data : option ptr) (len : Z) (b : t) : t := b ++ [Ref data len].
Definition Count (b : t) : Z := s32 (zlen b).

Definition at_index (b : t) (index : Z) : res HRefBuffer :=
  match (if index <? 0 then None else b !! Z.to_nat index) with
  | Some r => Ret r
  | None => Throw UB
  end.

Definition Data (b : t) (index : Z) : res (option ptr) :=
  if index >=? Count b then Ret None else r ← at_index b index; Ret (m_ptr r).

Definition GetLength (b : t) (index : Z) : res Z :=
  if index >=? Count b then Ret (-1) else r ← at_index b index; Ret (m_length r).
End ptr.
End HVRefBuffer.

Module HIOBuffer.

Record t : Type := mk { m_avalableLength : Z; m_buffer : bytes; m_size : Z; m_pos : Z }.

Definition IO_DEFAULT_SIZE : Z := 1024 * 1024.

(** What [malloc] leaves in the block is [junk]. *)
Definition make (junk : bytes) (size : Z) : t := mk size junk size 0.

Definition SetPos (newPos : Z) (b : t) : res t :=
  _ ← check_ub (bool_decide (in_s 32 (m_avalableLength b - newPos)) && bool_decide (in_s 32 (m_pos b + newPos)));
  Ret (mk (m_avalableLength b - newPos) (m_buffer b) (m_size b) (m_pos b + newPos)).

Definition Reset (b : t) : res t :=
  buf ← mem_write (m_buffer b) 0 (replicate (Z.to_nat (m_size b)) 0);
  Ret (mk (m_size b) buf (m_size b) 0).

Definition DataLength (b : t) : Z := m_pos b.
Definition AvalableLength (b : t) : Z := m_avalableLength b.

Definition Append (s : bytes) (b : t) : res t :=
  _ ← check_ub (bool_decide (in_s 32 (s32 (zlen s) + m_pos b)));
  if s32 (zlen s) + m_pos b >? m_avalableLength b then Ret b
  else
    buf ← mem_write (m_buffer b) (m_pos b) s;
    Ret (mk (s32 (m_avalableLength b - zlen s)) buf (m_size b) (s32 (m_pos b + zlen s))).

End HIOBuffer.

(** ** Words in network order *)

(** The four bytes of a word on the wire. *)
Definition be_word (w : Z) : bytes := reverse (le_bytes 4 w).

Lemma is_bytes_reverse l : is_bytes l -> is_bytes (reverse l).
Proof. apply Forall_reverse. Qed.

Lemma zlen_be_word w : zlen (be_word w) = 4.
Proof. unfold zlen, be_word. by rewrite length_reverse. Qed.

Lemma htonl_bytes w : le_bytes 4 (htonl w) = be_word w.
Proof.
  apply (le_bytes_combine (be_word w)). apply is_bytes_reverse, is_bytes_le_bytes.
Qed.

Lemma ntohl_be_word w : in_u 32 w -> ntohl (le_combine (be_word w)) = w.
Proof.
  intros Hw. unfold ntohl, htonl.
  assert (le_bytes 4 (le_combine (be_word w)) = be_word w) as ->.
  { apply (le_bytes_combine (be_word w)). apply is_bytes_reverse, is_bytes_le_bytes. }
  unfold be_word. rewrite reverse_involutive, le_combine_le_bytes. by apply Z.mod_small.
Qed.

Module HOutputPacketBufferFacts.
Import HOutputPacketBuffer.

(** The packet starts with the words [ws] and the cursor is behind them. *)
Record holds (p : t) (ws : list Z) : Prop := {
  h_pos : m_current_pos p = 4 * zlen ws;
  h_fits : 4 * zlen ws <= zlen (m_buf p);
  h_size : zlen (m_buf p) < 2 ^ 32;
  h_words i w : ws !! i = Some w -> mem_read (m_buf p) (4 * Z.of_nat i) 4 = Ret (be_word w)
}.

Lemma holds_make length : in_u 32 length -> exists p, make true length = Ret p /\ holds p [].
Proof.
  intros Hl. unfold in_u in Hl. eexists. split; [done|]. split; cbn; try done.
  - change (0 <= zlen (replicate (Z.to_nat length) 0)). apply zlen_nonneg.
  - unfold zlen. rewrite length_replicate. lia.
Qed.

Lemma EnqueueWord_mem w p :
  EnqueueWord w p =
  (buf ← mem_write (m_buf p) (m_current_pos p) (be_word w); Ret (increPos 4 (mk (m_length p) (m_current_pos p) buf))).
Proof.
  unfold EnqueueWord, Enqueue. rewrite htonl_bytes.
  change 4 with (zlen (be_word w)) at 1. unfold mem_read. rewrite zlen_be_word. cbn [Z.leb Z.add].
  change ((0 <=? 0) && (0 <=? 4) && (4 <=? 4))%bool with true. cbn [check_ub mbind res_bind].
  rewrite drop_0, firstn_all2 by (unfold be_word; by rewrite length_reverse). done.
Qed.

Lemma read_other (buf buf' : bytes) i j w r :
  mem_write buf (4 * Z.of_nat j) (be_word w) = Ret buf' -> i <> j ->
  mem_read buf (4 * Z.of_nat i) 4 = Ret r -> mem_read buf' (4 * Z.of_nat i) 4 = Ret r.
Proof.
  intros Hw Hne Hr. erewrite mem_read_write_ne; [done|exact Hw|]. rewrite zlen_be_word. lia.
Qed.

Lemma EnqueueWord_ok p ws w :
  holds p ws -> 4 * zlen ws + 4 <= zlen (m_buf p) ->
  exists p', EnqueueWord w p = Ret p' /\ holds p' (ws ++ [w]) /\ zlen (m_buf p') = zlen (m_buf p).
Proof.
  intros [Hp Hf Hs Hw] Hr. rewrite EnqueueWord_mem, Hp. pose proof (zlen_nonneg ws).
  rewrite mem_write_ok by (rewrite ?zlen_be_word; lia). cbn [mbind res_bind].
  set (buf' := _ ++ _).
  assert (mem_write (m_buf p) (4 * zlen ws) (be_word w) = Ret buf') as E
    by (apply mem_write_ok; rewrite ?zlen_be_word; lia).
  pose proof (mem_write_zlen _ _ _ _ E) as Hz.
  eexists. split; [done|]. split; [|done]. split; cbn.
  - rewrite zlen_app, u32_id by lia. change (zlen [w]) with 1. lia.
  - rewrite zlen_app. change (zlen [w]) with 1. lia.
  - lia.
  - intros i v Hi. apply lookup_app_Some in Hi as [Hi|[Hge Hi]].
    + pose proof (lookup_lt_Some _ _ _ Hi). unfold zlen in E.
      eapply (read_other _ _ _ (length ws)); [exact E|lia|by apply Hw].
    + apply list_lookup_singleton_Some in Hi as [Hi ->].
      assert (4 * Z.of_nat i = 4 * zlen ws) as -> by (unfold zlen; lia).
      pose proof (mem_read_write _ _ _ _ E) as Er. by rewrite zlen_be_word in Er.
Qed.

Lemma InsertWord_ok p ws i w :
  holds p ws -> (i < length ws)%nat ->
  exists p', InsertWord w (4 * Z.of_nat i) p = Ret p' /\ holds p' (<[i := w]> ws).
Proof.
  intros [Hp Hf Hs Hw] Hi. unfold InsertWord. rewrite htonl_bytes. unfold zlen in Hf.
  rewrite mem_write_ok by (rewrite ?zlen_be_word; unfold zlen; lia). cbn [mbind res_bind].
  set (buf' := _ ++ _).
  assert (mem_write (m_buf p) (4 * Z.of_nat i) (be_word w) = Ret buf') as E
    by (apply mem_write_ok; rewrite ?zlen_be_word; unfold zlen; lia).
  pose proof (mem_write_zlen _ _ _ _ E) as Hz.
  eexists. split; [done|]. split; cbn; unfold zlen in *; rewrite ?length_insert; try lia.
  intros j v Hj. apply list_lookup_insert_Some in Hj as [(-> & -> & _)|[Hne Hj]].
  - pose proof (mem_read_write _ _ _ _ E) as Er. by rewrite zlen_be_word in Er.
  - eapply (read_other _ _ _ i); [exact E|done|by apply Hw].
Qed.
End HOutputPacketBufferFacts.

Module HIOOutputBufferFacts.
Import HIOOutputBuffer.

Definition io (m : bytes) : iovec := Iov (Some m) (zlen m).

Fixpoint AddAll (ios : list bytes) (b : t) : t :=
  match ios with [] => b | m :: ios => AddAll ios (AddIo m (zlen m) b).1 end.

(** [ios] have been added; [n] is what the first vector says of its length. *)
Record holds (b : t) (n : Z) (ios : list bytes) : Prop := {
  h_index : m_index b = 1 + zlen ios;
  h_max : 1 + zlen ios <= IO_COUNT;
  h_vec : exists v rest, m_vec b = v :: map io ios ++ rest /\ iov_len v = n /\
            length (m_vec b) = Z.to_nat IO_COUNT
}.

(** A buffer that was reset and has since been given the header [h]. *)
Definition with_header (h : HOutputPacketBuffer.t) (b : t) : t := mk h (m_index (Reset b)) (m_vec (Reset b)).

Lemma holds_Reset h b : holds (with_header h b) 0 [].
Proof. split; [done|done|]. by exists (Iov None 0), (replicate 9 (Iov None 0)). Qed.

Lemma AddIo_ok b n ios m :
  holds b n ios ->
  if 1 + zlen ios =? IO_COUNT then AddIo m (zlen m) b = (b, false)
  else exists b', AddIo m (zlen m) b = (b', true) /\ holds b' n (ios ++ [m]) /\ m_header b' = m_header b.
Proof.
  intros [Hi Hm (v & rest & Hv & Hn & Hl)]. unfold AddIo. rewrite Hi. pose proof (zlen_nonneg ios).
  unfold IO_COUNT in *. destruct (1 + zlen ios =? 10) eqn:E; bool_to_prop; [by rewrite E|].
  ztest. eexists. split; [done|]. split; [|done]. rewrite Hv in Hl. cbn [length] in Hl.
  rewrite length_app, length_map in Hl. change (Z.to_nat 10) with 10%nat in Hl. unfold zlen in *.
  destruct rest as [|r rest]; [cbn in Hl; lia|].
  split; cbn [m_index m_vec].
  - rewrite u32_id by lia. unfold zlen. rewrite length_app. cbn. lia.
  - unfold IO_COUNT, zlen. rewrite length_app. cbn. lia.
  - exists v, rest. assert (<[Z.to_nat (1 + Z.of_nat (length ios)) := Iov (Some m) (Z.of_nat (length m))]> (m_vec b) =
      v :: map io (ios ++ [m]) ++ rest) as ->.
    { rewrite Hv. replace (Z.to_nat (1 + Z.of_nat (length ios))) with (S (length ios)) by lia.
      change (v :: <[length ios := io m]> (map io ios ++ r :: rest) = v :: map io (ios ++ [m]) ++ rest).
      f_equal. rewrite insert_app_r_alt by (rewrite length_map; lia).
      rewrite length_map, Nat.sub_diag, map_app, <- app_assoc. done. }
    split_and!; [done..|]. cbn. rewrite length_app, length_map, length_app. cbn in *. unfold IO_COUNT. lia.
Qed.

Lemma AddAll_ok b n ios ms :
  holds b n ios -> 1 + zlen ios + zlen ms <= IO_COUNT ->
  holds (AddAll ms b) n (ios ++ ms) /\ m_header (AddAll ms b) = m_header b.
Proof.
  revert b ios. induction ms as [|m ms IH]; intros b ios Hb Hl; cbn; [by rewrite app_nil_r|].
  rewrite zlen_cons in Hl. pose proof (AddIo_ok b n ios m Hb) as Ha. pose proof (zlen_nonneg ms).
  destruct (1 + zlen ios =? IO_COUNT) eqn:E; bool_to_prop; [lia|]. destruct Ha as (b' & -> & Hb' & Hh).
  cbn. destruct (IH b' (ios ++ [m]) Hb') as [H1 H2].
  { rewrite zlen_app. change (zlen [m]) with 1. lia. }
  rewrite <- app_assoc in H1. by rewrite H2, Hh.
Qed.

Lemma length_loop_sum l acc :
  length_loop l (u32 acc) = u32 (acc + foldr (fun v n => iov_len v + n) 0 l).
Proof.
  revert acc. induction l as [|v l IH]; intros acc; cbn; [by rewrite Z.add_0_r|].
  assert (u32 (u32 acc + iov_len v) = u32 (acc + iov_len v)) as ->.
  { unfold u32, wrapU. by rewrite Zplus_mod_idemp_l. }
  rewrite IH. f_equal. lia.
Qed.

Lemma taken_vec b n ios :
  holds b n ios -> exists v, take (Z.to_nat (m_index b)) (m_vec b) = v :: map io ios /\ iov_len v = n.
Proof.
  intros [-> _ (v & rest & -> & Hn & _)]. exists v. split; [|done].
  replace (Z.to_nat (1 + zlen ios)) with (S (length ios)) by (unfold zlen; lia). cbn. f_equal.
  apply take_app_length'. by rewrite length_map.
Qed.

Lemma WriteIo_vec b n ios :
  holds b n ios ->
  take (Z.to_nat (m_index b)) (m_vec (WriteIo id b).1) =
  Iov (Some (HOutputPacketBuffer.m_buf (m_header b))) (HOutputPacketBuffer.DataLength (m_header b)) :: map io ios.
Proof.
  intros Hb. destruct (taken_vec _ _ _ Hb) as (v & Ev & _). unfold WriteIo. cbn [fst m_vec].
  rewrite take_insert_lt; [by rewrite Ev|]. rewrite (h_index _ _ _ Hb). pose proof (zlen_nonneg ios). lia.
Qed.

Lemma io_bytes ios : concat (map iov_bytes (map io ios)) = concat ios.
Proof.
  induction ios as [|m ios IH]; cbn; [done|]. rewrite IH. f_equal.
  unfold iov_bytes, io. cbn. apply firstn_all2. unfold zlen. lia.
Qed.

Lemma io_lengths ios : foldr (fun v n => iov_len v + n) 0 (map io ios) = zlen (concat ios).
Proof. induction ios as [|m ios IH]; cbn; [done|]. by rewrite zlen_app, IH. Qed.
End HIOOutputBufferFacts.

(** ** Properties *)

(** A packet is an array of 32-bit words: [EnqueueWord] appends one while there
    are four bytes of room and is undefined behaviour otherwise, [ExtractWord]
    reads the word of an index, [InsertWord] replaces it and nothing else. *)
Theorem packet_words (p : HOutputPacketBuffer.t) ws w i v :
  HOutputPacketBufferFacts.holds p ws -> Forall (in_u 32) ws -> in_u 32 w -> ws !! i = Some v ->
  (if 4 * zlen ws + 4 <=? zlen (HOutputPacketBuffer.m_buf p)
   then exists p', HOutputPacketBuffer.EnqueueWord w p = Ret p' /\
                   HOutputPacketBufferFacts.holds p' (ws ++ [w])
   else HOutputPacketBuffer.EnqueueWord w p = Throw UB) /\
  HOutputPacketBuffer.ExtractWord (4 * Z.of_nat i) p = Ret v /\
  (exists p', HOutputPacketBuffer.InsertWord w (4 * Z.of_nat i) p = Ret p' /\
              HOutputPacketBufferFacts.holds p' (<[i := w]> ws)).
Proof.
  intros Hh Hws Hw Hi. split_and!.
  - destruct (_ <=? _) eqn:E; bool_to_prop.
    + destruct (HOutputPacketBufferFacts.EnqueueWord_ok p ws w Hh E) as (p' & E' & H' & _). by exists p'.
    + rewrite HOutputPacketBufferFacts.EnqueueWord_mem. destruct Hh as [-> _ _ _].
      unfold mem_write. rewrite zlen_be_word. pose proof (zlen_nonneg ws). by ztest.
  - unfold HOutputPacketBuffer.ExtractWord.
    rewrite (HOutputPacketBufferFacts.h_words _ _ Hh i v Hi). cbn [mbind res_bind].
    f_equal. apply ntohl_be_word. by eapply Forall_lookup_1.
  - apply HOutputPacketBufferFacts.InsertWord_ok; [done|by eapply lookup_lt_Some].
Qed.

Lemma packet_words_witness :
  exists p, HOutputPacketBuffer.EnqueueWord 258 (HOutputPacketBuffer.mk 8 0 (replicate 8 0)) = Ret p /\
    HOutputPacketBuffer.ExtractWord 0 p = Ret 258.
Proof.
  destruct (HOutputPacketBufferFacts.EnqueueWord_ok (HOutputPacketBuffer.mk 8 0 (replicate 8 0)) [] 258) as (p & E & H & _).
  - split; cbn; try done.
  - cbn. vm_compute. done.
  - exists p. split; [exact E|]. apply (packet_words p [258] 0 0 258); [exact H|..|done].
    + repeat constructor; cbn; lia.
    + split; cbn; lia.
Defined.

(** Gathered output: up to nine pieces can be added, a tenth is refused;
    [WriteIo] hands over the header and then the pieces in the order in which
    they were added; [GetDataLength] counts the header only after [WriteIo]. *)
Theorem gathered_output b h ms m :
  zlen ms <= 9 -> 0 <= HOutputPacketBuffer.DataLength h ->
  HOutputPacketBuffer.DataLength h + zlen (concat ms) < 2 ^ 32 ->
  let b1 := HIOOutputBufferFacts.AddAll ms (HIOOutputBufferFacts.with_header h b) in
  (zlen ms = 9 -> HIOOutputBuffer.AddIo m (zlen m) b1 = (b1, false)) /\
  concat (map HIOOutputBuffer.iov_bytes (HIOOutputBuffer.WriteIo id b1).2) =
    take (Z.to_nat (HOutputPacketBuffer.DataLength h)) (HOutputPacketBuffer.m_buf h) ++ concat ms /\
  HIOOutputBuffer.GetDataLength b1 = zlen (concat ms) /\
  HIOOutputBuffer.GetDataLength (HIOOutputBuffer.WriteIo id b1).1 =
    HOutputPacketBuffer.DataLength h + zlen (concat ms).
Proof.
  intros Hl Hp Hs b1. pose proof (zlen_nonneg ms). pose proof (zlen_nonneg (concat ms)).
  destruct (HIOOutputBufferFacts.AddAll_ok (HIOOutputBufferFacts.with_header h b) 0 [] ms) as [Hh Eh];
    [apply HIOOutputBufferFacts.holds_Reset|rewrite zlen_nil; unfold HIOOutputBuffer.IO_COUNT; lia|].
  fold b1 in Hh, Eh. cbn [app HIOOutputBufferFacts.with_header HIOOutputBuffer.m_header] in Hh, Eh.
  destruct (HIOOutputBufferFacts.taken_vec _ _ _ Hh) as (v & Ev & Hv).
  pose proof (HIOOutputBufferFacts.WriteIo_vec b1 0 ms Hh) as Ew. rewrite Eh in Ew.
  split_and!.
  - intros E. pose proof (HIOOutputBufferFacts.AddIo_ok b1 0 ms m Hh) as Ha. by rewrite E in Ha.
  - change ((HIOOutputBuffer.WriteIo id b1).2) with
      (take (Z.to_nat (HIOOutputBuffer.m_index b1)) (HIOOutputBuffer.m_vec (HIOOutputBuffer.WriteIo id b1).1)).
    rewrite Ew. cbn. by rewrite HIOOutputBufferFacts.io_bytes.
  - unfold HIOOutputBuffer.GetDataLength. rewrite Ev, (HIOOutputBufferFacts.length_loop_sum _ 0).
    cbn [foldr]. rewrite HIOOutputBufferFacts.io_lengths, Hv. apply u32_id. lia.
  - unfold HIOOutputBuffer.GetDataLength. change (HIOOutputBuffer.m_index (HIOOutputBuffer.WriteIo id b1).1)
      with (HIOOutputBuffer.m_index b1). rewrite Ew, (HIOOutputBufferFacts.length_loop_sum _ 0).
    cbn [foldr HIOOutputBuffer.iov_len]. rewrite HIOOutputBufferFacts.io_lengths. apply u32_id. lia.
Qed.

Lemma gathered_output_witness :
  concat (map HIOOutputBuffer.iov_bytes
    (HIOOutputBuffer.WriteIo id
       (HIOOutputBufferFacts.AddAll [str "ab"; str "c"]
          (HIOOutputBufferFacts.with_header (HOutputPacketBuffer.mk 4 4 [0; 0; 1; 2])
             (HIOOutputBuffer.mk (HOutputPacketBuffer.mk 4 0 []) 1 [])))).2) = [0; 0; 1; 2] ++ str "abc".
Proof.
  apply (gathered_output (HIOOutputBuffer.mk (HOutputPacketBuffer.mk 4 0 []) 1 [])
           (HOutputPacketBuffer.mk 4 4 [0; 0; 1; 2]) [str "ab"; str "c"] []); vm_compute; done.
Defined.

(** [HIOBuffer::Append] compares against the room left after it has added the
    position once more: it keeps a string only if the string fits behind twice
    the data there is, and drops it silently otherwise, room or no room. *)
Theorem Append_room (b : HIOBuffer.t) s :
  HIOBuffer.m_avalableLength b + HIOBuffer.m_pos b = HIOBuffer.m_size b ->
  zlen (HIOBuffer.m_buffer b) = HIOBuffer.m_size b -> 0 <= HIOBuffer.m_pos b <= HIOBuffer.m_size b ->
  zlen s + HIOBuffer.m_size b < 2 ^ 31 ->
  exists b', HIOBuffer.Append s b = Ret b' /\
    (if zlen s + 2 * HIOBuffer.m_pos b <=? HIOBuffer.m_size b
     then HIOBuffer.DataLength b' = HIOBuffer.DataLength b + zlen s /\
          mem_read (HIOBuffer.m_buffer b') (HIOBuffer.DataLength b) (zlen s) = Ret s /\
          mem_read (HIOBuffer.m_buffer b') 0 (HIOBuffer.DataLength b) =
            mem_read (HIOBuffer.m_buffer b) 0 (HIOBuffer.DataLength b) /\
          HIOBuffer.m_avalableLength b' + HIOBuffer.m_pos b' = HIOBuffer.m_size b'
     else b' = b).
Proof.
  intros Ha Hz Hp Hs. pose proof (zlen_nonneg s). unfold HIOBuffer.Append.
  rewrite (s32_id (zlen s)) by lia. rewrite bool_decide_eq_true_2 by (unfold in_s; cbn; lia).
  cbn [check_ub mbind res_bind]. destruct (zlen s + _ <=? _) eqn:E; bool_to_prop; ztest; [|by exists b].
  assert (mem_write (HIOBuffer.m_buffer b) (HIOBuffer.m_pos b) s = Ret
    (take (Z.to_nat (HIOBuffer.m_pos b)) (HIOBuffer.m_buffer b) ++ s ++
     drop (Z.to_nat (HIOBuffer.m_pos b + zlen s)) (HIOBuffer.m_buffer b))) as Ew by (apply mem_write_ok; lia).
  rewrite Ew. cbn [mbind res_bind]. eexists. split; [done|]. cbn. unfold HIOBuffer.DataLength. cbn.
  split_and!.
  - apply s32_id. lia.
  - by apply (mem_read_write (HIOBuffer.m_buffer b)).
  - eapply mem_read_write_ne; [exact Ew|]. lia.
  - rewrite !s32_id by lia. lia.
Qed.

Lemma Append_room_witness :
  HIOBuffer.Append (str "abc") (HIOBuffer.mk 4 (replicate 8 0) 8 4) = Ret (HIOBuffer.mk 4 (replicate 8 0) 8 4).
Proof.
  destruct (Append_room (HIOBuffer.mk 4 (replicate 8 0) 8 4) (str "abc")) as (b' & E & H); [done..|].
  cbn in H. by rewrite E, H.
Defined.

(** An index past the end is answered with [nullptr] and [-1]; a negative one
    is not tested and reads before the vector. *)
Theorem refs_index {ptr} (b : list (@HVRefBuffer.HRefBuffer ptr)) index :
  zlen b < 2 ^ 31 ->
  (HVRefBuffer.Data b index, HVRefBuffer.GetLength b index) =
  if index <? 0 then (Throw UB, Throw UB)
  else match b !! Z.to_nat index with
       | Some r => (Ret (HVRefBuffer.m_ptr r), Ret (HVRefBuffer.m_length r))
       | None => (Ret None, Ret (-1))
       end.
Proof.
  intros Hl. pose proof (zlen_nonneg b). unfold HVRefBuffer.Data, HVRefBuffer.GetLength, HVRefBuffer.Count.
  rewrite s32_id by lia. unfold HVRefBuffer.at_index. destruct (index <? 0) eqn:E; bool_to_prop; ztest; [done|].
  destruct (zlen b <=? index) eqn:E'; bool_to_prop.
  - by rewrite lookup_ge_None_2 by (unfold zlen in *; lia).
  - destruct (lookup_lt_is_Some_2 b (Z.to_nat index)) as [r Hr]; [unfold zlen in *; lia|]. by rewrite Hr.
Qed.

Lemma refs_index_witness :
  HVRefBuffer.GetLength (HVRefBuffer.Add (Some 7) 3 (HVRefBuffer.Reset [])) 0 = Ret 3.
Proof.
  pose proof (refs_index [HVRefBuffer.Ref (Some 7) 3] 0) as H.
  exact (f_equal snd (H ltac:(vm_compute; done))).
Defined.
