(* ===== verification/RollFixBuffer.v ===== *)
(** * The pool of equal buffers of [src/utils/rollfixedbuffer.cpp]

    One block of memory, cut into groups of items; a reference per item, and
    per group the FIFO of the references that are free.  A [BufferRefPtr] is
    the position of the reference in [m_all_ref_pts].  The mutex and the
    condition of the FIFOs are in [MonitorQueue]; here a call runs alone. *)

From stdpp Require Import sorting.
From S2P Require Import Prelude Memory.
#[local] Open Scope Z_scope.

Module RollFixBuffer.

(** ** Definitions *)

Record BufferItemRef : Type := Ref {
  m_iGroupId : Z;
  m_index : Z;
  m_iSize : Z;
  m_ptr : Z;               (* offset in the pool's block *)
  m_buffer : bool;         (* whether [SetBuffer] has been called *)
  m_datalen : Z
}.

Record t : Type := mk {
  m_iGroupCount : Z;
  m_iGroupItemCount : Z;
  m_iItemSize : Z;
  m_data : bytes;
  m_queues : list (list nat);
  m_all_ref_pts : list BufferItemRef
}.

Definition set_data (d : bytes) (b : t) : t :=
  mk (m_iGroupCount b) (m_iGroupItemCount b) (m_iItemSize b) d (m_queues b) (m_all_ref_pts b).
Definition set_queues (q : list (list nat)) (b : t) : t :=
  mk (m_iGroupCount b) (m_iGroupItemCount b) (m_iItemSize b) (m_data b) q (m_all_ref_pts b).
Definition set_refs (r : list BufferItemRef) (b : t) : t :=
  mk (m_iGroupCount b) (m_iGroupItemCount b) (m_iItemSize b) (m_data b) (m_queues b) r.

(** An [int] result: overflow is undefined. *)
Definition int (z : Z) : res Z := if bool_decide (in_s 32 z) then Ret z else Throw UB.

Definition get_mem_item (b : t) (iGroupId index : Z) : res Z :=
  _ ← assert_throw (iGroupId <? m_iGroupCount b) INVL_PARA;
  _ ← assert_throw (index <? m_iGroupItemCount b) INVL_PARA;
  p1 ← int (iGroupId * m_iGroupItemCount b);
  p2 ← int (p1 * m_iItemSize b);
  p3 ← int (index * m_iItemSize b);
  int (p2 + p3).

(** The inner loop of the constructor, [j] on; [q] is the group's queue. *)
Fixpoint item_loop (fuel : nat) (b : t) (i j : Z) (q : list nat) : res (t * list nat) :=
  match fuel with
  | O => Throw Diverge
  | S f =>
    if j <? m_iGroupItemCount b then
      data_ptr ← get_mem_item b i j;
      let item_ptr := length (m_all_ref_pts b) in
      let b' := set_refs (m_all_ref_pts b ++ [Ref i j (m_iItemSize b) data_ptr false 0]) b in
      item_loop f b' i (j + 1) (q ++ [item_ptr])
    else Ret (b, q)
  end.

Fixpoint group_loop (fuel : nat) (b : t) (i : Z) : res t :=
  match fuel with
  | O => Throw Diverge
  | S f =>
    if i <? m_iGroupCount b then
      '(b, q) ← item_loop (S (Z.to_nat (m_iGroupItemCount b))) b i 0 [];
      group_loop f (set_queues (m_queues b ++ [q]) b) (i + 1)
    else Ret b
  end.

(** The constructor; [malloc] is given the [size_t] it is called with. *)
Definition make (malloc : Z -> option bytes) (iGroupCount GroupItemCount ItemSize : Z) : res t :=
  p1 ← int (iGroupCount * GroupItemCount);
  n ← int (p1 * ItemSize);
  match malloc (u64 n) with
  | None => Throw (HExc MEMORY_OUT)
  | Some d => group_loop (S (Z.to_nat iGroupCount)) (mk iGroupCount GroupItemCount ItemSize d [] []) 0
  end.

Definition ref_at (b : t) (p : nat) : res BufferItemRef :=
  match m_all_ref_pts b !! p with Some r => Ret r | None => Throw UB end.

(** [BufferItemRef::Write] *)
Definition Write (p : nat) (pdata : bytes) (len : Z) (b : t) : res (t * Z) :=
  r ← ref_at b p;
  _ ← assert_throw (len <? m_iSize r) INVL_PARA;
  src ← mem_read pdata 0 len;
  d ← mem_write (m_data b) (m_ptr r) src;
  let r' := Ref (m_iGroupId r) (m_index r) (m_iSize r) (m_ptr r) (m_buffer r) len in
  Ret (set_refs (<[p := r']> (m_all_ref_pts b)) (set_data d b), len).

Definition queue_at (b : t) (iGroupId : Z) : res (list nat) :=
  match (if iGroupId <? 0 then None else m_queues b !! Z.to_nat iGroupId) with
  | Some q => Ret q
  | None => Throw UB
  end.

(** [RollFixBuffer::PullBack] *)
Definition PullBack (p : nat) (b : t) : res t :=
  r ← ref_at b p;
  q ← queue_at b (m_iGroupId r);
  Ret (set_queues (<[Z.to_nat (m_iGroupId r) := q ++ [p]]> (m_queues b)) b).

(** [BufferItemRef::PullBack] *)
Definition ref_PullBack (p : nat) (b : t) : res t :=
  r ← ref_at b p; _ ← assert_throw (m_buffer r) SRC_ERR; PullBack p b.

Definition SetBuffer (p : nat) (b : t) : res t :=
  r ← ref_at b p;
  let r' := Ref (m_iGroupId r) (m_index r) (m_iSize r) (m_ptr r) true (m_datalen r) in
  Ret (set_refs (<[p := r']> (m_all_ref_pts b)) b).

(** [RollFixBuffer::Pop]; [None]: the call waits for a [PullBack]. *)
Definition Pop (iGroupId : Z) (b : t) : res (option (nat * t)) :=
  _ ← assert_throw (iGroupId <? m_iGroupCount b) INVL_PARA;
  q ← queue_at b iGroupId;
  match q with
  | [] => Ret None
  | p :: q' =>
    b' ← SetBuffer p (set_queues (<[Z.to_nat iGroupId := q']> (m_queues b)) b);
    Ret (Some (p, b'))
  end.

(** What the users of the pool do: take a reference, write, give back. *)
Inductive call : Type := CPop (g : Z) | CWrite (p : nat) (data : bytes) | CPullBack (p : nat).

(** A call of the code, with the reference that [Pop] gives. *)
Definition use (c : call) (b : t) : res (t * option nat) :=
  match c with
  | CPop g => o ← Pop g b; Ret (match o with Some (p, b) => (b, Some p) | None => (b, None) end)
  | CWrite p data => '(b, _) ← Write p data (zlen data) b; Ret (b, None)
  | CPullBack p => b ← ref_PullBack p b; Ret (b, None)
  end.

Fixpoint uses (cs : list call) (b : t) : res (t * list (option nat)) :=
  match cs with
  | [] => Ret (b, [])
  | c :: cs => '(b, r) ← use c b; '(b, rs) ← uses cs b; Ret (b, r :: rs)
  end.

(** ** The abstract pool

    The references that are free, in a FIFO per group, and those that are out.  A call that is
    not a user's to make - to a group there is none of, to a reference that is not out, of more
    bytes than fit - has no meaning here. *)

Record free : Type := Free { fifos : list (list nat); out : list nat }.

Definition full (gn cn : nat) : free := Free (map (fun g => seq (g * cn) cn) (seq 0 gn)) [].

Definition spec (cn : nat) (sz : Z) (c : call) (s : free) : option (free * option nat) :=
  match c with
  | CPop g =>
    if g <? 0 then None
    else match fifos s !! Z.to_nat g with
         | Some (p :: q) => Some (Free (<[Z.to_nat g := q]> (fifos s)) (p :: out s), Some p)
         | Some [] => Some (s, None)
         | None => None
         end
  | CWrite p data => if bool_decide (p ∈ out s /\ zlen data < sz) then Some (s, None) else None
  | CPullBack p =>
    if bool_decide (p ∈ out s)
    then Some (Free (alter (fun q => q ++ [p]) (p / cn)%nat (fifos s)) (list_difference (out s) [p]), None)
    else None
  end.

Fixpoint specs (cn : nat) (sz : Z) (cs : list call) (s : free) : option (free * list (option nat)) :=
  match cs with
  | [] => Some (s, [])
  | c :: cs =>
    match spec cn sz c s with
    | None => None
    | Some (s, r) =>
      match specs cn sz cs s with None => None | Some (s, rs) => Some (s, r :: rs) end
    end
  end.

(** ** Construction *)

Section pool.
Context (gn cn : nat) (sz : Z).
Abbreviation G := (Z.of_nat gn).
Abbreviation C := (Z.of_nat cn).
Context (Hg : (0 < gn)%nat) (Hc : (0 < cn)%nat) (Hs : 0 < sz) (Hsize : G * C * sz < 2 ^ 31).

(** The references point at consecutive items of the block. *)
Record ref_ok (p : nat) (r : BufferItemRef) : Prop := {
  r_group : m_iGroupId r = Z.of_nat (p / cn);
  r_index : m_index r = Z.of_nat (p mod cn);
  r_size : m_iSize r = sz;
  r_ptr : m_ptr r = Z.of_nat p * sz
}.

Record dims (b : t) : Prop := {
  d_groups : m_iGroupCount b = G;
  d_items : m_iGroupItemCount b = C;
  d_size : m_iItemSize b = sz;
  d_data : zlen (m_data b) = G * C * sz
}.

Record wf (b : t) : Prop := {
  w_dims : dims b;
  w_count : length (m_all_ref_pts b) = (gn * cn)%nat;
  w_ref p r : m_all_ref_pts b !! p = Some r -> ref_ok p r;
  w_queues : length (m_queues b) = gn;
  w_queue g q p : m_queues b !! g = Some q -> p ∈ q -> (p < gn * cn)%nat /\ (p / cn)%nat = g
}.

Lemma int_ok z : in_s 32 z -> int z = Ret z.
Proof. intros Hz. unfold int. by rewrite bool_decide_eq_true_2. Qed.

Lemma item_bound i j : (i < gn)%nat -> (j < cn)%nat -> (i * cn + j < gn * cn)%nat.
Proof using. clear. intros. nia. Qed.

Lemma offset_bound p : (p <= gn * cn)%nat -> 0 <= Z.of_nat p * sz <= G * C * sz.
Proof using Hs. clear -Hs. intros. nia. Qed.

Lemma get_mem_item_ok b i j :
  dims b -> (i < gn)%nat -> (j < cn)%nat ->
  get_mem_item b (Z.of_nat i) (Z.of_nat j) = Ret (Z.of_nat (i * cn + j) * sz).
Proof.
  intros [Eg Ei Es _] Hi Hj. unfold get_mem_item. rewrite Eg, Ei, Es. ztest. cbn [assert_throw mbind res_bind].
  pose proof (item_bound i j Hi Hj). pose proof (offset_bound (i * cn + j) ltac:(lia)).
  pose proof (offset_bound (i * cn) ltac:(lia)). pose proof (offset_bound j ltac:(lia)).
  assert (0 <= Z.of_nat (i * cn) <= Z.of_nat (i * cn) * sz) by (clear -Hs; nia).
  rewrite (int_ok (Z.of_nat i * C)) by (unfold in_s; cbn; lia). cbn [mbind res_bind].
  rewrite int_ok by (unfold in_s; cbn; lia). cbn [mbind res_bind].
  rewrite int_ok by (unfold in_s; cbn; lia). cbn [mbind res_bind].
  rewrite int_ok by (unfold in_s; cbn; lia). f_equal. lia.
Qed.

Lemma item_loop_ok m fuel b i j q :
  dims b -> (i < gn)%nat -> (m + j = cn)%nat -> (m < fuel)%nat ->
  length (m_all_ref_pts b) = (i * cn + j)%nat ->
  (forall p r, m_all_ref_pts b !! p = Some r -> ref_ok p r) ->
  exists b', item_loop fuel b (Z.of_nat i) (Z.of_nat j) q = Ret (b', q ++ seq (i * cn + j) m) /\
    dims b' /\ m_queues b' = m_queues b /\ length (m_all_ref_pts b') = (i * cn + cn)%nat /\
    (forall p r, m_all_ref_pts b' !! p = Some r -> ref_ok p r).
Proof.
  revert fuel b j q. induction m as [|m IH]; intros fuel b j q Hd Hi Hm Hf Hl Hr;
    (destruct fuel as [|fuel]; [lia|]); cbn [item_loop]; rewrite (d_items _ Hd); ztest.
  - exists b. rewrite app_nil_r. split_and!; try done. lia.
  - rewrite (get_mem_item_ok b i j Hd Hi) by lia. cbn [mbind res_bind]. rewrite Hl.
    set (r := Ref _ _ _ _ _ _). set (b1 := set_refs _ b).
    assert (ref_ok (i * cn + j) r) as Hro.
    { split; cbn; [f_equal; rewrite Nat.div_add_l, Nat.div_small by lia; lia|
        f_equal; rewrite Nat.add_comm, Nat.Div0.mod_add, Nat.mod_small by lia; lia|by apply d_size|lia]. }
    replace (Z.of_nat j + 1) with (Z.of_nat (S j)) by lia.
    destruct (IH fuel b1 (S j) (q ++ [(i * cn + j)%nat])) as (b' & E & H'); try lia.
    + by destruct Hd.
    + cbn. rewrite length_app, Hl. cbn. lia.
    + cbn. intros p u Hp. apply lookup_app_Some in Hp as [Hp|[Hge Hp]]; [by apply Hr|].
      apply list_lookup_singleton_Some in Hp as [Hp ->]. by replace p with (i * cn + j)%nat by lia.
    + exists b'. split; [|done]. rewrite E, <- app_assoc. cbn. by rewrite Nat.add_succ_r.
Qed.

Lemma group_loop_ok m fuel b i :
  dims b -> (m + i = gn)%nat -> (m < fuel)%nat -> length (m_queues b) = i ->
  length (m_all_ref_pts b) = (i * cn)%nat ->
  (forall p r, m_all_ref_pts b !! p = Some r -> ref_ok p r) ->
  m_queues b = map (fun g => seq (g * cn) cn) (seq 0 i) ->
  exists b', group_loop fuel b (Z.of_nat i) = Ret b' /\
    dims b' /\ m_queues b' = map (fun g => seq (g * cn) cn) (seq 0 gn) /\
    length (m_all_ref_pts b') = (gn * cn)%nat /\
    (forall p r, m_all_ref_pts b' !! p = Some r -> ref_ok p r).
Proof.
  revert fuel b i. induction m as [|m IH]; intros fuel b i Hd Hm Hf Hq Hl Hr Hqs;
    (destruct fuel as [|fuel]; [lia|]); cbn [group_loop]; rewrite (d_groups _ Hd); ztest.
  - exists b. replace i with gn in * by lia. done.
  - rewrite (d_items _ Hd), Nat2Z.id.
    destruct (item_loop_ok cn (S cn) b i 0 []) as (b1 & E & Hd1 & Hq1 & Hl1 & Hr1); try done; try lia.
    change (Z.of_nat 0) with 0 in E. rewrite E. cbn [mbind res_bind].
    replace (Z.of_nat i + 1) with (Z.of_nat (S i)) by lia. apply IH; try done; try lia.
    + by destruct Hd1.
    + cbn. rewrite Hq1, length_app, Hq. cbn. lia.
    + cbn. lia.
    + cbn [m_queues set_queues]. rewrite Hq1, Hqs, seq_S, map_app. cbn. by rewrite Nat.add_0_r.
Qed.

Lemma concat_queues i : concat (map (fun g => seq (g * cn) cn) (seq 0 i)) = seq 0 (i * cn).
Proof.
  induction i as [|i IH]; [done|]. rewrite seq_S, map_app, concat_app, IH. cbn. rewrite app_nil_r.
  by rewrite Nat.add_comm, seq_app.
Qed.

(** A pool some of whose references, [out], are in use. *)
Record pool (s : t * list nat) : Prop := {
  p_wf : wf s.1;
  p_all : concat (m_queues s.1) ++ s.2 ≡ₚ seq 0 (gn * cn);
  p_out p r : p ∈ s.2 -> m_all_ref_pts s.1 !! p = Some r -> m_buffer r = true
}.

Lemma make_ok (malloc : Z -> option bytes) d :
  malloc (G * C * sz) = Some d -> zlen d = G * C * sz ->
  exists b, make malloc G C sz = Ret b /\ pool (b, []) /\ m_queues b = fifos (full gn cn).
Proof.
  intros Hm Hd. unfold make.
  assert (0 <= G * C <= G * C * sz) by (clear -Hs Hg Hc; nia).
  rewrite int_ok by (unfold in_s; cbn; lia). cbn [mbind res_bind].
  rewrite int_ok by (unfold in_s; cbn; lia). cbn [mbind res_bind]. rewrite u64_id, Hm, Nat2Z.id by lia.
  destruct (group_loop_ok gn (S gn) (mk G C sz d [] []) 0) as (b & E & Hdim & Hq & Hl & Hr); try done; try lia.
  change (Z.of_nat 0) with 0 in E. exists b. split; [done|]. split; [|done]. split; cbn.
  - split; [done|done|done|by rewrite Hq, length_map, length_seq|]. intros g q p Hgq Hp.
    rewrite Hq in Hgq. apply list_lookup_fmap_Some in Hgq as (g' & -> & Hg').
    apply lookup_seq in Hg' as [-> Hlt]. apply elem_of_seq in Hp. cbn in Hp.
    split; [clear -Hp Hlt; nia|]. symmetry. apply (Nat.div_unique _ _ _ (p - g * cn)); lia.
  - by rewrite app_nil_r, Hq, concat_queues.
  - intros p r Hp. by apply not_elem_of_nil in Hp.
Qed.

(** ** Use *)

(** Reference [p] is one of the pool's. *)
Lemma wf_ref b p : wf b -> (p < gn * cn)%nat -> exists r, m_all_ref_pts b !! p = Some r /\ ref_ok p r.
Proof.
  intros Hw Hp. destruct (lookup_lt_is_Some_2 (m_all_ref_pts b) p) as [r Hr]; [by rewrite (w_count _ Hw)|].
  exists r. split; [done|]. by eapply w_ref.
Qed.

Lemma pool_out_lt s p : pool s -> p ∈ s.2 -> (p < gn * cn)%nat.
Proof.
  intros Hp Hin. assert (p ∈ seq 0 (gn * cn)) as H; [|by apply elem_of_seq in H as [_ H]].
  rewrite <- (p_all _ Hp). apply elem_of_app. by right.
Qed.

Lemma wf_set_ref b p r :
  wf b -> ref_ok p r -> wf (set_refs (<[p := r]> (m_all_ref_pts b)) b).
Proof.
  intros [Hd Hl Hr Hq Hqq] Hp. split; cbn; [by destruct Hd|by rewrite length_insert| |done|done].
  intros k u Hk. apply list_lookup_insert_Some in Hk as [(-> & -> & _)|[_ Hk]]; [done|by apply Hr].
Qed.

Lemma wf_set_data b d : wf b -> zlen d = zlen (m_data b) -> wf (set_data d b).
Proof. intros [[] ? ? ? ?] Hz. split; try done. split; cbn; try done. by rewrite Hz. Qed.

Lemma wf_set_queue b g q :
  wf b -> (forall p, p ∈ q -> (p < gn * cn)%nat /\ (p / cn)%nat = g) ->
  wf (set_queues (<[g := q]> (m_queues b)) b).
Proof.
  intros [Hd Hl Hr Hq Hqq] Hp. split; cbn; [by destruct Hd|done|done|by rewrite length_insert|].
  intros k u x Hk Hx. apply list_lookup_insert_Some in Hk as [(-> & -> & _)|[_ Hk]]; [by apply Hp|by eapply Hqq].
Qed.

Lemma concat_insert (l : list (list nat)) g q q' :
  l !! g = Some q -> exists l1 l2, concat l = l1 ++ q ++ l2 /\ concat (<[g := q']> l) = l1 ++ q' ++ l2.
Proof.
  intros Hl. exists (concat (take g l)), (concat (drop (S g) l)). split.
  - rewrite <- (take_drop_middle l g q Hl) at 1. by rewrite concat_app.
  - rewrite insert_take_drop by (by eapply lookup_lt_Some). by rewrite concat_app.
Qed.

Lemma queue_at_ok b g : wf b -> 0 <= g < G -> exists q, queue_at b g = Ret q /\ m_queues b !! Z.to_nat g = Some q.
Proof.
  intros Hw Hgg. destruct (lookup_lt_is_Some_2 (m_queues b) (Z.to_nat g)) as [q Hq].
  { rewrite (w_queues _ Hw). lia. }
  exists q. split; [|done]. unfold queue_at. ztest. by rewrite Hq.
Qed.

Lemma ref_at_ok b p : wf b -> (p < gn * cn)%nat -> exists r, ref_at b p = Ret r /\ m_all_ref_pts b !! p = Some r /\ ref_ok p r.
Proof.
  intros Hw Hp. destruct (wf_ref b p Hw Hp) as (r & Hr & Ho). exists r. unfold ref_at. by rewrite Hr.
Qed.

Lemma SetBuffer_ok b p :
  wf b -> (p < gn * cn)%nat ->
  exists r, SetBuffer p b = Ret (set_refs (<[p := r]> (m_all_ref_pts b)) b) /\ ref_ok p r /\ m_buffer r = true.
Proof.
  intros Hw Hp. destruct (ref_at_ok b p Hw Hp) as (r & E & _ & [H1 H2 H3 H4]). unfold SetBuffer. rewrite E.
  eexists. by split.
Qed.

Lemma Pop_wf b g p q' :
  wf b -> 0 <= g < G -> m_queues b !! Z.to_nat g = Some (p :: q') ->
  exists b' r, Pop g b = Ret (Some (p, b')) /\ wf b' /\ m_queues b' = <[Z.to_nat g := q']> (m_queues b) /\
    m_data b' = m_data b /\ m_all_ref_pts b' = <[p := r]> (m_all_ref_pts b) /\ m_buffer r = true.
Proof.
  intros Hw Hgg Hq. destruct (queue_at_ok b g Hw Hgg) as (q & E & Hq1). rewrite Hq in Hq1. injection Hq1 as <-.
  unfold Pop. rewrite (d_groups _ (w_dims _ Hw)). ztest.
  cbn [assert_throw mbind res_bind]. rewrite E. cbn [mbind res_bind].
  assert (wf (set_queues (<[Z.to_nat g := q']> (m_queues b)) b)) as Hw1.
  { apply wf_set_queue; [done|]. intros x Hx. eapply (w_queue _ Hw); [done|]. by right. }
  assert (p < gn * cn)%nat as Hlt by (eapply (w_queue _ Hw); [done|by left]).
  destruct (SetBuffer_ok _ p Hw1 Hlt) as (r & Es & Hr & Hb). rewrite Es. cbn [mbind res_bind].
  eexists _, r. split; [done|]. split; [exact (wf_set_ref _ _ _ Hw1 Hr)|done].
Qed.

Lemma Pop_empty b g : wf b -> 0 <= g < G -> m_queues b !! Z.to_nat g = Some [] -> Pop g b = Ret None.
Proof.
  intros Hw Hgg Hq. destruct (queue_at_ok b g Hw Hgg) as (q & E & Hq1). rewrite Hq in Hq1. injection Hq1 as <-.
  unfold Pop. rewrite (d_groups _ (w_dims _ Hw)). ztest. cbn [assert_throw mbind res_bind]. by rewrite E.
Qed.

Lemma Pop_ok b out g :
  pool (b, out) -> 0 <= g < G ->
  exists q, m_queues b !! Z.to_nat g = Some q /\
    match q with
    | [] => Pop g b = Ret None
    | p :: q' => exists b', Pop g b = Ret (Some (p, b')) /\ pool (b', p :: out) /\
                   m_queues b' = <[Z.to_nat g := q']> (m_queues b) /\ m_data b' = m_data b
    end.
Proof.
  intros Hp Hgg. pose proof (p_wf _ Hp) as Hw. cbn in Hw. destruct (queue_at_ok b g Hw Hgg) as (q & _ & Hq).
  exists q. split; [done|]. destruct q as [|p q']; [by apply Pop_empty|].
  destruct (Pop_wf b g p q' Hw Hgg Hq) as (b' & r & E & Hw' & Hq' & Hd & Hr & Hb). exists b'.
  split_and!; [done| |done|done]. split; cbn.
  - done.
  - destruct (concat_insert _ _ _ q' Hq) as (l1 & l2 & E1 & E2). rewrite Hq', E2, <- (p_all _ Hp). cbn. rewrite E1.
    rewrite <- !app_assoc. cbn. solve_Permutation.
  - intros x u Hx Hu. rewrite Hr in Hu. apply list_lookup_insert_Some in Hu as [(-> & -> & _)|[Hne Hu]]; [done|].
    apply elem_of_cons in Hx as [->|Hx]; [done|]. by apply (p_out _ Hp x u).
Qed.

Lemma out_NoDup s : pool s -> NoDup (concat (m_queues s.1) ++ s.2).
Proof. intros Hp. rewrite (p_all _ Hp). apply NoDup_seq. Qed.

Lemma difference_one (out : list nat) p : NoDup out -> p ∈ out -> out ≡ₚ p :: list_difference out [p].
Proof.
  intros Hn Hp. apply NoDup_Permutation; [done| |].
  - constructor; [|by apply NoDup_list_difference]. rewrite list_elem_of_difference. set_solver.
  - intros x. rewrite elem_of_cons, list_elem_of_difference. destruct (decide (x = p)); set_solver.
Qed.

Lemma PullBack_ok b out p :
  pool (b, out) -> p ∈ out ->
  exists b' q, ref_PullBack p b = Ret b' /\ pool (b', list_difference out [p]) /\
    m_queues b !! (p / cn)%nat = Some q /\ m_queues b' = <[(p / cn)%nat := q ++ [p]]> (m_queues b) /\
    m_data b' = m_data b /\ m_all_ref_pts b' = m_all_ref_pts b.
Proof.
  intros Hp Hin. pose proof (p_wf _ Hp) as Hw. cbn in Hw. pose proof (pool_out_lt _ p Hp Hin) as Hlt.
  destruct (ref_at_ok b p Hw Hlt) as (r & E & Hr & Ho). unfold ref_PullBack. rewrite E. cbn [mbind res_bind].
  rewrite (p_out _ Hp p r Hin Hr). cbn [assert_throw mbind res_bind]. unfold PullBack. rewrite E. cbn [mbind res_bind].
  assert (p / cn < gn)%nat as Hd by (apply Nat.Div0.div_lt_upper_bound; clear -Hlt; lia).
  rewrite (r_group _ _ Ho). destruct (queue_at_ok b (Z.of_nat (p / cn)) Hw) as (q & Eq & Hq); [lia|].
  rewrite Eq. cbn [mbind res_bind]. rewrite Nat2Z.id in *. eexists _, q. split; [done|].
  split; [|done]. pose proof (out_NoDup _ Hp) as Hn. apply NoDup_app in Hn as (_ & _ & Hn). cbn in Hn.
  split; cbn.
  - apply wf_set_queue; [done|]. intros x Hx. apply elem_of_app in Hx as [Hx|Hx].
    + by eapply (w_queue _ Hw).
    + apply list_elem_of_singleton in Hx as ->. done.
  - destruct (concat_insert _ _ _ (q ++ [p]) Hq) as (l1 & l2 & E1 & E2). rewrite E2, <- (p_all _ Hp). cbn.
    rewrite E1. transitivity ((l1 ++ q ++ l2) ++ p :: list_difference out [p]); [|by rewrite <- difference_one].
    rewrite <- !app_assoc. cbn. solve_Permutation.
  - intros x u Hx Hu. apply list_elem_of_difference in Hx as [Hx _]. by apply (p_out _ Hp x u).
Qed.

(** The bytes of an item. *)
Definition region (b : t) (p : nat) : res bytes := mem_read (m_data b) (Z.of_nat p * sz) sz.

Lemma regions_apart p p' : p <> p' -> Z.of_nat p' * sz + sz <= Z.of_nat p * sz \/ Z.of_nat p * sz + sz <= Z.of_nat p' * sz.
Proof using Hs. clear -Hs. intros. destruct (decide (p < p')%nat); nia. Qed.

Lemma Write_ok b p data :
  wf b -> (p < gn * cn)%nat -> zlen data < sz ->
  exists b' r r', Write p data (zlen data) b = Ret (b', zlen data) /\ wf b' /\ m_queues b' = m_queues b /\
    mem_read (m_data b') (Z.of_nat p * sz) (zlen data) = Ret data /\
    (forall p', p' <> p -> region b' p' = region b p') /\
    m_all_ref_pts b !! p = Some r /\ m_all_ref_pts b' = <[p := r']> (m_all_ref_pts b) /\ m_buffer r' = m_buffer r.
Proof.
  intros Hw Hp Hl. destruct (ref_at_ok b p Hw Hp) as (r & E & Hr & Ho). unfold Write. rewrite E. cbn [mbind res_bind].
  rewrite (r_size _ _ Ho). ztest. cbn [assert_throw mbind res_bind]. pose proof (zlen_nonneg data).
  assert (mem_read data 0 (zlen data) = Ret data) as ->.
  { unfold mem_read. ztest. cbn [check_ub mbind res_bind]. f_equal. rewrite drop_0. apply firstn_all2. unfold zlen. lia. }
  cbn [mbind res_bind]. rewrite (r_ptr _ _ Ho). pose proof (d_data _ (w_dims _ Hw)) as Hd.
  assert (Z.of_nat p * sz + sz <= G * C * sz) by (clear -Hp Hs; nia).
  assert (0 <= Z.of_nat p * sz) by (clear -Hs; nia).
  assert (mem_write (m_data b) (Z.of_nat p * sz) data = Ret (take (Z.to_nat (Z.of_nat p * sz)) (m_data b) ++ data ++
    drop (Z.to_nat (Z.of_nat p * sz + zlen data)) (m_data b))) as Ew by (apply mem_write_ok; lia).
  rewrite Ew. cbn [mbind res_bind]. eexists _, r, _. split; [done|]. split_and!; try done; cbn.
  - apply (wf_set_ref (set_data _ b)).
    + apply wf_set_data; [done|]. by rewrite (mem_write_zlen _ _ _ _ Ew).
    + destruct Ho. by split.
  - by apply (mem_read_write (m_data b)).
  - intros p' Hne. unfold region. cbn. eapply mem_read_write_ne; [exact Ew|].
    destruct (regions_apart p p'); [done|lia|lia].
Qed.

(** An item begins with the bytes written to it. *)
Lemma region_starts b p data :
  wf b -> (p < gn * cn)%nat -> zlen data < sz -> mem_read (m_data b) (Z.of_nat p * sz) (zlen data) = Ret data ->
  exists w, region b p = Ret (data ++ w).
Proof.
  intros Hw Hp Hl Hd. pose proof (d_data _ (w_dims _ Hw)) as Hz. pose proof (zlen_nonneg data).
  assert (Z.of_nat p * sz + sz <= G * C * sz) by (clear -Hp Hs; nia). assert (0 <= Z.of_nat p * sz) by (clear -Hs; nia).
  unfold region, mem_read in *. rewrite Hz in *. revert Hd. ztest. cbn [check_ub mbind res_bind]. intros [= Hd].
  set (r := drop (Z.to_nat (Z.of_nat p * sz)) (m_data b)) in *.
  exists (drop (Z.to_nat (zlen data)) (take (Z.to_nat sz) r)). f_equal.
  rewrite <- (take_drop (Z.to_nat (zlen data)) (take (Z.to_nat sz) r)) at 1. f_equal.
  rewrite take_take, Nat.min_l by lia. exact Hd.
Qed.

Lemma pool_write b out p b' r r' :
  pool (b, out) -> wf b' -> m_queues b' = m_queues b -> m_all_ref_pts b !! p = Some r ->
  m_all_ref_pts b' = <[p := r']> (m_all_ref_pts b) -> m_buffer r' = m_buffer r ->
  pool (b', out).
Proof.
  intros Hp Hw Hq Hr Hr' Hb. split; cbn; [done|rewrite Hq; exact (p_all _ Hp)|].
  intros x u Hx Hu. rewrite Hr' in Hu. apply list_lookup_insert_Some in Hu as [(-> & -> & _)|[_ Hu]];
    [rewrite Hb|]; by eapply (p_out _ Hp).
Qed.

(** A call that has a meaning does what it means, and only a write to an item changes it. *)
Lemma use_ok b s c s' r :
  pool (b, out s) -> m_queues b = fifos s -> spec cn sz c s = Some (s', r) ->
  exists b', use c b = Ret (b', r) /\ pool (b', out s') /\ m_queues b' = fifos s' /\
    (forall p, (forall d, c <> CWrite p d) -> region b' p = region b p) /\
    (forall p d, c = CWrite p d -> exists w, region b' p = Ret (d ++ w)).
Proof.
  destruct s as [qs out]. cbn [fifos RollFixBuffer.out]. intros Hp <- Hc'. destruct c as [g|p data|p]; cbn [use spec fifos RollFixBuffer.out] in *.
  - destruct (g <? 0) eqn:Eg; [done|]. bool_to_prop.
    destruct (m_queues b !! Z.to_nat g) as [q|] eqn:Eq; [|done].
    assert (0 <= g < G) as Hgg by (apply lookup_lt_Some in Eq; pose proof (w_queues _ (p_wf _ Hp)) as Eg1; cbn in Eg1; lia).
    destruct (Pop_ok b out g Hp Hgg) as (q' & Eq' & H). rewrite Eq in Eq'. injection Eq' as <-.
    destruct q as [|p q]; injection Hc' as <- <-.
    + rewrite H. exists b. by split_and!.
    + destruct H as (b' & -> & Hp' & Hq & Ed). exists b'. split_and!; try done. intros x _. unfold region. by rewrite Ed.
  - case_bool_decide as E; [|done]. destruct E as [Ep El]. injection Hc' as <- <-.
    destruct (Write_ok b p data (p_wf _ Hp) (pool_out_lt _ p Hp Ep) El)
      as (b' & r1 & r' & -> & Hw & Hq & Hd & Hreg & Hr & Hr' & Hb). exists b'.
    split_and!; [done|by eapply pool_write|done| |].
    + intros x Hx. apply Hreg. naive_solver.
    + intros ? ? [= <- <-]. apply region_starts; [done| |done|done]. exact (pool_out_lt _ p Hp Ep).
  - case_bool_decide as E; [|done]. injection Hc' as <- <-.
    destruct (PullBack_ok b out p Hp E) as (b' & q & -> & Hp' & Hq & Eq & Ed & _). exists b'.
    split_and!; try done.
    + rewrite Eq. cbn [fifos]. apply list_eq. intros k. destruct (decide (k = p / cn)%nat) as [->|Hne].
      * rewrite list_lookup_alter_eq, Hq. rewrite list_lookup_insert_eq by (by eapply lookup_lt_Some). done.
      * by rewrite list_lookup_alter_ne, list_lookup_insert_ne by done.
    + intros x _. unfold region. by rewrite Ed.
Qed.

Lemma uses_ok cs b s s' rs :
  pool (b, out s) -> m_queues b = fifos s -> specs cn sz cs s = Some (s', rs) ->
  exists b', uses cs b = Ret (b', rs) /\ pool (b', out s') /\ m_queues b' = fifos s' /\
    (forall p, (forall d, CWrite p d ∉ cs) -> region b' p = region b p) /\
    (forall p d cs1 cs2, cs = cs1 ++ CWrite p d :: cs2 -> (forall d', CWrite p d' ∉ cs2) ->
       exists w, region b' p = Ret (d ++ w)).
Proof.
  revert b s rs. induction cs as [|c cs IH]; intros b s rs Hp Hq Hss; cbn in Hss.
  - injection Hss as <- <-. exists b. split_and!; try done. by intros ? ? [|? cs1].
  - destruct (spec cn sz c s) as [[s1 r]|] eqn:E1; [|done].
    destruct (specs cn sz cs s1) as [[s2 rs1]|] eqn:E2; [|done]. injection Hss as -> <-.
    destruct (use_ok b s c s1 r Hp Hq E1) as (b1 & Eu & Hp1 & Hq1 & Hr1 & Hw1).
    destruct (IH b1 s1 rs1 Hp1 Hq1 E2) as (b2 & Eus & Hp2 & Hq2 & Hr2 & Hw2).
    exists b2. cbn. rewrite Eu. cbn [mbind res_bind]. rewrite Eus. split_and!; try done.
    + intros p Hne. rewrite Hr2, Hr1; [done| |]; intros d; [intros ->; apply (Hne d); by left|].
      intros Hin. apply (Hne d). by right.
    + intros p d [|c1 cs1] cs2 [= -> ->] Hne; [|by eapply Hw2]. rewrite Hr2 by done. by apply Hw1.
Qed.
End pool.

(** ** Properties *)

(** C21: A pool made with positive counts, and calls that are the user's to make (take from a
    group there is; write, or give back, a reference that is out; fewer bytes than an item
    holds - [pulled_back_twice] is what a second give-back does): the constructor and every call
    succeed; [Pop] gives the reference that has been free longest of its group, and waits if
    there is none; a reference given back goes to the end of its own group's FIFO and of no other;
    each reference is always in exactly one place, free in its group or out; an item holds what
    was written to it last, and is changed by nothing but writes to it. *)
Theorem pool_exclusive gn cn sz malloc d :
  (0 < gn)%nat -> (0 < cn)%nat -> 0 < sz -> Z.of_nat gn * Z.of_nat cn * sz < 2 ^ 31 ->
  malloc (Z.of_nat gn * Z.of_nat cn * sz) = Some d -> zlen d = Z.of_nat gn * Z.of_nat cn * sz ->
  exists b0, make malloc (Z.of_nat gn) (Z.of_nat cn) sz = Ret b0 /\ m_queues b0 = fifos (full gn cn) /\
    forall cs s rs, specs cn sz cs (full gn cn) = Some (s, rs) ->
      exists b, uses cs b0 = Ret (b, rs) /\ m_queues b = fifos s /\
        concat (m_queues b) ++ out s ≡ₚ seq 0 (gn * cn) /\
        (forall g q p, m_queues b !! g = Some q -> p ∈ q -> (p / cn)%nat = g) /\
        (forall p, (forall w, CWrite p w ∉ cs) -> region sz b p = region sz b0 p) /\
        (forall p w cs1 cs2, cs = cs1 ++ CWrite p w :: cs2 -> (forall w', CWrite p w' ∉ cs2) ->
           exists w', region sz b p = Ret (w ++ w')).
Proof.
  intros Hg Hc Hs Hsz Hm Hd. destruct (make_ok gn cn sz Hg Hc Hs Hsz malloc d Hm Hd) as (b0 & E & Hp & Hq).
  exists b0. split_and!; [done|done|]. intros cs s rs Hss.
  destruct (uses_ok gn cn sz Hg Hc Hs Hsz cs b0 (full gn cn) s rs Hp Hq Hss) as (b & E' & Hp' & Hq' & Hr & Hw).
  exists b. split_and!; [done|done|exact (p_all _ _ _ _ Hp')| |done|done].
  intros g q p Hgq Hin. by apply (w_queue _ _ _ _ (p_wf _ _ _ _ Hp') g q p Hgq Hin).
Qed.

(** Two groups of two; the first is emptied, given one back, and taken from again. *)
Lemma pool_exclusive_witness :
  exists b0 b,
    let cs := [CPop 0; CPop 1; CWrite 2 (str "abc"); CPop 0; CPop 0; CPullBack 2; CPullBack 1; CPop 0] in
    make (fun n => Some (replicate (Z.to_nat n) 0)) 2 2 4 = Ret b0 /\
    uses cs b0 = Ret (b, [Some 0; Some 2; None; Some 1; None; None; None; Some 1])%nat /\
    m_queues b = [[]; [3; 2]]%nat /\ exists w, region 4 b 2 = Ret (str "abc" ++ w).
Proof.
  destruct (pool_exclusive 2 2 4 (fun n => Some (replicate (Z.to_nat n) 0)) (replicate 16 0))
    as (b0 & E & _ & H); [lia|lia|lia|lia|done|done|].
  destruct (H [CPop 0; CPop 1; CWrite 2 (str "abc"); CPop 0; CPop 0; CPullBack 2; CPullBack 1; CPop 0] _ _ eq_refl)
    as (b & E' & Hq & _ & _ & _ & Hw).
  exists b0, b. split; [exact E|]. split; [exact E'|]. split; [exact Hq|].
  apply (Hw 2%nat (str "abc") [CPop 0; CPop 1] _ eq_refl). intros w. apply not_elem_of_cons. set_solver.
Defined.

(** A reference that its user gives back twice is handed to two users. *)
Theorem pulled_back_twice gn cn sz b out p :
  (0 < gn)%nat -> (0 < cn)%nat -> 0 < sz -> Z.of_nat gn * Z.of_nat cn * sz < 2 ^ 31 ->
  pool gn cn sz (b, out) -> p ∈ out -> m_queues b !! (p / cn)%nat = Some [] ->
  exists b1 b2 b3 b4, ref_PullBack p b = Ret b1 /\ ref_PullBack p b1 = Ret b2 /\
    Pop (Z.of_nat (p / cn)) b2 = Ret (Some (p, b3)) /\ Pop (Z.of_nat (p / cn)) b3 = Ret (Some (p, b4)).
Proof.
  intros Hg Hc Hs Hsz Hp Hin Hq.
  destruct (PullBack_ok gn cn sz Hg Hc Hs Hsz b out p Hp Hin) as (b1 & q & E1 & Hp1 & Hq' & Eq1 & _ & Er1).
  rewrite Hq in Hq'. injection Hq' as <-. cbn [app] in Eq1.
  pose proof (p_wf _ _ _ _ Hp) as Hw. pose proof (p_wf _ _ _ _ Hp1) as Hw1. cbn in Hw, Hw1.
  pose proof (pool_out_lt _ _ _ _ p Hp Hin) as Hlt.
  assert (p / cn < gn)%nat as Hd by (apply Nat.Div0.div_lt_upper_bound; clear -Hlt; lia).
  destruct (ref_at_ok gn cn sz b1 p Hw1 Hlt) as (r & Er & Hr & Ho).
  assert (m_buffer r = true) as Hb by (rewrite Er1 in Hr; by apply (p_out _ _ _ _ Hp p r)).
  assert (m_queues b1 !! (p / cn)%nat = Some [p]) as Hq1.
  { rewrite Eq1. apply list_lookup_insert_eq. by rewrite (w_queues _ _ _ _ Hw). }
  set (b2 := set_queues (<[(p / cn)%nat := [p; p]]> (m_queues b1)) b1).
  assert (ref_PullBack p b1 = Ret b2) as E2.
  { unfold ref_PullBack, PullBack. rewrite Er. cbn [mbind res_bind]. rewrite Hb. cbn [assert_throw mbind res_bind].
    rewrite (r_group _ _ _ _ Ho). unfold queue_at. ztest.
    by rewrite Nat2Z.id, Hq1. }
  assert (wf gn cn sz b2) as Hw2.
  { apply wf_set_queue; [done|]. intros x Hx. rewrite !elem_of_cons in Hx.
    by destruct Hx as [->|[->|Hx%not_elem_of_nil]]. }
  assert (m_queues b2 !! Z.to_nat (Z.of_nat (p / cn)) = Some [p; p]) as Hq2.
  { rewrite Nat2Z.id. cbn. apply list_lookup_insert_eq. by rewrite (w_queues _ _ _ _ Hw1). }
  destruct (Pop_wf gn cn sz Hg Hc Hs b2 (Z.of_nat (p / cn)) p [p] Hw2) as (b3 & r3 & E3 & Hw3 & Hq3 & _); [lia|done|].
  assert (m_queues b3 !! Z.to_nat (Z.of_nat (p / cn)) = Some [p]) as Hq4.
  { rewrite Hq3. apply list_lookup_insert_eq. rewrite (w_queues _ _ _ _ Hw2). lia. }
  destruct (Pop_wf gn cn sz Hg Hc Hs b3 (Z.of_nat (p / cn)) p [] Hw3) as (b4 & r4 & E4 & _); [lia|done|].
  by exists b1, b2, b3, b4.
Qed.

Lemma pulled_back_twice_witness :
  exists b1 b2 b3 b4, ref_PullBack 0 (mk 1 1 4 (replicate 4 0) [[]] [Ref 0 0 4 0 true 0]) = Ret b1 /\
    ref_PullBack 0 b1 = Ret b2 /\ Pop 0 b2 = Ret (Some (0%nat, b3)) /\ Pop 0 b3 = Ret (Some (0%nat, b4)).
Proof.
  apply (pulled_back_twice 1 1 4 (mk 1 1 4 (replicate 4 0) [[]] [Ref 0 0 4 0 true 0]) [0%nat] 0);
    [lia|lia|lia|lia| |by left|done].
  split; cbn.
  - split; [by split|done| |done|].
    + intros [|p] r Hr; [|done]. by injection Hr as <-.
    + intros [|g] q p Hq Hp; [|done]. injection Hq as <-. by apply not_elem_of_nil in Hp.
  - done.
  - intros [|p] r Hp Hr; [|done]. by injection Hr as <-.
Defined.

End RollFixBuffer.
