(* ===== verification/Crypto.v ===== *)
(** * The text encodings of [src/crypto]

    Modules [Hex] ([hex.cpp]) and [UrlEncode] ([urlencode.cpp]).  [char] is
    signed, as on the platforms the library is built for. *)

From S2P Require Import Prelude StdString.

Module Hex.

Definition hexmap : list Z := str "0123456789abcdef".

(** [create_hexbyte_map]: the two digits of each byte. *)
Definition hexbyte_map : list (Z * Z) :=
  map (fun i => (nth (i / 16) hexmap 0, nth (i mod 16) hexmap 0)) (seq 0 256).

Definition hexbyte (c : Z) : res (Z * Z) :=
  match (if c <? 0 then None else hexbyte_map !! Z.to_nat c) with
  | Some d => Ret d
  | None => Throw UB
  end.

Fixpoint hex_loop (conv : Z -> Z) (mem : bytes) : res bytes :=
  match mem with
  | [] => Ret []
  | b :: mem => d ← hexbyte (conv b); rest ← hex_loop conv mem; Ret (d.1 :: d.2 :: rest)
  end.

(** The byte goes through a [char] and to [int]. *)
Definition HexMem (mem : bytes) : res bytes := hex_loop s8 mem.
Definition HexStr (s : bytes) : res bytes := hex_loop s8 s.

(** [HexStr(HCUSZ, HN)]: through an [unsigned char]. *)
Definition HexStr_ptr (ptr : bytes) (len : Z) : res bytes :=
  _ ← check_ub (bool_decide (in_s 32 (len * 2)));
  if len <? 0 then Throw StdLengthError
  else _ ← check_ub (len <=? zlen ptr); hex_loop u8 (take (Z.to_nat len) ptr).

End Hex.

Module UrlEncode.

Definition ToHex (x : Z) : Z := u8 (if x >? 9 then x + 55 else x + 48).

(** [assert(0)] for what is no letter or digit. *)
Definition FromHex (x : Z) : res Z :=
  if (x >=? 65) && (x <=? 90) then Ret (x - 65 + 10)
  else if (x >=? 97) && (x <=? 122) then Ret (x - 97 + 10)
  else if (x >=? 48) && (x <=? 57) then Ret (x - 48)
  else Throw Terminate.

Definition plain (safes : bytes) (c : Z) : bool :=
  isalnum c || (c =? 45) || (c =? 95) || (c =? 46) || (c =? 126) || mem c safes.

Definition encode_char (safes : bytes) (c : Z) : bytes :=
  if plain safes c then [c]
  else if c =? 32 then [43]
  else [37; ToHex (Z.shiftr c 4); ToHex (c mod 16)].

Definition Encode (s safes : bytes) : bytes := concat (map (encode_char safes) s).

(** The loop of [Decode], on the characters from [i] on. *)
Fixpoint Decode (s : bytes) : res bytes :=
  match s with
  | [] => Ret []
  | c :: s1 =>
    if c =? 43 then rest ← Decode s1; Ret (32 :: rest)
    else if c =? 37 then
      match s1 with
      | h :: l :: s3 =>
        high ← FromHex h; low ← FromHex l; rest ← Decode s3; Ret (u8 (high * 16 + low) :: rest)
      | _ => Throw Terminate
      end
    else rest ← Decode s1; Ret (c :: rest)
  end.

Definition good_char (c : Z) : bool :=
  if (c >=? 65) && (c <=? 90) then true else (c >=? 48) && (c <=? 57).

(** [str[i]] for [i <= length]: the terminator is there to be read. *)
Definition char_at (s : bytes) (i : Z) : res Z :=
  if (i <? 0) || (zlen s <? i) then Throw UB else Ret (nth (Z.to_nat i) s 0).

Fixpoint good_loop (s : bytes) : bool :=
  match s with
  | [] => true
  | c :: s1 =>
    if (c =? 37) && (negb (good_char (nth 0 s1 0)) || negb (good_char (nth 1 s1 0))) then false
    else good_loop s1
  end.

Definition IsUrlEncode (s : bytes) : res bool :=
  let len := s32 (zlen s) in
  c2 ← char_at s (len - 2);
  c1 ← char_at s (len - 1);
  if (c2 =? 37) || (c1 =? 37) then Ret false else Ret (good_loop s).

End UrlEncode.

(** ** Digits *)

Module HexFacts.
Import Hex.

(** The two digits of a byte, the high one first. *)
Definition digits (b : Z) : bytes :=
  [nth (Z.to_nat (b / 16)) hexmap 0; nth (Z.to_nat (b mod 16)) hexmap 0].

Lemma hexbyte_ok b : is_byte b -> exists d, hexbyte b = Ret d /\ digits b = [d.1; d.2].
Proof.
  intros Hb. unfold is_byte in Hb. unfold hexbyte. ztest. unfold hexbyte_map.
  rewrite list_lookup_fmap, lookup_seq_lt by lia. cbn [fmap option_fmap option_map].
  eexists. split; [done|]. unfold digits. cbn [fst snd plus].
  by rewrite Z2Nat.inj_div, Z2Nat.inj_mod by lia.
Qed.

Lemma hexbyte_negative c : c < 0 -> hexbyte c = Throw UB.
Proof. intros Hc. unfold hexbyte. by ztest. Qed.

Lemma hex_loop_ok conv mem :
  Forall (fun b => is_byte b /\ conv b = b) mem -> hex_loop conv mem = Ret (concat (map digits mem)).
Proof.
  induction 1 as [|b mem [Hb Hc] _ IH]; [done|]. cbn [hex_loop]. rewrite Hc.
  destruct (hexbyte_ok b Hb) as (d & E & Ed). rewrite E, IH. cbn [mbind res_bind map concat]. by rewrite Ed.
Qed.

Lemma hex_loop_high mem :
  is_bytes mem -> Exists (fun b => 128 <= b) mem -> hex_loop s8 mem = Throw UB.
Proof.
  intros Hm He. induction He as [b mem Hb|b mem _ IH]; apply Forall_cons in Hm as [Hb' Hm]; cbn [hex_loop];
    unfold is_byte in Hb'.
  - assert (s8 b = b - 256) as -> by ints. by rewrite hexbyte_negative by lia.
  - destruct (decide (b < 128)) as [Hlt|Hge].
    + assert (s8 b = b) as -> by ints. destruct (hexbyte_ok b Hb') as (d & E & _). by rewrite E, (IH Hm).
    + assert (s8 b = b - 256) as -> by ints. by rewrite hexbyte_negative by lia.
Qed.

Lemma HexStr_ptr_ok mem : is_bytes mem -> zlen mem < 2 ^ 30 -> HexStr_ptr mem (zlen mem) = Ret (concat (map digits mem)).
Proof.
  intros Hm Hl. pose proof (zlen_nonneg mem). unfold HexStr_ptr. rewrite bool_decide_eq_true_2 by (unfold in_s; cbn; lia). ztest.
  cbn [check_ub mbind res_bind]. rewrite firstn_all2 by (unfold zlen; lia).
  apply hex_loop_ok. eapply Forall_impl; [exact Hm|]. intros b Hb. split; [done|]. unfold is_byte in Hb. ints.
Qed.

Lemma HexMem_ok mem :
  is_bytes mem -> HexMem mem = if existsb (Z.leb 128) mem then Throw UB else Ret (concat (map digits mem)).
Proof.
  intros Hm. unfold HexMem. destruct (existsb _ _) eqn:E.
  - apply hex_loop_high; [done|]. apply existsb_exists in E as (b & Hb & Hge). bool_to_prop.
    apply Exists_exists. exists b. split; [by apply list_elem_of_In|done].
  - apply hex_loop_ok. apply Forall_forall. intros b Hb.
    pose proof (proj1 (Forall_forall _ _) Hm b Hb) as Hbb. split; [done|]. unfold is_byte in Hbb.
    assert (b < 128); [|ints]. apply Z.lt_nge. intros Hge.
    assert (existsb (Z.leb 128) mem = true); [|congruence]. apply existsb_exists. exists b.
    split; [by apply list_elem_of_In|by apply Z.leb_le].
Qed.

End HexFacts.

Module UrlFacts.
Import UrlEncode.

Lemma FromHex_ToHex h : 0 <= h < 16 -> FromHex (ToHex h) = Ret h.
Proof.
  intros Hh. unfold ToHex. destruct (h >? 9) eqn:E; rewrite Z.gtb_ltb in E; bool_to_prop;
    rewrite u8_id by lia; unfold FromHex; ztest; f_equal; lia.
Qed.

Lemma ToHex_good h : 0 <= h < 16 -> good_char (ToHex h) = true /\ ToHex h <> 37.
Proof.
  intros Hh. unfold ToHex. destruct (h >? 9) eqn:E; rewrite Z.gtb_ltb in E; bool_to_prop;
    rewrite u8_id by lia; unfold good_char; ztest; (split; [done|lia]).
Qed.

Lemma nibbles c : is_byte c -> 0 <= Z.shiftr c 4 < 16 /\ 0 <= c mod 16 < 16 /\ c = Z.shiftr c 4 * 16 + c mod 16.
Proof.
  unfold is_byte. intros Hc. rewrite Z.shiftr_div_pow2 by lia. change (2 ^ 4) with 16.
  Z.div_mod_to_equations. lia.
Qed.

(** The characters that stand for something else are not passed through. *)
Definition fair (safes : bytes) : Prop := 37 ∉ safes /\ 43 ∉ safes.

Lemma plain_fair safes c : fair safes -> plain safes c = true -> c <> 37 /\ c <> 43.
Proof.
  intros [H1 H2] Hp.
  assert (forall x, isalnum x = false -> (x =? 45) || (x =? 95) || (x =? 46) || (x =? 126) = false -> x ∉ safes ->
    plain safes x = false) as Hx.
  { intros x Ha Hb Hs. unfold plain. rewrite Ha. cbn [orb]. bool_to_prop.
    repeat match goal with H : (_ =? _) = false |- _ => rewrite H; clear H end.
    repeat (rewrite (proj2 (Z.eqb_neq _ _)) by lia). cbn [orb]. apply not_true_is_false. intros He.
    apply existsb_exists in He as (y & Hy & E). apply Z.eqb_eq in E as <-. by apply Hs, list_elem_of_In. }
  split; intros ->; rewrite Hx in Hp; done.
Qed.

Lemma Decode_char safes c rest :
  fair safes -> is_byte c ->
  Decode (encode_char safes c ++ rest) = (r ← Decode rest; Ret (c :: r)).
Proof.
  intros Hf Hc. unfold encode_char. destruct (plain safes c) eqn:Hp.
  - destruct (plain_fair safes c Hf Hp). cbn [app Decode]. by ztest.
  - destruct (c =? 32) eqn:E; bool_to_prop; [by subst|]. cbn [app Decode].
    destruct (nibbles c Hc) as (H1 & H2 & H3). change (37 =? 43) with false. change (37 =? 37) with true. cbv iota.
    rewrite !FromHex_ToHex by done. cbn [mbind res_bind]. destruct (Decode rest); cbn; [|done].
    by rewrite <- H3, u8_id by (unfold is_byte in Hc; lia).
Qed.

Lemma Encode_cons safes c s : Encode (c :: s) safes = encode_char safes c ++ Encode s safes.
Proof. done. Qed.

Lemma Decode_Encode s safes : is_bytes s -> fair safes -> Decode (Encode s safes) = Ret s.
Proof. intros Hs Hf. induction Hs as [|c s Hc Hs IH]; [done|]. by rewrite Encode_cons, Decode_char, IH. Qed.

Lemma good_loop_char safes c rest :
  fair safes -> is_byte c -> good_loop (encode_char safes c ++ rest) = good_loop rest.
Proof.
  intros Hf Hc. unfold encode_char. destruct (plain safes c) eqn:Hp.
  - destruct (plain_fair safes c Hf Hp). cbn [app good_loop]. by ztest.
  - destruct (c =? 32) eqn:E; bool_to_prop; [by subst|]. destruct (nibbles c Hc) as (H1 & H2 & _).
    destruct (ToHex_good _ H1) as [G1 N1]. destruct (ToHex_good _ H2) as [G2 N2].
    cbn [app good_loop nth]. rewrite G1, G2. ztest. done.
Qed.

(** No percent sign among the last two characters. *)
Definition tail_ok (l : bytes) : Prop := forall k x, reverse l !! k = Some x -> (k < 2)%nat -> x <> 37.

Lemma tail_ok_char safes c l : fair safes -> is_byte c -> tail_ok l -> tail_ok (l ++ encode_char safes c).
Proof.
  intros Hf Hc Hl k x Hk Hlt. rewrite reverse_app in Hk. unfold encode_char in Hk. destruct (plain safes c) eqn:Hp.
  - destruct k as [|k]; [injection Hk as <-; by apply (plain_fair safes)|]. apply (Hl k x); [exact Hk|lia].
  - destruct (c =? 32) eqn:E; bool_to_prop.
    + destruct k as [|k]; [by injection Hk as <-|]. apply (Hl k x); [exact Hk|lia].
    + destruct (nibbles c Hc) as (H1 & H2 & _).
      destruct k as [|[|k]]; [injection Hk as <-; by apply ToHex_good..|lia].
Qed.

Lemma tail_ok_Encode safes s : fair safes -> is_bytes s -> tail_ok (Encode s safes).
Proof.
  intros Hf. induction s as [|c s IH] using rev_ind; intros Hs.
  - intros k x Hk. by destruct k.
  - apply Forall_app in Hs as [Hs Hc]. unfold Encode. rewrite map_app, concat_app. cbn [map concat].
    rewrite app_nil_r. apply tail_ok_char; [done|by rewrite Forall_singleton in Hc|by apply IH].
Qed.

Lemma tail_ok_char_at l i :
  tail_ok l -> zlen l < 2 ^ 31 -> 1 <= i <= 2 -> i <= zlen l -> exists x, char_at l (zlen l - i) = Ret x /\ x <> 37.
Proof.
  intros Ht Hl Hi Hz. unfold char_at. ztest. eexists. split; [done|].
  destruct (lookup_lt_is_Some_2 l (Z.to_nat (zlen l - i))) as [x Hx]; [unfold zlen in *; lia|].
  rewrite (nth_lookup_Some _ _ _ _ Hx). apply (Ht (Z.to_nat i - 1)%nat); [|lia].
  rewrite reverse_lookup by (unfold zlen in *; lia). rewrite <- Hx. f_equal. unfold zlen. lia.
Qed.
End UrlFacts.

(** ** Properties *)

(** What [UrlEncode::Encode] writes, [Decode] reads back, whatever characters
    the caller declares safe, percent and plus apart. *)
Theorem url_roundtrip s safes :
  is_bytes s -> UrlFacts.fair safes -> UrlEncode.Decode (UrlEncode.Encode s safes) = Ret s.
Proof. apply UrlFacts.Decode_Encode. Qed.

Lemma url_roundtrip_witness :
  UrlEncode.Decode (UrlEncode.Encode (str "a b%+/") (str "/")) = Ret (str "a b%+/").
Proof. apply url_roundtrip; [vm_compute; repeat constructor; done|split; set_solver]. Defined.

(** [IsUrlEncode] recognises what [Encode] writes when it has two characters or
    more; on fewer it reads before the string. *)
Theorem IsUrlEncode_recognises s safes t :
  is_bytes s -> UrlFacts.fair safes -> zlen (UrlEncode.Encode s safes) < 2 ^ 31 ->
  (2 <= zlen (UrlEncode.Encode s safes) -> UrlEncode.IsUrlEncode (UrlEncode.Encode s safes) = Ret true) /\
  (zlen t < 2 -> UrlEncode.IsUrlEncode t = Throw UB).
Proof.
  intros Hs Hf Hl. split.
  - intros H2. pose proof (UrlFacts.tail_ok_Encode safes s Hf Hs) as Ht. unfold UrlEncode.IsUrlEncode.
    rewrite s32_id by lia.
    destruct (UrlFacts.tail_ok_char_at _ 2 Ht) as (x & -> & Hx); [lia..|].
    destruct (UrlFacts.tail_ok_char_at _ 1 Ht) as (y & -> & Hy); [lia..|]. cbn [mbind res_bind]. ztest. f_equal.
    clear -Hs Hf. induction Hs as [|c s Hc Hs IH]; [done|].
    by rewrite UrlFacts.Encode_cons, UrlFacts.good_loop_char.
  - intros Ht. pose proof (zlen_nonneg t). unfold UrlEncode.IsUrlEncode. rewrite s32_id by lia.
    unfold UrlEncode.char_at. by ztest.
Qed.

Lemma IsUrlEncode_recognises_witness : UrlEncode.IsUrlEncode (UrlEncode.Encode (str "a/") []) = Ret true.
Proof.
  apply (IsUrlEncode_recognises (str "a/") [] []); try done; [vm_compute; repeat constructor; done|split; set_solver].
Defined.

(** Every byte is written as two digits by the pointer form; the other two
    forms do the same for bytes below 128 and leave the table otherwise. *)
Theorem hex_digits mem :
  is_bytes mem -> zlen mem < 2 ^ 30 ->
  Hex.HexStr_ptr mem (zlen mem) = Ret (concat (map HexFacts.digits mem)) /\
  Hex.HexMem mem =
    (if existsb (Z.leb 128) mem then Throw UB else Ret (concat (map HexFacts.digits mem))) /\
  Hex.HexStr mem = Hex.HexMem mem.
Proof. intros Hm Hl. split_and!; [by apply HexFacts.HexStr_ptr_ok|by apply HexFacts.HexMem_ok|done]. Qed.

Lemma hex_digits_witness : Hex.HexStr_ptr [0; 171] 2 = Ret (str "00ab") /\ Hex.HexMem [0; 171] = Throw UB.
Proof.
  destruct (hex_digits [0; 171]) as (H1 & H2 & _); [repeat constructor; done|done|]. split; [exact H1|exact H2].
Defined.
