(* ===== verification/FsName.v ===== *)
(** * Names in the file system: [detail/fsname_detail.cpp] and [hfilename.cpp]

    Module [fsname] for the names, [HDirection] and [HFileName] for the two
    classes on top.  What the system answers ([getcwd], [realpath], [stat],
    [readdir] and the results of the calls that change files) is an argument. *)

From S2P Require Import Prelude StdString HStr.

Module fsname.

Definition preferred_separator : Z := 47.
Definition dos_elem : Z := 46.

(** [dirname] of POSIX; of the root with two slashes it makes one. *)
Definition strip_slashes (s : bytes) : bytes := reverse (drop_while (Z.eqb 47) (reverse s)).

Definition dirname (p : bytes) : bytes :=
  match strip_slashes p with
  | [] => if bool_decide (p = []) then str "." else str "/"
  | q =>
    match rfind_char q 47 with
    | None => str "."
    | Some i => match strip_slashes (take i q) with [] => str "/" | d => d end
    end
  end.

Definition IsRootBegin (s : bytes) : bool :=
  match s with [] => false | c :: _ => c =? preferred_separator end.

Definition IsRootEnd (s : bytes) : bool :=
  match last s with None => false | Some c => c =? preferred_separator end.

Definition IsAbsolute : bytes -> bool := IsRootBegin.
Definition IsRelative (m_name : bytes) : bool := negb (IsAbsolute m_name).

Definition IsJustOnlyFileName (m_name : bytes) : bool :=
  bool_decide (find_char m_name preferred_separator = None).

Definition FileName (m_name : bytes) : bytes :=
  match rfind_char (c_str m_name) preferred_separator with
  | None => m_name
  | Some pos => drop (S pos) (c_str m_name)
  end.

Definition FileNameOnly (m_name : bytes) : bytes :=
  let strFileName := FileName m_name in
  match rfind_char (c_str strFileName) dos_elem with
  | None => strFileName
  | Some pos => take pos strFileName
  end.

(** [strchr]: the first slash; [nullptr] is below every position. *)
Definition GetFileExternName (m_name : bytes) : bytes :=
  match rfind_char (c_str m_name) dos_elem with
  | None => []
  | Some po_pos =>
    let before := match find_char (c_str m_name) preferred_separator with
                  | Some root_pos => (po_pos <? root_pos)%nat
                  | None => false
                  end in
    if before then [] else drop (S po_pos) (c_str m_name)
  end.

Section os.
(** The buffer after [getcwd]; the buffer after [realpath] of a name; mode and size of a name. *)
Context (getcwd : bytes) (realpath : bytes -> bytes) (stat : bytes -> option (Z * Z)).

Definition SetAsCurrent (m_name : bytes) : bytes := c_str getcwd.

Definition Append (m_name new_path : bytes) : bytes :=
  if bool_decide (new_path = []) then m_name
  else
    let m_name := if bool_decide (m_name = []) then SetAsCurrent m_name else m_name in
    let newpath := if IsRootBegin new_path then HStr.RemoveLeft new_path 1 else new_path in
    let m_name := if IsRootEnd m_name then HStr.RemoveRight m_name 1 else m_name in
    m_name ++ [preferred_separator] ++ newpath.

Definition SetAsAbsolute (m_name : bytes) : bytes :=
  if IsAbsolute m_name then m_name
  else if IsJustOnlyFileName m_name then Append (SetAsCurrent []) m_name
  else c_str (realpath (c_str m_name)).

Definition GetParentPath (m_name : bytes) : bytes :=
  let res := m_name in
  let res := if IsAbsolute res then res else SetAsAbsolute res in
  let res := if IsRootEnd res then HStr.RemoveRight res 1 else res in
  dirname (c_str res).

Definition S_IFMT : Z := 61440.
Definition S_IFDIR : Z := 16384.
Definition S_IFREG : Z := 32768.

Definition Exists (m_name : bytes) : bool := bool_decide (stat (c_str m_name) <> None).

Definition IsDir (m_name : bytes) : bool :=
  match stat (c_str m_name) with Some (mode, _) => Z.land mode S_IFMT =? S_IFDIR | None => false end.

Definition IsFile (m_name : bytes) : bool :=
  match stat (c_str m_name) with Some (mode, _) => Z.land mode S_IFMT =? S_IFREG | None => false end.

Definition GetFileSize (m_name : bytes) : Z :=
  match stat (c_str m_name) with Some (_, size) => u64 size | None => 0 end.
End os.

(** [sys]: whether the call of the system succeeded. *)
Definition Symlink (sys : bytes -> bytes -> bool) (m_name dst : bytes) : herr :=
  if sys (c_str m_name) (c_str dst) then OK else SYS_FAILED.

Definition Remove (sys : bytes -> bool) (m_name : bytes) : herr :=
  if sys (c_str m_name) then OK else SYS_FAILED.

Definition Rename (sys : bytes -> bytes -> bool) (m_name strDstName : bytes) : herr * bytes :=
  if sys (c_str m_name) (c_str strDstName) then (OK, strDstName) else (INVL_PARA, m_name).

(** [mkdir]: its result and [errno = EEXIST]. *)
Definition CreateDirectory (mkdir : bytes -> Z -> Z * bool) (m_name : bytes) (modes : Z) : herr :=
  let '(ret, eexist) := mkdir (c_str m_name) modes in
  if (ret =? 0) || eexist then OK else SYS_FAILED.

End fsname.

Module HDirection.
Import fsname.

Definition GetParent := GetParentPath.
Definition GoToParent := GetParentPath.

(** The default mode of [CreateDirectory]: octal 0766. *)
Definition CreateDic (mkdir : bytes -> Z -> Z * bool) (m_name : bytes) : herr := CreateDirectory mkdir m_name 502.

Definition GetDicFile (getcwd m_name strFileName : bytes) : bytes := Append getcwd m_name strFileName.

Definition DT_DIR : Z := 4.
Definition DT_REG : Z := 8.

(** The entries [readdir] returns: name and [d_type]; [None]: [opendir] failed. *)
Fixpoint sub_files_loop (entries : list (bytes * Z)) (fs ds : list bytes) : list bytes * list bytes :=
  match entries with
  | [] => (fs, ds)
  | (d_name, d_type) :: entries =>
    let fs := if negb (Z.land d_type DT_REG =? 0) then fs ++ [d_name] else fs in
    let ds := if negb (Z.land d_type DT_DIR =? 0) then ds ++ [d_name] else ds in
    sub_files_loop entries fs ds
  end.

Definition GetSubFiles (dir : option (list (bytes * Z))) (fs ds : list bytes) : list bytes * list bytes :=
  match dir with None => (fs, ds) | Some entries => sub_files_loop entries fs ds end.

End HDirection.

Module HFileName.
Import fsname.

Definition Append := fsname.Append.
Definition GetParentDic := GetParentPath.
Definition GetExtenName := GetFileExternName.
Definition JustFileName := FileNameOnly.

End HFileName.

(** ** Lemmas *)

Lemma find_first_at p (l r : bytes) x off :
  Forall (fun c => p c = false) l -> p x = true -> find_first p (l ++ x :: r) off = Some (off + length l)%nat.
Proof.
  intros Hl Hx. revert off. induction Hl as [|c l Hc Hl IH]; intros off; cbn.
  - rewrite Hx. f_equal. lia.
  - rewrite Hc, IH. f_equal. lia.
Qed.

Lemma find_first_none p (l : bytes) off : Forall (fun c => p c = false) l -> find_first p l off = None.
Proof. intros Hl. revert off. induction Hl as [|c l Hc Hl IH]; intros off; cbn; [done|]. by rewrite Hc. Qed.

Lemma absent (x : Z) l : x ∉ l -> Forall (fun c => (x =? c) = false) l.
Proof. intros H. apply Forall_forall. intros c Hc. apply Z.eqb_neq. by intros ->. Qed.

(** The last [x] of a string. *)
Lemma rfind_char_at (l r : bytes) x : x ∉ r -> rfind_char (l ++ x :: r) x = Some (length l).
Proof.
  intros Hr. unfold rfind_char. rewrite reverse_app, reverse_cons, <- app_assoc. cbn [app].
  rewrite find_first_at; [|by apply Forall_reverse, absent|apply Z.eqb_refl].
  f_equal. rewrite length_app, length_reverse. cbn. lia.
Qed.

Lemma rfind_char_none (l : bytes) x : x ∉ l -> rfind_char l x = None.
Proof. intros Hl. unfold rfind_char. by rewrite find_first_none by (by apply Forall_reverse, absent). Qed.

Lemma find_char_at (l r : bytes) x : x ∉ l -> find_char (l ++ x :: r) x = Some (length l).
Proof. intros Hl. unfold find_char. by rewrite find_first_at by (by apply absent || apply Z.eqb_refl). Qed.

Module fsnameFacts.
Import fsname.

Lemma drop_while_none p (l : bytes) : (forall c, head l = Some c -> p c = false) -> drop_while p l = l.
Proof. destruct l as [|c l]; intros H; cbn; [done|]. by rewrite (H c eq_refl). Qed.

Lemma strip_none s : IsRootEnd s = false -> strip_slashes s = s.
Proof.
  intros Hs. unfold strip_slashes. rewrite drop_while_none; [apply reverse_involutive|].
  intros c Hc. unfold IsRootEnd in Hs. rewrite <- head_reverse, Hc in Hs. by rewrite Z.eqb_sym.
Qed.

(** A component: not empty, no slash, no terminator. *)
Record component (f : bytes) : Prop := {
  c_ne : f <> [];
  c_slash : 47 ∉ f;
  c_clean : 0 ∉ f
}.

(** A directory one can put a component behind: absolute, no slash at its end. *)
Record directory (d : bytes) : Prop := {
  dir_root : IsRootBegin d = true;
  dir_end : IsRootEnd d = false;
  dir_clean : 0 ∉ d
}.

Lemma component_begin f : component f -> IsRootBegin f = false.
Proof.
  intros [Hn Hs _]. destruct f as [|c f]; [done|]. apply Z.eqb_neq. unfold preferred_separator. intros ->.
  by apply Hs; left.
Qed.

Lemma component_end l f : component f -> IsRootEnd (l ++ f) = false.
Proof.
  intros [Hn Hs _]. unfold IsRootEnd. rewrite last_app. destruct (last f) as [c|] eqn:E.
  - apply Z.eqb_neq. unfold preferred_separator. intros ->. apply Hs. by apply last_Some_elem_of.
  - by apply last_None in E.
Qed.

Lemma dirname_child d f : component f -> IsRootEnd d = false -> d <> [] -> dirname (d ++ 47 :: f) = d.
Proof.
  intros Hf Hd Hn. unfold dirname. rewrite strip_none.
  - assert (d ++ 47 :: f <> []) as Hne by (by destruct d). destruct (d ++ 47 :: f) as [|c q] eqn:E; [done|].
    rewrite <- E, rfind_char_at by (by apply c_slash). rewrite take_app_length, strip_none by done. by destruct d.
  - change (d ++ 47 :: f) with (d ++ [47] ++ f). rewrite app_assoc. by apply component_end.
Qed.

Lemma dirname_root f : component f -> dirname (47 :: f) = str "/".
Proof.
  intros Hf. unfold dirname. rewrite strip_none by (by apply (component_end [47])).
  change (47 :: f) with ([] ++ 47 :: f). rewrite rfind_char_at by (by apply c_slash). done.
Qed.

Lemma Append_child getcwd d f : directory d -> component f -> Append getcwd d f = d ++ 47 :: f.
Proof.
  intros [Hr He _] Hf. unfold Append. rewrite bool_decide_eq_false_2 by apply (c_ne _ Hf).
  rewrite (bool_decide_eq_false_2 (d = [])) by (by destruct d). by rewrite component_begin, He by done.
Qed.

Lemma absent_mid (x c : Z) l r : x ∉ l -> x ∉ r -> x <> c -> x ∉ l ++ c :: r.
Proof.
  intros Hl Hr Hc Hin. apply elem_of_app in Hin as [Hin|Hin]; [done|]. by apply elem_of_cons in Hin as [Hin|Hin].
Qed.

Lemma drop_mid (c : Z) l r : drop (S (length l)) (l ++ c :: r) = r.
Proof.
  change (l ++ c :: r) with (l ++ [c] ++ r). rewrite app_assoc. apply drop_app_length'. rewrite length_app. cbn. lia.
Qed.

(** A rooted path with a dot. *)
Lemma extern_rooted l r : 0 ∉ l -> 0 ∉ r -> 46 ∉ r -> GetFileExternName (47 :: l ++ 46 :: r) = r.
Proof.
  intros Hl Hr Hd. unfold GetFileExternName, preferred_separator, dos_elem.
  change (47 :: l ++ 46 :: r) with ((47 :: l) ++ 46 :: r).
  rewrite c_str_clean by (apply absent_mid; [rewrite not_elem_of_cons; done|done|done]).
  rewrite rfind_char_at by done. rewrite <- app_comm_cons at 1. change (47 :: l ++ 46 :: r) with ([] ++ 47 :: l ++ 46 :: r) at 1.
  rewrite find_char_at by set_solver. cbn [length]. rewrite (proj2 (Nat.ltb_ge _ _)) by lia. apply drop_mid.
Qed.

Lemma clean_child d f : 0 ∉ d -> component f -> 0 ∉ d ++ 47 :: f.
Proof.
  intros Hd [_ _ Hf] Hin. apply elem_of_app in Hin as [Hin|Hin]; [done|].
  apply elem_of_cons in Hin as [Hin|Hin]; done.
Qed.

Lemma child_directory d f : directory d -> component f -> directory (d ++ 47 :: f).
Proof.
  intros [Hr He Hc] Hf. split; [by destruct d| |by apply clean_child].
  change (d ++ 47 :: f) with (d ++ [47] ++ f). rewrite app_assoc. by apply component_end.
Qed.

Lemma child_parent getcwd realpath d f : directory d -> component f -> GetParentPath getcwd realpath (d ++ 47 :: f) = d.
Proof.
  intros Hd Hf. destruct (child_directory d f Hd Hf) as [Hr He Hc]. unfold GetParentPath, IsAbsolute.
  rewrite Hr, He, c_str_clean by done. apply dirname_child; [done|apply Hd|]. destruct Hd as [Hd _ _]. by destruct d.
Qed.

Lemma child_name d f : 0 ∉ d -> component f -> FileName (d ++ 47 :: f) = f.
Proof.
  intros Hd Hf. unfold FileName. rewrite c_str_clean by (by apply clean_child). unfold preferred_separator.
  rewrite rfind_char_at by (by apply c_slash). apply drop_mid.
Qed.
End fsnameFacts.

(** ** Properties *)

(** A component appended to an absolute directory is its [FileName], and the
    directory is its parent; of what lies at the root the parent is the root,
    and of the root itself it is the relative name ["."]. *)
Theorem parent_of_child getcwd realpath d f :
  fsnameFacts.directory d -> fsnameFacts.component f ->
  let p := fsname.Append getcwd d f in
  fsname.GetParentPath getcwd realpath p = d /\ fsname.FileName p = f /\
  fsname.GetParentPath getcwd realpath (fsname.Append getcwd (str "/") f) = str "/" /\
  fsname.GetParentPath getcwd realpath (str "/") = str ".".
Proof.
  intros Hd Hf p. unfold p. rewrite (fsnameFacts.Append_child _ _ _ Hd Hf).
  split_and!; [by apply fsnameFacts.child_parent|apply fsnameFacts.child_name; [apply Hd|done]| |done].
  - assert (fsname.Append getcwd (str "/") f = 47 :: f) as ->.
    { unfold fsname.Append. rewrite bool_decide_eq_false_2 by apply (fsnameFacts.c_ne _ Hf).
      by rewrite fsnameFacts.component_begin by done. }
    unfold fsname.GetParentPath. change (fsname.IsAbsolute (47 :: f)) with true. cbv iota.
    assert (fsname.IsRootEnd (47 :: f) = false) as -> by (by apply (fsnameFacts.component_end [47])).
    rewrite c_str_clean by (by apply (fsnameFacts.clean_child []); [set_solver|]).
    by apply fsnameFacts.dirname_root.
Qed.

Lemma parent_of_child_witness :
  fsname.GetParentPath [] id (fsname.Append [] (str "/usr/lib") (str "a.so")) = str "/usr/lib".
Proof.
  apply (parent_of_child [] id (str "/usr/lib") (str "a.so")); split; try done; vm_compute; set_solver.
Defined.

(** The base name and the extension are on either side of the last dot of a
    file name; with a dot in a directory and none in the file name, the
    extension is taken out of the middle of the path. *)
Theorem extension_of d b e x y z :
  0 ∉ d -> 0 ∉ b -> 0 ∉ e -> 47 ∉ b -> 47 ∉ e -> 46 ∉ e ->
  0 ∉ x -> 0 ∉ y -> 0 ∉ z -> 46 ∉ y -> 46 ∉ z ->
  fsname.FileNameOnly (d ++ 47 :: b ++ 46 :: e) = b /\
  fsname.GetFileExternName (47 :: d ++ 47 :: b ++ 46 :: e) = e /\
  fsname.GetFileExternName (b ++ 46 :: e) = e /\
  fsname.GetFileExternName (47 :: x ++ 46 :: y ++ 47 :: z) = y ++ 47 :: z.
Proof.
  intros Z1 Z2 Z3 S1 S2 D1 Z4 Z5 Z6 D2 D3.
  assert (0 ∉ b ++ 46 :: e) as Hbe by (by apply fsnameFacts.absent_mid).
  split_and!.
  - unfold fsname.FileNameOnly, fsname.FileName, fsname.preferred_separator, fsname.dos_elem.
    rewrite (c_str_clean (d ++ _)) by (by apply fsnameFacts.absent_mid).
    rewrite rfind_char_at by (by apply fsnameFacts.absent_mid).
    rewrite fsnameFacts.drop_mid, c_str_clean, rfind_char_at by done. apply take_app_length.
  - assert (47 :: d ++ 47 :: b ++ 46 :: e = 47 :: (d ++ 47 :: b) ++ 46 :: e) as -> by (by rewrite <- app_assoc).
    apply fsnameFacts.extern_rooted; [|done..].
    by apply fsnameFacts.absent_mid.
  - unfold fsname.GetFileExternName, fsname.preferred_separator, fsname.dos_elem.
    rewrite c_str_clean, rfind_char_at by done.
    assert (find_char (b ++ 46 :: e) 47 = None) as ->; [|apply fsnameFacts.drop_mid].
    unfold find_char. apply find_first_none. by apply absent, fsnameFacts.absent_mid.
  - apply fsnameFacts.extern_rooted; [done|by apply fsnameFacts.absent_mid|by apply fsnameFacts.absent_mid].
Qed.

Lemma extension_of_witness :
  fsname.FileNameOnly (str "usr/a.tar.gz") = str "a.tar" /\
  fsname.GetFileExternName (str "/lib.d/make") = str "d/make".
Proof.
  destruct (extension_of (str "usr") (str "a.tar") (str "gz") (str "lib") (str "d") (str "make"))
    as (H1 & _ & _ & H2); try (vm_compute; set_solver).
Defined.

(** [GetSubFiles] tests the bits of [d_type], which is a code: links and sockets
    are listed as files, sockets and block devices as directories. *)
Theorem sub_files_types entries :
  HDirection.GetSubFiles (Some entries) [] [] =
  (map fst (filter (fun e => Z.land e.2 8 <> 0) entries), map fst (filter (fun e => Z.land e.2 4 <> 0) entries)).
Proof.
  assert (forall fs ds, HDirection.GetSubFiles (Some entries) fs ds =
    (fs ++ map fst (filter (fun e => Z.land e.2 8 <> 0) entries),
     ds ++ map fst (filter (fun e => Z.land e.2 4 <> 0) entries))) as H; [|by rewrite H].
  cbn [HDirection.GetSubFiles]. induction entries as [|[n ty] entries IH]; intros fs ds; [by rewrite !app_nil_r|].
  cbn [HDirection.sub_files_loop]. rewrite IH, !filter_cons. cbn [snd]. unfold HDirection.DT_REG, HDirection.DT_DIR.
  destruct (Z.land ty 8 =? 0) eqn:E8, (Z.land ty 4 =? 0) eqn:E4; bool_to_prop; cbn [negb];
    repeat case_decide; try lia; cbn [map fst]; by rewrite <- ?app_assoc.
Qed.
