(* ===== verification/ProcessPool.v ===== *)
(** * The pool of processes: [src/hprocesspool.cpp]

    Module [ProcessCntl] is the table of children in shared memory, Module
    [HProcessPool] the parent that starts, watches and restarts them, with the
    functions of [src/hprocess.cpp] it calls.  The system is a [world]: the clock,
    the processes that run, those that have ended and that nobody has waited for
    (zombies: [/proc] still has them), the signals sent so far, what the next calls of
    [fork] return, and what happens in the next calls of [sleep]: how long they last
    before a signal interrupts them, who ends meanwhile and who is waited for.  [SIGKILL]
    ends a process; what [SIGTERM] does is up to the process.  A signal to process 0
    reaches the caller itself.  [prepare_end_son] is that of the base class, which is
    empty; time passes in [sleep] alone. *)

From stdpp Require Import gmap.
From S2P Require Import Prelude.
#[local] Open Scope Z_scope.

Module ProcessCntl.

(** ** Definitions *)

(** [Pool::ChildStatus], as the [int] in the shared table. *)
Definition CS_UNUSED : Z := 0.
Definition CS_IDLE : Z := 1.
Definition CS_BUSY : Z := 2.

Record cntl_info : Type := Info { startat : Z; status : Z; at_ : Z; pid : Z }.

(** [None]: [m_pcntl_info] is [nullptr]. *)
Record t : Type := mk { m_nCount : Z; m_pcntl_info : option (list cntl_info) }.

Definition CHECK_INDEX (c : t) (index : Z) : res unit :=
  assert_throw ((index >=? 0) && (index <? m_nCount c)) INVL_PARA.

Definition info_at (c : t) (index : Z) : res cntl_info :=
  match m_pcntl_info c with
  | Some l => match l !! Z.to_nat index with Some x => Ret x | None => Throw UB end
  | None => Throw UB
  end.

Definition set_info (c : t) (index : Z) (x : cntl_info) : res t :=
  _ ← info_at c index;
  match m_pcntl_info c with
  | Some l => Ret (mk (m_nCount c) (Some (<[Z.to_nat index := x]> l)))
  | None => Throw UB
  end.

Definition ResetInfo (index : Z) (c : t) : res t :=
  _ ← CHECK_INDEX c index; set_info c index (Info 0 CS_UNUSED 0 0).

Definition SetStartInfo (now index pid_ : Z) (c : t) : res t :=
  _ ← CHECK_INDEX c index; set_info c index (Info now CS_IDLE 0 pid_).

Definition GetStartAt (c : t) (index : Z) : res Z :=
  _ ← CHECK_INDEX c index; x ← info_at c index; Ret (startat x).

Definition GetLastAccessTime (c : t) (index : Z) : res Z :=
  _ ← CHECK_INDEX c index; x ← info_at c index; Ret (at_ x).

Definition GetPid (c : t) (index : Z) : res Z :=
  _ ← CHECK_INDEX c index; x ← info_at c index; Ret (pid x).

Definition GetStatus (c : t) (index : Z) : res Z :=
  _ ← CHECK_INDEX c index; x ← info_at c index; Ret (status x).

Definition set_info_as_status (now index status_ : Z) (c : t) : res t :=
  _ ← CHECK_INDEX c index;
  x ← info_at c index;
  p ← GetPid c index;
  set_info c index (Info (startat x) status_ now p).

Definition TouchInfo (now index : Z) : t -> res t := set_info_as_status now index CS_BUSY.
Definition SetIdleInfo (now index : Z) : t -> res t := set_info_as_status now index CS_IDLE.
Definition UnuseInfo (now index : Z) : t -> res t := set_info_as_status now index CS_UNUSED.

Fixpoint reset_loop (fuel : nat) (i : Z) (c : t) : res t :=
  match fuel with
  | O => Throw Diverge
  | S f => if i <? m_nCount c then c ← ResetInfo i c; reset_loop f (i + 1) c else Ret c
  end.

(** [mem]: what [m_mem.Init()] returns. *)
Definition Init (mem : herr) (c : t) : res (t * herr) :=
  if negb (IS_OK mem) then Ret (c, mem)
  else
    let zeroed := replicate (Z.to_nat (m_nCount c)) (Info 0 0 0 0) in
    c ← reset_loop (S (Z.to_nat (m_nCount c))) 0 (mk (m_nCount c) (Some zeroed));
    Ret (c, OK).

(** [mem]: what [dettach] or [Remove] returns. *)
Definition Uninit (mem : herr) (c : t) : t * herr :=
  if negb (IS_OK mem) then (c, mem) else (mk (m_nCount c) None, OK).

End ProcessCntl.

Module HProcessPool.
Import ProcessCntl.

Definition AFTER_SIGTERM_ST : Z := 2.
Definition MAX_HEAR_TIME : Z := 30.
Definition PARENT_DEFAULT_INDEX : Z := -1.

Record t : Type := mk { m_bInited : bool; m_cntl : ProcessCntl.t; m_index : Z; m_nChildCount : Z }.

(** A call of [sleep]: the seconds it lasts, who ends meanwhile, who is waited for. *)
Record nap : Type := Nap { slept : Z; exits : gset Z; reaped : gset Z }.

Record world : Type := World {
  now : Z;
  running : gset Z;
  zombies : gset Z;
  signals : list (Z * Z);     (* the pid and the signal of each call of [kill] *)
  forks : list Z;
  naps : list nap
}.

Definition set_cntl (c : ProcessCntl.t) (p : t) : t := mk (m_bInited p) c (m_index p) (m_nChildCount p).
Definition set_index (i : Z) (p : t) : t := mk (m_bInited p) (m_cntl p) i (m_nChildCount p).

Definition make (nChildCount : Z) : t :=
  mk false (ProcessCntl.mk nChildCount None) PARENT_DEFAULT_INDEX nChildCount.

Definition IsSon (p : t) : bool := negb (m_index p =? PARENT_DEFAULT_INDEX).

(** ** The system and [HProcess] *)

Definition SIGKILL : Z := 9.
Definition SIGTERM : Z := 15.

Definition ProcessExists (w : world) (pid : Z) : bool := bool_decide (pid ∈ running w ∪ zombies w).

Definition sends (pid signo : Z) (w : world) : world :=
  World (now w) (running w) (zombies w) (signals w ++ [(pid, signo)]) (forks w) (naps w).

Definition dies (pid : Z) (w : world) : world :=
  World (now w) (running w ∖ {[pid]}) (zombies w ∪ (running w ∩ {[pid]})) (signals w) (forks w) (naps w).

(** [kill]: [-1] when there is no such process. *)
Definition kill (pid signo : Z) (w : world) : res (world * Z) :=
  if pid =? 0 then Throw Terminate
  else
    let cb := if ProcessExists w pid then 0 else -1 in
    Ret (if signo =? SIGKILL then dies pid (sends pid signo w) else sends pid signo w, cb).

Definition kill_process (pid signo : Z) (w : world) : res (world * herr) :=
  '(w, cb) ← kill pid signo w; Ret (w, if cb =? 0 then OK else SYS_FAILED).

Definition KillProcess (pid : Z) (w : world) : res (world * herr) := kill_process pid SIGTERM w.

Definition KillProcessAnyway (pid : Z) (w : world) : res world :=
  '(w, _) ← kill_process pid SIGKILL w; Ret w.

(** A signal may end it before the [n] seconds are over. *)
Definition sleep (n : Z) (w : world) : world :=
  match naps w with
  | [] => World (now w + n) (running w) (zombies w) (signals w) (forks w) []
  | x :: rest =>
    World (now w + Z.max 0 (Z.min n (slept x))) (running w ∖ exits x)
      ((zombies w ∪ (running w ∩ exits x)) ∖ reaped x) (signals w) (forks w) rest
  end.

(** The parent's view of [fork] is a positive pid; 0 is the child's. *)
Definition create_child (index : Z) (pw : t * world) : res (t * world) :=
  let '(p, w) := pw in
  match forks w with
  | [] => Throw (HExc SYS_FAILED)
  | pid :: rest =>
    let w := World (now w) (if pid >? 0 then {[pid]} ∪ running w else running w) (zombies w) (signals w) rest (naps w) in
    if pid <? 0 then Throw (HExc SYS_FAILED)
    else if pid =? 0 then Ret (set_index index p, w)
    else
      c ← SetStartInfo (now w) index pid (m_cntl p);
      Ret (set_cntl c p, w)
  end.

Definition kill_child (index : Z) (pw : t * world) : res (t * world) :=
  let '(p, w) := pw in
  pid ← GetPid (m_cntl p) index;
  '(w, _) ← KillProcess pid w;
  let w := sleep AFTER_SIGTERM_ST w in
  w ← KillProcessAnyway pid w;
  c ← UnuseInfo (now w) index (m_cntl p);
  Ret (set_cntl c p, w).

Definition restart (index : Z) (pw : t * world) : res (t * world) :=
  pw ← kill_child index pw; create_child index pw.

Fixpoint touch_loop (fuel : nat) (nt i : Z) (pw : t * world) : res (t * world) :=
  match fuel with
  | O => Throw Diverge
  | S f =>
    if i <? m_nChildCount pw.1 then
      pid ← GetPid (m_cntl pw.1) i;
      let gone := negb (ProcessExists pw.2 pid) in
      pw ← (if gone then restart i pw else Ret pw);
      if gone && IsSon pw.1 then Ret pw        (* break *)
      else
        at1 ← GetLastAccessTime (m_cntl pw.1) i;
        at2 ← (if at1 =? 0 then GetStartAt (m_cntl pw.1) i else Ret at1);
        if Z.abs (nt - at2) >? MAX_HEAR_TIME then
          pw ← restart i pw;
          if IsSon pw.1 then Ret pw else touch_loop f nt (i + 1) pw
        else touch_loop f nt (i + 1) pw
    else Ret pw
  end.

Definition parent_touch (pw : t * world) : res (t * world) :=
  touch_loop (S (Z.to_nat (m_nChildCount pw.1))) (now pw.2) 0 pw.

Definition son_touch (pw : t * world) : res (t * world) :=
  let '(p, w) := pw in
  c ← TouchInfo (now w) (m_index p) (m_cntl p); Ret (set_cntl c p, w).

Definition ManagePool (pw : t * world) : res (t * world) :=
  if IsSon pw.1 then son_touch pw else parent_touch pw.

Fixpoint create_loop (fuel : nat) (i : Z) (pw : t * world) : res (t * world) :=
  match fuel with
  | O => Throw Diverge
  | S f =>
    if i <? m_nChildCount pw.1 then
      if IsSon pw.1 then Ret pw else pw ← create_child i pw; create_loop f (i + 1) pw
    else Ret pw
  end.

Definition Init (mem : herr) (pw : t * world) : res (t * world * herr) :=
  let '(p, w) := pw in
  '(c, ret) ← ProcessCntl.Init mem (m_cntl p);
  if negb (IS_OK ret) then Ret (set_cntl c p, w, ret)
  else
    '(p, w) ← create_loop (S (Z.to_nat (m_nChildCount p))) 0 (set_cntl c p, w);
    Ret (mk true (m_cntl p) (m_index p) (m_nChildCount p), w, OK).

Fixpoint kill_loop (fuel : nat) (i : Z) (pw : t * world) : res (t * world) :=
  match fuel with
  | O => Throw Diverge
  | S f =>
    if i <? m_nChildCount pw.1 then pw ← kill_child i pw; kill_loop f (i + 1) pw else Ret pw
  end.

(** [~HProcessPool]; [mem]: what removing or detaching the memory returns. *)
Definition destroy (mem : herr) (pw : t * world) : res (t * world) :=
  if m_bInited pw.1 then
    '(p, w) ← (if IsSon pw.1 then Ret pw else kill_loop (S (Z.to_nat (m_nChildCount pw.1))) 0 pw);
    Ret (set_cntl (Uninit mem (m_cntl p)).1 p, w)
  else Ret pw.

End HProcessPool.

(** ** The table *)

Module ProcessPoolFacts.
Import ProcessCntl HProcessPool.

(** A parent with the table [l]. *)
Definition parent (l : list cntl_info) (p : t) : Prop :=
  m_index p = PARENT_DEFAULT_INDEX /\ m_nChildCount p = zlen l /\ m_cntl p = ProcessCntl.mk (zlen l) (Some l).

Lemma parent_IsSon l p : parent l p -> IsSon p = false.
Proof. intros (Hi & _). unfold IsSon. by rewrite Hi. Qed.

Section table.
Context (l : list cntl_info) (i : nat) (x : cntl_info) (Hx : l !! i = Some x).
Abbreviation c := (ProcessCntl.mk (zlen l) (Some l)).

Lemma index_ok : CHECK_INDEX c (Z.of_nat i) = Ret tt.
Proof.
  apply lookup_lt_Some in Hx. unfold CHECK_INDEX. cbn [m_nCount]. unfold zlen. by ztest.
Qed.

Lemma info_ok : info_at c (Z.of_nat i) = Ret x.
Proof. unfold info_at. cbn. by rewrite Nat2Z.id, Hx. Qed.

Lemma set_info_ok y : set_info c (Z.of_nat i) y = Ret (ProcessCntl.mk (zlen l) (Some (<[i := y]> l))).
Proof. unfold set_info. rewrite info_ok. cbn. by rewrite Nat2Z.id. Qed.

Lemma GetPid_ok : GetPid c (Z.of_nat i) = Ret (pid x).
Proof. unfold GetPid. by rewrite index_ok, info_ok. Qed.

Lemma GetStartAt_ok : GetStartAt c (Z.of_nat i) = Ret (startat x).
Proof. unfold GetStartAt. by rewrite index_ok, info_ok. Qed.

Lemma GetLastAccessTime_ok : GetLastAccessTime c (Z.of_nat i) = Ret (at_ x).
Proof. unfold GetLastAccessTime. by rewrite index_ok, info_ok. Qed.

Lemma set_status_ok n st :
  set_info_as_status n (Z.of_nat i) st c = Ret (ProcessCntl.mk (zlen l) (Some (<[i := Info (startat x) st n (pid x)]> l))).
Proof. unfold set_info_as_status. rewrite index_ok, info_ok, GetPid_ok. cbn [mbind res_bind]. apply set_info_ok. Qed.

Lemma SetStartInfo_ok n q :
  SetStartInfo n (Z.of_nat i) q c = Ret (ProcessCntl.mk (zlen l) (Some (<[i := Info n CS_IDLE 0 q]> l))).
Proof. unfold SetStartInfo. rewrite index_ok. cbn [mbind res_bind]. apply set_info_ok. Qed.
End table.

Lemma zlen_insert {A} (l : list A) i y : zlen (<[i := y]> l) = zlen l.
Proof. unfold zlen. by rewrite length_insert. Qed.

(** The world after a child is killed and one is started, and the new entry. *)
Definition killed (old : Z) (w : world) : world :=
  dies old (sends old SIGKILL (sleep AFTER_SIGTERM_ST (sends old SIGTERM w))).
#[local] Arguments killed : simpl never.
Definition born (f : Z) (w : world) : world :=
  World (now w) ({[f]} ∪ running w) (zombies w) (signals w) (tail (forks w)) (naps w).
Definition fresh (n f : Z) : cntl_info := Info n CS_IDLE 0 f.

Lemma kill_child_ok l i x p w :
  parent l p -> l !! i = Some x -> pid x <> 0 ->
  exists y p', kill_child (Z.of_nat i) (p, w) = Ret (p', killed (pid x) w) /\
    parent (<[i := y]> l) p' /\ m_bInited p' = m_bInited p.
Proof.
  intros (Hi & Hn & Hc) Hx Hp. unfold kill_child. rewrite Hc, (GetPid_ok l i x Hx). cbn [mbind res_bind].
  unfold KillProcess, KillProcessAnyway, kill_process, kill. ztest. cbn [mbind res_bind]. unfold UnuseInfo.
  rewrite (set_status_ok l i x Hx). cbn [mbind res_bind]. eexists _, _. split; [done|]. split; [|done].
  split_and!; cbn; rewrite ?zlen_insert; done.
Qed.

Lemma create_child_ok l i x p w f rest :
  parent l p -> l !! i = Some x -> forks w = f :: rest -> 0 < f ->
  exists p', create_child (Z.of_nat i) (p, w) = Ret (p', born f w) /\
    parent (<[i := fresh (now w) f]> l) p' /\ m_bInited p' = m_bInited p.
Proof.
  intros (Hi & Hn & Hc) Hx Hf Hpos. unfold create_child, born. rewrite Hf. ztest.
  rewrite Hc. cbn [now]. rewrite (SetStartInfo_ok l i x Hx). cbn [mbind res_bind]. eexists. split; [done|].
  split; [|done]. split_and!; cbn; rewrite ?zlen_insert; done.
Qed.

Lemma forks_killed old w : forks (killed old w) = forks w.
Proof. unfold killed, sleep. cbn. by destruct (naps w). Qed.

Lemma restart_ok l i x p w f rest :
  parent l p -> l !! i = Some x -> pid x <> 0 -> forks w = f :: rest -> 0 < f ->
  exists p', restart (Z.of_nat i) (p, w) = Ret (p', born f (killed (pid x) w)) /\
    parent (<[i := fresh (now (killed (pid x) w)) f]> l) p' /\ m_bInited p' = m_bInited p.
Proof.
  intros Hp Hx Hz Hf Hpos. unfold restart. destruct (kill_child_ok l i x p w Hp Hx Hz) as (y & p1 & -> & Hp1 & Hb1).
  cbn [mbind res_bind]. destruct (create_child_ok (<[i := y]> l) i y p1 (killed (pid x) w) f rest) as (p2 & -> & Hp2 & Hb2);
    [done|apply list_lookup_insert_eq; by eapply lookup_lt_Some|by rewrite forks_killed|done|].
  rewrite list_insert_insert_eq in Hp2. exists p2. by rewrite Hb2.
Qed.

(** ** One pass over the children *)

Definition last_seen (x : cntl_info) : Z := if at_ x =? 0 then startat x else at_ x.

Definition late (nt : Z) (x : cntl_info) : bool := Z.abs (nt - last_seen x) >? MAX_HEAR_TIME.

Definition sick (nt : Z) (w : world) (x : cntl_info) : bool := negb (ProcessExists w (pid x)) || late nt x.

(** What a pass makes of the rest of the table: who is sick when his turn comes is killed and
    replaced; [rs] are the old and the new pids of the replaced. *)
Inductive passed (nt : Z) : world -> list cntl_info -> list cntl_info -> list (Z * Z) -> world -> Prop :=
  | passed_end w : passed nt w [] [] [] w
  | passed_well w x l l' rs w' :
      sick nt w x = false -> passed nt w l l' rs w' -> passed nt w (x :: l) (x :: l') rs w'
  | passed_sick w x l f rest l' rs w' :
      sick nt w x = true -> forks w = f :: rest ->
      passed nt (born f (killed (pid x) w)) l l' rs w' ->
      passed nt w (x :: l) (fresh (now (killed (pid x) w)) f :: l') ((pid x, f) :: rs) w'.

Lemma now_killed old w : now w <= now (killed old w) <= now w + 2.
Proof. unfold killed, sleep, AFTER_SIGTERM_ST. cbn. destruct (naps w); cbn; lia. Qed.

Lemma insert_mid {A} (l1 l2 : list A) x y : <[length l1 := y]> (l1 ++ x :: l2) = l1 ++ y :: l2.
Proof. rewrite insert_app_r_alt by lia. by rewrite Nat.sub_diag. Qed.

(** One turn of the loop: a sick child is replaced once, another is left alone. *)
Lemma visit_ok nt fuel done x todo p w f rest :
  parent (done ++ x :: todo) p -> nt <= now w <= nt + 28 ->
  forks w = f :: rest -> 0 < f -> pid x <> 0 ->
  exists p1, parent (done ++ (if sick nt w x then fresh (now (killed (pid x) w)) f else x) :: todo) p1 /\
    m_bInited p1 = m_bInited p /\
    touch_loop (S fuel) nt (zlen done) (p, w) =
    touch_loop fuel nt (zlen done + 1) (p1, if sick nt w x then born f (killed (pid x) w) else w).
Proof.
  intros Hp Hn Hf Hpos Hz.
  assert ((done ++ x :: todo) !! length done = Some x) as Hx by (by apply list_lookup_middle).
  pose proof (now_killed (pid x) w) as Hk. set (y := fresh (now (killed (pid x) w)) f).
  assert (exists p1, restart (zlen done) (p, w) = Ret (p1, born f (killed (pid x) w)) /\
            parent (done ++ y :: todo) p1 /\ m_bInited p1 = m_bInited p) as (p1 & Er & Hp1 & Hb1).
  { destruct (restart_ok _ _ _ p w f rest Hp Hx Hz Hf Hpos) as (p1 & E & Hp1 & Hb). exists p1.
    split; [exact E|]. split; [|done]. by rewrite insert_mid in Hp1. }
  assert ((done ++ y :: todo) !! length done = Some y) as Hy by (by apply list_lookup_middle).
  pose proof (GetPid_ok _ _ _ Hx : GetPid _ (zlen done) = _) as Gp.
  pose proof (GetLastAccessTime_ok _ _ _ Hx : GetLastAccessTime _ (zlen done) = _) as Gl.
  pose proof (GetStartAt_ok _ _ _ Hx : GetStartAt _ (zlen done) = _) as Gs.
  pose proof (GetLastAccessTime_ok _ _ _ Hy : GetLastAccessTime _ (zlen done) = _) as Gl1.
  pose proof (GetStartAt_ok _ _ _ Hy : GetStartAt _ (zlen done) = _) as Gs1.
  pose proof Hp as (Hpi & Hpn & Hpc). pose proof Hp1 as (Hpi1 & Hpn1 & Hpc1).
  cbn [touch_loop fst snd]. rewrite Hpn, zlen_app, zlen_cons. pose proof (zlen_nonneg todo). pose proof (zlen_nonneg done).
  ztest. rewrite Hpc, Gp. cbn [mbind res_bind]. unfold sick, late. destruct (ProcessExists w (pid x)); cbn [negb orb].
  - cbn [mbind res_bind]. rewrite andb_false_l. cbn [fst]. rewrite Hpc, Gl.
    cbn [mbind res_bind]. rewrite Gs.
    assert ((if at_ x =? 0 then Ret (startat x) else Ret (at_ x)) = Ret (last_seen x)) as ->
      by (unfold last_seen; by destruct (at_ x =? 0)). cbn [mbind res_bind].
    destruct (Z.abs (nt - last_seen x) >? MAX_HEAR_TIME) eqn:Es; [|by exists p].
    rewrite Er. cbn [mbind res_bind fst]. rewrite (parent_IsSon _ _ Hp1).
    by exists p1.
  - rewrite Er. cbn [mbind res_bind fst]. rewrite (parent_IsSon _ _ Hp1).
    cbn [andb]. rewrite Hpc1, Gl1. cbn [mbind res_bind at_ y fresh].
    change (0 =? 0) with true. cbv iota. rewrite Gs1. cbn [mbind res_bind]. change (startat y) with (now (killed (pid x) w)).
    assert (Z.abs (nt - now (killed (pid x) w)) >? MAX_HEAR_TIME = false) as ->
      by (unfold MAX_HEAR_TIME; rewrite Z.gtb_ltb; apply Z.ltb_ge; lia).
    by exists p1.
Qed.

(** The loop from [todo] on. *)
Lemma touch_ok nt todo : forall fuel done p w,
  parent (done ++ todo) p -> (length todo < fuel)%nat -> nt <= now w -> now w + 2 * zlen todo <= nt + 30 ->
  zlen todo <= zlen (forks w) -> Forall (fun f => 0 < f) (forks w) -> Forall (fun x => pid x <> 0) todo ->
  exists p' w' l' rs, touch_loop fuel nt (zlen done) (p, w) = Ret (p', w') /\ passed nt w todo l' rs w' /\
    parent (done ++ l') p' /\ m_bInited p' = m_bInited p.
Proof.
  induction todo as [|x todo IH]; intros fuel done p w Hp Hf Hn Hl Hfs Hff Hnz; (destruct fuel as [|fuel]; [cbn in Hf; lia|]).
  - pose proof Hp as (Hpi & Hpn & Hpc). cbn [touch_loop fst snd]. rewrite Hpn, app_nil_r. ztest. exists p, w, [], [].
    split_and!; [done|constructor|done|done].
  - rewrite zlen_cons in Hl, Hfs. pose proof (zlen_nonneg todo). apply Forall_cons in Hnz as [Hxz Hnz].
    destruct (forks w) as [|f rest] eqn:Ef; [rewrite zlen_nil in Hfs; lia|]. rewrite zlen_cons in Hfs.
    pose proof Hff as Hff'. apply Forall_cons in Hff as [Hpos Hff].
    destruct (visit_ok nt fuel done x todo p w f rest Hp ltac:(lia) Ef Hpos Hxz) as (p1 & Hp1 & Hb1 & ->).
    set (y := if sick nt w x then _ else x) in *.
    assert (zlen done + 1 = zlen (done ++ [y])) as -> by (by rewrite zlen_app).
    assert (done ++ y :: todo = (done ++ [y]) ++ todo) as E by (by rewrite <- app_assoc). rewrite E in Hp1.
    pose proof (now_killed (pid x) w). cbn in Hf. destruct (sick nt w x) eqn:Es.
    + destruct (IH fuel (done ++ [y]) p1 (born f (killed (pid x) w))) as (p' & w' & l' & rs & Et & Hps & Hp' & Hb');
        try done; cbn; rewrite ?forks_killed, ?Ef; cbn [tail]; try done; try lia.
      exists p', w', (y :: l'), ((pid x, f) :: rs). rewrite <- app_assoc in Hp'.
      split_and!; [exact Et|by eapply passed_sick|exact Hp'|congruence].
    + destruct (IH fuel (done ++ [y]) p1 w) as (p' & w' & l' & rs & Et & Hps & Hp' & Hb');
        try done; try lia; rewrite ?Ef, ?zlen_cons; try done; try lia.
      exists p', w', (y :: l'), rs. rewrite <- app_assoc in Hp'.
      split_and!; [exact Et|by apply passed_well|exact Hp'|congruence].
Qed.

(** *** What a pass does to the table *)

Section passed.
Context (nt : Z).

Lemma passed_log w l l' rs w' :
  passed nt w l l' rs w' ->
  now w <= now w' <= now w + 2 * zlen rs /\
  signals w' = signals w ++ flat_map (fun r => [(r.1, SIGTERM); (r.1, SIGKILL)]) rs /\
  forks w = rs.*2 ++ forks w' /\ sublist rs.*1 (map pid l).
Proof.
  induction 1 as [w|w x l l' rs w' Hs Hp (H1 & H2 & H3 & H4)|w x l f rest l' rs w' Hs Hf Hp (H1 & H2 & H3 & H4)]; cbn.
  - change (zlen (@nil (Z * Z))) with 0. split_and!; [lia|lia|by rewrite app_nil_r|done|constructor].
  - split_and!; [lia|lia|done|done|by constructor].
  - pose proof (now_killed (pid x) w). cbn [now born] in H1. rewrite zlen_cons. split_and!; [lia|lia| | |by constructor].
    + rewrite H2. cbn. unfold killed, sleep. cbn. destruct (naps w); cbn; by rewrite <- !app_assoc.
    + rewrite Hf. f_equal. rewrite <- H3. cbn. by rewrite forks_killed, Hf.
Qed.

Lemma passed_entries w l l' rs w' :
  passed nt w l l' rs w' -> NoDup (map pid l) ->
  Forall2 (fun x y => (pid x ∉ rs.*1 /\ y = x) \/
                      exists f n, (pid x, f) ∈ rs /\ y = fresh n f /\ now w <= n <= now w') l l'.
Proof.
  induction 1 as [w|w x l l' rs w' Hs Hp IH|w x l f rest l' rs w' Hs Hf Hp IH]; intros Hn; [constructor|..];
    cbn [map] in Hn; apply NoDup_cons in Hn as [Hx Hn]; specialize (IH Hn);
    pose proof (passed_log _ _ _ _ _ Hp) as (Ht & _ & _ & Hsub); constructor.
  - left. split; [|done]. intros Hin. apply Hx. by apply (elem_of_sublist _ _ _ Hin Hsub).
  - exact IH.
  - right. pose proof (now_killed (pid x) w). cbn [now born] in Ht. eexists f, _. split; [by left|]. split; [done|lia].
  - assert (Forall (fun y => pid y <> pid x) l) as Hne.
    { apply Forall_forall. intros y Hy Ey. apply Hx. rewrite <- Ey. by apply list_elem_of_fmap_2. }
    pose proof (now_killed (pid x) w) as Hk. cbn [now born] in IH. clear -Hk IH Hne.
    induction IH as [|y z l l' Hyz _ IH]; [constructor|]. apply Forall_cons in Hne as [Hy Hne]. constructor; [|by apply IH].
    destruct Hyz as [[Hy' ->]|(g & n & Hg & -> & Hle)]; [left|right].
    + split; [|done]. cbn. rewrite elem_of_cons. naive_solver.
    + exists g, n. split; [by right|]. split; [done|lia].
Qed.

Lemma passed_recent w l l' rs w' :
  passed nt w l l' rs w' -> nt <= now w -> now w + 2 * zlen l <= nt + 30 ->
  Forall (fun x => Z.abs (nt - last_seen x) <= MAX_HEAR_TIME) l'.
Proof.
  induction 1 as [w|w x l l' rs w' Hs Hp IH|w x l f rest l' rs w' Hs Hf Hp IH]; intros H1 H2; [constructor|..];
    rewrite zlen_cons in H2; pose proof (zlen_nonneg l); pose proof (now_killed (pid x) w).
  - constructor; [|apply IH; lia]. apply orb_false_iff in Hs as [_ Hs]. unfold late in Hs. rewrite Z.gtb_ltb in Hs.
    by bool_to_prop.
  - constructor; [|apply IH; cbn; lia]. unfold last_seen, fresh, MAX_HEAR_TIME. cbn [at_ startat].
    change (0 =? 0) with true. cbv iota. lia.
Qed.

(** *** What a pass does to the processes *)

Definition exist (w : world) : gset Z := running w ∪ zombies w.

Lemma killed_exist q old w :
  (q ∈ exist (killed old w) -> q ∈ exist w) /\
  (q ∈ exist w -> (forall n, n ∈ naps w -> q ∉ reaped n) -> q ∈ exist (killed old w)).
Proof.
  unfold exist, killed, dies, sends, sleep. cbn. destruct (naps w) as [|n ns]; cbn; [destruct (decide (q = old)); set_solver|].
  split; [set_solver|]. intros Hq Hr. specialize (Hr n ltac:(by left)).
  destruct (decide (q = old)), (decide (q ∈ exits n)); set_solver.
Qed.

Lemma killed_naps old w n : n ∈ naps (killed old w) -> n ∈ naps w.
Proof. unfold killed, sleep. cbn. destruct (naps w); [done|]. cbn. by right. Qed.

Lemma killed_running q old w :
  (q ∈ running (killed old w) -> q ∈ running w /\ q <> old) /\
  (q ∈ running w -> q <> old -> (forall n, n ∈ naps w -> q ∉ exits n) -> q ∈ running (killed old w)).
Proof.
  unfold killed, dies, sends, sleep. cbn. destruct (naps w) as [|n ns]; cbn; [set_solver|].
  split; [set_solver|]. intros Hq Hne He. specialize (He n ltac:(by left)). set_solver.
Qed.

(** Who is gone, or late, at the beginning is replaced. *)
Lemma passed_sick_replaced w l l' rs w' q :
  passed nt w l l' rs w' -> q ∉ forks w -> q ∈ map pid l ->
  q ∉ exist w \/ (forall x, x ∈ l -> pid x = q -> late nt x = true) -> q ∈ rs.*1.
Proof.
  induction 1 as [w|w x l l' rs w' Hs Hp IH|w x l f rest l' rs w' Hs Hf Hp IH]; intros Hk Hq Ho; [by apply not_elem_of_nil in Hq|..];
    cbn [map] in Hq; apply elem_of_cons in Hq.
  - apply orb_false_iff in Hs as [Hs1 Hs2]. apply negb_false_iff, bool_decide_eq_true in Hs1. destruct Hq as [->|Hq].
    + destruct Ho as [Ho|Ho]; [done|]. rewrite (Ho x) in Hs2; [done|by left|done].
    + apply IH; [done|done|]. destruct Ho as [Ho|Ho]; [by left|right]. intros y Hy. apply Ho. by right.
  - cbn. rewrite elem_of_cons. destruct (decide (q = pid x)) as [|Hne]; [by left|right]. destruct Hq as [|Hq]; [done|].
    rewrite Hf in Hk. apply IH; [cbn; rewrite forks_killed, Hf; set_solver|done|].
    destruct Ho as [Ho|Ho]; [left|right; intros y Hy; apply Ho; by right].
    intros Hin. apply Ho. apply (killed_exist q (pid x) w). unfold exist, born in *. cbn in Hin. set_solver.
Qed.

(** Who is there and stays there, and was seen, is left alone. *)
Lemma passed_well_kept w l l' rs w' q :
  passed nt w l l' rs w' -> q ∈ exist w -> (forall n, n ∈ naps w -> q ∉ reaped n) ->
  (forall x, x ∈ l -> pid x = q -> late nt x = false) -> q ∉ rs.*1.
Proof.
  induction 1 as [w|w x l l' rs w' Hs Hp IH|w x l f rest l' rs w' Hs Hf Hp IH]; intros Hq Hr Hl; [apply not_elem_of_nil|..].
  - apply IH; [done|done|]. intros y Hy. apply Hl. by right.
  - cbn. intros [->|Hin]%elem_of_cons.
    + apply orb_true_iff in Hs as [Hs|Hs]; [|rewrite (Hl x) in Hs; [done|by left|done]].
      apply negb_true_iff, bool_decide_eq_false in Hs. by apply Hs.
    + revert Hin. apply IH.
      * pose proof (proj2 (killed_exist q (pid x) w) Hq Hr) as Hq'. unfold exist, born in *. cbn. set_solver.
      * intros n Hn. apply Hr. exact (killed_naps _ _ _ Hn).
      * intros y Hy. apply Hl. by right.
Qed.

(** Who does not run, and is not started, does not run afterwards. *)
Lemma passed_dead w l l' rs w' q : passed nt w l l' rs w' -> q ∉ running w -> q ∉ forks w -> q ∉ running w'.
Proof.
  induction 1 as [w|w x l l' rs w' Hs Hp IH|w x l f rest l' rs w' Hs Hf Hp IH]; intros Hr Hk; [done|by apply IH|].
  rewrite Hf in Hk. apply IH; cbn; rewrite ?forks_killed, ?Hf; [|set_solver]. pose proof (proj1 (killed_running q (pid x) w)).
  set_solver.
Qed.

Lemma passed_killed w l l' rs w' q :
  passed nt w l l' rs w' -> Forall (fun f => f ∉ map pid l) (forks w) -> q ∈ rs.*1 -> q ∉ running w'.
Proof.
  induction 1 as [w|w x l l' rs w' Hs Hp IH|w x l f rest l' rs w' Hs Hf Hp IH]; intros Hk Hq; [by apply not_elem_of_nil in Hq|..].
  - apply IH; [|done]. eapply Forall_impl; [exact Hk|]. intros g Hg. cbn in Hg. set_solver.
  - rewrite Hf in Hk. cbn in Hq. apply elem_of_cons in Hq as [->|Hq].
    + rewrite Forall_forall in Hk. assert (pid x ∉ f :: rest) as Hx by (intros Hin; apply (Hk _ Hin); by left).
      apply (passed_dead _ _ _ _ _ _ Hp); cbn; [|rewrite forks_killed, Hf; set_solver].
      pose proof (proj1 (killed_running (pid x) (pid x) w)). set_solver.
    + apply IH; [|done]. cbn. rewrite forks_killed, Hf. apply Forall_cons in Hk as [_ Hk]. cbn.
      eapply Forall_impl; [exact Hk|]. intros g Hg. cbn in Hg. set_solver.
Qed.

(** Who runs, and neither ends by itself nor is replaced, goes on. *)
Lemma passed_survives w l l' rs w' q :
  passed nt w l l' rs w' -> q ∈ running w -> q ∉ rs.*1 -> (forall n, n ∈ naps w -> q ∉ exits n) -> q ∈ running w'.
Proof.
  induction 1 as [w|w x l l' rs w' Hs Hp IH|w x l f rest l' rs w' Hs Hf Hp IH]; intros Hr Hq He; [done|by apply IH|].
  cbn in Hq. apply not_elem_of_cons in Hq as [Hne Hq]. apply IH; [|done|].
  - cbn. pose proof (proj2 (killed_running q (pid x) w) Hr Hne He). set_solver.
  - intros n Hn. apply He. exact (killed_naps _ _ _ Hn).
Qed.

Lemma passed_born w l l' rs w' r :
  passed nt w l l' rs w' -> Forall (fun f => f ∉ map pid l) (forks w) -> r ∈ rs ->
  (forall n, n ∈ naps w -> r.2 ∉ exits n) -> r.2 ∈ running w'.
Proof.
  induction 1 as [w|w x l l' rs w' Hs Hp IH|w x l f rest l' rs w' Hs Hf Hp IH]; intros Hk Hq He; [by apply not_elem_of_nil in Hq|..].
  - apply IH; [|done|done]. eapply Forall_impl; [exact Hk|]. intros g Hg. cbn in Hg. set_solver.
  - rewrite Hf in Hk. apply Forall_cons in Hk as [Hfx Hk].
    assert (forall n, n ∈ naps (born f (killed (pid x) w)) -> r.2 ∉ exits n) as He' by (intros n Hn; apply He; exact (killed_naps _ _ _ Hn)).
    apply elem_of_cons in Hq as [->|Hq].
    + apply (passed_survives _ _ _ _ _ _ Hp); [cbn; set_solver| |done].
      destruct (passed_log _ _ _ _ _ Hp) as (_ & _ & _ & Hsub). intros Hin. apply Hfx. right.
      by apply (elem_of_sublist _ _ _ Hin Hsub).
    + apply IH; [|done|done]. cbn. rewrite forks_killed, Hf. cbn. eapply Forall_impl; [exact Hk|].
      intros g Hg. cbn in Hg. set_solver.
Qed.

End passed.

Lemma create_loop_ok m : forall fuel done old p w new rest,
  parent (done ++ old) p -> length old = m -> (m < fuel)%nat -> forks w = new ++ rest -> length new = m ->
  Forall (fun f => 0 < f) new ->
  exists p', create_loop fuel (zlen done) (p, w) =
      Ret (p', World (now w) (list_to_set new ∪ running w) (zombies w) (signals w) rest (naps w)) /\
    parent (done ++ map (fresh (now w)) new) p'.
Proof.
  induction m as [|m IH]; intros fuel done old p w new rest Hp Ho Hf Hfk Hn Hpos;
    (destruct fuel as [|fuel]; [lia|]); cbn [create_loop fst].
  - apply nil_length_inv in Ho as ->. apply nil_length_inv in Hn as ->. pose proof Hp as (_ & E & _).
    rewrite E, app_nil_r. ztest. exists p. split; [|by rewrite app_nil_r in Hp |- *]. cbn in Hfk. subst rest.
    destruct w. cbn. do 3 f_equal. set_solver.
  - destruct old as [|x old]; [done|]. destruct new as [|f new]; [done|]. pose proof Hp as (Hi & E & Hc).
    rewrite E, zlen_app, zlen_cons. pose proof (zlen_nonneg old). pose proof (zlen_nonneg done). ztest.
    rewrite (parent_IsSon _ _ Hp). apply Forall_cons in Hpos as [Hf0 Hpos]. cbn [create_child]. rewrite Hfk.
    cbn [app]. ztest. rewrite Hc. cbn [now].
    assert ((done ++ x :: old) !! length done = Some x) as Hx by (by apply list_lookup_middle).
    pose proof (SetStartInfo_ok _ _ _ Hx (now w) f : SetStartInfo _ (zlen done) _ _ = _) as Es.
    rewrite Es, insert_mid. cbn [mbind res_bind].
    assert (zlen done + 1 = zlen (done ++ [fresh (now w) f])) as -> by (by rewrite zlen_app).
    destruct (IH fuel (done ++ [fresh (now w) f]) old
                (set_cntl (ProcessCntl.mk (zlen (done ++ x :: old)) (Some (done ++ Info (now w) CS_IDLE 0 f :: old))) p)
                (World (now w) ({[f]} ∪ running w) (zombies w) (signals w) (new ++ rest) (naps w)) new rest) as (p' & Er & Hp'); try done; try (cbn in *; lia).
    + rewrite <- app_assoc. split_and!; cbn; [done| |]; rewrite ?E, !zlen_app, !zlen_cons; done.
    + exists p'. split; [|by rewrite <- app_assoc in Hp']. rewrite Er. cbn. do 3 f_equal. set_solver.
Qed.

Lemma reset_loop_ok m : forall fuel i l,
  length l = (i + m)%nat -> (m < fuel)%nat ->
  reset_loop fuel (Z.of_nat i) (ProcessCntl.mk (zlen l) (Some l)) =
  Ret (ProcessCntl.mk (zlen l) (Some (take i l ++ replicate m (Info 0 CS_UNUSED 0 0)))).
Proof.
  induction m as [|m IH]; intros fuel i l Hl Hf; (destruct fuel as [|fuel]; [lia|]); cbn [reset_loop m_nCount];
    unfold zlen at 1; ztest.
  - do 3 f_equal. rewrite app_nil_r. symmetry. apply firstn_all2. lia.
  - destruct (lookup_lt_is_Some_2 l i) as [x Hx]; [lia|]. unfold ResetInfo.
    rewrite (index_ok _ _ _ Hx). cbn [mbind res_bind]. rewrite (set_info_ok _ _ _ Hx). cbn [mbind res_bind].
    replace (Z.of_nat i + 1) with (Z.of_nat (S i)) by lia.
    rewrite <- (zlen_insert l i (Info 0 CS_UNUSED 0 0)), IH by (rewrite ?length_insert; lia). do 3 f_equal.
    rewrite (take_S_r _ _ (Info 0 CS_UNUSED 0 0)) by (apply list_lookup_insert_eq; lia).
    rewrite take_insert_ge by lia. by rewrite <- app_assoc.
Qed.

Lemma Init_table n :
  ProcessCntl.Init OK (ProcessCntl.mk (Z.of_nat n) None) =
  Ret (ProcessCntl.mk (Z.of_nat n) (Some (replicate n (Info 0 CS_UNUSED 0 0))), OK).
Proof.
  unfold ProcessCntl.Init. change (IS_OK OK) with true. cbn [negb m_nCount]. rewrite Nat2Z.id.
  set (zs := replicate n (Info 0 0 0 0)).
  assert (length zs = n) as Hz by apply length_replicate.
  pose proof (reset_loop_ok n (S n) 0 zs ltac:(lia) ltac:(lia) : reset_loop _ 0 _ = _) as Er.
  unfold zlen in Er. rewrite Hz in Er. rewrite Er. done.
Qed.
(** ** Properties *)

(** C24: One pass of the parent over at most fifteen children, whatever ends, is waited for or
    interrupts a [sleep] meanwhile.  [rs] are the old and the new pids of those that are
    replaced.  A child that is not there when the pass begins, or was not seen for thirty
    seconds, is replaced; one that was seen, and is there and stays there, is not.  Each that is
    replaced is sent [SIGTERM] and then [SIGKILL], in the order of the table, and nobody else is
    sent anything; it does not run afterwards; one call of [fork] is made for it, its entry is
    fresh and has the new pid, and the new process runs unless it ended by itself.  The other
    entries are as they were, and who is not replaced runs on unless it ended by itself.  The
    pass takes at most two seconds for each that is replaced, and after it every entry is
    recent. *)
Theorem parent_touch_restarts l p w :
  parent l p -> zlen l <= 15 -> zlen l <= zlen (forks w) ->
  Forall (fun f => 0 < f /\ f ∉ map pid l) (forks w) ->
  Forall (fun x => pid x <> 0) l -> NoDup (map pid l) ->
  exists p' w' l' rs, ManagePool (p, w) = Ret (p', w') /\ parent l' p' /\
    (now w <= now w' <= now w + 2 * zlen rs) /\
    (forall x, x ∈ l -> ProcessExists w (pid x) = false \/ late (now w) x = true -> pid x ∈ rs.*1) /\
    (forall x, x ∈ l -> ProcessExists w (pid x) = true -> (forall n, n ∈ naps w -> pid x ∉ reaped n) ->
      late (now w) x = false -> pid x ∉ rs.*1) /\
    signals w' = signals w ++ flat_map (fun r => [(r.1, SIGTERM); (r.1, SIGKILL)]) rs /\
    sublist rs.*1 (map pid l) /\ forks w = rs.*2 ++ forks w' /\
    Forall2 (fun x y => (pid x ∉ rs.*1 /\ y = x) \/
                        exists f n, (pid x, f) ∈ rs /\ y = fresh n f /\ now w <= n <= now w') l l' /\
    (forall r, r ∈ rs -> r.1 ∉ running w' /\
      ((forall n, n ∈ naps w -> r.2 ∉ exits n) -> r.2 ∈ running w')) /\
    (forall q, q ∈ running w -> q ∉ rs.*1 -> (forall n, n ∈ naps w -> q ∉ exits n) -> q ∈ running w') /\
    Forall (fun y => Z.abs (now w - last_seen y) <= MAX_HEAR_TIME) l'.
Proof.
  intros Hp Hl Hf Hff Hz Hn. unfold ManagePool. cbn [fst]. rewrite (parent_IsSon _ _ Hp). pose proof Hp as (_ & E & _).
  unfold parent_touch. cbn [fst snd]. rewrite E. apply Forall_and in Hff as [Hpos Hnew].
  destruct (touch_ok (now w) l (S (Z.to_nat (zlen l))) [] p w) as (p' & w' & l' & rs & Et & Hps & Hp' & _);
    [done|unfold zlen; lia|lia|lia|done|done|done|].
  destruct (passed_log _ _ _ _ _ _ Hps) as (H1 & H2 & H3 & H4).
  assert (forall x y, x ∈ l -> y ∈ l -> pid x = pid y -> x = y) as Hinj.
  { intros x y Hx Hy Exy. apply list_elem_of_lookup in Hx as [i Hi], Hy as [j Hj].
    assert (i = j) as ->; [|congruence]. apply (NoDup_lookup (map pid l) i j (pid x)); [done| |].
    - by rewrite list_lookup_fmap, Hi.
    - by rewrite list_lookup_fmap, Hj, Exy. }
  exists p', w', l', rs. split_and!; try done; try lia.
  - intros x Hx Ho. apply (passed_sick_replaced _ _ _ _ _ _ _ Hps); [|by apply list_elem_of_fmap_2|].
    + intros Hin. rewrite Forall_forall in Hnew. apply (Hnew _ Hin). by apply list_elem_of_fmap_2.
    + destruct Ho as [Ho|Ho]; [left; by apply bool_decide_eq_false in Ho|right]. intros y Hy Eq. by rewrite (Hinj y x).
  - intros x Hx Ho Hr Hla. apply (passed_well_kept _ _ _ _ _ _ _ Hps); [by apply bool_decide_eq_true in Ho|done|].
    intros y Hy Eq. by rewrite (Hinj y x).
  - by apply (passed_entries _ _ _ _ _ _ Hps).
  - intros r Hr. split; [|by apply (passed_born _ _ _ _ _ _ _ Hps)].
    apply (passed_killed _ _ _ _ _ _ _ Hps Hnew). by apply list_elem_of_fmap_2.
  - intros q. by apply (passed_survives _ _ _ _ _ _ _ Hps).
  - apply (passed_recent _ _ _ _ _ _ Hps); lia.
Qed.

(** Of three children the first is gone, the second was not seen and hangs, the third is well;
    the first call of [sleep] is cut short. *)
Lemma parent_touch_restarts_witness :
  exists p' w', 
    ManagePool
      (mk true (ProcessCntl.mk 3 (Some [Info 50 1 0 7; Info 50 2 60 8; Info 50 2 110 6])) (-1) 3,
       World 112 {[8; 6]} ∅ [] [9; 10; 11] [Nap 1 ∅ ∅]) = Ret (p', w') /\
    signals w' = [(7, 15); (7, 9); (8, 15); (8, 9)] /\ forks w' = [11] /\
    8 ∉ running w' /\ 6 ∈ running w' /\ 9 ∈ running w' /\ 10 ∈ running w'.
Proof.
  set (l := [Info 50 1 0 7; Info 50 2 60 8; Info 50 2 110 6]).
  set (w := World 112 {[8; 6]} ∅ [] [9; 10; 11] [Nap 1 ∅ ∅]).
  destruct (parent_touch_restarts l (mk true (ProcessCntl.mk 3 (Some l)) (-1) 3) w)
    as (p' & w' & l' & rs & E & _ & _ & _ & _ & Hs & _ & Hf & _ & Hr & Hk & _).
  - by split_and!.
  - done.
  - done.
  - apply (bool_decide_eq_true _). vm_compute. reflexivity.
  - repeat constructor; done.
  - apply (bool_decide_eq_true _). vm_compute. reflexivity.
  - exists p', w'. split; [exact E|]. assert (signals w' = [(7, 15); (7, 9); (8, 15); (8, 9)] /\ forks w' = [11]) as [Es Ef].
    { clear -E. vm_compute in E. injection E as <- <-. by split. }
    split; [exact Es|]. split; [exact Ef|].
    assert (rs = [(7, 9); (8, 10)]) as ->.
    { rewrite Ef in Hf. rewrite Es in Hs. destruct rs as [|[a1 b1] [|[a2 b2] [|[a3 b3] rs]]]; cbn in Hs, Hf; congruence. }
    assert (forall q n, n ∈ naps w -> q ∉ exits n) as He by (intros q n ->%list_elem_of_singleton; apply not_elem_of_empty).
    split; [apply (Hr (8, 10)); set_solver|]. split; [apply Hk; [set_solver|cbn; set_solver|apply He]|].
    split; [apply (Hr (7, 9)); [set_solver|apply He]|apply (Hr (8, 10)); [set_solver|apply He]].
Defined.

(** [Init] fills the table with one fresh child per slot, in the order of the
    calls of [fork]. *)
Theorem Init_starts_children n w new rest :
  forks w = new ++ rest -> length new = n -> Forall (fun f => 0 < f) new ->
  exists p, Init OK (make (Z.of_nat n), w) =
      Ret (p, World (now w) (list_to_set new ∪ running w) (zombies w) (signals w) rest (naps w), OK) /\
    m_bInited p = true /\ parent (map (fresh (now w)) new) p.
Proof.
  intros Hf Hn Hpos. unfold Init, make. cbn [m_cntl]. rewrite Init_table. cbn [mbind res_bind].
  change (IS_OK OK) with true. cbn [negb]. unfold set_cntl. cbn [m_nChildCount m_bInited m_index m_cntl]. rewrite Nat2Z.id.
  destruct (create_loop_ok n (S n) [] (replicate n (Info 0 CS_UNUSED 0 0))
    (mk false (ProcessCntl.mk (Z.of_nat n) (Some (replicate n (Info 0 CS_UNUSED 0 0)))) (-1) (Z.of_nat n))
    w new rest) as (p' & Ec & Hp'); try done; try lia.
  - split_and!; cbn; [done|unfold zlen; by rewrite length_replicate|unfold zlen; by rewrite length_replicate].
  - apply length_replicate.
  - change (zlen (@nil cntl_info)) with 0 in Ec. unfold PARENT_DEFAULT_INDEX. rewrite Ec. cbn [mbind res_bind].
    eexists. split; [done|]. split; [done|]. destruct Hp' as (H1 & H2 & H3). by split_and!.
Qed.

Lemma Init_starts_children_witness :
  exists p, Init OK (make 2, World 5 ∅ ∅ [] [11; 12] []) =
    Ret (p, World 5 (list_to_set [11; 12] ∪ ∅) ∅ [] [] [], OK) /\ m_bInited p = true.
Proof.
  destruct (Init_starts_children 2 (World 5 ∅ ∅ [] [11; 12] []) [11; 12] []) as (p & E & Hb & _);
    [done|done|repeat constructor; lia|]. exists p. by split.
Defined.

(** Sixteen dead children: the pass takes more than thirty seconds of sleep, so
    the last child it starts looks stale to it and is started a second time. *)
Example sixteenth_child_twice :
  match parent_touch
    (mk true (ProcessCntl.mk 16 (Some (map (fun i => Info 900 1 0 (100 + Z.of_nat i)) (seq 0 16)))) (-1) 16,
     World 1000 ∅ ∅ [] (map (fun i => 200 + Z.of_nat i) (seq 0 20)) []) with
  | Ret (p, w) => forks w = [217; 218; 219] /\ bool_decide (216 ∈ running w) = true /\
                  bool_decide (215 ∈ running w) = false /\ now w = 1034
  | Throw _ => False
  end.
Proof. vm_compute. done. Qed.

(** A child that has ended and that nobody waited for is still in [/proc]: nothing is done for
    it until it was not seen for thirty seconds. *)
Example zombie_exists :
  match parent_touch
    (mk true (ProcessCntl.mk 1 (Some [Info 100 1 0 7])) (-1) 1, World 120 ∅ {[7]} [] [9] []) with
  | Ret (p, w) => signals w = [] /\ forks w = [9]
  | Throw _ => False
  end.
Proof. vm_compute. done. Qed.

End ProcessPoolFacts.
