(* ===== verification/ThreadPool.v ===== *)
(** * The pool of threads: [src/hthreadpool.cpp]

    [Init] hands each child a slot of an array, waits for the child to say that
    it runs ([HWaitSonLock] of [src/hmutex.cpp]: a flag under a mutex with a condition) and frees
    the array when all have.  Flag, mutex and condition are static, one for all pools.  A state
    holds them and any number of pools whose [Init] and children interleave
    step by step: taking the mutex, testing the flag, sleeping at the condition and signalling
    are steps of their own, a sleeper may wake for no reason, and the
    creation of a thread may fail.  Then the
    sequential side: [JoinAll] and the destructor. *)

From S2P Require Import Prelude.

Module HThreadPool.

(** ** Definitions *)

Inductive ChildStatus : Type := CS_UNUSED | CS_IDLE | CS_BUSY.

#[global] Instance ChildStatus_eq_dec : EqDecision ChildStatus.
Proof. solve_decision. Defined.

(** Where a thread is in [WaitSonRun]: before the mutex, before the test of the flag, asleep
    at the condition, woken and without the mutex, before [i = 0], before the mutex is given back. *)
Inductive wpc : Type := WLock | WTest | WSleep | WWoken | WReset | WUnlock.

(** Where a child is in [SonRun]: before the mutex, before [i = 1], before the signal,
    before the mutex is given back. *)
Inductive spc : Type := SLock | SRaise | SSignal | SUnlock.

#[global] Instance wpc_eq_dec : EqDecision wpc.
Proof. solve_decision. Defined.

(** Where [Init] is: child [i] is next to be created, waited for, stored; [MThrow i]: child [i]
    could not be created, and [Init] has thrown. *)
Inductive mpc : Type := MCreate (i : nat) | MWait (i : nat) (w : wpc) | MStore (i : nat) | MIdle (i : nat) | MFree | MDone | MThrow (i : nat).

#[global] Instance mpc_eq_dec : EqDecision mpc.
Proof. solve_decision. Defined.

(** Where a child is in [thread_init_run]. *)
Inductive cpc : Type :=
  | CNone                  (* not created *)
  | CStart                 (* about to read its argument *)
  | CSonRun (x : spc)      (* argument read, in SonRun *)
  | CSon                   (* SonRun done *)
  | CKey                   (* thread specific data set *)
  | CRun                   (* status set to busy, in childThreadRun *)
  | CEnd.

(** How [childThreadRun] ends: it returns, calls [childThreadExit], or runs an [ExitThreadJob]. *)
Inductive ending : Type := EReturn | EThreadExit | EJobExit.

Record pool : Type := Pool {
  p_main : mpc;
  p_parr : bool;                       (* the argument array is allocated *)
  p_cs : list ChildStatus;             (* m_pinfos[i].m_cs *)
  p_thread : list bool;                (* m_pinfos[i].m_thread is valid *)
  p_kids : list cpc
}.

(** A thread: the [Init] of a pool, or its child [j]. *)
Abbreviation tid := (nat * option nat)%type.

(** [s_uChildCreated], the owner of the mutex, and the pools. *)
Record st : Type := St { flag : Z; owner : option tid; pools : list pool }.

Definition set_flag (f : Z) (s : st) : st := St f (owner s) (pools s).
Definition set_owner (o : option tid) (s : st) : st := St (flag s) o (pools s).
Definition set_pool (k : nat) (p : pool) (s : st) : st := St (flag s) (owner s) (<[k := p]> (pools s)).

Definition create (n : nat) : pool :=
  Pool (MCreate 0) true (replicate n CS_UNUSED) (replicate n false) (replicate n CNone).

Definition set_main (m : mpc) (p : pool) : pool := Pool m (p_parr p) (p_cs p) (p_thread p) (p_kids p).
Definition set_kid (j : nat) (c : cpc) (p : pool) : pool :=
  Pool (p_main p) (p_parr p) (p_cs p) (p_thread p) (<[j := c]> (p_kids p)).
Definition set_cs (j : nat) (c : ChildStatus) (p : pool) : pool :=
  Pool (p_main p) (p_parr p) (<[j := c]> (p_cs p)) (p_thread p) (p_kids p).
Definition set_thread (j : nat) (b : bool) (p : pool) : pool :=
  Pool (p_main p) (p_parr p) (p_cs p) (<[j := b]> (p_thread p)) (p_kids p).
Definition free_parr (p : pool) : pool := Pool (p_main p) false (p_cs p) (p_thread p) (p_kids p).

(** The mutex: [None] while somebody has it. *)
Definition Lock (me : tid) (s : st) : option st :=
  match owner s with None => Some (set_owner (Some me) s) | Some _ => None end.

Definition UnLock (me : tid) (s : st) : res st :=
  if bool_decide (owner s = Some me) then Ret (set_owner None s) else Throw UB.

(** Who sleeps at the condition is the [Init] of a pool. *)
Definition asleep (p : pool) : bool := match p_main p with MWait _ WSleep => true | _ => false end.

Definition wake (p : pool) : pool := match p_main p with MWait i WSleep => set_main (MWait i WWoken) p | _ => p end.

(** [Signal] wakes a sleeper, the one of pool [w]; [None] when the choice is not one. *)
Definition Signal (w : nat) (s : st) : option st :=
  if existsb asleep (pools s) then
    match pools s !! w with
    | Some p => if asleep p then Some (set_pool w (wake p) s) else None
    | None => None
    end
  else Some s.

(** A step of [WaitSonRun]; the second part is where it is then, [None] when it has returned. *)
Definition WaitSonRun (me : tid) (w : wpc) (s : st) : option (res (st * option wpc)) :=
  match w with
  | WLock | WWoken => s ← Lock me s; Some (Ret (s, Some WTest))
  | WTest => Some (if flag s =? 0 then s ← UnLock me s; Ret (s, Some WSleep) else Ret (s, Some WReset))
  | WSleep => None
  | WReset => Some (Ret (set_flag 0 s, Some WUnlock))
  | WUnlock => Some (s ← UnLock me s; Ret (s, None))
  end.

(** A step of [SonRun]. *)
Definition SonRun (me : tid) (w : nat) (x : spc) (s : st) : option (res (st * option spc)) :=
  match x with
  | SLock => s ← Lock me s; Some (Ret (s, Some SRaise))
  | SRaise => Some (Ret (set_flag 1 s, Some SSignal))
  | SSignal => s ← Signal w s; Some (Ret (s, Some SUnlock))
  | SUnlock => Some (s ← UnLock me s; Ret (s, None))
  end.

(** What happens next: a step of [Init], whose [pthread_create] succeeds or not, or
    of child [j], whose signal wakes the sleeper [w]. *)
Inductive act : Type := ActInit (created : bool) | ActChild (j : nat) (e : ending) (w : nat).

(** A step of [Init] of pool [k]; [None]: it cannot go on, or has ended. *)
Definition init_step (k : nat) (created : bool) (p : pool) (s : st) : option (res st) :=
  match p_main p with
  | MCreate i =>
    Some (Ret (set_pool k
      (if (i <? length (p_kids p))%nat
       then if created then set_main (MWait i WLock) (set_kid i CStart p) else set_main (MThrow i) p
       else set_main MFree p) s))
  | MWait i w =>
    r ← WaitSonRun (k, None) w s;
    Some ('(s, o) ← (r : res (st * option wpc));
          Ret (set_pool k (set_main (match o with Some w => MWait i w | None => MStore i end) p) s))
  | MStore i => Some (Ret (set_pool k (set_main (MIdle i) (set_thread i true p)) s))
  | MIdle i => Some (Ret (set_pool k (set_main (MCreate (S i)) (set_cs i CS_IDLE p)) s))
  | MFree => Some (Ret (set_pool k (set_main MDone (free_parr p)) s))
  | MDone | MThrow _ => None
  end.

(** A step of child [j] of pool [k]. *)
Definition thread_init_run (k j : nat) (e : ending) (w : nat) (p : pool) (s : st) : option (res st) :=
  match p_kids p !! j with
  | None | Some CNone | Some CEnd => None
  | Some CStart => Some (_ ← check_ub (p_parr p); Ret (set_pool k (set_kid j (CSonRun SLock) p) s))
  | Some (CSonRun x) =>
    r ← SonRun (k, Some j) w x s;
    Some ('(s, o) ← (r : res (st * option spc));
          match pools s !! k with
          | Some p => Ret (set_pool k (set_kid j (match o with Some x => CSonRun x | None => CSon end) p) s)
          | None => Ret s
          end)
  | Some CSon => Some (Ret (set_pool k (set_kid j CKey p) s))
  | Some CKey => Some (Ret (set_pool k (set_kid j CRun (set_cs j CS_BUSY p)) s))
  | Some CRun =>
    Some (Ret (set_pool k (set_kid j CEnd (match e with EThreadExit => set_cs j CS_UNUSED p | _ => p end)) s))
  end.

(** A step of pool [k]. *)
Definition exec (k : nat) (a : act) (s : st) : option (res st) :=
  p ← pools s !! k;
  match a with
  | ActInit created => init_step k created p s
  | ActChild j e w => thread_init_run k j e w p s
  end.

(** A sleeper may wake for no reason. *)
Inductive step (s : st) : res st -> Prop :=
  | step_exec k a r : exec k a s = Some r -> step s r
  | step_spurious k p : pools s !! k = Some p -> asleep p = true -> step s (Ret (set_pool k (wake p) s)).

Inductive reach (s0 : st) : res st -> Prop :=
  | reach_refl : reach s0 (Ret s0)
  | reach_step s r : reach s0 (Ret s) -> step s r -> reach s0 r.

Fixpoint run (sched : list (nat * act)) (s : st) : option (res st) :=
  match sched with
  | [] => Some (Ret s)
  | (k, a) :: rest =>
    match exec k a s with
    | Some (Ret s) => run rest s
    | r => match rest with [] => r | _ => None end
    end
  end.

(** ** [JoinAll] and [free_info] *)

(** [m_pinfos]: status and thread of each child; [None]: [nullptr]. *)
Definition infos : Type := option (list (ChildStatus * bool)).

(** [HThread::Join]: an invalid id is an error, a joined one becomes invalid. *)
Definition Join (valid : bool) : bool := false.

(** [HThread::Cancel]: [pthread_cancel] of the invalid id is undefined. *)
Definition Cancel (valid : bool) : res unit := check_ub valid.

Definition JoinAll (childCount : nat) (m_pinfos : infos) : res infos :=
  match childCount, m_pinfos with
  | O, _ => Ret m_pinfos
  | S _, None => Throw UB
  | _, Some l => Ret (Some (map (fun x => (x.1, Join x.2)) l))
  end.

(** The threads [free_info] has joined. *)
Fixpoint free_loop (l : list (ChildStatus * bool)) : res (list nat) :=
  match l with
  | [] => Ret []
  | (cs, v) :: l =>
    here ← (if bool_decide (cs = CS_UNUSED) then Ret false else _ ← Cancel v; Ret v);
    rest ← free_loop l;
    Ret ((if (here : bool) then [O] else []) ++ map S rest)
  end.

Definition free_info (childCount : nat) (m_pinfos : infos) : res (list nat) :=
  match childCount, m_pinfos with
  | O, _ => Ret []
  | S _, None => Throw UB
  | _, Some l => free_loop l
  end.

End HThreadPool.

(** ** The handshake *)

Module HThreadPoolFacts.
Import HThreadPool.

(** The child is through the handshake. *)
Definition past (c : cpc) : bool := match c with CNone | CStart | CSonRun _ => false | _ => true end.

(** Children below [i] are past the handshake, from [k] on not created. *)
Definition split_at (i k : nat) (kids : list cpc) : Prop :=
  forall j c, kids !! j = Some c -> ((j < i)%nat -> past c = true) /\ ((k <= j)%nat -> c = CNone).

Definition lo (n : nat) (m : mpc) : nat :=
  match m with MCreate i | MWait i _ | MThrow i => i | MStore i | MIdle i => S i | MFree | MDone => n end.
Definition hi (n : nat) (m : mpc) : nat :=
  match m with MCreate i | MThrow i => i | MWait i _ | MStore i | MIdle i => S i | MFree | MDone => n end.

(** Who has the mutex, and who has raised the flag. *)
Definition w_holds (w : wpc) : bool := match w with WTest | WReset | WUnlock => true | _ => false end.
Definition c_holds (c : cpc) : bool := match c with CSonRun (SRaise | SSignal | SUnlock) => true | _ => false end.
Definition raised (c : cpc) : bool := match c with CSonRun (SSignal | SUnlock) => true | _ => past c end.

Definition ends (w : wpc) : bool := match w with WUnlock => true | _ => false end.

(** The pool's [Init] waits at [w] for child [i], which is at [c]: the flag is up between the
    child's [i = 1] and the [i = 0] of [Init], and one that sleeps while it is up
    has the signal before it. *)
Record hand (i : nat) (w : wpc) (c : cpc) (fl : Z) (ow : option tid) : Prop := {
  h_created : c <> CNone;
  h_owner : ow = if w_holds w then Some (0%nat, None) else if c_holds c then Some (0%nat, Some i) else None;
  h_excl : w_holds w = true -> c_holds c = false;
  h_flag : fl = if raised c && negb (ends w) then 1 else 0;
  h_through : w = WReset \/ w = WUnlock -> raised c = true;
  h_sleep : w = WSleep -> raised c = true -> c = CSonRun SSignal
}.

Record inv (n : nat) (fl : Z) (ow : option tid) (p : pool) : Prop := {
  i_kids : length (p_kids p) = n;
  i_parr : p_parr p = bool_decide (p_main p <> MDone);
  i_hi : (hi n (p_main p) <= n)%nat;
  i_split : split_at (lo n (p_main p)) (hi n (p_main p)) (p_kids p);
  i_flag : match p_main p with
           | MWait i w => exists c, p_kids p !! i = Some c /\ hand i w c fl ow
           | _ => fl = 0 /\ ow = None
           end
}.

Lemma split_mono i i' k k' kids : (i' <= i)%nat -> (k <= k')%nat -> split_at i k kids -> split_at i' k' kids.
Proof. intros Hi Hk Hs j c Hj. destruct (Hs j c Hj). split; intros; [apply H|apply H0]; lia. Qed.

Lemma split_insert i k kids j c :
  split_at i k kids -> ((j < i)%nat -> past c = true) -> (j < k)%nat -> split_at i k (<[j := c]> kids).
Proof.
  intros Hs Hc Hj q d Hq. apply list_lookup_insert_Some in Hq as [(-> & -> & _)|[_ Hq]]; [|by apply Hs].
  split; [done|lia].
Qed.

Lemma split_grow i kids c : kids !! i = Some c -> past c = true -> split_at i (S i) kids -> split_at (S i) (S i) kids.
Proof.
  intros Hc Hp Hs j d Hj. destruct (Hs j d Hj) as [H1 H2]. split; [|done]. intros Hlt.
  destruct (decide (j = i)) as [->|Hne]; [|apply H1; lia]. by rewrite Hc in Hj; injection Hj as <-.
Qed.

Lemma inv_create n : inv n 0 None (create n).
Proof.
  split; cbn; [apply length_replicate|done|lia| |done]. intros j c Hj.
  apply lookup_replicate in Hj as [-> _]. split; [lia|done].
Qed.

(** Who is through the test is through the handshake. *)
Lemma hand_past i w c fl ow : hand i w c fl ow -> w = WUnlock -> past c = true.
Proof.
  intros [Hn Ho He Hf Ht Hs] ->. specialize (He eq_refl). specialize (Ht (or_intror eq_refl)). by destruct c as [| |[]| | | |].
Qed.

Ltac handle := split; cbn; try done; try by intros [].

Lemma wait_step_hand i w c fl ow p r : hand i w c fl ow -> WaitSonRun (0%nat, None) w (St fl ow [p]) = Some r ->
  exists fl' ow' o, r = Ret (St fl' ow' [p], o) /\
    match o with Some w' => hand i w' c fl' ow' | None => fl' = 0 /\ ow' = None /\ past c = true end.
Proof.
  intros Hh. pose proof Hh as [Hn Ho He Hf Ht Hs]. destruct w; cbn in *; unfold Lock, UnLock; cbn.
  - destruct (c_holds c) eqn:Ec; subst ow; [done|]. cbn. intros [= <-]. eexists _, _, _. split; [done|]. by handle.
  - intros [= <-]. subst ow. rewrite bool_decide_eq_true_2 by done. specialize (He eq_refl).
    destruct (raised c) eqn:Er; cbn in Hf; subst fl; cbn; eexists _, _, _; (split; [done|]);
      rewrite ?Er; handle; by rewrite ?Er, ?He.
  - done.
  - destruct (c_holds c) eqn:Ec; subst ow; [done|]. cbn. intros [= <-]. eexists _, _, _. split; [done|]. by handle.
  - intros [= <-]. subst ow. eexists _, _, _. split; [done|]. specialize (Ht (or_introl eq_refl)).
    handle; by rewrite ?Ht.
  - intros [= <-]. subst ow. rewrite bool_decide_eq_true_2 by done. cbn. eexists _, _, _. split; [done|].
    rewrite andb_false_r in Hf. split_and!; [done|done|by eapply hand_past].
Qed.

Lemma init_step_inv n b fl ow p r : inv n fl ow p -> init_step 0 b p (St fl ow [p]) = Some r ->
  exists fl' ow' p', r = Ret (St fl' ow' [p']) /\ inv n fl' ow' p'.
Proof.
  intros [Hk Hp Hh Hs Hf]. unfold init_step. rewrite Hk.
  destruct (p_main p) as [i|i w|i|i| | |i] eqn:Em; cbn [lo hi] in *; [| | | | |done|done].
  - destruct Hf as [-> ->]. intros [= <-]. eexists _, _, _. split; [done|].
    destruct (i <? n)%nat eqn:E; [apply Nat.ltb_lt in E|apply Nat.ltb_ge in E]; [destruct b|].
    + split; cbn; [by rewrite length_insert|done|lia| |].
      * apply split_insert; [|lia|lia]. by apply (split_mono i i i); [lia|lia|].
      * exists CStart. split; [apply list_lookup_insert_eq; lia|]. split; cbn; try done. by intros [].
    + by split.
    + split; cbn; [done|done|lia| |done]. by replace n with i by lia.
  - destruct Hf as (c & Hc & Hhd). destruct (WaitSonRun (0%nat, None) w (St fl ow [p])) as [r'|] eqn:E; [|done].
    destruct (wait_step_hand _ _ _ _ _ _ _ Hhd E) as (fl' & ow' & o & -> & Ho). intros [= <-]. cbn.
    eexists _, _, _. split; [done|]. destruct o as [w'|]; split; cbn; try done.
    + by exists c.
    + destruct Ho as (_ & _ & Hpc). by eapply split_grow.
    + by destruct Ho as (? & ? & _).
  - intros [= <-]. eexists _, _, _. split; [done|]. by split.
  - intros [= <-]. eexists _, _, _. split; [done|]. by split.
  - intros [= <-]. eexists _, _, _. split; [done|]. by split.
Qed.

(** A created child is below [hi]; it is past the handshake or waited for. *)
Lemma kid_where n fl ow p j c :
  inv n fl ow p -> p_kids p !! j = Some c -> c <> CNone ->
  (j < hi n (p_main p))%nat /\ (past c = false -> exists w, p_main p = MWait j w /\ hand j w c fl ow).
Proof.
  intros [Hk Hp Hh Hs Hf] Hc Hn. destruct (Hs j c Hc) as [H1 H2].
  assert (j < hi n (p_main p))%nat as Hlt by (apply Nat.nle_gt; intros Hle; by apply Hn, H2).
  split; [done|]. intros Hpc. assert (lo n (p_main p) <= j)%nat as Hge.
  { apply Nat.nlt_ge. intros Hl. rewrite H1 in Hpc by done. done. }
  destruct (p_main p) as [i|i w|i|i| | |i]; cbn in *; try lia. assert (j = i) as -> by lia. exists w. split; [done|].
  destruct Hf as (d & Hd & Hfl). rewrite Hc in Hd. by injection Hd as <-.
Qed.

Lemma hand_later i w c c' fl ow : hand i w c fl ow -> past c = true -> past c' = true -> hand i w c' fl ow.
Proof.
  intros [Hn Ho He Hf Ht Hs] Hc Hc'. assert (c_holds c = false /\ c_holds c' = false) as [E1 E2] by (by destruct c, c').
  assert (raised c = true /\ raised c' = true) as [E3 E4] by (by destruct c, c').
  rewrite E1, E3 in *. split; rewrite ?E2, ?E4; try done; [by destruct c'|].
  intros Ew _. specialize (Hs Ew eq_refl). by subst c.
Qed.

Lemma child_past n fl ow p j c c' cs :
  inv n fl ow p -> p_kids p !! j = Some c -> past c = true -> past c' = true ->
  inv n fl ow (Pool (p_main p) (p_parr p) cs (p_thread p) (<[j := c']> (p_kids p))).
Proof.
  intros Hi Hc Hpc Hpc'. assert (c <> CNone) as Hn by (by destruct c).
  destruct (kid_where _ _ _ _ _ _ Hi Hc Hn) as [Hlt _]. destruct Hi as [Hk Hp Hh Hs Hf].
  split; cbn; [by rewrite length_insert|done|done|by apply split_insert|].
  destruct (p_main p) as [i|i w|i|i| | |i]; try done. destruct Hf as (d & Hd & Hfl).
  destruct (decide (j = i)) as [->|Hne].
  - rewrite Hc in Hd. injection Hd as <-. exists c'. split; [apply list_lookup_insert_eq; by eapply lookup_lt_Some|].
    by eapply hand_later.
  - exists d. by rewrite list_lookup_insert_ne.
Qed.

(** The child that is waited for moves. *)
Lemma child_first n fl ow p j c w c' w' fl' ow' :
  inv n fl ow p -> p_kids p !! j = Some c -> p_main p = MWait j w -> hand j w' c' fl' ow' ->
  inv n fl' ow' (set_kid j c' (set_main (MWait j w') p)).
Proof.
  intros [Hk Hp Hh Hs Hf] Hc Em Hh'. rewrite Em in *. cbn [lo hi] in *.
  split; cbn; [by rewrite length_insert|done|done|apply split_insert; [done|lia|lia]|].
  exists c'. split; [apply list_lookup_insert_eq; by eapply lookup_lt_Some|done].
Qed.

Lemma set_main_same p : set_main (p_main p) p = p.
Proof. by destruct p. Qed.

(** A step of [SonRun] and what it makes of the one who waits. *)
Lemma son_step_hand j w x fl ow p i r : hand j w (CSonRun x) fl ow -> p_main p = MWait j w ->
  SonRun (0%nat, Some j) i x (St fl ow [p]) = Some r ->
  exists fl' ow' w' o, r = Ret (St fl' ow' [set_main (MWait j w') p], o) /\
    hand j w' (match o with Some x => CSonRun x | None => CSon end) fl' ow'.
Proof.
  intros Hh Em. pose proof Hh as [Hn Ho He Hf Ht Hs]. assert (set_main (MWait j w) p = p) as Ep by (rewrite <- Em; apply set_main_same).
  destruct x; cbn in *; unfold Lock, UnLock, Signal; cbn.
  - destruct (w_holds w) eqn:Ew; subst ow; [done|]. cbn. intros [= <-]. exists fl, (Some (0%nat, Some j)), w, (Some SRaise). rewrite Ep.
    split; [done|]. split; cbn; rewrite ?Ew; done.
  - intros [= <-]. destruct (w_holds w) eqn:Ew; [by specialize (He eq_refl)|]. exists 1, ow, w, (Some SSignal). rewrite Ep.
    split; [done|]. split; cbn; rewrite ?Ew; try done. by destruct w.
  - destruct (w_holds w) eqn:Ew; [by specialize (He eq_refl)|]. unfold asleep. rewrite Em.
    destruct (decide (w = WSleep)) as [->|Hw].
    + cbn. destruct i as [|i]; [|done]. cbn. unfold asleep, wake. rewrite Em. cbn. intros [= <-].
      exists fl, ow, WWoken, (Some SUnlock). split; [done|]. by split.
    + destruct w; cbn; try done; intros [= <-]; eexists fl, ow, _, (Some SUnlock); rewrite Ep; (split; [done|]); by split.
  - destruct (w_holds w) eqn:Ew; [by specialize (He eq_refl)|]. subst ow. rewrite bool_decide_eq_true_2 by done. cbn. intros [= <-].
    exists fl, None, w, None. rewrite Ep. split; [done|]. split; cbn; rewrite ?Ew; try done. intros -> _. by specialize (Hs eq_refl eq_refl).
Qed.

Lemma child_step_inv n j e i fl ow p r :
  inv n fl ow p -> thread_init_run 0 j e i p (St fl ow [p]) = Some r ->
  exists fl' ow' p', r = Ret (St fl' ow' [p']) /\ inv n fl' ow' p'.
Proof.
  intros Hi. unfold thread_init_run. destruct (p_kids p !! j) as [c|] eqn:Hc; [|done].
  destruct c as [| |x| | | |]; try done.
  - destruct (kid_where _ _ _ _ _ _ Hi Hc) as [_ Hw]; [done|]. destruct (Hw eq_refl) as (w & Em & [Hn Ho He Hf Ht Hs]).
    rewrite (i_parr _ _ _ _ Hi), Em. cbn. intros [= <-]. eexists _, _, _. split; [done|].
    rewrite <- (set_main_same p), Em. eapply child_first; [done|done|done|]. by split.
  - destruct (kid_where _ _ _ _ _ _ Hi Hc) as [_ Hw]; [done|]. destruct (Hw eq_refl) as (w & Em & Hh).
    destruct (SonRun _ i x _) as [r'|] eqn:E; [|done]. destruct (son_step_hand _ _ _ _ _ _ _ _ Hh Em E) as (fl' & ow' & w' & o & -> & Hh').
    cbn. intros [= <-]. eexists _, _, _. split; [done|]. by eapply child_first.
  - intros [= <-]. eexists _, _, _. split; [done|]. exact (child_past _ _ _ _ _ _ CKey _ Hi Hc eq_refl eq_refl).
  - intros [= <-]. eexists _, _, _. split; [done|]. exact (child_past _ _ _ _ _ _ CRun _ Hi Hc eq_refl eq_refl).
  - intros [= <-]. eexists _, _, _. split; [done|]. destruct e; exact (child_past _ _ _ _ _ _ CEnd _ Hi Hc eq_refl eq_refl).
Qed.

Lemma wake_inv n fl ow p : inv n fl ow p -> asleep p = true -> inv n fl ow (wake p).
Proof.
  intros [Hk Hp Hh Hs Hf]. unfold asleep, wake. destruct (p_main p) as [|i []| | | | |] eqn:Em; try done. intros _.
  destruct Hf as (c & Hc & [Hn Ho He Hf Ht Hsl]). split; cbn; try done. exists c. split; [done|]. by handle.
Qed.

Lemma init_reach_inv n r :
  reach (St 0 None [create n]) r -> exists fl ow p, r = Ret (St fl ow [p]) /\ inv n fl ow p.
Proof.
  intros Hr. induction Hr as [|s r Hr IH Hx]; [eexists _, _, _; split; [done|apply inv_create]|].
  destruct IH as (fl & ow & p & [= ->] & Hi). destruct Hx as [k a r Hx|k p' Hp Ha].
  - unfold exec in Hx. cbn [pools] in Hx. destruct k as [|k]; [|done]. cbn in Hx. destruct a as [b|j e w].
    + by eapply init_step_inv.
    + by eapply child_step_inv.
  - cbn in Hp. destruct k as [|k]; [|done]. injection Hp as <-. eexists _, _, _. split; [done|]. by apply wake_inv.
Qed.

(** Somebody can always go on, and not for no reason, until [Init] has returned or thrown. *)
Lemma wait_progress j w c fl ow p : hand j w c fl ow -> p_kids p !! j = Some c -> p_main p = MWait j w ->
  exists a, exec 0 a (St fl ow [p]) <> None.
Proof.
  intros [Hn Ho He Hf Ht Hs] Hc Em. unfold exec. cbn [pools].
  destruct (c_holds c) eqn:Ech.
  - exists (ActChild j EReturn 0). cbn. unfold thread_init_run. rewrite Hc. destruct c as [| |[]| | | |]; try done; cbn.
    unfold Signal, asleep. cbn. rewrite Em. by destruct w.
  - destruct (decide (w = WSleep)) as [->|Hw].
    + exists (ActChild j EReturn 0). cbn. unfold thread_init_run. rewrite Hc. cbn in Ho. subst ow.
      destruct (raised c) eqn:Er; [specialize (Hs eq_refl eq_refl); by subst c|]. by destruct c as [| |[]| | | |].
    + exists (ActInit true). cbn. unfold init_step. rewrite Em. unfold WaitSonRun, Lock. cbn. destruct w; cbn in Ho; subst ow; try done.
Qed.

Lemma Init_progress n fl ow p : inv n fl ow p -> p_main p <> MDone -> (forall i, p_main p <> MThrow i) ->
  exists a, exec 0 a (St fl ow [p]) <> None.
Proof.
  intros [Hk Hp Hh Hs Hf] Hd Ht. destruct (p_main p) as [i|i w|i|i| | |i] eqn:Em; [| | | | |done|by destruct (Ht i)];
    try (exists (ActInit true); unfold exec, init_step; cbn; by rewrite Em).
  destruct Hf as (c & Hc & Hh'). by eapply wait_progress.
Qed.

Lemma init_run_reach s0 sched s r : reach s0 (Ret s) -> run sched s = Some r -> reach s0 r.
Proof.
  revert s. induction sched as [|[k a] rest IH]; intros s Hs; cbn; [by intros [= <-]|].
  destruct (exec k a s) as [[s'|e]|] eqn:E; [|by destruct rest; [intros [= <-]; eapply reach_step; [|eapply step_exec]|]|by destruct rest].
  apply IH. eapply reach_step; [done|]. by eapply step_exec.
Qed.
End HThreadPoolFacts.

(** ** Properties *)

(** C15: One pool alone: however [Init] and the children interleave, and whatever
    wakes for no reason, no child reads
    its argument after the array is freed, no mutex is given back that is not held,
    and [Init] is never stuck: until it has returned or thrown, somebody can take a step
    that is not such a wakeup.  When it has returned every child is through the
    handshake, and the flag is down and the mutex free; when a thread could not be
    created it throws, the children before are through, those after are not
    there, and the array is never freed. *)
Theorem Init_handshake n r :
  HThreadPool.reach (HThreadPool.St 0 None [HThreadPool.create n]) r ->
  exists fl ow p, r = Ret (HThreadPool.St fl ow [p]) /\ length (HThreadPool.p_kids p) = n /\
    match HThreadPool.p_main p with
    | HThreadPool.MDone => fl = 0 /\ ow = None /\ HThreadPool.p_parr p = false /\
        Forall (fun c => HThreadPoolFacts.past c = true) (HThreadPool.p_kids p)
    | HThreadPool.MThrow i => fl = 0 /\ ow = None /\ HThreadPool.p_parr p = true /\
        forall j c, HThreadPool.p_kids p !! j = Some c ->
          if (j <? i)%nat then HThreadPoolFacts.past c = true else c = HThreadPool.CNone
    | _ => exists a, HThreadPool.exec 0 a (HThreadPool.St fl ow [p]) <> None
    end.
Proof.
  intros Hr. destruct (HThreadPoolFacts.init_reach_inv n r Hr) as (fl & ow & p & -> & Hi). exists fl, ow, p.
  split; [done|]. split; [apply Hi|]. pose proof Hi as [Hk Hp Hh Hs Hf].
  destruct (HThreadPool.p_main p) as [i|i w|i|i| | |i] eqn:Em;
    try (eapply HThreadPoolFacts.Init_progress; [done|by rewrite Em|by rewrite Em]); destruct Hf as [-> ->].
  - split_and!; [done|done|by rewrite Hp|]. apply Forall_lookup. intros j c Hj. apply (Hs j c Hj). cbn. apply lookup_lt_Some in Hj. lia.
  - split_and!; [done|done|by rewrite Hp|]. intros j c Hj. destruct (Hs j c Hj) as [H1 H2]. cbn in H1, H2.
    destruct (j <? i)%nat eqn:E; [apply H1; by apply Nat.ltb_lt|apply H2; by apply Nat.ltb_ge].
Qed.

(** [Init] falls asleep before the child has raised the flag; the second thread cannot be created. *)
Definition sleepy_schedule : list (nat * HThreadPool.act) :=
  let init := (0%nat, HThreadPool.ActInit true) in
  let child := (0%nat, HThreadPool.ActChild 0 HThreadPool.EReturn 0) in
  replicate 3 init ++ replicate 5 child ++ replicate 6 init ++ [(0%nat, HThreadPool.ActInit false)].

Lemma Init_handshake_witness :
  exists fl ow p, HThreadPool.run sleepy_schedule (HThreadPool.St 0 None [HThreadPool.create 2]) = Some (Ret (HThreadPool.St fl ow [p])) /\
    HThreadPool.p_main p = HThreadPool.MThrow 1 /\
    (forall j c, HThreadPool.p_kids p !! j = Some c ->
       if (j <? 1)%nat then HThreadPoolFacts.past c = true else c = HThreadPool.CNone).
Proof.
  eexists _, _, _. split; [vm_compute; reflexivity|]. split; [reflexivity|].
  match goal with
  | |- forall j c, HThreadPool.p_kids ?p !! j = Some c -> _ =>
    destruct (Init_handshake 2 (Ret (HThreadPool.St 0 None [p]))) as (fl & ow & q & E & _ & H)
  end.
  - apply (HThreadPoolFacts.init_run_reach _ sleepy_schedule _ _ (HThreadPool.reach_refl _)).
    vm_compute. reflexivity.
  - injection E as <- <- <-. apply H.
Defined.

(** Two pools share the flag: the child of one can wake the [Init] of the
    other, which then frees the array its own child has yet to read. *)
Theorem shared_flag_use_after_free :
  HThreadPool.reach (HThreadPool.St 0 None [HThreadPool.create 1; HThreadPool.create 1]) (Throw UB).
Proof.
  apply (HThreadPoolFacts.init_run_reach _
    (replicate 3 (0, HThreadPool.ActInit true) ++ [(1, HThreadPool.ActInit true)] ++
     replicate 5 (1, HThreadPool.ActChild 0 HThreadPool.EReturn 0) ++
     replicate 8 (0, HThreadPool.ActInit true) ++ [(0, HThreadPool.ActChild 0 HThreadPool.EReturn 0)])%nat _ _ (HThreadPool.reach_refl _)).
  vm_compute. reflexivity.
Qed.

(** The status [Init] stores may overwrite the child's own: a child that runs
    can be listed as idle, and so can one that has left through
    [childThreadExit]. *)
Theorem status_overwritten e :
  exists p, HThreadPool.reach (HThreadPool.St 0 None [HThreadPool.create 1]) (Ret (HThreadPool.St 0 None [p])) /\
    HThreadPool.p_main p = HThreadPool.MDone /\ HThreadPool.p_cs p = [HThreadPool.CS_IDLE] /\
    HThreadPool.p_kids p = [if (e : bool) then HThreadPool.CEnd else HThreadPool.CRun].
Proof.
  exists (HThreadPool.Pool HThreadPool.MDone false [HThreadPool.CS_IDLE] [true]
            [if e then HThreadPool.CEnd else HThreadPool.CRun]).
  split; [|done].
  apply (HThreadPoolFacts.init_run_reach _
    ([(0, HThreadPool.ActInit true)] ++ replicate (if e then 8 else 7) (0, HThreadPool.ActChild 0 HThreadPool.EThreadExit 0) ++
     replicate 8 (0, HThreadPool.ActInit true))%nat _ _ (HThreadPool.reach_refl _)).
  by destruct e; vm_compute.
Qed.

(** After [JoinAll], which leaves the statuses as they are, the destructor
    cancels invalid threads unless every child had set its status to unused;
    on its own it cancels and joins exactly the children that are not unused,
    and without [Init] it reads through a null pointer. *)
Theorem destructor_after_JoinAll n l :
  length l = S n ->
  (l' ← HThreadPool.JoinAll (S n) (Some l); HThreadPool.free_info (S n) l') =
    (if forallb (fun x => bool_decide (x.1 = HThreadPool.CS_UNUSED)) l then Ret [] else Throw UB) /\
  (Forall (fun x => x.2 = true) l -> exists js, HThreadPool.free_info (S n) (Some l) = Ret js /\
     forall j, j ∈ js <-> exists x, l !! j = Some x /\ x.1 <> HThreadPool.CS_UNUSED) /\
  HThreadPool.free_info (S n) None = Throw UB.
Proof.
  intros _. split_and!; [| |done].
  - cbn [HThreadPool.JoinAll mbind res_bind HThreadPool.free_info].
    induction l as [|[cs v] l IH]; [done|]. cbn. case_bool_decide; cbn; [|done]. rewrite IH.
    by destruct (forallb _ l).
  - cbn [HThreadPool.free_info]. induction 1 as [|[cs v] l Hv Hl IH]; cbn in *.
    + exists []. split; [done|]. intros j. split; [intros Hj; by apply not_elem_of_nil in Hj|by intros (x & ? & _)].
    + subst v. destruct IH as (js & E & Hj). rewrite E. case_bool_decide as Ecs; cbn.
      * eexists. split; [done|]. intros j. rewrite list_elem_of_fmap. destruct j as [|j]; cbn.
        -- split; [by intros (? & ? & _)|]. by intros (x & [= <-] & ?).
        -- rewrite <- Hj. split; [by intros (? & [= ->] & ?)|eauto].
      * eexists. split; [done|]. intros j. rewrite elem_of_cons, list_elem_of_fmap. destruct j as [|j]; cbn.
        -- split; [by eexists|by left].
        -- rewrite <- Hj. split; [by intros [?|(? & [= ->] & ?)]|eauto].
Qed.

Lemma destructor_after_JoinAll_witness :
  (l' ← HThreadPool.JoinAll 1 (Some [(HThreadPool.CS_IDLE, true)]); HThreadPool.free_info 1 l') = Throw UB.
Proof. apply (destructor_after_JoinAll 0 [(HThreadPool.CS_IDLE, true)]). done. Defined.
