(* ===== verification/CHeap.v ===== *)
(** * Counted loops and [malloc]ed blocks

    What the image code uses of C: [for (int i = 0; i < n; i++)] over a state,
    a heap of allocated blocks whose bytes are indeterminate until written
    ([None]), and accesses through pointers, undefined outside of a block. *)

From S2P Require Import Prelude.
From stdpp Require Import gmap.
#[local] Open Scope Z_scope.

(** ** Definitions *)

Fixpoint for_from {S} (n : nat) (i : Z) (f : Z -> S -> res S) (s : S) : res S :=
  match n with
  | O => Ret s
  | Datatypes.S n => s ← f i s; for_from n (i + 1) f s
  end.

(** [for (int i = 0; i < n; i++) s = f(i, s)]. *)
Definition for_loop {S} (n : Z) (f : Z -> S -> res S) (s : S) : res S := for_from (Z.to_nat n) 0 f s.

(** A result of arithmetic on [int]: out of its range, undefined. *)
Definition sint (z : Z) : res Z := if bool_decide (in_s 32 z) then Ret z else Throw UB.

(** A block of memory; [None] is a byte that was never written. *)
Abbreviation blk := (list (option Z)).

Definition in_block {A} (l : list A) (i : Z) : bool := (0 <=? i) && (i <? zlen l).

(** Read the byte at offset [i]. *)
Definition get {A} (l : list A) (i : Z) : res A :=
  if in_block l i then match l !! Z.to_nat i with Some x => Ret x | None => Throw UB end
  else Throw UB.

(** Write the byte at offset [i]. *)
Definition put {A} (l : list A) (i : Z) (x : A) : res (list A) :=
  if in_block l i then Ret (<[Z.to_nat i := x]> l) else Throw UB.

Record heap : Type := Heap { h_next : Z; h_blocks : gmap Z blk }.

Definition empty_heap : heap := Heap 1 ∅.

(** [malloc(n)]; [can] says whether the allocator has that much. *)
Definition malloc (can : Z -> bool) (n : Z) (h : heap) : heap * option Z :=
  if can n then (Heap (h_next h + 1) (<[h_next h := replicate (Z.to_nat n) None]> (h_blocks h)), Some (h_next h))
  else (h, None).

(** [HFREE]: free a pointer that is not null. *)
Definition hfree (p : option Z) (h : heap) : res heap :=
  match p with
  | None => Ret h
  | Some a => if bool_decide (is_Some (h_blocks h !! a)) then Ret (Heap (h_next h) (delete a (h_blocks h)))
              else Throw UB
  end.

(** The block a pointer designates: undefined for a null or dangling one. *)
Definition deref (p : option Z) (h : heap) : res blk :=
  match p with
  | None => Throw UB
  | Some a => match h_blocks h !! a with Some b => Ret b | None => Throw UB end
  end.

Definition store (p : option Z) (b : blk) (h : heap) : heap :=
  match p with
  | None => h
  | Some a => Heap (h_next h) (<[a := b]> (h_blocks h))
  end.

(** Addresses from [h_next] on are free. *)
Definition heap_ok (h : heap) : Prop := forall a, h_next h <= a -> h_blocks h !! a = None.

(** [p] written over the beginning of [b0]. *)
Definition over {A} (b0 p : list A) : list A := p ++ drop (length p) b0.

(** A memory that may be read back from a block: indeterminate bytes are any. *)
Definition reads_as (b : blk) (l : bytes) : Prop := Forall2 (fun o z => o = None \/ o = Some z) b l.

(** ** Lemmas *)

Lemma for_loop_inv {S} (P : Z -> S -> Prop) n (f : Z -> S -> res S) s :
  0 <= n -> P 0 s ->
  (forall i s, 0 <= i < n -> P i s -> exists s', f i s = Ret s' /\ P (i + 1) s') ->
  exists s', for_loop n f s = Ret s' /\ P n s'.
Proof.
  intros Hn H0 Hstep. unfold for_loop.
  assert (forall k i s, P i s -> 0 <= i -> i + Z.of_nat k = n ->
            exists s', for_from k i f s = Ret s' /\ P n s') as L.
  { induction k as [|k IH]; intros i s1 Hi Hi0 Hk.
    - exists s1. split; [done|]. by replace n with i by lia.
    - destruct (Hstep i s1) as (s2 & E & H2); [lia|done|].
      destruct (IH (i + 1) s2) as (s3 & E3 & H3); [done|lia|lia|].
      exists s3. split; [|done]. cbn. by rewrite E. }
  apply L; [done|lia|lia].
Qed.

(** A loop whose states are known is followed exactly. *)
Lemma for_loop_trace {S} (g : Z -> S) n (f : Z -> S -> res S) s :
  0 <= n -> s = g 0 -> (forall i, 0 <= i < n -> f i (g i) = Ret (g (i + 1))) -> for_loop n f s = Ret (g n).
Proof.
  intros Hn -> Hstep.
  destruct (for_loop_inv (fun i s => s = g i) n f (g 0)) as (s' & E & ->); try done.
  intros i s Hi ->. eauto.
Qed.

Lemma sint_ok z : - 2 ^ 31 <= z < 2 ^ 31 -> sint z = Ret z.
Proof. intros H. unfold sint. rewrite bool_decide_true; [done|]. unfold in_s. change (32 - 1) with 31. lia. Qed.

Lemma in_block_true {A} (l : list A) i : 0 <= i < zlen l -> in_block l i = true.
Proof. intros H. unfold in_block. by ztest. Qed.

Lemma get_ok {A} (l : list A) i x : l !! Z.to_nat i = Some x -> 0 <= i -> get l i = Ret x.
Proof.
  intros Hl Hi. pose proof (lookup_lt_Some _ _ _ Hl). unfold get.
  rewrite in_block_true by (unfold zlen; lia). by rewrite Hl.
Qed.

Lemma get_in {A} `{Inhabited A} (l : list A) i : 0 <= i < zlen l -> get l i = Ret (l !!! Z.to_nat i).
Proof.
  intros Hi. apply get_ok; [|lia]. apply list_lookup_lookup_total_lt. unfold zlen in Hi. lia.
Qed.

Lemma put_ok {A} (l : list A) i x : 0 <= i < zlen l -> put l i x = Ret (<[Z.to_nat i := x]> l).
Proof. intros H. unfold put. by rewrite in_block_true. Qed.

Lemma length_over {A} (b0 p : list A) : (length p <= length b0)%nat -> length (over b0 p) = length b0.
Proof. intros H. unfold over. rewrite length_app, length_drop. lia. Qed.

Lemma zlen_over {A} (b0 p : list A) : zlen p <= zlen b0 -> zlen (over b0 p) = zlen b0.
Proof. unfold zlen. intros H. rewrite length_over; lia. Qed.

(** Writing right behind what is written. *)
Lemma put_over {A} (b0 p : list A) x :
  zlen p < zlen b0 -> put (over b0 p) (zlen p) x = Ret (over b0 (p ++ [x])).
Proof.
  intros H. pose proof (zlen_nonneg p). rewrite put_ok by (rewrite zlen_over; lia). f_equal.
  unfold over, zlen in *. rewrite Nat2Z.id, insert_app_r_alt, Nat.sub_diag by lia.
  destruct (drop (length p) b0) as [|y l] eqn:E.
  { apply (f_equal length) in E. rewrite length_drop in E. cbn in E. lia. }
  rewrite <- app_assoc. f_equal. cbn. f_equal.
  rewrite length_app. cbn. rewrite Nat.add_1_r, <- Nat.add_1_r, <- drop_drop, E. done.
Qed.

Lemma over_over {A} (b0 p q : list A) : length p = length q -> over (over b0 p) q = over b0 q.
Proof.
  intros H. unfold over. f_equal. rewrite <- H. by rewrite drop_app_length.
Qed.

Lemma over_nil {A} (b0 : list A) : over b0 [] = b0.
Proof. done. Qed.

Lemma over_full {A} (b0 p : list A) : length p = length b0 -> over b0 p = p.
Proof. intros H. unfold over. rewrite drop_ge by lia. apply app_nil_r. Qed.

(** Skipping over what is indeterminate. *)
Lemma over_skip (n k : nat) (p : blk) :
  (length p + k <= n)%nat -> over (replicate n None) p = over (replicate n None) (p ++ replicate k None).
Proof.
  intros H. unfold over. rewrite <- app_assoc. f_equal.
  rewrite !drop_replicate, length_app, length_replicate, <- replicate_add. f_equal. lia.
Qed.

Lemma malloc_ok can n h :
  can n = true ->
  malloc can n h = (Heap (h_next h + 1) (<[h_next h := replicate (Z.to_nat n) None]> (h_blocks h)), Some (h_next h)).
Proof. intros H. unfold malloc. by rewrite H. Qed.

Lemma deref_store a b h : deref (Some a) (store (Some a) b h) = Ret b.
Proof. cbn. by rewrite lookup_insert_eq. Qed.

Lemma reads_as_length b l : reads_as b l -> length b = length l.
Proof. apply Forall2_length. Qed.

Lemma reads_as_Some l l' : reads_as (map Some l) l' -> l' = l.
Proof.
  intros H. apply Forall2_fmap_l in H. induction H as [|x y l k [?|[= ->]] H IH]; [done|done|by f_equal].
Qed.

Lemma seqZ_snoc n : 0 <= n -> seqZ 0 (n + 1) = seqZ 0 n ++ [n].
Proof.
  intros H. replace n with (Z.of_nat (Z.to_nat n)) by lia.
  replace (Z.of_nat (Z.to_nat n) + 1) with (Z.of_nat (S (Z.to_nat n))) by lia.
  by rewrite seqZ_S, Z.add_0_l.
Qed.

(** The cells of a grid of [n] rows and [m] columns, numbered row by row. *)
Lemma cell_lt a b n m : 0 <= a < n -> 0 <= b < m -> 0 <= a * m + b < n * m.
Proof. nia. Qed.

(** Pieces [f 0], [f 1], ... one after the other. *)
Lemma concat_seqZ_snoc {A} (f : Z -> list A) n :
  0 <= n -> concat (map f (seqZ 0 (n + 1))) = concat (map f (seqZ 0 n)) ++ f n.
Proof. intros H. rewrite seqZ_snoc, map_app, concat_app by done. cbn. by rewrite app_nil_r. Qed.

Lemma zlen_concat_seqZ {A} (f : Z -> list A) c n :
  0 <= n -> (forall i, 0 <= i < n -> zlen (f i) = c) -> zlen (concat (map f (seqZ 0 n))) = n * c.
Proof.
  intros H. pattern n. apply natlike_ind; [done| |done]. intros x Hx IH Hf.
  change (Z.succ x) with (x + 1) in *. rewrite concat_seqZ_snoc, zlen_app, IH, Hf by (intros; try apply Hf; lia). lia.
Qed.

Lemma zlen_map {A B} (f : A -> B) l : zlen (map f l) = zlen l.
Proof. unfold zlen. by rewrite length_map. Qed.

Lemma zlen_concat_map {A B} (f : B -> list A) c l : (forall x, zlen (f x) = c) -> zlen (concat (map f l)) = zlen l * c.
Proof.
  intros H. induction l as [|x l IH]; [done|]. cbn [map concat]. rewrite zlen_app, zlen_cons, H, IH. lia.
Qed.
