(* ===== verification/Image.v ===== *)
(** * RGB images: [src/image/hrgb.h], [src/image/hrgb.cpp]

    The three conversions from YUV write through raw pointers into a block of
    [malloc]; the source buffer is the caller's.  An index computed in [int] is
    checked ([sint]), as is every access to a buffer. *)

From S2P Require Import Prelude CHeap.
From stdpp Require Import gmap.
#[local] Open Scope Z_scope.

Module HRgb.

(** ** Definitions *)

Record t : Type := Mk { m_nWidth : Z; m_nHeight : Z; m_pData : option Z }.

Definition Width (r : t) : Z := m_nWidth r.
Definition Height (r : t) : Z := m_nHeight r.
Definition Size (r : t) : Z := u32 (u32 (Width r * Height r) * 3).
Definition GetDataPtr (r : t) : option Z := m_pData r.
Definition IsInvalid (r : t) : bool :=
  (Width r >? 0) && (Height r >? 0) && bool_decide (GetDataPtr r <> None).

Definition HRgb_default : t := Mk 0 0 None.

(** [HRgb(nWidth, nHeight, ptr)]; the constructor throws when [malloc] fails. *)
Definition make (can : Z -> bool) (nWidth nHeight : Z) (ptr : option Z) (h : heap) : res (heap * t) :=
  match ptr with
  | Some _ => Ret (h, Mk nWidth nHeight ptr)
  | None =>
    let (h, p) := malloc can (Size (Mk nWidth nHeight None)) h in
    _ ← assert_throw (bool_decide (p <> None)) MEMORY_OUT;
    Ret (h, Mk nWidth nHeight p)
  end.

(** Nothing is freed. *)
Definition Release (r : t) : t := Mk 0 0 None.

(** The move constructor: the new object and the old one. *)
Definition move (oth : t) : t * t := (Mk (m_nWidth oth) (m_nHeight oth) (m_pData oth), Release oth).

(** Move assignment between two objects. *)
Definition assign (self oth : t) : t * t := (Mk (m_nWidth oth) (m_nHeight oth) (m_pData oth), Release oth).

(** [(x > 255) ? 255 : (x < 0) ? 0 : x]. *)
Definition clamp (x : Z) : Z := if x >? 255 then 255 else if x <? 0 then 0 else x.

(** Three bytes written at [pos], [pos + 1], [pos + 2]. *)
Definition put3 (b : blk) (pos x y z : Z) : res blk :=
  b ← put b pos (Some x); b ← put b (pos + 1) (Some y); put b (pos + 2) (Some z).

(** The body of the inner loop of [FromNV21]; [y_index] starts at 0 in each row. *)
Definition nv21_pixel (data : bytes) (nv_off iWidth i j : Z) (s : Z * blk) : res (Z * blk) :=
  let '(y_index, b) := s in
  nv_index ← sint (i / 2 * iWidth + j - j mod 2);
  y ← get data y_index;
  uidx ← sint (nv_off + nv_index);
  u ← get data uidx;
  vidx ← sint (nv_off + nv_index + 1);
  v ← get data vidx;
  let r := clamp (y + Z.shiftr (351 * (v - 128)) 8) in
  let g := clamp (y - Z.shiftr (179 * (v - 128) + 86 * (u - 128)) 8) in
  let bl := clamp (y + Z.shiftr (443 * (u - 128)) 8) in
  pos ← sint (y_index * 3 + 2);
  b ← put3 b (pos - 2) bl g r;
  Ret (y_index + 1, b).

Definition nv21_row (data : bytes) (nv_off iWidth i : Z) (b : blk) : res blk :=
  '(_, b) ← for_loop iWidth (nv21_pixel data nv_off iWidth i) (0, b);
  Ret b.

(** A conversion makes the image, fills the block it points at with [fill] and returns it. *)
Definition convert (can : Z -> bool) (nWidth nHeight : Z) (h : heap) (fill : blk -> res blk)
  : res (heap * t) :=
  '(h, r) ← make can nWidth nHeight None h;
  b ← deref (m_pData r) h;
  b ← fill b;
  Ret (store (m_pData r) b h, r).

Definition FromNV21 (can : Z -> bool) (data : bytes) (nWidth nHeight : Z) (h : heap) : res (heap * t) :=
  convert can nWidth nHeight h (fun b =>
    let nv_off := s32 (u32 (nWidth * nHeight)) in
    let iWidth := s32 nWidth in
    let iHeight := s32 nHeight in
    for_loop iHeight (nv21_row data nv_off iWidth) b).

(** The tables of the fixed-point products. *)
Definition Table_fv1 : list Z :=
  [-180; -179; -177; -176; -174; -173; -172; -170; -169; -167; -166; -165; -163; -162; -160; -159; -158; -156;
   -155; -153; -152; -151; -149; -148; -146; -145; -144; -142; -141; -139; -138; -137; -135; -134; -132; -131;
   -130; -128; -127; -125; -124; -123; -121; -120; -118; -117; -115; -114; -113; -111; -110; -108; -107; -106;
   -104; -103; -101; -100; -99; -97; -96; -94; -93; -92; -90; -89; -87; -86; -85; -83; -82; -80; -79; -78; -76;
   -75; -73; -72; -71; -69; -68; -66; -65; -64; -62; -61; -59; -58; -57; -55; -54; -52; -51; -50; -48; -47;
   -45; -44; -43; -41; -40; -38; -37; -36; -34; -33; -31; -30; -29; -27; -26; -24; -23; -22; -20; -19; -17;
   -16; -15; -13; -12; -10; -9; -8; -6; -5; -3; -2; 0; 1; 2; 4; 5; 7; 8; 9; 11; 12; 14; 15; 16; 18; 19; 21; 22;
   23; 25; 26; 28; 29; 30; 32; 33; 35; 36; 37; 39; 40; 42; 43; 44; 46; 47; 49; 50; 51; 53; 54; 56; 57; 58; 60;
   61; 63; 64; 65; 67; 68; 70; 71; 72; 74; 75; 77; 78; 79; 81; 82; 84; 85; 86; 88; 89; 91; 92; 93; 95; 96; 98;
   99; 100; 102; 103; 105; 106; 107; 109; 110; 112; 113; 114; 116; 117; 119; 120; 122; 123; 124; 126; 127; 129;
   130; 131; 133; 134; 136; 137; 138; 140; 141; 143; 144; 145; 147; 148; 150; 151; 152; 154; 155; 157; 158;
   159; 161; 162; 164; 165; 166; 168; 169; 171; 172; 173; 175; 176; 178].

Definition Table_fv2 : list Z :=
  [-92; -91; -91; -90; -89; -88; -88; -87; -86; -86; -85; -84; -83; -83; -82; -81; -81; -80; -79; -78; -78;
   -77; -76; -76; -75; -74; -73; -73; -72; -71; -71; -70; -69; -68; -68; -67; -66; -66; -65; -64; -63; -63;
   -62; -61; -61; -60; -59; -58; -58; -57; -56; -56; -55; -54; -53; -53; -52; -51; -51; -50; -49; -48; -48;
   -47; -46; -46; -45; -44; -43; -43; -42; -41; -41; -40; -39; -38; -38; -37; -36; -36; -35; -34; -33; -33;
   -32; -31; -31; -30; -29; -28; -28; -27; -26; -26; -25; -24; -23; -23; -22; -21; -21; -20; -19; -18; -18;
   -17; -16; -16; -15; -14; -13; -13; -12; -11; -11; -10; -9; -8; -8; -7; -6; -6; -5; -4; -3; -3; -2; -1; 0; 0;
   1; 2; 2; 3; 4; 5; 5; 6; 7; 7; 8; 9; 10; 10; 11; 12; 12; 13; 14; 15; 15; 16; 17; 17; 18; 19; 20; 20; 21; 22;
   22; 23; 24; 25; 25; 26; 27; 27; 28; 29; 30; 30; 31; 32; 32; 33; 34; 35; 35; 36; 37; 37; 38; 39; 40; 40; 41;
   42; 42; 43; 44; 45; 45; 46; 47; 47; 48; 49; 50; 50; 51; 52; 52; 53; 54; 55; 55; 56; 57; 57; 58; 59; 60; 60;
   61; 62; 62; 63; 64; 65; 65; 66; 67; 67; 68; 69; 70; 70; 71; 72; 72; 73; 74; 75; 75; 76; 77; 77; 78; 79; 80;
   80; 81; 82; 82; 83; 84; 85; 85; 86; 87; 87; 88; 89; 90; 90].

Definition Table_fu1 : list Z :=
  [-44; -44; -44; -43; -43; -43; -42; -42; -42; -41; -41; -41; -40; -40; -40; -39; -39; -39; -38; -38; -38;
   -37; -37; -37; -36; -36; -36; -35; -35; -35; -34; -34; -33; -33; -33; -32; -32; -32; -31; -31; -31; -30;
   -30; -30; -29; -29; -29; -28; -28; -28; -27; -27; -27; -26; -26; -26; -25; -25; -25; -24; -24; -24; -23;
   -23; -22; -22; -22; -21; -21; -21; -20; -20; -20; -19; -19; -19; -18; -18; -18; -17; -17; -17; -16; -16;
   -16; -15; -15; -15; -14; -14; -14; -13; -13; -13; -12; -12; -11; -11; -11; -10; -10; -10; -9; -9; -9; -8;
   -8; -8; -7; -7; -7; -6; -6; -6; -5; -5; -5; -4; -4; -4; -3; -3; -3; -2; -2; -2; -1; -1; 0; 0; 0; 1; 1; 1; 2;
   2; 2; 3; 3; 3; 4; 4; 4; 5; 5; 5; 6; 6; 6; 7; 7; 7; 8; 8; 8; 9; 9; 9; 10; 10; 11; 11; 11; 12; 12; 12; 13; 13;
   13; 14; 14; 14; 15; 15; 15; 16; 16; 16; 17; 17; 17; 18; 18; 18; 19; 19; 19; 20; 20; 20; 21; 21; 22; 22; 22;
   23; 23; 23; 24; 24; 24; 25; 25; 25; 26; 26; 26; 27; 27; 27; 28; 28; 28; 29; 29; 29; 30; 30; 30; 31; 31; 31;
   32; 32; 33; 33; 33; 34; 34; 34; 35; 35; 35; 36; 36; 36; 37; 37; 37; 38; 38; 38; 39; 39; 39; 40; 40; 40; 41;
   41; 41; 42; 42; 42; 43; 43].

Definition Table_fu2 : list Z :=
  [-227; -226; -224; -222; -220; -219; -217; -215; -213; -212; -210; -208; -206; -204; -203; -201; -199; -197;
   -196; -194; -192; -190; -188; -187; -185; -183; -181; -180; -178; -176; -174; -173; -171; -169; -167; -165;
   -164; -162; -160; -158; -157; -155; -153; -151; -149; -148; -146; -144; -142; -141; -139; -137; -135; -134;
   -132; -130; -128; -126; -125; -123; -121; -119; -118; -116; -114; -112; -110; -109; -107; -105; -103; -102;
   -100; -98; -96; -94; -93; -91; -89; -87; -86; -84; -82; -80; -79; -77; -75; -73; -71; -70; -68; -66; -64;
   -63; -61; -59; -57; -55; -54; -52; -50; -48; -47; -45; -43; -41; -40; -38; -36; -34; -32; -31; -29; -27;
   -25; -24; -22; -20; -18; -16; -15; -13; -11; -9; -8; -6; -4; -2; 0; 1; 3; 5; 7; 8; 10; 12; 14; 15; 17; 19;
   21; 23; 24; 26; 28; 30; 31; 33; 35; 37; 39; 40; 42; 44; 46; 47; 49; 51; 53; 54; 56; 58; 60; 62; 63; 65; 67;
   69; 70; 72; 74; 76; 78; 79; 81; 83; 85; 86; 88; 90; 92; 93; 95; 97; 99; 101; 102; 104; 106; 108; 109; 111;
   113; 115; 117; 118; 120; 122; 124; 125; 127; 129; 131; 133; 134; 136; 138; 140; 141; 143; 145; 147; 148;
   150; 152; 154; 156; 157; 159; 161; 163; 164; 166; 168; 170; 172; 173; 175; 177; 179; 180; 182; 184; 186;
   187; 189; 191; 193; 195; 196; 198; 200; 202; 203; 205; 207; 209; 211; 212; 214; 216; 218; 219; 221; 223;
   225].

(** [if (bgr[k] >= 0 && bgr[k] <= 255) bgr[k] else (bgr[k] < 0) ? 0 : 255]. *)
Definition saturate (x : Z) : Z := if (x >=? 0) && (x <=? 255) then x else if x <? 0 then 0 else 255.

Definition yuv420_pixel (data : bytes) (len iWidth i j : Z) (b : blk) : res blk :=
  let vData := len in
  let uData := vData + Z.shiftr len 2 in
  yIdx ← sint (i * iWidth + j);
  vIdx ← sint (i / 2 * Z.quot iWidth 2 + j / 2);
  let uIdx := vIdx in
  v ← get data (vData + vIdx);
  u ← get data (uData + uIdx);
  rdif ← get Table_fv1 v;
  fu1 ← get Table_fu1 u;
  fv2 ← get Table_fv2 v;
  let invgdif := fu1 + fv2 in
  bdif ← get Table_fu2 u;
  y ← get data yIdx;
  let bgr := [y + bdif; y - invgdif; y + rdif] in
  for_loop 3 (fun k b =>
    idx ← sint ((i * iWidth + j) * 3 + k);
    c ← get bgr k;
    put b idx (Some (saturate c))) b.

Definition FromYuv420 (can : Z -> bool) (data : bytes) (nWidth nHeight : Z) (h : heap) : res (heap * t) :=
  convert can nWidth nHeight h (fun b =>
    let len := s32 (u32 (nWidth * nHeight)) in
    let iWidth := s32 nWidth in
    let iHeight := s32 nHeight in
    for_loop iHeight (fun i => for_loop iWidth (yuv420_pixel data len iWidth i)) b).

(** [yuvPixel] and [rgbPixel] advance through the buffers. *)
Definition yuv420sp_pixel (data : bytes) (uHeader half_width j i : Z) (s : Z * Z * blk) : res (Z * Z * blk) :=
  let '(yuvPixel, rgbPixel, b) := s in
  y ← get data yuvPixel;
  let yuvPixel := yuvPixel + 1 in
  off ← sint ((i / 2 + j / 2 * half_width) * 2 + 1);
  u ← get data (uHeader + (off - 1));
  v ← get data (uHeader + off);
  let r := clamp (y + Z.shiftr (360 * (v - 128)) 8) in
  b ← put b rgbPixel (Some r);
  let g := clamp (y - Z.shiftr (88 * (u - 128) + 184 * (v - 128)) 8) in
  b ← put b (rgbPixel + 1) (Some g);
  let bl := clamp (y + Z.shiftr (455 * (u - 128)) 8) in
  b ← put b (rgbPixel + 2) (Some bl);
  Ret (yuvPixel, rgbPixel + 3, b).

Definition FromYuv420sp (can : Z -> bool) (data : bytes) (nWidth nHeight : Z) (h : heap) : res (heap * t) :=
  convert can nWidth nHeight h (fun b =>
    let uHeader := u32 (nWidth * nHeight) in
    let iWidth := s32 nWidth in
    let iHeight := s32 nHeight in
    let half_width := Z.quot iWidth 2 in
    '(_, _, b) ← for_loop iHeight (fun j => for_loop iWidth (yuv420sp_pixel data uHeader half_width j)) (0, 0, b);
    Ret b).

(** ** The images the conversions mean

    Rows of pixels, each three bytes; the pixel of row [i] and column [j] is
    [px i j]. *)
Definition row (px : Z -> Z -> bytes) (w i : Z) : bytes := concat (map (px i) (seqZ 0 w)).
Definition image (px : Z -> Z -> bytes) (w h : Z) : bytes := concat (map (row px w) (seqZ 0 h)).

(** A fixed-point matrix with eight fractional bits, [rv], [gu], [gv] and [bu]. *)
Definition matrix_rgb (rv gu gv bu y u v : Z) : Z * Z * Z :=
  (clamp (y + Z.shiftr (rv * (v - 128)) 8),
   clamp (y - (Z.shiftr (gu * (u - 128)) 8 + Z.shiftr (gv * (v - 128)) 8)),
   clamp (y + Z.shiftr (bu * (u - 128)) 8)).

Definition sample (data : bytes) (i : Z) : Z := nth (Z.to_nat i) data 0.

(** Planar 4:2:0, the V plane before the U plane (YV12): blue, green, red. *)
Definition yv12_px (data : bytes) (w h i j : Z) : bytes :=
  let c := i / 2 * (w / 2) + j / 2 in
  let '(r, g, b) := matrix_rgb 359 88 183 454 (sample data (i * w + j))
    (sample data (w * h + w * h / 4 + c)) (sample data (w * h + c)) in
  [b; g; r].

(** Semi-planar 4:2:0, U and V interleaved (NV12): red, green, blue. *)
Definition nv12_px (data : bytes) (w h i j : Z) : bytes :=
  let c := w * h + (i / 2 * (w / 2) + j / 2) * 2 in
  let y := sample data (i * w + j) in
  let u := sample data c in
  let v := sample data (c + 1) in
  [clamp (y + Z.shiftr (360 * (v - 128)) 8);
   clamp (y - Z.shiftr (88 * (u - 128) + 184 * (v - 128)) 8);
   clamp (y + Z.shiftr (455 * (u - 128)) 8)].

(** What [FromNV21] computes: the luma of column [j] is read from the first row
    whatever the row is; blue, green, red. *)
Definition nv21_px (data : bytes) (w h i j : Z) : bytes :=
  let c := w * h + (i / 2 * w + j - j mod 2) in
  let y := sample data j in
  let u := sample data c in
  let v := sample data (c + 1) in
  [clamp (y + Z.shiftr (443 * (u - 128)) 8);
   clamp (y - Z.shiftr (179 * (v - 128) + 86 * (u - 128)) 8);
   clamp (y + Z.shiftr (351 * (v - 128)) 8)].

(** ** Lemmas *)

Lemma row_snoc px w i : 0 <= w -> row px (w + 1) i = row px w i ++ px i w.
Proof. apply concat_seqZ_snoc. Qed.

Lemma image_snoc px w h : 0 <= h -> image px w (h + 1) = image px w h ++ row px w h.
Proof. apply concat_seqZ_snoc. Qed.

Section raster.
Context (px : Z -> Z -> bytes) (px_len : forall i j, length (px i j) = 3%nat).

Lemma length_row w i : 0 <= w -> zlen (row px w i) = w * 3.
Proof. intros H. apply zlen_concat_seqZ; [done|]. intros j _. unfold zlen. by rewrite px_len. Qed.

Lemma length_image w h : 0 <= w -> 0 <= h -> zlen (image px w h) = w * h * 3.
Proof.
  intros Hw Hh. unfold image. rewrite (zlen_concat_seqZ _ (w * 3)); [lia|done|]. intros i _. by apply length_row.
Qed.

(** A pixel routine that appends the three bytes of its pixel, run over the
    whole raster, writes the image.  [st] is what else the loops carry. *)
Lemma raster_loop {S} (st : Z -> blk -> S) (step : Z -> Z -> S -> res S) (b0 : blk) w h :
  0 <= w -> 0 <= h ->
  (forall i j p, 0 <= i < h -> 0 <= j < w -> zlen p = (i * w + j) * 3 ->
     step i j (st (i * w + j) (over b0 p)) = Ret (st (i * w + j + 1) (over b0 (p ++ map Some (px i j))))) ->
  for_loop h (fun i => for_loop w (step i)) (st 0 b0) = Ret (st (h * w) (over b0 (map Some (image px w h)))).
Proof.
  intros Hw Hh Hstep.
  apply (for_loop_trace (fun i => st (i * w) (over b0 (map Some (image px w i))))); [done|done|].
  intros i Hi.
  rewrite (for_loop_trace (fun j => st (i * w + j) (over b0 (map Some (image px w i ++ row px j i))))); [| |f_equal|].
  - rewrite image_snoc by lia. by replace (i * w + w) with ((i + 1) * w) by lia.
  - done.
  - lia.
  - change (row px 0 i) with (@nil Z). by rewrite app_nil_r.
  - intros j Hj. rewrite Hstep; [|done|done|].
    + rewrite row_snoc, app_assoc by lia. rewrite (map_app _ (_ ++ _)). do 2 f_equal. lia.
    + unfold zlen. rewrite length_map. fold (zlen (image px w i ++ row px j i)).
      rewrite zlen_app, length_image, length_row by lia. lia.
Qed.
End raster.

Lemma put3_over (b0 p : blk) x y z :
  zlen p + 3 <= zlen b0 -> put3 (over b0 p) (zlen p) x y z = Ret (over b0 (p ++ map Some [x; y; z])).
Proof.
  intros H. unfold put3. rewrite put_over by lia. cbn [mbind res_bind].
  replace (zlen p + 1) with (zlen (p ++ [Some x])) by (rewrite zlen_app; done).
  rewrite put_over by (rewrite zlen_app; change (zlen [Some x]) with 1; lia). cbn [mbind res_bind].
  replace (zlen p + 2) with (zlen ((p ++ [Some x]) ++ [Some y])) by (rewrite !zlen_app; unfold zlen; cbn; lia).
  rewrite put_over by (rewrite !zlen_app; unfold zlen in *; cbn; lia). by rewrite <- !app_assoc.
Qed.

Lemma get_sample data i : 0 <= i < zlen data -> get data i = Ret (sample data i).
Proof.
  intros H. apply get_ok; [|lia]. unfold sample, zlen in *.
  rewrite nth_lookup. destruct (data !! Z.to_nat i) eqn:E; [done|]. apply lookup_ge_None_1 in E. lia.
Qed.

Lemma sample_byte data i : is_bytes data -> is_byte (sample data i).
Proof.
  intros H. unfold sample. rewrite nth_lookup. destruct (data !! Z.to_nat i) eqn:E; [|done].
  cbn. unfold is_bytes in H. rewrite Forall_lookup in H. eauto.
Qed.

Lemma convert_ok can w h hp fill b :
  0 < w -> 0 < h -> w * h * 3 < 2 ^ 31 -> can (w * h * 3) = true ->
  fill (replicate (Z.to_nat (w * h * 3)) None) = Ret b ->
  convert can w h hp fill
  = Ret (Heap (h_next hp + 1) (<[h_next hp := b]> (h_blocks hp)), Mk w h (Some (h_next hp))).
Proof.
  intros Hw Hh Hb Hc Hf. unfold convert, make, Size. cbn [Width Height m_nWidth m_nHeight].
  assert (0 < w * h) by nia. rewrite (u32_id (w * h)), u32_id by lia. rewrite malloc_ok by done. cbn [mbind res_bind assert_throw].
  cbn. rewrite lookup_insert_eq. cbn. rewrite Hf. cbn. by rewrite insert_insert_eq.
Qed.

(** Bounds of the sizes of an image of less than 2 GB. *)
Lemma size_ints w h : 0 < w -> 0 < h -> w * h * 3 < 2 ^ 31 ->
  s32 (u32 (w * h)) = w * h /\ u32 (w * h) = w * h /\ s32 w = w /\ s32 h = h.
Proof.
  intros Hw Hh Hb. assert (w <= w * h /\ h <= w * h) by nia.
  rewrite (u32_id (w * h)), (s32_id (w * h)), (s32_id w), (s32_id h) by lia. done.
Qed.

(** A property of all bytes, by evaluation. *)
Lemma all_bytes (P : Z -> bool) : forallb P (seqZ 0 256) = true -> forall v, is_byte v -> P v = true.
Proof.
  intros H v Hv. rewrite forallb_forall in H. apply H. apply list_elem_of_In, elem_of_seqZ.
  unfold is_byte in Hv. lia.
Qed.

(** A table holds the products [c * (v - 128)] with eight fractional bits, rounded down. *)
Definition table_of (c : Z) (tbl : list Z) : bool :=
  forallb (fun v => bool_decide (get tbl v = Ret (Z.shiftr (c * (v - 128)) 8))) (seqZ 0 256).

Lemma table_lookup c tbl v : table_of c tbl = true -> is_byte v -> get tbl v = Ret (Z.shiftr (c * (v - 128)) 8).
Proof. intros H Hv. exact (proj1 (bool_decide_eq_true _) (all_bytes _ H v Hv)). Qed.

Lemma tables : table_of 359 Table_fv1 = true /\ table_of 183 Table_fv2 = true /\
  table_of 88 Table_fu1 = true /\ table_of 454 Table_fu2 = true.
Proof. split_and!; vm_compute; reflexivity. Qed.

Lemma saturate_clamp x : saturate x = clamp x.
Proof.
  unfold saturate, clamp. rewrite Z.geb_leb, Z.gtb_ltb.
  destruct (Z.leb_spec 0 x), (Z.leb_spec x 255), (Z.ltb_spec 255 x), (Z.ltb_spec x 0); cbn; lia.
Qed.

(** The chroma sample of a pixel lies in its quarter plane. *)
Lemma chroma_cell w h i j : Z.Even w -> Z.Even h -> 0 <= i < h -> 0 <= j < w ->
  0 <= i / 2 * (w / 2) + j / 2 < w * h / 4.
Proof.
  intros [a ->] [b ->] Hi Hj.
  replace (2 * a * (2 * b)) with (b * a * 4) by lia. rewrite Z.div_mul by lia.
  replace (2 * a / 2) with a by (rewrite Z.mul_comm; by rewrite Z.div_mul).
  apply cell_lt; Z.div_mod_to_equations; lia.
Qed.

#[local] Opaque Table_fv1 Table_fv2 Table_fu1 Table_fu2.

Lemma for_loop_3 {S} (f : Z -> S -> res S) s : for_loop 3 f s = s ← f 0 s; s ← f 1 s; f 2 s.
Proof.
  unfold for_loop. change (Z.to_nat 3) with 3%nat. cbn [for_from].
  change (0 + 1 + 1) with 2. change (0 + 1) with 1. unfold mbind, res_bind.
  destruct (f 0 s) as [s1|]; [|done]. destruct (f 1 s1) as [s2|]; [|done]. by destruct (f 2 s2).
Qed.

Lemma get_0 {A} (a b c : A) : get [a; b; c] 0 = Ret a.
Proof. done. Qed.

Lemma get_1 {A} (a b c : A) : get [a; b; c] 1 = Ret b.
Proof. done. Qed.

Lemma get_2 {A} (a b c : A) : get [a; b; c] 2 = Ret c.
Proof. done. Qed.

Lemma quot_half w : 0 <= w -> Z.quot w 2 = w / 2.
Proof. intros H. by rewrite Z.quot_div_nonneg by lia. Qed.

Lemma yuv420_pixel_ok data w h i j (b0 p : blk) :
  Z.Even w -> Z.Even h -> 0 <= i < h -> 0 <= j < w -> w * h * 3 < 2 ^ 31 ->
  is_bytes data -> w * h + w * h / 4 + w * h / 4 <= zlen data -> zlen b0 = w * h * 3 ->
  zlen p = (i * w + j) * 3 ->
  yuv420_pixel data (w * h) w i j (over b0 p) = Ret (over b0 (p ++ map Some (yv12_px data w h i j))).
Proof.
  intros Ew Eh Hi Hj Hsz Hd Hlen Hb0 Hp.
  pose proof (chroma_cell w h i j Ew Eh Hi Hj) as Hc.
  pose proof (cell_lt i j h w Hi Hj) as Hcell.
  assert (w * h / 4 * 4 <= w * h) by (Z.div_mod_to_equations; lia).
  destruct tables as (T1 & T2 & T3 & T4).
  unfold yuv420_pixel. rewrite (quot_half w), Z.shiftr_div_pow2 by lia. change (2 ^ 2) with 4.
  rewrite (sint_ok (i * w + j)), sint_ok by lia. cbn [mbind res_bind].
  rewrite !get_sample by lia. cbn [mbind res_bind].
  rewrite (table_lookup _ _ _ T1), (table_lookup _ _ _ T3), (table_lookup _ _ _ T2), (table_lookup _ _ _ T4)
    by (by apply sample_byte). cbn [mbind res_bind].
  rewrite for_loop_3, !sint_ok by lia. cbn [mbind res_bind].
  rewrite get_0, get_1, get_2, Z.add_0_r. cbn [mbind res_bind].
  rewrite <- Hp, !saturate_clamp. unfold yv12_px, matrix_rgb.
  rewrite <- (put3_over b0 p) by lia. unfold put3, mbind, res_bind.
  destruct put; [|done]. destruct put; [|done]. by destruct put.
Qed.

Lemma yuv420sp_pixel_ok data w h i j (b0 p : blk) :
  Z.Even w -> Z.Even h -> 0 <= i < h -> 0 <= j < w -> w * h * 3 < 2 ^ 31 ->
  w * h + w * h / 4 * 2 <= zlen data -> zlen b0 = w * h * 3 ->
  zlen p = (i * w + j) * 3 ->
  yuv420sp_pixel data (w * h) (w / 2) i j (i * w + j, (i * w + j) * 3, over b0 p)
  = Ret (i * w + j + 1, (i * w + j + 1) * 3, over b0 (p ++ map Some (nv12_px data w h i j))).
Proof.
  intros Ew Eh Hi Hj Hsz Hlen Hb0 Hp.
  pose proof (chroma_cell w h i j Ew Eh Hi Hj) as Hc.
  pose proof (cell_lt i j h w Hi Hj) as Hcell.
  assert (w * h / 4 * 4 <= w * h) by (Z.div_mod_to_equations; lia).
  unfold yuv420sp_pixel. rewrite (Z.add_comm (j / 2)).
  rewrite get_sample by lia. cbn [mbind res_bind].
  rewrite sint_ok by lia. cbn [mbind res_bind].
  rewrite !get_sample by lia. cbn [mbind res_bind].
  unfold nv12_px. rewrite Z.add_simpl_r, Z.add_assoc. rewrite <- Hp.
  replace ((i * w + j + 1) * 3) with (zlen p + 3) by lia.
  match goal with |- _ = Ret (_, _, over _ (_ ++ map Some [?r; ?g; ?b])) =>
    pose proof (put3_over b0 p r g b ltac:(lia)) as E end.
  revert E. unfold put3, mbind, res_bind.
  destruct put; [|done]. destruct put; [|done]. destruct put; [|done]. by intros [= ->].
Qed.

(** The pair of chroma samples of a pixel of [FromNV21]. *)
Lemma nv21_cell w h i j : Z.Even w -> Z.Even h -> 0 <= i < h -> 0 <= j < w ->
  0 <= i / 2 * w + j - j mod 2 /\ i / 2 * w + j - j mod 2 + 1 < w * h / 2 <= w * h /\ j < w * h.
Proof.
  intros [x ->] [y ->] Hi Hj.
  replace (2 * x * (2 * y)) with (y * (2 * x) * 2) by lia. rewrite Z.div_mul by lia.
  assert (0 <= i / 2 < y /\ 0 <= j - j mod 2 + 1 < 2 * x /\ 0 <= j - j mod 2) as (H1 & H2 & H3)
    by (Z.div_mod_to_equations; lia).
  pose proof (cell_lt _ _ y (2 * x) H1 H2). nia.
Qed.

Lemma nv21_row_ok data w h i (b : blk) :
  Z.Even w -> Z.Even h -> 0 <= i < h -> 0 <= w -> w * h * 3 < 2 ^ 31 ->
  w * h + w * h / 2 <= zlen data -> zlen b = w * h * 3 ->
  nv21_row data (w * h) w i b = Ret (over b (map Some (row (nv21_px data w h) w i))).
Proof.
  intros Ew Eh Hi Hw Hsz Hlen Hb. unfold nv21_row.
  rewrite (for_loop_trace (fun j => (j, over b (map Some (row (nv21_px data w h) j i))))); [done|done|done|].
  intros j Hj. pose proof (nv21_cell w h i j Ew Eh Hi Hj) as (Hc & Hc1 & Hc2).
  unfold nv21_pixel. repeat (rewrite ?sint_ok, ?get_sample by lia; cbn [mbind res_bind]).
  rewrite row_snoc, map_app by lia. rewrite Z.add_simpl_r.
  assert (zlen (map Some (row (nv21_px data w h) j i)) = j * 3) as Hl.
  { unfold zlen. rewrite length_map. apply (length_row (nv21_px data w h)); [done|lia]. }
  rewrite <- Hl at 1. rewrite put3_over by lia. cbn [mbind res_bind].
  do 2 f_equal.
Qed.

(** The whole block of the result of a conversion of an image that fits. *)
Lemma over_image px w h : (forall i j, length (px i j) = 3%nat) -> 0 <= w -> 0 <= h ->
  over (replicate (Z.to_nat (w * h * 3)) None) (map Some (image px w h)) = map Some (image px w h).
Proof.
  intros Hpx Hw Hh. apply over_full. pose proof (length_image px Hpx w h Hw Hh) as E. unfold zlen in E.
  rewrite length_map, length_replicate. lia.
Qed.

(** What a conversion that succeeds leaves: a new block with the image's bytes. *)
Definition converted (w h : Z) (b : blk) (hp : heap) : heap * t :=
  (Heap (h_next hp + 1) (<[h_next hp := b]> (h_blocks hp)), Mk w h (Some (h_next hp))).

(** C27: [FromYuv420] is the fixed-point colour matrix: for an image of even width
    and height and a source with its three planes, the four tables and the
    saturation written out give at every pixel the clamped values of
    [y + 359 (v - 128) / 256], [y - 88 (u - 128) / 256 - 183 (v - 128) / 256] and
    [y + 454 (u - 128) / 256], the divisions rounded down, in the order blue,
    green, red; the V plane is read before the U plane; nothing outside of the
    buffers is touched and every byte of the new block is written. *)
Theorem FromYuv420_fixed_point can data w h hp :
  0 < w -> 0 < h -> Z.Even w -> Z.Even h -> w * h * 3 < 2 ^ 31 -> is_bytes data ->
  w * h + w * h / 4 + w * h / 4 <= zlen data -> can (w * h * 3) = true ->
  FromYuv420 can data w h hp = Ret (converted w h (map Some (image (yv12_px data w h) w h)) hp).
Proof.
  intros Hw Hh Ew Eh Hsz Hd Hlen Hc. pose proof (size_ints w h Hw Hh Hsz) as (E1 & _ & E2 & E3).
  apply convert_ok; try done. rewrite E1, E2, E3.
  rewrite <- (over_image (yv12_px data w h)) by (done || lia).
  apply (raster_loop (yv12_px data w h) (fun _ _ => eq_refl) (fun _ b => b)); [lia|lia|].
  intros i j p Hi Hj Hp. apply yuv420_pixel_ok; try done. rewrite zlen_fresh; lia.
Qed.

Lemma FromYuv420_fixed_point_witness :
  FromYuv420 (fun _ => true) [10; 200; 30; 255; 90; 160] 2 2 empty_heap
  = Ret (converted 2 2 (map Some (image (yv12_px [10; 200; 30; 255; 90; 160] 2 2) 2 2)) empty_heap).
Proof.
  apply FromYuv420_fixed_point; try (vm_compute; reflexivity).
  - by exists 1.
  - by exists 1.
  - by apply (bool_decide_eq_true_1 (is_bytes _)); vm_compute.
  - by vm_compute.
Defined.

(** [FromYuv420sp] walks two pointers through its buffers and gives, for an
    image of even width and height, the image whose pixel at row [j] and column
    [i] is computed from its own luma sample and from the interleaved chroma
    pair of its block of four pixels, in the order red, green, blue. *)
Theorem FromYuv420sp_image can data w h hp :
  0 < w -> 0 < h -> Z.Even w -> Z.Even h -> w * h * 3 < 2 ^ 31 ->
  w * h + w * h / 4 * 2 <= zlen data -> can (w * h * 3) = true ->
  FromYuv420sp can data w h hp = Ret (converted w h (map Some (image (nv12_px data w h) w h)) hp).
Proof.
  intros Hw Hh Ew Eh Hsz Hlen Hc. pose proof (size_ints w h Hw Hh Hsz) as (_ & E1 & E2 & E3).
  apply convert_ok; try done. cbv zeta. rewrite E1, E2, E3, quot_half by lia.
  rewrite <- (over_image (nv12_px data w h)) at 1 by (done || lia).
  eapply bind_Ret;
    [apply (raster_loop (nv12_px data w h) (fun _ _ => eq_refl) (fun n b => (n, n * 3, b))); [lia|lia|]|done].
  intros i j p Hi Hj Hp. apply yuv420sp_pixel_ok; try done. rewrite zlen_fresh; lia.
Qed.

Lemma FromYuv420sp_image_witness :
  FromYuv420sp (fun _ => true) [10; 200; 30; 255; 90; 160] 2 2 empty_heap
  = Ret (converted 2 2 (map Some (image (nv12_px [10; 200; 30; 255; 90; 160] 2 2) 2 2)) empty_heap).
Proof.
  apply FromYuv420sp_image; try (vm_compute; reflexivity).
  - by exists 1.
  - by exists 1.
  - by vm_compute.
Defined.

(** [FromNV21] restarts its output and luma index in every row: of an image of
    [h] rows only the first row of the result is written, with the first row's
    luma and the last row's chroma, and the other rows stay indeterminate. *)
Theorem FromNV21_first_row can data w h hp :
  0 < w -> 0 < h -> Z.Even w -> Z.Even h -> w * h * 3 < 2 ^ 31 ->
  w * h + w * h / 2 <= zlen data -> can (w * h * 3) = true ->
  FromNV21 can data w h hp
  = Ret (converted w h (map Some (row (nv21_px data w h) w (h - 1)) ++ replicate (Z.to_nat (w * (h - 1) * 3)) None) hp).
Proof.
  intros Hw Hh Ew Eh Hsz Hlen Hc. pose proof (size_ints w h Hw Hh Hsz) as (E1 & _ & E2 & E3).
  apply convert_ok; try done. rewrite E1, E2, E3. set (b0 := replicate (Z.to_nat (w * h * 3)) None).
  assert (zlen b0 = w * h * 3) as Hb0 by (apply zlen_fresh; lia).
  set (px := nv21_px data w h). assert (forall i, zlen (map Some (row px w i)) = w * 3) as Hrow.
  { intros i. unfold zlen. rewrite length_map. apply (length_row px); [done|lia]. }
  set (g := fun i => if i =? 0 then b0 else over b0 (map Some (row px w (i - 1)))).
  assert (forall i, 0 <= i -> zlen (g i) = w * h * 3) as Hg.
  { intros i Hi. unfold g. destruct (i =? 0); [done|]. rewrite zlen_over; [done|]. rewrite Hrow, Hb0. nia. }
  rewrite (for_loop_trace g); [|lia|done|].
  - unfold g. ztest. f_equal. unfold over. f_equal. subst b0. rewrite drop_replicate. f_equal.
    specialize (Hrow (h - 1)). unfold zlen in Hrow. nia.
  - intros i Hi. rewrite (nv21_row_ok data w h) by (done || lia || apply Hg; lia).
    unfold g. replace (i + 1 =? 0) with false by lia. rewrite Z.add_simpl_r.
    destruct (Z.eqb_spec i 0); [done|]. f_equal. apply over_over.
    pose proof (Hrow i) as R1. pose proof (Hrow (i - 1)) as R2. unfold zlen in R1, R2. lia.
Qed.

Lemma FromNV21_first_row_witness :
  FromNV21 (fun _ => true) [10; 200; 30; 255; 90; 160] 2 2 empty_heap
  = Ret (converted 2 2 (map Some (row (nv21_px [10; 200; 30; 255; 90; 160] 2 2) 2 1) ++ replicate 6 None) empty_heap).
Proof.
  apply (FromNV21_first_row (fun _ => true) [10; 200; 30; 255; 90; 160] 2 2 empty_heap); try (vm_compute; reflexivity).
  - by exists 1.
  - by exists 1.
  - by vm_compute.
Defined.

(** The two planar conversions order the bytes of a pixel differently: a pure
    blue source pixel is blue first in one and blue last in the other. *)
Example channel_orders :
  yv12_px [29; 29; 29; 29; 107; 255] 2 2 0 0 = [254; 2; 0] /\ nv12_px [29; 29; 29; 29; 255; 107] 2 2 0 0 = [0; 1; 254].
Proof. split; vm_compute; reflexivity. Qed.

(** Replacing or destroying an image frees nothing. *)
Example assignment_leaks a b h p q :
  assign (Mk a b (Some p)) (Mk a h (Some q)) = (Mk a h (Some q), HRgb_default).
Proof. done. Qed.

End HRgb.
