(* ===== verification/Bmp.v ===== *)
(** * Bitmaps: [src/image/hbmp.h], [src/image/hbmp.cpp]

    The two packed headers as records with their memory image, the pixel block
    on the heap of [CHeap], the file as the answers of the system calls. *)

From S2P Require Import Prelude Serialize SerializeProofs CHeap Image.
From stdpp Require Import gmap.
#[local] Open Scope Z_scope.

Module HBmp.

(** ** Definitions *)

Record BMPFILEHEADER : Type := FileHeader {
  bfType : Z; bfSize : Z; bfReserved1 : Z; bfReserved2 : Z; bfOffBits : Z }.

Record BMPINFOHEADER : Type := InfoHeader {
  biSize : Z; biWidth : Z; biHeight : Z; biPlanes : Z; biBitCount : Z; biCompression : Z;
  biSizeImage : Z; biXPelsPerMeter : Z; biYPelsPerMeter : Z; biClrUsed : Z; biClrImportant : Z }.

(** [#pragma pack(1)]: the fields one after the other. *)
Definition file_types : list cint := [HUSN; HUN; HUSN; HUSN; HUN].
Definition info_types : list cint := [HUN; HN; HN; HUSN; HUSN; HUN; HUN; HN; HN; HUN; HUN].

Definition struct_size (ts : list cint) : Z := foldr (fun t n => Z.of_nat (sizeof t) + n) 0 ts.

Fixpoint struct_bytes (ts : list cint) (vs : list Z) : bytes :=
  match ts, vs with
  | t :: ts, v :: vs => to_bytes t v ++ struct_bytes ts vs
  | _, _ => []
  end.

Fixpoint struct_fields (ts : list cint) (l : bytes) : list Z :=
  match ts with
  | [] => []
  | t :: ts => of_bytes t (take (sizeof t) l) :: struct_fields ts (drop (sizeof t) l)
  end.

Definition file_fields (f : BMPFILEHEADER) : list Z :=
  [bfType f; bfSize f; bfReserved1 f; bfReserved2 f; bfOffBits f].
Definition info_fields (i : BMPINFOHEADER) : list Z :=
  [biSize i; biWidth i; biHeight i; biPlanes i; biBitCount i; biCompression i; biSizeImage i;
   biXPelsPerMeter i; biYPelsPerMeter i; biClrUsed i; biClrImportant i].

Definition file_of (vs : list Z) : BMPFILEHEADER :=
  match vs with [a; b; c; d; e] => FileHeader a b c d e | _ => FileHeader 0 0 0 0 0 end.
Definition info_of (vs : list Z) : BMPINFOHEADER :=
  match vs with
  | [a; b; c; d; e; f; g; h; i; j; k] => InfoHeader a b c d e f g h i j k
  | _ => InfoHeader 0 0 0 0 0 0 0 0 0 0 0
  end.

Definition file_bytes (f : BMPFILEHEADER) : bytes := struct_bytes file_types (file_fields f).
Definition info_bytes (i : BMPINFOHEADER) : bytes := struct_bytes info_types (info_fields i).

(** The header after the bytes [l] were stored at its address. *)
Definition file_load (f : BMPFILEHEADER) (l : bytes) : BMPFILEHEADER :=
  file_of (struct_fields file_types (over (file_bytes f) l)).
Definition info_load (i : BMPINFOHEADER) (l : bytes) : BMPINFOHEADER :=
  info_of (struct_fields info_types (over (info_bytes i) l)).

Definition zero_file : BMPFILEHEADER := FileHeader 0 0 0 0 0.
Definition zero_info : BMPINFOHEADER := InfoHeader 0 0 0 0 0 0 0 0 0 0 0.

Record t : Type := Mk { m_file_header : BMPFILEHEADER; m_info_header : BMPINFOHEADER; m_pData : option Z }.

Definition COLOR_BIT_COUNT : Z := 24.
Definition sizeof_file : Z := struct_size file_types.
Definition sizeof_info : Z := struct_size info_types.

Definition HBmp_default : t := Mk zero_file zero_info None.

Definition Width (b : t) : Z := u32 (biWidth (m_info_header b)).
Definition Height (b : t) : Z := u32 (biHeight (m_info_header b)).
Definition BitCount (b : t) : Z := biBitCount (m_info_header b).
Definition ImageSize (b : t) : Z := biSizeImage (m_info_header b).
Definition TotalSize (b : t) : Z := bfSize (m_file_header b).
Definition HeaderSize : Z := sizeof_file + sizeof_info.

(** 'B' in the low byte, 'M' in the high one. *)
Definition is_BM (ty : Z) : bool :=
  (Z.land (Z.shiftr ty 8) 255 =? 77) && (Z.land ty 255 =? 66).

Definition IsInvalid (b : t) : bool :=
  is_BM (bfType (m_file_header b)) && (biBitCount (m_info_header b) =? 24) && (TotalSize b >? HeaderSize).

Definition BytesPerLine (nWidth nBitCount : Z) : Z := u32 (u32 (u32 (nWidth * nBitCount) + 31) / 32 * 4).

Definition GetLineBytes (b : t) : Z :=
  BytesPerLine (u32 (biWidth (m_info_header b))) (biBitCount (m_info_header b)).

Definition clear (h : heap) (b : t) : res (heap * t) :=
  h ← hfree (m_pData b) h;
  Ret (h, HBmp_default).

(** The destructor. *)
Definition destroy (h : heap) (b : t) : res heap := '(h, _) ← clear h b; Ret h.

(** [HTO_INT(fh.Read(p, size))]: the answer is what could be read, or an error;
    the returned length, and the bytes stored. *)
Definition Read (size : Z) (ans : option bytes) : Z * bytes :=
  match ans with
  | None => (-1, [])
  | Some l => let l := take (Z.to_nat size) l in (s32 (zlen l), l)
  end.

Definition set_data (p : option Z) (b : t) : t := Mk (m_file_header b) (m_info_header b) p.

(** [exists_] is [HFileName(strFileName).Exists()], [opens] the answer of
    [open], [a1] to [a3] those of the three reads. *)
Definition ReadFromFile (can : Z -> bool) (strFileName : bytes) (bHeadOnly exists_ opens : bool)
    (a1 a2 a3 : option bytes) (h : heap) (b : t) : res (herr * heap * t) :=
  if bool_decide (strFileName = []) then Ret (INVL_PARA, h, b) else
  if negb exists_ then Ret (INVL_PARA, h, b) else
  '(h, b) ← clear h b;
  if negb opens then Ret (SYS_FAILED, h, b) else
  let (ret, l) := Read sizeof_file a1 in
  let b := Mk (file_load (m_file_header b) l) (m_info_header b) (m_pData b) in
  if negb (ret =? sizeof_file) then Ret (SRC_ERR, h, b) else
  if negb (is_BM (bfType (m_file_header b))) then Ret (ERR_STATUS, h, b) else
  let (ret, l) := Read sizeof_info a2 in
  let i := info_load (m_info_header b) l in
  let b := Mk (m_file_header b) i (m_pData b) in
  if negb (ret =? sizeof_info) then Ret (SRC_ERR, h, b) else
  if negb (biBitCount i =? 24) then Ret (ERR_STATUS, h, b) else
  let i := if biSizeImage i =? 0 then
      InfoHeader (biSize i) (biWidth i) (biHeight i) (biPlanes i) (biBitCount i) (biCompression i)
        (u32 (GetLineBytes b * biHeight i)) (biXPelsPerMeter i) (biYPelsPerMeter i) (biClrUsed i) (biClrImportant i)
    else i in
  let b := Mk (m_file_header b) i (m_pData b) in
  if bHeadOnly then Ret (OK, h, b) else
  let (h, p) := malloc can (biSizeImage i) h in
  let b := set_data p b in
  if bool_decide (p = None) then Ret (MEMORY_OUT, h, b) else
  let (ret, l) := Read (biSizeImage i) a3 in
  blk ← deref p h;
  let h := store p (over blk (map Some l)) h in
  if negb (ret =? s32 (biSizeImage i)) then Ret (SRC_ERR, h, b) else Ret (OK, h, b).

(** The constructor from a file ignores the outcome. *)
Definition HBmp_file (can : Z -> bool) (strFileName : bytes) (bHeadOnly exists_ opens : bool)
    (a1 a2 a3 : option bytes) (h : heap) : res (heap * t) :=
  '(_, h, b) ← ReadFromFile can strFileName bHeadOnly exists_ opens a1 a2 a3 h HBmp_default;
  Ret (h, b).

(** [memcpy(dst, src, n)] between two blocks; the new contents of [dst]. *)
Definition memcpy (dst src : blk) (n : Z) : res blk :=
  _ ← check_ub ((n <=? zlen src) && (n <=? zlen dst));
  Ret (over dst (take (Z.to_nat n) src)).

(** The pixel of row [i] and column [j]: copied from [m_pData] if its source is
    inside, else white. *)
Definition move_pixel (src : blk) (bytesPerLine bc nWidth nHeight xoffset yoffset i j : Z) (tmp : blk) : res blk :=
  jb ← sint (j * bc);
  let dstpos := u32 (bytesPerLine * (nHeight - 1 - i)) + jb in
  dx ← sint (j - xoffset);
  inside ← (if (dx >=? 0) && (dx <? nWidth)
            then dy ← sint (i - yoffset); Ret ((dy >=? 0) && (dy <? nHeight)) else Ret false);
  if (inside : bool) then
    xb ← sint (dx * bc);
    let srcpos := u32 (bytesPerLine * (nHeight - 1 - (i - yoffset))) + xb in
    for_loop bc (fun k tmp => x ← get src (srcpos + k); put tmp (dstpos + k) x) tmp
  else for_loop bc (fun k tmp => put tmp (dstpos + k) (Some 255)) tmp.

(** An access through [p] where only the block is needed when it is accessed. *)
Definition block_of (p : option Z) (h : heap) : blk :=
  match deref p h with Ret b => b | Throw _ => [] end.

Definition Move (can : Z -> bool) (xoffset yoffset : Z) (h : heap) (b : t) : res (herr * heap * t) :=
  if negb (IsInvalid b) then Ret (ERR_STATUS, h, b) else
  let bytesPerLine := BytesPerLine (Width b) (BitCount b) in
  let bc := s32 (BitCount b / 8) in
  let (h, temp_buf) := malloc can (u32 (bytesPerLine * Height b)) h in
  let nWidth := s32 (Width b) in
  let nHeight := s32 (Height b) in
  let src := block_of (m_pData b) h in
  tmp ← for_loop nHeight (fun i => for_loop nWidth
          (move_pixel src bytesPerLine bc nWidth nHeight xoffset yoffset i)) (block_of temp_buf h);
  dst ← memcpy src tmp (ImageSize b);
  h ← hfree temp_buf (store (m_pData b) dst h);
  Ret (OK, h, b).

(** One pixel: [pBmpData[k] = pRgaData[2 - k]], both pointers advanced. *)
Definition rgb_pixel (src : blk) (s : Z * Z * blk) : res (Z * Z * blk) :=
  let '(pRga, pBmp, dst) := s in
  x ← get src (pRga + 2); dst ← put dst pBmp x;
  x ← get src (pRga + 1); dst ← put dst (pBmp + 1) x;
  x ← get src pRga; dst ← put dst (pBmp + 2) x;
  Ret (pRga + 3, pBmp + 3, dst).

Definition rgb_line (src : blk) (bytesPerLine nWidth : Z) (s : Z * Z * blk) : res (Z * Z * blk) :=
  '(pRga, pBmp, dst) ← for_loop nWidth (fun _ => rgb_pixel src) s;
  Ret (pRga, pBmp + u32 (bytesPerLine - u32 (nWidth * 3)), dst).

Definition FromRgb (can : Z -> bool) (rga : HRgb.t) (h : heap) (b : t) : res (herr * heap * t) :=
  let bytesPerLine := BytesPerLine (HRgb.Width rga) COLOR_BIT_COUNT in
  let pixcelBytes := u32 (bytesPerLine * HRgb.Height rga) in
  let off := sizeof_file + sizeof_info in
  let fh := FileHeader 0x4D42 (u32 (off + pixcelBytes)) 0 0 off in
  nh ← sint (- s32 (HRgb.Height rga));
  let ih := InfoHeader sizeof_info (s32 (HRgb.Width rga)) nh 1 COLOR_BIT_COUNT 0
              pixcelBytes 100 100 0 0 in
  h ← hfree (m_pData b) h;
  let (h, p) := malloc can pixcelBytes h in
  _ ← assert_throw (bool_decide (p <> None)) MEMORY_OUT;
  let src := block_of (HRgb.GetDataPtr rga) h in
  dst ← deref p h;
  '(_, _, dst) ← for_loop (HRgb.Height rga) (fun _ => rgb_line src bytesPerLine (HRgb.Width rga)) (0, 0, dst);
  Ret (OK, store p dst h, Mk fh ih p).

(** A write that the system accepts up to [ans] bytes of, at the end of what was
    written before: the file and the new position. *)
Definition file_write (s : blk * Z) (data : blk) (ans : option Z) : blk * Z :=
  let (f, pos) := s in
  let n := match ans with None => 0 | Some k => Z.max 0 (Z.min k (zlen data)) end in
  (take (Z.to_nat pos) f ++ take (Z.to_nat n) data ++ drop (Z.to_nat (pos + n)) f, pos + n).

(** [f] is what the file held; it is opened without [O_TRUNC].  The results of
    the writes are ignored. *)
Definition SaveAs (strFileName : bytes) (opens : bool) (w1 w2 w3 : option Z) (f : blk) (h : heap) (b : t)
  : herr * blk :=
  if negb (IsInvalid b) then (ERR_STATUS, f) else
  if bool_decide (strFileName = []) then (INVL_PARA, f) else
  if negb opens then (SYS_FAILED, f) else
  let s := file_write (f, 0) (map Some (file_bytes (m_file_header b))) w1 in
  let s := file_write s (map Some (info_bytes (m_info_header b))) w2 in
  let s := file_write s (take (Z.to_nat (ImageSize b)) (block_of (m_pData b) h)) w3 in
  (OK, s.1).

(** [len] is the caller's word for the size of [buffer]; the new value of both. *)
Definition ExportBmpBuffer (buffer : option blk) (len : Z) (h : heap) (b : t) : res (herr * option blk * Z) :=
  if negb (IsInvalid b) then Ret (ERR_STATUS, buffer, len) else
  match buffer with
  | None => Ret (INVL_PARA, buffer, len)
  | Some buf =>
    if negb (len >=? TotalSize b) then Ret (INVL_PARA, buffer, len) else
    let hdr := map Some (file_bytes (m_file_header b) ++ info_bytes (m_info_header b)) in
    _ ← check_ub (zlen hdr + ImageSize b <=? zlen buf);
    let src := block_of (m_pData b) h in
    _ ← check_ub (ImageSize b <=? zlen src);
    Ret (OK, Some (over buf (hdr ++ take (Z.to_nat (ImageSize b)) src)), TotalSize b)
  end.

(** ** What the operations mean *)

(** Pixel rows as the bitmap stores them: each row's bytes, then the padding. *)
Definition padded (pad : Z) (r : blk) : blk := r ++ replicate (Z.to_nat pad) None.

(** The byte of offset [o] of a block. *)
Definition at_ (src : blk) (o : Z) : option Z := default None (src !! Z.to_nat o).

Definition swapped_px (src : blk) (w i j : Z) : blk :=
  let o := (i * w + j) * 3 in [at_ src (o + 2); at_ src (o + 1); at_ src o].

Definition swapped_row (src : blk) (w i : Z) : blk := concat (map (swapped_px src w i) (seqZ 0 w)).

(** The padded image, top row first, red and blue exchanged. *)
Definition swapped (src : blk) (w h pad : Z) : blk :=
  concat (map (fun i => padded pad (swapped_row src w i)) (seqZ 0 h)).

Definition moved_px (src : blk) (bpl w h xo yo i j : Z) : blk :=
  if bool_decide (0 <= j - xo < w /\ 0 <= i - yo < h) then
    let o := bpl * (h - 1 - (i - yo)) + (j - xo) * 3 in [at_ src o; at_ src (o + 1); at_ src (o + 2)]
  else replicate 3 (Some 255).

Definition moved_row (src : blk) (bpl w h xo yo i : Z) : blk :=
  concat (map (moved_px src bpl w h xo yo i) (seqZ 0 w)).

(** The shifted image: row [i] counts from the top, rows are stored bottom up. *)
Definition moved (src : blk) (bpl w h xo yo : Z) : blk :=
  concat (map (fun i => padded (bpl - w * 3) (moved_row src bpl w h xo yo i)) (reverse (seqZ 0 h))).

(** ** Lemmas *)

Lemma BytesPerLine_ok w : 0 < w -> w * 24 + 31 < 2 ^ 32 ->
  BytesPerLine w 24 = (w * 24 + 31) / 32 * 4 /\ w * 3 <= BytesPerLine w 24 < w * 3 + 4.
Proof.
  intros Hw Hb. unfold BytesPerLine. rewrite (u32_id (w * 24)), (u32_id (w * 24 + 31)), u32_id
    by (Z.div_mod_to_equations; lia).
  split; [done|]. Z.div_mod_to_equations; lia.
Qed.

Lemma zlen_padded pad r : 0 <= pad -> zlen (padded pad r) = zlen r + pad.
Proof. intros H. unfold padded. rewrite zlen_app. f_equal. unfold zlen. rewrite length_replicate. lia. Qed.

Lemma zlen_swapped_row src w i : 0 <= w -> zlen (swapped_row src w i) = w * 3.
Proof. intros H. by apply zlen_concat_seqZ. Qed.

Lemma zlen_moved_px src bpl w h xo yo i j : zlen (moved_px src bpl w h xo yo i j) = 3.
Proof. unfold moved_px. by case_bool_decide. Qed.

Lemma zlen_moved_row src bpl w h xo yo i : 0 <= w -> zlen (moved_row src bpl w h xo yo i) = w * 3.
Proof. intros H. apply zlen_concat_seqZ; [done|]. intros j _. apply zlen_moved_px. Qed.

Lemma get_at src o : 0 <= o < zlen src -> get src o = Ret (at_ src o).
Proof.
  intros H. unfold zlen in H. destruct (src !! Z.to_nat o) eqn:E.
  - unfold at_. rewrite E. apply get_ok; [done|lia].
  - apply lookup_ge_None_1 in E. lia.
Qed.

(** Three bytes written one after the other. *)
Lemma put_triple (b0 p : blk) x y z n :
  zlen p + 3 <= zlen b0 -> n = zlen p ->
  (b ← put (over b0 p) n x; b ← put b (n + 1) y; put b (n + 2) z) = Ret (over b0 (p ++ [x; y; z])).
Proof.
  intros H ->. rewrite put_over by lia. cbn [mbind res_bind].
  replace (zlen p + 1) with (zlen (p ++ [x])) by (rewrite zlen_app; done).
  rewrite put_over by (rewrite zlen_app; change (zlen [x]) with 1; lia). cbn [mbind res_bind].
  replace (zlen p + 2) with (zlen ((p ++ [x]) ++ [y])) by (rewrite !zlen_app; unfold zlen; cbn; lia).
  rewrite put_over by (rewrite !zlen_app; unfold zlen in *; cbn; lia). by rewrite <- !app_assoc.
Qed.

Lemma rgb_pixel_ok src b0 p n :
  0 <= n -> n + 3 <= zlen src -> zlen p + 3 <= zlen b0 ->
  rgb_pixel src (n, zlen p, over b0 p)
  = Ret (n + 3, zlen p + 3, over b0 (p ++ [at_ src (n + 2); at_ src (n + 1); at_ src n])).
Proof.
  intros H1 H2 H3. unfold rgb_pixel. rewrite !get_at by lia. cbn [mbind res_bind].
  pose proof (put_triple b0 p (at_ src (n + 2)) (at_ src (n + 1)) (at_ src n) _ H3 eq_refl) as E.
  revert E. unfold mbind, res_bind. destruct put; [|done]. destruct put; [|done]. destruct put; [|done].
  by intros [= ->].
Qed.

Lemma rgb_line_ok src (N : nat) p w i bpl :
  0 < w -> w * 3 <= bpl < 2 ^ 32 -> 0 <= i -> (i + 1) * w * 3 <= zlen src ->
  zlen p = i * bpl -> (i + 1) * bpl <= Z.of_nat N ->
  rgb_line src bpl w (i * w * 3, i * bpl, over (replicate N None) p)
  = Ret ((i + 1) * w * 3, (i + 1) * bpl, over (replicate N None) (p ++ padded (bpl - w * 3) (swapped_row src w i))).
Proof.
  intros Hw Hbpl Hi Hsrc Hp HN. unfold rgb_line.
  set (b0 := replicate N None) in *. assert (zlen b0 = Z.of_nat N) as Hb0.
  { unfold zlen, b0. by rewrite length_replicate. }
  set (part := fun j => concat (map (swapped_px src w i) (seqZ 0 j))).
  rewrite (for_loop_trace (fun j => (i * w * 3 + j * 3, i * bpl + j * 3, over b0 (p ++ part j)))).
  - cbn [mbind res_bind]. rewrite (u32_id (w * 3)), u32_id by lia.
    change (part w) with (swapped_row src w i). unfold padded. rewrite app_assoc. unfold b0. rewrite <- (over_skip N).
    + do 4 f_equal; lia.
    + assert (zlen (p ++ swapped_row src w i) = i * bpl + w * 3) as E
        by (rewrite zlen_app, zlen_swapped_row; lia).
      unfold zlen in E. lia.
  - lia.
  - change (part 0) with (@nil (option Z)). by rewrite app_nil_r, !Z.add_0_r.
  - intros j Hj. assert (zlen (p ++ part j) = i * bpl + j * 3) as E
      by (rewrite zlen_app; unfold part; rewrite (zlen_concat_seqZ _ 3) by (done || lia); lia).
    assert (0 <= i * w) by nia. rewrite <- E at 1. rewrite rgb_pixel_ok by lia.
    unfold part at 3. rewrite concat_seqZ_snoc, app_assoc by lia. fold (part j). rewrite E.
    unfold swapped_px. replace ((i * w + j) * 3) with (i * w * 3 + j * 3) by lia.
    do 3 f_equal; lia.
Qed.

Lemma zlen_swapped src w h pad : 0 <= w -> 0 <= h -> 0 <= pad -> zlen (swapped src w h pad) = h * (w * 3 + pad).
Proof.
  intros Hw Hh Hp. apply zlen_concat_seqZ; [done|]. intros i _. by rewrite zlen_padded, zlen_swapped_row.
Qed.

(** A header made of values that its fields can hold. *)
Definition file_ok (f : BMPFILEHEADER) : Prop := Forall2 in_type file_types (file_fields f).
Definition info_ok (i : BMPINFOHEADER) : Prop := Forall2 in_type info_types (info_fields i).

#[export] Instance file_ok_dec f : Decision (file_ok f).
Proof. unfold file_ok. apply _. Defined.
#[export] Instance info_ok_dec i : Decision (info_ok i).
Proof. unfold info_ok. apply _. Defined.

Lemma length_struct_bytes ts vs : length ts = length vs -> zlen (struct_bytes ts vs) = struct_size ts.
Proof.
  revert vs. induction ts as [|t ts IH]; intros [|v vs] H; try done.
  cbn [struct_bytes struct_size foldr]. rewrite zlen_app. unfold to_bytes. rewrite zlen_le_bytes.
  f_equal. apply IH. by injection H.
Qed.

Lemma struct_fields_bytes ts vs : Forall2 in_type ts vs -> struct_fields ts (struct_bytes ts vs) = vs.
Proof.
  induction 1 as [|t v ts vs Ht _ IH]; [done|]. cbn [struct_fields struct_bytes].
  assert (length (to_bytes t v) = sizeof t) as E by apply length_le_bytes.
  rewrite take_app_length', drop_app_length', IH by done. by rewrite of_bytes_to_bytes.
Qed.

Lemma zlen_file_bytes f : zlen (file_bytes f) = 14.
Proof. by apply length_struct_bytes. Qed.

Lemma zlen_info_bytes i : zlen (info_bytes i) = 40.
Proof. by apply length_struct_bytes. Qed.

Lemma file_load_bytes f g : file_ok f -> file_load g (file_bytes f) = f.
Proof.
  intros H. unfold file_load. rewrite over_full.
  - unfold file_bytes. rewrite struct_fields_bytes by done. by destruct f.
  - apply Nat2Z.inj. change (zlen (file_bytes f) = zlen (file_bytes g)). by rewrite !zlen_file_bytes.
Qed.

Lemma info_load_bytes f g : info_ok f -> info_load g (info_bytes f) = f.
Proof.
  intros H. unfold info_load. rewrite over_full.
  - unfold info_bytes. rewrite struct_fields_bytes by done. by destruct f.
  - apply Nat2Z.inj. change (zlen (info_bytes f) = zlen (info_bytes g)). by rewrite !zlen_info_bytes.
Qed.

(** A read from a file that has all that was asked for. *)
Lemma Read_prefix size l rest : zlen l = size -> size < 2 ^ 31 -> Read size (Some (l ++ rest)) = (size, l).
Proof.
  intros H Hb. pose proof (zlen_nonneg l). unfold Read. rewrite take_app_length' by (unfold zlen in H; lia).
  by rewrite H, s32_id by lia.
Qed.


(** The rows of a moved bitmap. *)
Lemma zlen_moved src bpl w h xo yo : 0 < w -> 0 <= h -> w * 3 <= bpl -> zlen (moved src bpl w h xo yo) = bpl * h.
Proof.
  intros Hw Hh Hbpl. unfold moved. rewrite (zlen_concat_map _ bpl).
  - unfold zlen. rewrite length_reverse, length_seqZ, Z2Nat.id by done. lia.
  - intros i. rewrite zlen_padded, zlen_moved_row; lia.
Qed.

(** [FromRgb] turns an image of [w] by [h] pixels into a 24-bit bitmap: the
    headers describe it (a negative height means rows stored top down), the
    bytes of every pixel are stored in reverse order, every row is padded to a
    multiple of four bytes that are never written, the old pixels are freed and
    the source image is left alone. *)
Theorem FromRgb_bitmap can rga w h a src hp h1 b :
  0 < w -> 0 < h -> w * 24 + 31 < 2 ^ 32 -> BytesPerLine w 24 * h + 54 < 2 ^ 31 ->
  rga = HRgb.Mk w h (Some a) -> hfree (m_pData b) hp = Ret h1 -> heap_ok h1 ->
  h_blocks h1 !! a = Some src -> zlen src = w * h * 3 -> can (BytesPerLine w 24 * h) = true ->
  let n := BytesPerLine w 24 * h in
  exists h2, FromRgb can rga hp b
    = Ret (OK, h2, Mk (FileHeader 0x4D42 (54 + n) 0 0 54) (InfoHeader 40 w (- h) 1 24 0 n 100 100 0 0) (Some (h_next h1))) /\
  h_blocks h2 !! h_next h1 = Some (swapped src w h (BytesPerLine w 24 - w * 3)) /\
  h_blocks h2 !! a = Some src.
Proof.
  intros Hw Hh Hw32 Hsz -> Hfree Hok Ha Hsrc Hcan n.
  destruct (BytesPerLine_ok w Hw Hw32) as [_ Hbpl]. set (bpl := BytesPerLine w 24) in *.
  assert (bpl <= n /\ h <= n /\ w * 3 <= n) as Hn by (unfold n; nia).
  assert (a <> h_next h1) as Hne.
  { intros ->. specialize (Hok (h_next h1)). rewrite Hok in Ha; [done|lia]. }
  unfold FromRgb. cbn [HRgb.Width HRgb.Height HRgb.m_nWidth HRgb.m_nHeight HRgb.GetDataPtr HRgb.m_pData].
  change (BytesPerLine w COLOR_BIT_COUNT) with bpl. change sizeof_file with 14. change sizeof_info with 40.
  rewrite (u32_id (bpl * h)) by lia. fold n. rewrite (s32_id h), (s32_id w), (u32_id (14 + 40 + n)) by lia.
  rewrite sint_ok by lia. cbn [mbind res_bind]. rewrite Hfree. cbn [mbind res_bind].
  rewrite malloc_ok by done. cbn [mbind res_bind assert_throw]. cbn [deref h_blocks].
  rewrite lookup_insert_eq. cbn [mbind res_bind]. unfold block_of. cbn [deref h_blocks].
  rewrite lookup_insert_ne, Ha by done.
  set (N := Z.to_nat n).
  rewrite (for_loop_trace (fun i => (i * w * 3, i * bpl, over (replicate N None) (swapped src w i (bpl - w * 3)))));
    [|lia|done|].
  - cbn [mbind res_bind]. eexists. split; [|split].
    + do 3 f_equal.
    + cbn. rewrite lookup_insert_eq, over_full; [done|]. apply Nat2Z.inj. fold (zlen (swapped src w h (bpl - w * 3))).
      rewrite zlen_swapped, length_replicate by lia. lia.
    + cbn. by rewrite !lookup_insert_ne by done.
  - intros i Hi. rewrite rgb_line_ok; try lia.
    + unfold swapped. by rewrite concat_seqZ_snoc by lia.
    + rewrite Hsrc. nia.
    + rewrite zlen_swapped by lia. lia.
    + unfold N. nia.
Qed.

Lemma FromRgb_bitmap_witness :
  let h1 := Heap 2 {[ 1 := map Some [10; 20; 30] ]} in
  exists h2, FromRgb (fun _ => true) (HRgb.Mk 1 1 (Some 1)) h1 HBmp_default
    = Ret (OK, h2, Mk (FileHeader 0x4D42 58 0 0 54) (InfoHeader 40 1 (- 1) 1 24 0 4 100 100 0 0) (Some 2)) /\
  h_blocks h2 !! 2 = Some [Some 30; Some 20; Some 10; None] /\ h_blocks h2 !! 1 = Some (map Some [10; 20; 30]).
Proof.
  intros h1. apply (FromRgb_bitmap (fun _ => true) _ 1 1 1 (map Some [10; 20; 30]) h1 h1 HBmp_default); try done.
  intros x Hx. subst h1. cbn in *. rewrite lookup_singleton_ne; [done|lia].
Defined.

(** C29: A bitmap written with [ExportBmpBuffer] and read back with [ReadFromFile]:
    for headers with values in range and a size field that counts the headers and the
    pixels, the export succeeds into every buffer of that size, and reading a
    file of these bytes gives the same headers and the same pixels (indeterminate
    bytes as the file has them), whatever bitmap the object held before. *)
Theorem export_read_roundtrip can name hp b src buf len :
  file_ok (m_file_header b) -> info_ok (m_info_header b) -> IsInvalid b = true ->
  TotalSize b = HeaderSize + ImageSize b -> 0 < ImageSize b < 2 ^ 31 ->
  deref (m_pData b) hp = Ret src -> zlen src = ImageSize b ->
  TotalSize b <= zlen buf -> TotalSize b <= len -> can (ImageSize b) = true -> name <> [] ->
  exists buf', ExportBmpBuffer (Some buf) len hp b = Ret (OK, Some buf', TotalSize b) /\ zlen buf' = zlen buf /\
  forall file h0 h1 b0, reads_as (take (Z.to_nat (TotalSize b)) buf') file -> hfree (m_pData b0) h0 = Ret h1 ->
  exists img h2, ReadFromFile can name false true true (Some file) (Some (drop 14 file)) (Some (drop 54 file)) h0 b0
    = Ret (OK, h2, Mk (m_file_header b) (m_info_header b) (Some (h_next h1))) /\
    h_blocks h2 !! h_next h1 = Some (map Some img) /\ reads_as src img.
Proof.
  intros Hf Hi Hinv Htot Himg Hsrc Hzs Hbuf Hlen Hcan Hname.
  set (fb := file_bytes (m_file_header b)) in *. set (ib := info_bytes (m_info_header b)) in *.
  assert (zlen fb = 14 /\ zlen ib = 40) as [Zf Zi] by (split; [apply zlen_file_bytes|apply zlen_info_bytes]).
  change HeaderSize with 54 in *.
  assert (take (Z.to_nat (ImageSize b)) src = src) as Etake by (apply take_ge; unfold zlen in Hzs; lia).
  exists (over buf (map Some (fb ++ ib) ++ src)).
  assert (zlen (map Some (fb ++ ib) ++ src) = TotalSize b) as Zall.
  { rewrite zlen_app, zlen_map, zlen_app. lia. }
  split_and!; [|by rewrite zlen_over by lia|].
  { unfold ExportBmpBuffer. rewrite Hinv. cbn [negb]. ztest. fold fb ib. unfold check_ub.
    rewrite zlen_map, zlen_app, Zf, Zi.
    unfold block_of. rewrite Hsrc. ztest. cbn [mbind res_bind]. by rewrite Etake. }
  intros file h0 h1 b0 Hread Hfree. unfold over in Hread.
  rewrite take_app_length' in Hread by (unfold zlen in Zall; lia).
  apply Forall2_app_inv_l in Hread as (l1 & img & H1 & H2 & ->). apply reads_as_Some in H1 as ->.
  exists img, (Heap (h_next h1 + 1) (<[h_next h1 := map Some img]> (h_blocks h1))).
  assert (zlen img = ImageSize b) as Zimg.
  { rewrite <- Hzs. unfold zlen. by rewrite (reads_as_length _ _ H2). }
  assert (IsInvalid b = true) as Hbm by done. unfold IsInvalid in Hbm.
  apply andb_true_iff in Hbm as [Hbm _]. apply andb_true_iff in Hbm as [Hbm Hbits].
  split_and!; [|cbn; by rewrite lookup_insert_eq|done].
  unfold ReadFromFile. rewrite bool_decide_false by done. cbn [negb]. unfold clear. rewrite Hfree. cbn [mbind res_bind].
  change sizeof_file with 14. change sizeof_info with 40.
  rewrite <- !app_assoc. rewrite (Read_prefix 14 fb), (file_load_bytes _ _ Hf) by (done || lia).
  cbn [m_file_header m_info_header m_pData]. rewrite Hbm. cbn [negb Z.eqb Pos.eqb].
  rewrite (drop_app_length' fb) by (unfold zlen in Zf; lia).
  rewrite (Read_prefix 40 ib), (info_load_bytes _ _ Hi) by (done || lia).
  cbn [m_file_header m_info_header m_pData]. rewrite Hbits. cbn [negb Z.eqb Pos.eqb].
  unfold ImageSize in *. ztest. rewrite malloc_ok by done. cbn [set_data m_file_header m_info_header].
  rewrite bool_decide_false by done. rewrite (app_assoc fb ib).
  rewrite (drop_app_length' (fb ++ ib)) by (rewrite length_app; unfold zlen in *; lia).
  rewrite <- (app_nil_r img) at 1. rewrite (Read_prefix (biSizeImage (m_info_header b)) img) by lia.
  cbn [deref h_blocks]. rewrite lookup_insert_eq. cbn [mbind res_bind store h_blocks h_next].
  rewrite s32_id by lia. ztest. rewrite insert_insert_eq, over_full; [done|].
  rewrite length_map, length_replicate. unfold zlen in Zimg. lia.
Qed.

Lemma export_read_roundtrip_witness :
  let hp := Heap 2 {[ 1 := [Some 30; Some 20; Some 10; None] ]} in
  let b := Mk (FileHeader 0x4D42 58 0 0 54) (InfoHeader 40 1 (- 1) 1 24 0 4 100 100 0 0) (Some 1) in
  exists buf', ExportBmpBuffer (Some (replicate 60 None)) 60 hp b = Ret (OK, Some buf', 58) /\ zlen buf' = 60 /\
  forall file h0 h1 b0, reads_as (take (Z.to_nat 58) buf') file -> hfree (m_pData b0) h0 = Ret h1 ->
  exists img h2, ReadFromFile (fun _ => true) (str "a.bmp") false true true (Some file) (Some (drop 14 file))
      (Some (drop 54 file)) h0 b0
    = Ret (OK, h2, Mk (m_file_header b) (m_info_header b) (Some (h_next h1))) /\
    h_blocks h2 !! h_next h1 = Some (map Some img) /\ reads_as [Some 30; Some 20; Some 10; None] img.
Proof.
  intros hp b. apply (export_read_roundtrip (fun _ => true) (str "a.bmp") hp b); try (by vm_compute).
  - apply (bool_decide_eq_true_1 (file_ok _)). by vm_compute.
  - apply (bool_decide_eq_true_1 (info_ok _)). by vm_compute.
Defined.

(** ** Moving *)

Lemma move_pixel_ok src bpl w h xo yo i j (b0 p : blk) :
  0 <= i < h -> 0 <= j < w -> w * 3 <= bpl -> bpl * h < 2 ^ 31 -> zlen src = bpl * h ->
  - 2 ^ 30 <= xo < 2 ^ 30 -> - 2 ^ 30 <= yo < 2 ^ 30 ->
  zlen p = bpl * (h - 1 - i) + j * 3 -> zlen p + 3 <= zlen b0 ->
  move_pixel src bpl 3 w h xo yo i j (over b0 p) = Ret (over b0 (p ++ moved_px src bpl w h xo yo i j)).
Proof.
  intros Hi Hj Hbpl Hsz Hsrc Hx Hy Hp Hb0. assert (w * 3 <= bpl * h /\ h * 3 <= bpl * h) by nia.
  assert (forall r, 0 <= r < h -> 0 <= bpl * (h - 1 - r) <= bpl * h - bpl) as Hrow by nia.
  pose proof (Hrow i Hi). unfold move_pixel, moved_px.
  rewrite !sint_ok by lia. cbn [mbind res_bind]. rewrite (u32_id (bpl * (h - 1 - i))) by lia.
  rewrite Z.geb_leb. destruct (decide (0 <= j - xo < w)) as [Hdx|Hdx].
  - ztest. cbn [mbind res_bind].
    destruct (decide (0 <= i - yo < h)) as [Hdy|Hdy].
    + rewrite bool_decide_true by done. ztest. rewrite sint_ok by lia. cbn [mbind res_bind].
      pose proof (Hrow (i - yo) Hdy). rewrite (u32_id (bpl * (h - 1 - (i - yo)))) by lia.
      rewrite HRgb.for_loop_3. cbn beta. rewrite !get_at by lia. cbn [mbind res_bind].
      rewrite !Z.add_0_r. apply put_triple; lia.
    + rewrite bool_decide_false by tauto.
      replace ((0 <=? i - yo) && (i - yo <? h)) with false by lia.
      rewrite HRgb.for_loop_3, Z.add_0_r. apply put_triple; lia.
  - rewrite bool_decide_false by tauto. replace ((0 <=? j - xo) && (j - xo <? w)) with false by lia.
    cbn [mbind res_bind]. rewrite HRgb.for_loop_3, Z.add_0_r. apply put_triple; lia.
Qed.

Lemma over_app {A} (p c : list A) : over (p ++ c) p = p ++ c.
Proof. unfold over. by rewrite drop_app_length. Qed.

(** A line of the bitmap under construction, between what is below and what is above. *)
Lemma move_line_ok src bpl w h xo yo i (below above : blk) :
  0 <= i < h -> 0 < w -> w * 3 <= bpl -> bpl * h < 2 ^ 31 -> zlen src = bpl * h ->
  - 2 ^ 30 <= xo < 2 ^ 30 -> - 2 ^ 30 <= yo < 2 ^ 30 -> zlen below = bpl * (h - 1 - i) ->
  for_loop w (move_pixel src bpl 3 w h xo yo i) (below ++ replicate (Z.to_nat bpl) None ++ above)
  = Ret (below ++ padded (bpl - w * 3) (moved_row src bpl w h xo yo i) ++ above).
Proof.
  intros Hi Hw Hbpl Hsz Hsrc Hx Hy Hbel. set (b0 := below ++ _).
  set (part := fun j => concat (map (moved_px src bpl w h xo yo i) (seqZ 0 j))).
  assert (forall j, 0 <= j -> zlen (part j) = j * 3) as Hpart.
  { intros j Hj. apply zlen_concat_seqZ; [done|]. intros k _. apply zlen_moved_px. }
  rewrite (for_loop_trace (fun j => over b0 (below ++ part j))).
  - f_equal. pose proof (Hpart w ltac:(lia)) as Hl. unfold over, padded. rewrite <- !app_assoc. f_equal.
    change (moved_row src bpl w h xo yo i) with (part w). f_equal.
    unfold b0. rewrite length_app, <- drop_drop, drop_app_length. unfold zlen in Hl.
    rewrite drop_app_le, drop_replicate by (rewrite length_replicate; lia). f_equal. f_equal. lia.
  - lia.
  - change (part 0) with (@nil (option Z)). rewrite app_nil_r. unfold b0. by rewrite over_app.
  - intros j Hj. pose proof (Hpart j ltac:(lia)) as Hl.
    assert (zlen b0 = bpl * (h - 1 - i) + bpl + zlen above) as Hz.
    { unfold b0. rewrite !zlen_app, Hbel. unfold zlen at 1. rewrite length_replicate. lia. }
    pose proof (zlen_nonneg above).
    rewrite move_pixel_ok by (rewrite ?zlen_app; lia).
    unfold part at 2. rewrite concat_seqZ_snoc, app_assoc by lia. done.
Qed.

(** [Move] shifts the picture of a bitmap stored bottom up: every pixel of the
    new block is the old pixel [xoffset] columns to its left and [yoffset] rows
    above it, white where there is none, and the padding of the rows is left
    indeterminate; the temporary block is freed. *)
Theorem Move_shifts can xo yo hp b a src w h :
  IsInvalid b = true -> m_pData b = Some a -> h_blocks hp !! a = Some src -> heap_ok hp ->
  biWidth (m_info_header b) = w -> biHeight (m_info_header b) = h -> 0 < w -> 0 < h -> w * 24 + 31 < 2 ^ 32 ->
  ImageSize b = BytesPerLine w 24 * h -> ImageSize b < 2 ^ 31 -> zlen src = ImageSize b ->
  - 2 ^ 30 <= xo < 2 ^ 30 -> - 2 ^ 30 <= yo < 2 ^ 30 -> can (ImageSize b) = true ->
  exists h2, Move can xo yo hp b = Ret (OK, h2, b) /\
    h_blocks h2 = <[a := moved src (BytesPerLine w 24) w h xo yo]> (h_blocks hp).
Proof.
  intros Hinv Hp Ha Hok Ew Eh Hw Hh Hw32 Himg Hsz Hsrc Hx Hy Hcan.
  destruct (BytesPerLine_ok w Hw Hw32) as [_ Hbpl].
  assert (BitCount b = 24) as Hbits.
  { unfold IsInvalid in Hinv. apply andb_true_iff in Hinv as [Hinv _].
    apply andb_true_iff in Hinv as [_ Hinv]. by apply Z.eqb_eq. }
  set (bpl := BytesPerLine w 24) in *. assert (w <= bpl * h /\ h <= bpl * h) as Hle by nia.
  assert (a <> h_next hp) as Hne.
  { intros ->. specialize (Hok (h_next hp)). rewrite Hok in Ha; [done|lia]. }
  unfold Move. rewrite Hinv. cbn [negb]. rewrite Hbits. unfold Width, Height. rewrite Ew, Eh.
  rewrite (u32_id w), (u32_id h), (s32_id w), (s32_id h) by lia. change (s32 (24 / 8)) with 3. fold bpl.
  rewrite (u32_id (bpl * h)), <- Himg, malloc_ok by (done || lia). rewrite Hp. unfold block_of. cbn [deref h_blocks].
  rewrite lookup_insert_eq, lookup_insert_ne, Ha by done.
  set (rows := fun i => concat (map (fun i => padded (bpl - w * 3) (moved_row src bpl w h xo yo i)) (reverse (seqZ 0 i)))).
  rewrite (for_loop_trace (fun i => replicate (Z.to_nat (bpl * (h - i))) None ++ rows i)).
  - cbn [mbind res_bind]. rewrite Z.sub_diag, Z.mul_0_r. change (replicate (Z.to_nat 0) (@None Z)) with (@nil (option Z)). cbn [app].
    change (rows h) with (moved src bpl w h xo yo).
    assert (zlen (moved src bpl w h xo yo) = ImageSize b) as Hm by (rewrite Himg; apply zlen_moved; lia).
    unfold memcpy. rewrite Hm, Hsrc. ztest. cbn [mbind res_bind check_ub].
    assert (take (Z.to_nat (ImageSize b)) (moved src bpl w h xo yo) = moved src bpl w h xo yo) as ->
      by (apply take_ge; unfold zlen in Hm; lia).
    rewrite over_full by (unfold zlen in *; lia). unfold hfree. cbn [store h_blocks].
    rewrite bool_decide_true by (rewrite lookup_insert_ne, lookup_insert_eq by done; eauto).
    cbn [mbind res_bind]. eexists. split; [done|]. cbn [h_blocks].
    rewrite delete_insert_ne, delete_insert_id by (done || apply Hok; lia). done.
  - lia.
  - rewrite Z.sub_0_r, <- Himg. by rewrite app_nil_r.
  - intros i Hi.
    replace (replicate (Z.to_nat (bpl * (h - i))) (@None Z)) with
      (replicate (Z.to_nat (bpl * (h - 1 - i))) (@None Z) ++ replicate (Z.to_nat bpl) None)
      by (rewrite <- replicate_add; f_equal; nia).
    rewrite <- app_assoc, move_line_ok by (rewrite ?zlen_fresh; done || nia).
    unfold rows. rewrite seqZ_snoc, reverse_snoc by lia. cbn [map concat].
    by replace (h - (i + 1)) with (h - 1 - i) by lia.
Qed.

Lemma Move_shifts_witness :
  let b := Mk (FileHeader 0x4D42 62 0 0 54) (InfoHeader 40 1 2 1 24 0 8 100 100 0 0) (Some 1) in
  let src := map Some [1; 2; 3; 0; 4; 5; 6; 0] in
  let hp := Heap 2 {[ 1 := src ]} in
  exists h2, Move (fun _ => true) 0 1 hp b = Ret (OK, h2, b) /\
    h_blocks h2 = <[1 := [Some 4; Some 5; Some 6; None; Some 255; Some 255; Some 255; None]]> (h_blocks hp).
Proof.
  intros b src hp.
  assert (moved src (BytesPerLine 1 24) 1 2 0 1 = [Some 4; Some 5; Some 6; None; Some 255; Some 255; Some 255; None])
    as <- by (vm_compute; reflexivity).
  apply (Move_shifts (fun _ => true) 0 1 hp b 1 src 1 2); try (by vm_compute).
  intros x Hx. cbn in *. rewrite lookup_singleton_ne; [done|lia].
Defined.

(** [FromRgb] stores a negative height, which [Move] takes for an unsigned
    number: no row is visited, and the uninitialised temporary block, of almost
    4 GB, is copied over the pixels. *)
Example move_after_FromRgb :
  let b := Mk (FileHeader 0x4D42 58 0 0 54) (InfoHeader 40 1 (- 1) 1 24 0 4 100 100 0 0) (Some 1) in
  Height b = 2 ^ 32 - 1 /\ s32 (Height b) = - 1 /\ u32 (BytesPerLine (Width b) 24 * Height b) = 2 ^ 32 - 4.
Proof. split_and!; vm_compute; reflexivity. Qed.

(** The size the caller's buffer is tested against ([bfSize]) and the number of
    bytes copied ([biSizeImage]) both come from the file: a file in which they
    disagree makes [ExportBmpBuffer] write past a buffer that passed the test. *)
Theorem export_overruns b hp len :
  IsInvalid b = true -> TotalSize b < HeaderSize + ImageSize b -> len = TotalSize b ->
  ExportBmpBuffer (Some (replicate (Z.to_nat len) None)) len hp b = Throw UB.
Proof.
  intros Hinv Hlt ->. unfold ExportBmpBuffer. rewrite Hinv. cbn [negb].
  assert (54 < TotalSize b) as Hpos.
  { unfold IsInvalid in Hinv. apply andb_true_iff in Hinv as [_ H]. change HeaderSize with 54 in H. lia. }
  change HeaderSize with 54 in Hlt. ztest. unfold check_ub.
  rewrite zlen_map, zlen_app, zlen_file_bytes, zlen_info_bytes, zlen_fresh by lia. by ztest.
Qed.

Lemma export_overruns_witness :
  ExportBmpBuffer (Some (replicate 60 None)) 60 empty_heap
    (Mk (FileHeader 0x4D42 60 0 0 54) (InfoHeader 40 1 1 1 24 0 100 0 0 0 0) (Some 1)) = Throw UB.
Proof. by apply (export_overruns _ empty_heap 60); vm_compute. Defined.

(** The class has a destructor and no copy constructor of its own: a copy and
    its original free the same block. *)
Example destroyed_twice f i p h h1 :
  destroy h (Mk f i (Some p)) = Ret h1 -> destroy h1 (Mk f i (Some p)) = Throw UB.
Proof.
  unfold destroy, clear, hfree. cbn [m_pData]. case_bool_decide; [|done]. cbn. intros [= <-]. cbn.
  rewrite bool_decide_false; [done|]. rewrite lookup_delete_eq. intros [? [=]].
Qed.

(** Saved over a longer file, a bitmap leaves the rest of the old file behind it
    (the file is opened without [O_TRUNC]); failed writes go unnoticed. *)
Example SaveAs_ignores_writes :
  let b := Mk (FileHeader 0x4D42 58 0 0 54) (InfoHeader 40 1 1 1 24 0 4 0 0 0 0) (Some 1) in
  SaveAs (str "a") true None None None [] empty_heap b = (OK, []) /\
  zlen (SaveAs (str "a") true (Some 14) (Some 40) (Some 4) (replicate 90 None)
          (Heap 2 {[ 1 := replicate 4 (Some 0) ]}) b).2 = 90.
Proof. split; vm_compute; reflexivity. Qed.

End HBmp.
