(* ===== verification/Addr.v ===== *)
(** * Socket addresses: [src/haddr.h], [src/haddr.cpp], [src/detail/network_detail.cpp]

    An IPv4 address as the fields of its [sockaddr_in], in the byte order of the
    wire; what the kernel answers (sockets, interfaces, the routing table) is an
    argument, the resolver functions of the C library are a class. *)

From S2P Require Import Prelude StdString OrdMap HStr HMstr Serialize SerializeProofs Memory Buffers.

(** ** Byte order *)

(** [htons] and [ntohs] on a little-endian machine, beside [htonl] and [ntohl] of [Buffers]. *)
Definition htons (n : Z) : Z := le_combine (reverse (le_bytes 2 n)).
Definition ntohs (n : Z) : Z := htons n.

(** The dotted form of an address in network order: its bytes in memory. *)
Definition quad (a : Z) : bytes := HStr.join (str ".") (map to_string (le_bytes 4 a)).

(** The functions of [arpa/inet.h] the code calls. *)
Class InetLib : Type := {
  inet_addr : bytes -> Z;      (* a dotted string, or INADDR_NONE *)
  inet_ntoa : Z -> bytes;
  inet_lnaof : Z -> Z }.       (* the local part of a classful address, host order *)

(** What their manual page says. *)
Class InetLaws `{InetLib} : Prop := {
  inet_ntoa_quad : forall a, 0 <= a < 2 ^ 32 -> inet_ntoa a = quad a;
  inet_addr_quad : forall a, 0 <= a < 2 ^ 32 -> inet_addr (quad a) = a;
  inet_lnaof_C : forall a, 0 <= a < 2 ^ 32 -> 192 <= a mod 256 < 224 -> inet_lnaof a = a / 2 ^ 24 }.

Module HIp4Addr.
Import HStr.

(** ** Definitions *)

Definition AF_UNSPEC : Z := 0.
Definition AF_INET : Z := 2.
Definition AF_INET6 : Z := 10.

(** [m_addr]; port and address in network order. *)
Record t : Type := Mk { sin_family : Z; sin_port : Z; sin_addr : Z }.

#[export] Instance t_eq_dec : EqDecision t.
Proof. solve_decision. Defined.

Definition zero : t := Mk AF_UNSPEC 0 0.

(** A port is converted to [uint16_t] by the call of [htons]. *)
Definition init_addr (addr_bytes port : Z) : herr * t := (OK, Mk AF_INET (htons (u16 port)) (u32 addr_bytes)).

Definition HIp4Addr_int (addr_bytes port : Z) : t := (init_addr addr_bytes port).2.

Definition SetPort (a : t) (port : Z) : t := Mk (sin_family a) (htons (u16 port)) (sin_addr a).

(** [init(const sockaddr_type&)], the copy constructor and [Assign(const HIp4Addr&)]. *)
Definition init_copy (other : t) : herr * t := (OK, other).

Definition AddrTypeToInt (iaddr : Z) : Z := htonl iaddr.

Section lib.
Context `{InetLib}.

Definition SetupNetWithIpString (ip : bytes) (port : Z) : herr * t :=
  (OK, Mk AF_INET (htons (u16 port)) (inet_addr (c_str ip))).

Definition init_string (strIp : bytes) (port : Z) : herr * t := SetupNetWithIpString strIp port.

Definition Assign (strIp : bytes) (port : Z) : herr * t := init_string strIp port.

(** Only digits and dots. *)
Definition is_ip_str (ip : bytes) : bool :=
  bool_decide (find_first_not_of ip (str "1234567890.") = None).

(** The status and the new value of [net], which is cleared first. *)
Definition ParseNetFromString (s : bytes) : res (herr * t) :=
  match find s (str ":") 0 with
  | None => Ret (INVL_PARA, zero)
  | Some pos =>
    if Z.of_nat pos =? u64 (zlen s - 1) then Ret (INVL_PARA, zero)
    else
      ssip ← substr s 0 (Z.of_nat pos);
      if negb (is_ip_str ssip) then Ret (INVL_PARA, zero)
      else
        ps ← substr_from s (pos + 1);
        iPort ← ToN ps;
        Ret (SetupNetWithIpString ssip iPort)
  end.

(** [HIp4Addr(strIpPort)] ignores the status. *)
Definition HIp4Addr_string (s : bytes) : res t := '(_, a) ← ParseNetFromString s; Ret a.

(** The text and the port. *)
Definition GetAddrInfo (a : t) : herr * bytes * Z := (OK, inet_ntoa (sin_addr a), ntohs (sin_port a)).

(** The port is not converted. *)
Definition GetStringFromNet (a : t) : herr * bytes * Z := (OK, inet_ntoa (sin_addr a), sin_port a).

Definition GetIpInt (a : t) : Z := inet_lnaof (sin_addr a).

(** [HStr::Format("%s:%d", ip, port)]. *)
Definition ToString (a : t) : res bytes :=
  let '(e, ip, port) := GetAddrInfo a in
  if negb (IS_OK e) then Ret []
  else Format (Some (c_str ip ++ str ":" ++ to_string port)).

Definition StringIpToInt (strIp : bytes) : Z := ntohl (inet_addr (c_str strIp)).

Definition ToStringIp (ll : Z) : bytes := inet_ntoa (htonl (u32 ll)).

End lib.

(** [IsIp4Str]: the loop over the components. *)
Fixpoint all_ip_num (ncs : list bytes) : res bool :=
  match ncs with
  | [] => Ret true
  | strnum :: ncs =>
    if negb (IsAllDigit strnum) then Ret false
    else
      n ← ToN strnum;
      if negb ((n >=? 0) && (n <=? 255)) then Ret false else all_ip_num ncs
  end.

Definition IsIp4Str (strIp : bytes) : res bool :=
  if zlen strIp >? 15 then Ret false
  else match Split strIp (str ".") [] 0 with
       | None => Throw Diverge
       | Some m =>
         '(e, ncs) ← m;
         if negb (IS_OK e) then Ret false
         else if negb (zlen ncs =? 4) then Ret false
         else all_ip_num ncs
       end.

(** *** Sockets: [cb] is what the system call returned *)

Definition Bind (cb : Z) : herr := if cb =? 0 then OK else SYS_FAILED.
Definition Connect (cb : Z) : herr := if cb =? 0 then OK else SYS_FAILED.

(** [peer] is what the kernel stored in the address; the client's new descriptor. *)
Definition Accept (cb : Z) (peer : t) (client : Z) : herr * t * Z :=
  if cb >? 0 then (OK, peer, cb) else (SYS_FAILED, peer, client).

Definition GetFromSocket (cb : Z) (peer : t) : herr * t :=
  (if cb =? 0 then OK else SYS_FAILED, peer).

(** *** The local address *)

(** A [sockaddr_storage]: seen as a [sockaddr_in], and the sixteen bytes a
    [sockaddr_in6] has behind them. *)
Record sockaddr : Type := Sa { as_in : t; s6_addr : list Z }.

Definition family (a : sockaddr) : Z := sin_family (as_in a).
Definition s_addr (a : sockaddr) : Z := sin_addr (as_in a).

(** An entry of [getifaddrs]: flags, and the address if it has one. *)
Record ifaddr : Type := If { ifa_up : bool; ifa_loopback : bool; ifa_addr : option sockaddr }.

Definition is_bad_address4_for_us (addr : Z) : bool :=
  let nAddr := htonl addr in
  (nAddr =? 0x7F000001) || (nAddr =? 0) || (nAddr =? 2 ^ 32 - 1).

Definition isBadAddressForUs (addr : sockaddr) : bool :=
  if family addr =? AF_INET then is_bad_address4_for_us (s_addr addr) else true.

Definition addressIsNull (address : sockaddr) : bool :=
  if family address =? AF_INET then s_addr address =? 0
  else if family address =? AF_INET6 then forallb (Z.eqb 0) (s6_addr address)
  else false.

(** A null pointer, and a family of neither kind, change nothing. *)
Definition copyAddress (to : sockaddr) (from : option sockaddr) : sockaddr :=
  match from with
  | None => to
  | Some from =>
    if family from =? AF_INET then Sa (Mk AF_INET (sin_port (as_in to)) (s_addr from)) (s6_addr to)
    else if family from =? AF_INET6 then Sa (Mk AF_INET6 (sin_port (as_in to)) (s_addr to)) (s6_addr from)
    else to
  end.

Fixpoint local_loop (ifs : list ifaddr) (ss : sockaddr) : sockaddr :=
  match ifs with
  | [] => ss
  | p :: ifs =>
    if negb (ifa_up p) || ifa_loopback p then local_loop ifs ss
    else match ifa_addr p with
         | None => local_loop ifs ss
         | Some addr =>
           if isBadAddressForUs addr then local_loop ifs ss
           else if (family addr =? AF_INET) && addressIsNull ss
           then local_loop ifs (copyAddress ss (ifa_addr p))
           else local_loop ifs ss
         end
  end.

(** [ifs] is what [getifaddrs] delivered, if it did. *)
Definition GetLocalAddr (ifs : option (list ifaddr)) (ss : sockaddr) : sockaddr :=
  let ss := Sa (Mk AF_INET (sin_port (as_in ss)) 0) (s6_addr ss) in
  match ifs with None => ss | Some l => local_loop l ss end.

Definition GetLocalIp `{InetLib} (ifs : option (list ifaddr)) (ss : sockaddr) : bytes :=
  inet_ntoa (s_addr (GetLocalAddr ifs ss)).

End HIp4Addr.

(** ** Unix addresses *)

Module HUnixAddr.
Import HStr.

Definition AF_UNIX : Z := 1.

(** [sizeof(sun_path)] *)
Definition SUN_PATH : Z := 108.

Record t : Type := Mk { sun_family : Z; sun_path : bytes }.

(** The path is unlinked, then copied with [strcpy]: the path unlinked and the new address. *)
Definition init (strAddrPath : bytes) : res (bytes * t) :=
  let p := c_str strAddrPath in
  _ ← check_ub (zlen p + 1 <=? SUN_PATH);
  Ret (p, Mk AF_UNIX p).

Definition Bind (cb : Z) : herr := if cb =? 0 then OK else SYS_FAILED.
Definition Connect : res herr := Throw (HExc UN_SUPPORT).
Definition Accept : res herr := Throw (HExc UN_SUPPORT).
Definition GetFromSocket (cb : Z) (peer : t) : herr * t := (if cb =? 0 then OK else SYS_FAILED, peer).
Definition GetAddrInfo : res herr := Throw (HExc UN_SUPPORT).
Definition ToString : res bytes := Throw (HExc UN_SUPPORT).

End HUnixAddr.

(** ** Network interfaces: [network_detail] *)

Module network_detail.
Import HStr.

(** The first fields of [struct ifreq] that the code reads back: the address
    and the first bytes of the hardware address. *)
Record ifreq : Type := Req { ifr_name : bytes; ifr_addr : Z; ifr_hw : bytes }.

Definition zero_req : ifreq := Req [] 0 (replicate 6 0).

(** [IFNAMSIZ] *)
Definition IFNAMSIZ : Z := 16.

(** [sock] is the descriptor, [ioctl] the answer of the call for a name: the
    request filled in, or an error. *)
Definition get_ifaddr_by_name (strIfName : bytes) (sock : Z) (ioctl : bytes -> option ifreq) : ifreq :=
  if sock <=? 0 then zero_req
  else
    let name := take (Z.to_nat (IFNAMSIZ - 1)) (c_str strIfName) in
    match ioctl name with
    | None => Req name 0 (replicate 6 0)
    | Some r => r
    end.

Definition GetIfAddr (strIfName : bytes) (sock : Z) (ioctl : bytes -> option ifreq) : Z :=
  ifr_addr (get_ifaddr_by_name strIfName sock ioctl).

Definition GetNetMask (strIfName : bytes) (sock : Z) (ioctl : bytes -> option ifreq) : Z :=
  ifr_addr (get_ifaddr_by_name strIfName sock ioctl).

Definition IFHWADDRLEN : Z := 6.

Definition GetHwAddr (strName : bytes) (sock : Z) (ioctl : bytes -> option ifreq) : bytes :=
  take (Z.to_nat IFHWADDRLEN) (ifr_hw (get_ifaddr_by_name strName sock ioctl)).

Definition INADDR_ANY : Z := 0.
Definition RTF_UP : Z := 1.
Definition RTF_GATEWAY : Z := 2.

(** What [sscanf] stored of a line: the word, and those of [dest], [gate] and
    [flags] it reached. *)
Record route : Type := Route { r_word : bytes; r_dest : option Z; r_gate : option Z; r_flags : option Z }.

(** The loop over the lines after the first; a number that a line lacks keeps its
    value from the line before. *)
Fixpoint gateway_loop (lines : list route) (strIfName : bytes) (gate flags : Z) : Z :=
  match lines with
  | [] => INADDR_ANY
  | r :: lines =>
    let gate := default gate (r_gate r) in
    let flags := default flags (r_flags r) in
    if negb (bool_decide (r_word r = strIfName)) then gateway_loop lines strIfName gate flags
    else if Z.land flags (Z.lor RTF_UP RTF_GATEWAY) =? Z.lor RTF_UP RTF_GATEWAY then u32 gate
    else gateway_loop lines strIfName gate flags
  end.

(** [table] is /proc/net/route as scanned, header line included, if it opens. *)
Definition GetGateWay (strIfName : bytes) (table : option (list route)) : Z :=
  match table with
  | None => INADDR_ANY
  | Some lines => gateway_loop (tail lines) strIfName 0 0
  end.

(** [get_local_ips]: [s] is the socket, [conf] what [SIOCGIFCONF] delivered, an
    address or the failure of [inet_ntop] for each; the status, the list, and
    whether the socket was closed. *)
Fixpoint ips_loop (l : list (option bytes)) (ips : list bytes) : herr * list bytes :=
  match l with
  | [] => (OK, ips)
  | None :: _ => (SYS_FAILED, ips)
  | Some ip :: l => ips_loop l (ips ++ [ip])
  end.

Definition get_local_ips (s : Z) (conf : option (list (option bytes))) (ips : list bytes) : herr * list bytes * bool :=
  if negb (s >? 0) then (SYS_FAILED, ips, true)
  else match conf with
       | None => (SYS_FAILED, ips, false)
       | Some l => let '(e, ips) := ips_loop l [] in (e, ips, IS_OK e)
       end.

End network_detail.

(** ** Lemmas *)

Lemma swap_involutive n z : 0 <= z < 2 ^ (8 * Z.of_nat n) ->
  le_combine (reverse (le_bytes n (le_combine (reverse (le_bytes n z))))) = z.
Proof.
  intros Hz. assert (length (reverse (le_bytes n z)) = n) as Hl by (rewrite length_reverse; apply length_le_bytes).
  rewrite <- Hl at 1. rewrite le_bytes_combine by (apply Forall_reverse, is_bytes_le_bytes).
  rewrite reverse_involutive, le_combine_le_bytes. by apply Z.mod_small.
Qed.

Lemma htonl_involutive a : 0 <= a < 2 ^ 32 -> htonl (htonl a) = a.
Proof. apply (swap_involutive 4). Qed.

Lemma htons_involutive a : 0 <= a < 2 ^ 16 -> htons (htons a) = a.
Proof. apply (swap_involutive 2). Qed.

Lemma le_combine_bound l : is_bytes l -> 0 <= le_combine l < 2 ^ (8 * zlen l).
Proof.
  induction 1 as [|b l Hb _ IH]; [done|]. rewrite zlen_cons. cbn [le_combine]. unfold is_byte in Hb.
  pose proof (zlen_nonneg l). rewrite Z.mul_add_distr_l, Z.pow_add_r by lia. change (2 ^ (8 * 1)) with 256. lia.
Qed.

Lemma htonl_bound a : 0 <= htonl a < 2 ^ 32.
Proof.
  unfold htonl. change 32 with (8 * zlen (le_bytes 4 0)).
  assert (zlen (le_bytes 4 0) = zlen (reverse (le_bytes 4 a))) as -> by done.
  apply le_combine_bound, Forall_reverse, is_bytes_le_bytes.
Qed.

(** A byte in decimal: one to three digits. *)
Definition byte_text (s : bytes) : Prop := Forall (fun c => isdigit c = true) s /\ (1 <= length s <= 3)%nat.

Lemma to_string_byte b : is_byte b -> byte_text (to_string b).
Proof.
  intros Hb. assert (forallb (fun b => forallb isdigit (to_string b) &&
    (1 <=? length (to_string b))%nat && (length (to_string b) <=? 3)%nat) (seqZ 0 256) = true) as H
    by (vm_compute; reflexivity).
  rewrite forallb_forall in H. specialize (H b).
  rewrite !andb_true_iff, !Nat.leb_le, forallb_forall in H.
  destruct H as [[H1 H2] H3]. { apply list_elem_of_In, elem_of_seqZ. unfold is_byte in Hb. lia. }
  split; [|lia]. apply Forall_forall. intros c Hc. apply H1. by apply list_elem_of_In.
Qed.

Lemma byte_text_char s c : byte_text s -> isdigit c = false -> c ∉ s.
Proof. intros [H _] Hc Hin. rewrite Forall_forall in H. specialize (H c Hin). congruence. Qed.

(** The four components of an address. *)
Lemma quad_texts a : exists s0 s1 s2 s3, map to_string (le_bytes 4 a) = [s0; s1; s2; s3] /\
  byte_text s0 /\ byte_text s1 /\ byte_text s2 /\ byte_text s3.
Proof.
  pose proof (is_bytes_le_bytes 4 a) as H. cbn [le_bytes] in *. cbn [map].
  unfold is_bytes in H. rewrite !Forall_cons in H. destruct H as (? & ? & ? & ? & _).
  do 4 eexists. split; [done|]. split_and!; by apply to_string_byte.
Qed.

Lemma quad_length a : 7 <= zlen (quad a) <= 15.
Proof.
  unfold quad. destruct (quad_texts a) as (s0 & s1 & s2 & s3 & -> & [_ ?] & [_ ?] & [_ ?] & [_ ?]).
  cbn [HStr.join]. rewrite !zlen_app. change (zlen (str ".")) with 1. unfold zlen. lia.
Qed.

Lemma quad_split a : HStr.Split (quad a) (str ".") [] 0 = Some (Ret (OK, map to_string (le_bytes 4 a))).
Proof.
  pose proof (quad_length a) as Hl. unfold quad in *. change (str ".") with [46] in *.
  destruct (quad_texts a) as (s0 & s1 & s2 & s3 & E & H0 & H1 & H2 & H3). rewrite E in *.
  rewrite (HMstr.Split_of_join 46 [s0; s1; s2; s3] []); [done|done| | |].
  - rewrite !Forall_cons. split_and!; try (eapply byte_text_char; done). constructor.
  - intros Hn. rewrite Hn in Hl. unfold zlen in Hl. cbn in Hl. lia.
  - unfold npos. lia.
Qed.

(** A dotted address has no character but digits and dots. *)
Lemma quad_chars a c : c ∈ quad a -> isdigit c = true \/ c = 46.
Proof.
  unfold quad. destruct (quad_texts a) as (s0 & s1 & s2 & s3 & -> & [H0 _] & [H1 _] & [H2 _] & [H3 _]).
  rewrite Forall_forall in *. cbn [HStr.join]. change (str ".") with [46].
  rewrite !elem_of_app, !list_elem_of_singleton. naive_solver.
Qed.

Lemma mem_digits_dot c : mem c (str "1234567890.") = isdigit c || (c =? 46).
Proof.
  change (str "1234567890.") with [49; 50; 51; 52; 53; 54; 55; 56; 57; 48; 46].
  apply Bool.eq_iff_eq_true. unfold isdigit. unfold mem; cbn [existsb]. rewrite !orb_true_iff, andb_true_iff. lia.
Qed.

Lemma isdigit_find ip : (forall c, c ∈ ip -> isdigit c = true \/ c = 46) -> HIp4Addr.is_ip_str ip = true.
Proof.
  intros H. unfold HIp4Addr.is_ip_str. apply bool_decide_eq_true. unfold find_first_not_of.
  rewrite find_first_None, Forall_forall. intros c Hc. rewrite mem_digits_dot.
  by destruct (H c Hc) as [-> | ->].
Qed.

Lemma find_char_app (c : Z) (l r : bytes) : c ∉ l -> find (l ++ c :: r) [c] 0 = Some (length l).
Proof.
  intros Hc. rewrite find_Some. split; [lia|]. split.
  - split; [rewrite length_app; lia|]. rewrite drop_app_length. cbn. by rewrite Z.eqb_refl.
  - intros j Hj. destruct (lookup_lt_is_Some_2 l j ltac:(lia)) as [d Hd].
    rewrite (drop_S _ d) by (by apply lookup_app_l_Some). cbn. rewrite andb_true_r.
    apply Z.eqb_neq. intros ->. apply Hc. by eapply list_elem_of_lookup_2.
Qed.

Lemma quad_c_str a : c_str (quad a) = quad a.
Proof.
  apply c_str_id. rewrite Forall_forall. intros c Hc. destruct (quad_chars a c Hc) as [H| ->]; [|done].
  unfold isdigit in H. lia.
Qed.

Lemma to_string_port p : 0 <= p < 2 ^ 16 -> (1 <= length (to_string p) <= 20)%nat.
Proof.
  intros Hp. unfold to_string. ztest. split.
  - destruct (dec_digits_cons 19 p []) as (c & ds & ->). cbn. lia.
  - apply (length_dec_digits 20).
Qed.

(** A component that [IsIp4Str] accepts. *)
Definition ip_component (s : bytes) : Prop :=
  s <> [] /\ Forall (fun c => isdigit c = true) s /\ digits_val s <= 255.

(** The loop of [IsIp4Str] says what it is meant to say, or throws at an empty
    component. *)
Lemma all_ip_num_true ps : HIp4Addr.all_ip_num ps = Ret true <-> Forall ip_component ps.
Proof.
  induction ps as [|p ps IH]; [done|]. cbn [HIp4Addr.all_ip_num]. rewrite Forall_cons, <- IH.
  unfold ip_component. destruct (HStr.IsAllDigit p) eqn:Ed; cbn [negb].
  - apply IsAllDigit_spec in Ed. pose proof (digits_val_nonneg p Ed) as Hv. unfold HStr.ToN, stoi.
    destruct p as [|c p]; [cbn; naive_solver|]. rewrite strtol_digits by done.
    case_decide as Hr; cbn [mbind res_bind].
    + destruct (Z.leb_spec (digits_val (c :: p)) 255) as [H|H].
      * ztest. split; [|by intros [_ ?]]. intros Hp. by split_and!.
      * rewrite andb_false_r. cbn [negb]. split; [done|]. intros ((_ & _ & H1) & _). lia.
    + split; [done|]. intros ((_ & _ & H1) & _). exfalso. apply Hr. ints.
  - split; [done|]. intros ((_ & H & _) & _). apply IsAllDigit_spec in H. congruence.
Qed.

(** ** The C library's functions, as their manual page describes them *)

(** [inet_addr] reads what [inet_ntoa] prints. *)
#[export] Instance inet_model : InetLib := {
  inet_addr s := match HStr.Split s (str ".") [] 0 with
                 | Some (Ret (_, ps)) => le_combine (map (fun p => match stoi p with Ret n => n | Throw _ => 0 end) ps)
                 | _ => 2 ^ 32 - 1
                 end;
  inet_ntoa := quad;
  inet_lnaof a := if (192 <=? a mod 256) && (a mod 256 <? 224) then a / 2 ^ 24 else 0 }.

#[export] Instance inet_model_laws : InetLaws.
Proof.
  split.
  - done.
  - intros a Ha. cbn [inet_addr inet_model]. rewrite quad_split, map_map.
    rewrite <- (Z.mod_small a (2 ^ (8 * Z.of_nat 4))) at 2 by done. rewrite <- le_combine_le_bytes.
    f_equal. pose proof (is_bytes_le_bytes 4 a) as H. induction H as [|b l Hb _ IH]; [done|].
    cbn [map]. rewrite IH. f_equal. unfold is_byte in Hb. rewrite stoi_to_string; [done|]. ints.
  - intros a Ha [H1 H2]. cbn [inet_lnaof inet_model]. by ztest.
Qed.

(** ** Properties *)

Lemma ToString_Parse_ok `{InetLaws} port ip :
  0 <= port < 2 ^ 16 -> 0 <= ip < 2 ^ 32 ->
  let a := HIp4Addr.Mk HIp4Addr.AF_INET (htons port) ip in
  exists s, HIp4Addr.ToString a = Ret s /\ HIp4Addr.ParseNetFromString s = Ret (OK, a).
Proof.
  intros Hp Hip a. exists (quad ip ++ 58 :: to_string port).
  pose proof (quad_length ip) as Hl. pose proof (to_string_port port Hp) as Hs.
  assert (Forall (fun c => c <> 0) (quad ip ++ 58 :: to_string port)) as Hz.
  { rewrite Forall_forall. intros c [Hc|[->|Hc]%elem_of_cons]%elem_of_app; [|done|].
    - destruct (quad_chars _ _ Hc) as [Hd| ->]; [unfold isdigit in Hd; lia|done].
    - apply to_string_digits in Hc; [|lia]. unfold isdigit in Hc. lia. }
  split.
  - unfold HIp4Addr.ToString, HIp4Addr.GetAddrInfo. cbn [HIp4Addr.sin_addr HIp4Addr.sin_port a].
    change (negb (IS_OK OK)) with false. cbv beta iota. rewrite inet_ntoa_quad by done. rewrite quad_c_str.
    unfold ntohs. rewrite htons_involutive by lia. apply HStr.vFormat_ok; [|done].
    change (HStr.HSTRING_LEN) with 2048. change (str ":") with [58]. rewrite !zlen_app.
    unfold zlen in *. cbn [length]. lia.
  - unfold HIp4Addr.ParseNetFromString. change (str ":") with [58].
    rewrite find_char_app by (intros Hc; destruct (quad_chars _ _ Hc); done).
    replace (Z.of_nat (length (quad ip)) =? u64 (zlen (quad ip ++ 58 :: to_string port) - 1)) with false.
    2: { rewrite zlen_app, zlen_cons, u64_id by (unfold zlen in *; lia). unfold zlen in *. lia. }
    unfold substr. rewrite decide_True by lia. cbn [mbind res_bind].
    rewrite Z.min_l by (rewrite zlen_app; unfold zlen in *; lia). rewrite Nat2Z.id, drop_0, take_app_length.
    rewrite isdigit_find by apply quad_chars. cbn [negb].
    unfold substr_from. rewrite decide_True by (rewrite length_app; cbn; lia).
    cbn [mbind res_bind]. rewrite <- drop_drop, drop_app_length. cbn [drop]. rewrite drop_0.
    unfold HStr.ToN. rewrite stoi_to_string by ints. cbn [mbind res_bind].
    unfold HIp4Addr.SetupNetWithIpString. rewrite quad_c_str, inet_addr_quad, u16_id by done. done.
Qed.

(** C37: The text of an address, [ip:port], is read back as the same address: what
    [ToString] prints, [ParseNetFromString] accepts and turns into the same
    family, port and address. *)
Theorem ToString_ParseNetFromString `{InetLaws} port ip :
  0 <= port < 2 ^ 16 -> 0 <= ip < 2 ^ 32 ->
  let a := HIp4Addr.Mk HIp4Addr.AF_INET (htons port) ip in
  exists s, HIp4Addr.ToString a = Ret s /\ HIp4Addr.ParseNetFromString s = Ret (OK, a).
Proof. exact (ToString_Parse_ok port ip). Qed.

Lemma ToString_ParseNetFromString_witness :
  let a := HIp4Addr.Mk HIp4Addr.AF_INET (htons 8080) (htonl 0xC0A80105) in
  exists s, HIp4Addr.ToString a = Ret s /\ HIp4Addr.ParseNetFromString s = Ret (OK, a).
Proof. apply (ToString_ParseNetFromString 8080 (htonl 0xC0A80105)); split; by vm_compute. Defined.

(** [IsIp4Str] is true of exactly the strings of at most fifteen characters that
    are four non-empty runs of digits, each at most 255, joined by dots (leading
    zeros included); in particular of everything [inet_ntoa] prints. *)
Theorem IsIp4Str_spec s :
  (HIp4Addr.IsIp4Str s = Ret true <->
   zlen s <= 15 /\ exists ps, length ps = 4%nat /\ s = HStr.join (str ".") ps /\ Forall ip_component ps) /\
  (forall a, HIp4Addr.IsIp4Str (quad a) = Ret true).
Proof.
  assert (forall s, HIp4Addr.IsIp4Str s = Ret true <->
    zlen s <= 15 /\ exists ps, length ps = 4%nat /\ s = HStr.join (str ".") ps /\ Forall ip_component ps) as L.
  2: { split; [apply L|]. intros a. apply L. split; [apply quad_length|].
       destruct (quad_texts a) as (s0 & s1 & s2 & s3 & E & _). exists [s0; s1; s2; s3].
       unfold quad. rewrite E. split_and!; [done|done|]. rewrite <- E.
       apply Forall_map. eapply Forall_impl; [apply (is_bytes_le_bytes 4 a)|]. intros b Hb.
       destruct (to_string_byte b Hb) as [Hd Hl]. split_and!; [intros E0; rewrite E0 in Hl; cbn in Hl; lia|done|].
       pose proof (stoi_to_string b ltac:(unfold is_byte in Hb; ints)) as Hst. unfold stoi in Hst.
       destruct (to_string b) as [|c t] eqn:Et; [cbn in Hl; lia|]. rewrite strtol_digits in Hst by done.
       case_decide; [|done]. injection Hst as ->. unfold is_byte in Hb. lia. }
  clear s. intros s. unfold HIp4Addr.IsIp4Str. change (str ".") with [46].
  rewrite Z.gtb_ltb. destruct (Z.ltb_spec 15 (zlen s)) as [Hlt|Hle]; [split; [done|]; intros [? _]; lia|].
  destruct (decide (s = [])) as [->|Hs].
  { split; [done|]. intros [_ (ps & Hl & Hj & HF)].
    destruct ps as [|p [|q ps]]; [done|done|]. cbn in Hj. by destruct p. }
  destruct (HStr.Split_unfold s [46] [] 0) as (ps & -> & Hps & Hj & HF); [done|done|unfold npos; lia|lia|].
  cbn [mbind res_bind app]. rewrite drop_0 in Hj. unfold IS_OK. rewrite bool_decide_true by done. cbn [negb].
  assert (Forall (fun x => 46 ∉ x) ps) as HF'.
  { eapply Forall_impl; [exact HF|]. apply HMstr.no_occ_char. }
  assert (forall qs, length qs = 4%nat -> s = HStr.join [46] qs -> Forall ip_component qs -> qs = ps) as Huniq.
  { intros qs Hq Hjq Hc. apply (HMstr.join_inj 46); [by destruct qs|done| |done|congruence].
    eapply Forall_impl; [exact Hc|]. intros q (_ & Hd & _) Hin. rewrite Forall_forall in Hd. by apply Hd in Hin. }
  destruct (Z.eqb_spec (zlen ps) 4) as [H4|H4]; cbn [negb].
  - rewrite all_ip_num_true. split.
    + intros Hc. split; [done|]. exists ps. split_and!; [unfold zlen in H4; lia|done|done].
    + intros (_ & qs & Hq & Hjq & Hc). by rewrite <- (Huniq qs).
  - split; [done|]. intros (_ & qs & Hq & Hjq & Hc). rewrite <- (Huniq qs) in H4 by done. unfold zlen in H4. lia.
Qed.

(** An empty component is not rejected but throws. *)
Example IsIp4Str_throws : HIp4Addr.IsIp4Str (str "1..2.3") = Throw StdInvalidArgument.
Proof. vm_compute. reflexivity. Qed.

(** An interface whose address [GetLocalAddr] would take. *)
Definition usable (p : HIp4Addr.ifaddr) : option Z :=
  if HIp4Addr.ifa_up p && negb (HIp4Addr.ifa_loopback p) then
    match HIp4Addr.ifa_addr p with
    | Some a =>
      if (HIp4Addr.family a =? HIp4Addr.AF_INET) && negb (HIp4Addr.is_bad_address4_for_us (HIp4Addr.s_addr a))
      then Some (HIp4Addr.s_addr a) else None
    | None => None
    end
  else None.

Lemma htonl_zero a : 0 <= a < 2 ^ 32 -> htonl a = 0 -> a = 0.
Proof. intros Ha E. rewrite <- (htonl_involutive a Ha), E. done. Qed.

Lemma local_loop_kept ifs ss : HIp4Addr.addressIsNull ss = false -> HIp4Addr.local_loop ifs ss = ss.
Proof.
  intros Hn. induction ifs as [|p ifs IH]; [done|]. cbn [HIp4Addr.local_loop]. rewrite IH.
  destruct (_ || _); [done|]. destruct (HIp4Addr.ifa_addr p) as [a|]; [|done].
  rewrite Hn, andb_false_r. by destruct (HIp4Addr.isBadAddressForUs a).
Qed.

(** [GetLocalAddr] finds the first interface that is up, is no loopback and has
    an IPv4 address that is neither 127.0.0.1 nor all zeros nor all ones;
    without one, or without a list of interfaces, the address is zero. *)
Theorem GetLocalAddr_first ifs ss :
  HIp4Addr.GetLocalAddr (Some ifs) ss
  = HIp4Addr.Sa (HIp4Addr.Mk HIp4Addr.AF_INET (HIp4Addr.sin_port (HIp4Addr.as_in ss)) (default 0 (head (omap usable ifs))))
      (HIp4Addr.s6_addr ss) /\
  HIp4Addr.GetLocalAddr None ss =
    HIp4Addr.Sa (HIp4Addr.Mk HIp4Addr.AF_INET (HIp4Addr.sin_port (HIp4Addr.as_in ss)) 0) (HIp4Addr.s6_addr ss).
Proof.
  split; [|done]. unfold HIp4Addr.GetLocalAddr. induction ifs as [|p ifs IH]; [done|].
  cbn [HIp4Addr.local_loop omap list_omap]. unfold usable at 1.
  destruct (HIp4Addr.ifa_up p), (HIp4Addr.ifa_loopback p); try exact IH. cbn [negb andb orb].
  destruct (HIp4Addr.ifa_addr p) as [a|] eqn:Ea; [|exact IH]. unfold HIp4Addr.isBadAddressForUs.
  destruct (Z.eqb_spec (HIp4Addr.family a) HIp4Addr.AF_INET) as [Ef|]; [|exact IH]. cbn [andb].
  destruct (HIp4Addr.is_bad_address4_for_us (HIp4Addr.s_addr a)) eqn:Eb; [exact IH|]. cbn [negb head default].
  unfold HIp4Addr.addressIsNull at 1. cbn [HIp4Addr.family HIp4Addr.as_in HIp4Addr.sin_family HIp4Addr.s_addr HIp4Addr.sin_addr].
  rewrite !Z.eqb_refl. cbn [HIp4Addr.copyAddress]. rewrite Ef, Z.eqb_refl. apply local_loop_kept.
  unfold HIp4Addr.addressIsNull. cbn. apply Z.eqb_neq. intros E. rewrite E in Eb. by vm_compute in Eb.
Qed.

(** What is copied is an address of the same family, null when the source is. *)
Lemma copyAddress_null to from : HIp4Addr.family from = HIp4Addr.AF_INET \/ HIp4Addr.family from = HIp4Addr.AF_INET6 ->
  HIp4Addr.family (HIp4Addr.copyAddress to (Some from)) = HIp4Addr.family from /\
  HIp4Addr.addressIsNull (HIp4Addr.copyAddress to (Some from)) = HIp4Addr.addressIsNull from.
Proof. unfold HIp4Addr.addressIsNull. cbn [HIp4Addr.copyAddress]. by intros [E|E]; rewrite !E. Qed.

(** An address in host order survives printing and parsing, and the port a user
    sets is the port [GetAddrInfo] gives, modulo 65536. *)
Theorem host_order_roundtrips `{InetLaws} ll port a :
  0 <= ll < 2 ^ 32 ->
  HIp4Addr.StringIpToInt (HIp4Addr.ToStringIp ll) = ll /\
  (HIp4Addr.GetAddrInfo (HIp4Addr.SetPort a port)).2 = port mod 2 ^ 16 /\
  (HIp4Addr.GetStringFromNet (HIp4Addr.SetPort a port)).2 = htons (port mod 2 ^ 16).
Proof.
  intros Hl. unfold HIp4Addr.StringIpToInt, HIp4Addr.ToStringIp. rewrite (u32_id ll) by done.
  rewrite inet_ntoa_quad by apply htonl_bound. rewrite quad_c_str, inet_addr_quad by apply htonl_bound.
  split; [by apply htonl_involutive|]. cbn [HIp4Addr.GetAddrInfo HIp4Addr.SetPort HIp4Addr.sin_port snd]. split; [|done].
  unfold ntohs, u16, wrapU. apply htons_involutive. apply Z.mod_pos_bound. lia.
Qed.

Lemma host_order_roundtrips_witness :
  HIp4Addr.StringIpToInt (HIp4Addr.ToStringIp 0x7F000001) = 0x7F000001 /\
  (HIp4Addr.GetAddrInfo (HIp4Addr.SetPort HIp4Addr.zero 65616)).2 = 65616 mod 2 ^ 16 /\
  (HIp4Addr.GetStringFromNet (HIp4Addr.SetPort HIp4Addr.zero 65616)).2 = htons (65616 mod 2 ^ 16).
Proof. apply host_order_roundtrips. by vm_compute. Defined.

(** [GetIpInt] gives the host part of a class C address, not the address. *)
Example GetIpInt_host_part :
  HIp4Addr.GetIpInt (HIp4Addr.Mk HIp4Addr.AF_INET 0 (htonl 0xC0A80105)) = 5.
Proof. vm_compute. reflexivity. Qed.

(** A route line that [sscanf] reads to the end. *)
Definition complete (r : network_detail.route) : Prop :=
  is_Some (network_detail.r_gate r) /\ is_Some (network_detail.r_flags r).

Definition is_gateway (name : bytes) (r : network_detail.route) : bool :=
  bool_decide (network_detail.r_word r = name) && (Z.land (default 0 (network_detail.r_flags r)) 3 =? 3).

(** [GetGateWay] is the gateway column of the first line of the routing table,
    after the header, that is of the interface and has the flags UP and GATEWAY;
    it is INADDR_ANY when there is none or the table cannot be opened. *)
Theorem GetGateWay_spec name hd lines :
  Forall complete lines ->
  network_detail.GetGateWay name (Some (hd :: lines))
  = match List.find (is_gateway name) lines with
    | Some r => u32 (default 0 (network_detail.r_gate r))
    | None => network_detail.INADDR_ANY
    end /\
  network_detail.GetGateWay name None = network_detail.INADDR_ANY.
Proof.
  intros Hl. split; [|done]. cbn [network_detail.GetGateWay tail]. generalize 0 at 1 as g. generalize 0 at 1 as f.
  induction Hl as [|r lines [[g Hg] [f Hf]] _ IH]; intros f0 g0; [done|].
  cbn [network_detail.gateway_loop List.find]. unfold is_gateway at 1. rewrite Hg, Hf. unfold default, id; cbn beta iota.
  change (Z.lor network_detail.RTF_UP network_detail.RTF_GATEWAY) with 3.
  destruct (decide (network_detail.r_word r = name)) as [Hw|Hw].
  - rewrite bool_decide_true by done. cbn [negb andb]. destruct (Z.eqb_spec (Z.land f 3) 3); [|apply IH].
    by rewrite Hg.
  - rewrite bool_decide_false by done. cbn [negb andb]. apply IH.
Qed.

Lemma GetGateWay_spec_witness :
  let eth f g := network_detail.Route (str "eth0") (Some 0) (Some g) (Some f) in
  network_detail.GetGateWay (str "eth0") (Some (eth 0 0 :: [eth 1 5; eth 3 0x0101A8C0]))
  = match List.find (is_gateway (str "eth0")) [eth 1 5; eth 3 0x0101A8C0] with
    | Some r => u32 (default 0 (network_detail.r_gate r))
    | None => network_detail.INADDR_ANY
    end /\
  network_detail.GetGateWay (str "eth0") None = network_detail.INADDR_ANY.
Proof.
  intros eth. apply GetGateWay_spec. repeat constructor; eexists; reflexivity.
Defined.

(** A path of 108 bytes or more is copied past the end of [sun_path]. *)
Theorem unix_path_overruns p :
  HUnixAddr.SUN_PATH <= zlen (c_str p) -> HUnixAddr.init p = Throw UB.
Proof. intros H. unfold HUnixAddr.init, check_ub. by ztest. Qed.

Lemma unix_path_overruns_witness : HUnixAddr.init (replicate 108 97) = Throw UB.
Proof. apply unix_path_overruns. by vm_compute. Defined.

(** When the interfaces cannot be listed or printed, the socket stays open. *)
Example get_local_ips_leaks :
  network_detail.get_local_ips 3 None [] = (SYS_FAILED, [], false) /\
  network_detail.get_local_ips 3 (Some [Some (str "10.0.0.1"); None]) [] = (SYS_FAILED, [str "10.0.0.1"], false).
Proof. split; reflexivity. Qed.
