(* ===== verification/Time.v ===== *)
(** * Time: [src/htime.h], [src/htime.cpp], [src/inl/timespan_inl.h], [src/inl/time_inl.h]

    Spans and points of time over [time_t] (64 bits), the formatter of spans and
    the parser of dates over C strings; [localtime_r], [mktime], [strftime] and
    the clock are arguments.  A C string is read through a pointer: the bytes
    that are left, the zero byte last; reading past it is undefined. *)

From S2P Require Import Prelude StdString CHeap.

(** [sprintf("%0wd", n)] and, for [w] = 0, [sprintf("%d", n)]. *)
Definition fmt_d (w : nat) (n : Z) : bytes :=
  let s := to_string n in
  if n <? 0 then 45 :: replicate (w - length s) 48 ++ tail s else replicate (w - length s) 48 ++ s.

(** *** Pointers into C strings *)

Definition deref (p : bytes) : res Z := match p with c :: _ => Ret c | [] => Throw UB end.
Definition advance (p : bytes) : res bytes := match p with _ :: p => Ret p | [] => Throw UB end.

(** The C string of a [std::string] without zero bytes. *)
Definition cstr0 (s : bytes) : bytes := s ++ [0].

Module HTimeSpan.

(** ** Spans *)

Abbreviation t := Z.

(** [timespan(lDays, nHours, nMins, nSecs)]: all of it in [int]. *)
Definition make (lDays nHours nMins nSecs : Z) : res t :=
  a ← sint (24 * lDays); a ← sint (nHours + a); a ← sint (60 * a); a ← sint (nMins + a);
  a ← sint (60 * a); sint (nSecs + a).

Definition GetDays (s : t) : Z := s32 (Z.quot s (24 * 3600)).
Definition GetTotalHours (s : t) : Z := s32 (Z.quot s 3600).
Definition GetHours (s : t) : Z := Z.rem (GetTotalHours s) 24.
Definition GetTotalMinutes (s : t) : Z := s32 (Z.quot s 60).
Definition GetMinutes (s : t) : Z := Z.rem (GetTotalMinutes s) 60.
Definition GetTotalSeconds (s : t) : Z := s32 s.
Definition GetSeconds (s : t) : Z := s32 (Z.rem s 60).

(** [time_t] arithmetic: signed overflow is undefined. *)
Definition slong (z : Z) : res Z := if bool_decide (in_s 64 z) then Ret z else Throw UB.

Definition plus (a b : t) : res t := slong (a + b).
Definition minus (a b : t) : res t := slong (a - b).

(** [+=] and [-=]: the new value of the object. *)
Definition plus_assign (m_span span : t) : res t := slong (m_span + span).
Definition minus_assign (m_span span : t) : res t := slong (m_span - span).

Definition equal (a b : t) : bool := a =? b.
Definition not_equal (a b : t) : bool := negb (a =? b).
Definition less (a b : t) : bool := a <? b.
Definition greater (a b : t) : bool := a >? b.
Definition less_equal (a b : t) : bool := a <=? b.
Definition greater_equal (a b : t) : bool := a >=? b.

(** [sprintf] into a buffer of eight bytes. *)
Definition sprintf8 (s : bytes) : res bytes := _ ← check_ub (zlen s + 1 <=? 8); Ret s.

(** The loop of [tostr]; [p] is the format pointer. *)
Fixpoint tostr_loop (p : bytes) (m_span : t) (s : bytes) : res bytes :=
  match p with
  | [] => Throw UB
  | ch :: p =>
    if ch =? 0 then Ret s
    else if ch =? 37 then
      match p with
      | [] => Throw UB
      | ch :: p =>
        if ch =? 37 then tostr_loop p m_span (s ++ [ch])
        else if ch =? 68 then x ← sprintf8 (fmt_d 0 (GetDays m_span)); tostr_loop p m_span (s ++ x)
        else if ch =? 72 then x ← sprintf8 (fmt_d 2 (GetHours m_span)); tostr_loop p m_span (s ++ x)
        else if ch =? 77 then x ← sprintf8 (fmt_d 2 (GetMinutes m_span)); tostr_loop p m_span (s ++ x)
        else if ch =? 83 then x ← sprintf8 (fmt_d 2 (GetSeconds m_span)); tostr_loop p m_span (s ++ x)
        else tostr_loop p m_span s
      end
    else if ch >? 0x80 then
      match p with
      | [] => Throw UB
      | ch2 :: p => tostr_loop p m_span (s ++ [ch; ch2])
      end
    else tostr_loop p m_span (s ++ [ch])
  end.

Definition tostr (pFormat : option bytes) (m_span : t) : res bytes :=
  match pFormat with
  | None => Ret []
  | Some f => tostr_loop (cstr0 f) m_span []
  end.

Definition default_format : bytes := str "%D/%H/%M/%S".

End HTimeSpan.

Module HTime.

(** ** Points of time *)

(** The fields of [struct tm] the code uses. *)
Record tm : Type := Tm { tm_year : Z; tm_mon : Z; tm_mday : Z; tm_hour : Z; tm_min : Z; tm_sec : Z; tm_wday : Z }.

Definition tm_zero : tm := Tm 0 0 0 0 0 0 0.

Definition set_year v a := Tm v (tm_mon a) (tm_mday a) (tm_hour a) (tm_min a) (tm_sec a) (tm_wday a).
Definition set_mon v a := Tm (tm_year a) v (tm_mday a) (tm_hour a) (tm_min a) (tm_sec a) (tm_wday a).
Definition set_mday v a := Tm (tm_year a) (tm_mon a) v (tm_hour a) (tm_min a) (tm_sec a) (tm_wday a).
Definition set_hour v a := Tm (tm_year a) (tm_mon a) (tm_mday a) v (tm_min a) (tm_sec a) (tm_wday a).
Definition set_min v a := Tm (tm_year a) (tm_mon a) (tm_mday a) (tm_hour a) v (tm_sec a) (tm_wday a).
Definition set_sec v a := Tm (tm_year a) (tm_mon a) (tm_mday a) (tm_hour a) (tm_min a) v (tm_wday a).

Definition TIME_BUF_LEN : Z := 128.

(** [m_time]. *)
Abbreviation t := Z.

(** *** The parser *)

Fixpoint skip_blank (p : bytes) : res bytes :=
  match p with
  | [] => Throw UB
  | c :: p' => if (c =? 32) || (c =? 9) then skip_blank p' else Ret p
  end.

(** Up to the next '%' or the end of the format: the data pointer moves along. *)
Fixpoint literal_loop (pf pd : bytes) : res (bytes * bytes) :=
  match pf with
  | [] => Throw UB
  | ch :: pf' =>
    if (ch =? 37) || (ch =? 0) then Ret (pf, pd)
    else
      ch2 ← deref pf';
      pd ← advance pd;
      if ((ch =? 9) || (ch =? 32)) && negb ((ch2 =? 9) || (ch2 =? 32))
      then pd ← skip_blank pd; literal_loop pf' pd
      else if ch >? 0x80 then
        match pf' with
        | [] => Throw UB
        | _ :: pf' => pd ← advance pd; literal_loop pf' pd
        end
      else literal_loop pf' pd
  end.

(** The digits of a width, and those of a number of at most [width] digits. *)
Fixpoint scan_digits (width : Z) (p : bytes) (acc : bytes) : res (bytes * bytes) :=
  match p with
  | [] => Throw UB
  | c :: p' =>
    if isdigit c && ((width =? -1) || (zlen acc <? width)) then scan_digits width p' (acc ++ [c])
    else Ret (acc, p)
  end.

(** [atoi] of a run of digits: undefined out of the range of [int]. *)
Definition atoi (ds : bytes) : res Z := sint (digits_val ds).

(** The [switch]: the fields, or an unknown flag. *)
Definition set_field (flag val : Z) (atm : tm) : res (option tm) :=
  if flag =? 121 then v ← sint (val + 100); Ret (Some (set_year v atm))
  else if flag =? 89 then v ← sint (val - 1900); Ret (Some (set_year v atm))
  else if flag =? 109 then v ← sint (val - 1); Ret (Some (set_mon v atm))
  else if flag =? 100 then Ret (Some (set_mday val atm))
  else if flag =? 72 then Ret (Some (set_hour val atm))
  else if flag =? 77 then Ret (Some (set_min val atm))
  else if flag =? 83 then Ret (Some (set_sec val atm))
  else Ret None.

(** The outer loop: the fields read, unless the data do not fit the format. *)
Fixpoint fields_loop (fuel : nat) (pf pd : bytes) (atm : tm) : res (option tm) :=
  match fuel with
  | O => Throw Diverge
  | S fuel =>
    c ← deref pf;
    if c =? 0 then Ret (Some atm)
    else
      '(pf, pd) ← literal_loop pf pd;
      c ← deref pf;
      if c =? 0 then Ret (Some atm)
      else
        pf ← advance pf;
        '(w, pf) ← scan_digits (-1) pf [];
        width ← (if bool_decide (w = []) then Ret (-1) else atoi w);
        flag ← deref pf;
        pf ← advance pf;
        if flag =? 37 then
          c ← deref pd;
          pd ← advance pd;
          if c =? 37 then fields_loop fuel pf pd atm
          else _ ← deref pf; Ret None
        else
          '(ds, pd) ← scan_digits width pd [];
          if bool_decide (ds = []) then _ ← deref pf; Ret None
          else
            val ← atoi ds;
            r ← set_field flag val atm;
            match r with
            | Some atm => fields_loop fuel pf pd atm
            | None => _ ← deref pf; Ret None
            end
  end.

(** [FromStr]: the new value of [m_time]. *)
Definition FromStr (mktime : tm -> Z) (m_time : t) (strTime : bytes) (szFormat : option bytes) : res t :=
  match szFormat with
  | None => Ret m_time
  | Some f =>
    if bool_decide (strTime = []) then Ret m_time
    else
      r ← fields_loop (S (length f)) (cstr0 f) (cstr0 strTime) tm_zero;
      Ret (match r with Some atm => mktime atm | None => m_time end)
  end.

Definition default_format : bytes := str "%Y-%m-%d %H:%M:%S".

(** *** The printers *)

(** [localtime_r]. *)
Section clock.
Context (localtime : Z -> tm) (strftime : bytes -> tm -> bytes).

Definition ToString (m_time : t) (strFormat : bytes) : bytes :=
  if m_time =? 0 then str "invalid time"
  else if bool_decide (strFormat = []) then []
  else strftime strFormat (localtime m_time).

(** [snprintf] keeps what fits. *)
Definition GetNow (now : Z) : herr * bytes :=
  let m := localtime now in
  (OK, take (Z.to_nat (TIME_BUF_LEN - 1))
    (fmt_d 4 (tm_year m + 1900) ++ [45] ++ fmt_d 2 (tm_mon m + 1) ++ [45] ++ fmt_d 2 (tm_mday m) ++ [32] ++
     fmt_d 2 (tm_hour m) ++ [58] ++ fmt_d 2 (tm_min m) ++ [58] ++ fmt_d 2 (tm_sec m))).

Definition GetDate (now : Z) : herr * bytes :=
  let m := localtime now in
  (OK, take (Z.to_nat (TIME_BUF_LEN - 1))
    (fmt_d 4 (tm_year m + 1900) ++ [45] ++ fmt_d 2 (tm_mon m + 1) ++ [45] ++ fmt_d 2 (tm_mday m))).

Definition GetYear (m_time : t) : Z := tm_year (localtime m_time) + 1900.
Definition GetMonth (m_time : t) : Z := tm_mon (localtime m_time) + 1.
Definition GetDay (m_time : t) : Z := tm_mday (localtime m_time).
Definition GetHour (m_time : t) : Z := tm_hour (localtime m_time).
Definition GetMinute (m_time : t) : Z := tm_min (localtime m_time).
Definition GetSecond (m_time : t) : Z := tm_sec (localtime m_time).
Definition GetDayOfWeek (m_time : t) : Z := tm_wday (localtime m_time) + 1.

(** The half hour a time falls in. *)
Definition GetTimeGroup (nt : t) : bytes :=
  ToString nt (str "%Y%m%d%H") ++ (if GetMinute nt >? 29 then str "30" else str "00").

Definition GetPrevTimeGroup (now : Z) : res bytes :=
  ts ← HTimeSpan.make 0 0 30 0;
  tb ← HTimeSpan.minus now ts;
  Ret (GetTimeGroup tb).

End clock.

Definition plus_span (time span : Z) : res t := HTimeSpan.plus time span.
Definition minus_span (time span : Z) : res t := HTimeSpan.minus time span.
Definition minus_time (a b : t) : res HTimeSpan.t := HTimeSpan.minus a b.

(** The operators that make a new time. *)
Definition add (time : t) (span : HTimeSpan.t) : res t := HTimeSpan.slong (time + span).
Definition sub (time : t) (span : HTimeSpan.t) : res t := HTimeSpan.slong (time - span).

Definition equal (a b : t) : bool := a =? b.
Definition not_equal (a b : t) : bool := negb (a =? b).
Definition less (a b : t) : bool := a <? b.
Definition greater (a b : t) : bool := a >? b.
Definition less_equal (a b : t) : bool := a <=? b.
Definition greater_equal (a b : t) : bool := a >=? b.

(** [SetAsNow], [Touch] and [GetCurrentTime]: what [time] answers. *)
Definition SetAsNow (now : Z) (_ : t) : t := now.
Definition Touch (now : Z) (_ : t) : t := now.
Definition GetCurrentTime (now : Z) : t := SetAsNow now 0.

End HTime.

Module HMicroTime.

(** ** Microseconds *)

Record t : Type := Tv { tv_sec : Z; tv_usec : Z }.

(** [HMicroTime(micsec)]: the argument counts milliseconds. *)
Definition HMicroTime_int (micsec : Z) : t := Tv (Z.quot micsec 1000) (Z.rem micsec 1000 * 1000).

Definition timeval_dis (tv1 tv2 : t) : Z :=
  (tv_sec tv2 - tv_sec tv1) * 1000 + Z.quot (tv_usec tv2 - tv_usec tv1) 1000.

Definition Distance (self other : t) : Z := timeval_dis self other.
Definition GetMillSec (self now : t) : Z := timeval_dis self now.
Definition Touch (now : t) : t := now.

(** [std::setw(w)] with the fill '0' on a number that is not negative. *)
Definition setw (w : nat) (n : Z) : bytes := fmt_d w n.

Section clock.
Context (localtime : Z -> HTime.tm).

Definition GetDateStr (s : t) : bytes :=
  let m := localtime (tv_sec s) in
  setw 0 (1900 + HTime.tm_year m) ++ [45] ++ setw 2 (1 + HTime.tm_mon m) ++ [45] ++ setw 2 (HTime.tm_mday m).

Definition GetTimeStr (s : t) : bytes :=
  let m := localtime (tv_sec s) in
  setw 0 (1900 + HTime.tm_year m) ++ [45] ++ setw 2 (1 + HTime.tm_mon m) ++ [45] ++ setw 2 (HTime.tm_mday m) ++ [32] ++
  setw 2 (HTime.tm_hour m) ++ [58] ++ setw 2 (HTime.tm_min m) ++ [58] ++ setw 2 (HTime.tm_sec m) ++ [44] ++
  setw 3 (Z.quot (tv_usec s) 1000).

Definition GetTimeTm (s : t) : HTime.tm := localtime (tv_sec s).

End clock.

End HMicroTime.

(** ** Lemmas *)

Lemma digits_val_zeros k s : digits_val (replicate k 48 ++ s) = digits_val s.
Proof. unfold digits_val. rewrite foldl_app. f_equal. induction k as [|k IH]; [done|]. exact IH. Qed.

(** A padded number is a run of digits with that value. *)
Lemma fmt_d_digits w n : 0 <= n < 10 ^ 20 ->
  Forall (fun c => isdigit c = true) (fmt_d w n) /\ fmt_d w n <> [] /\ digits_val (fmt_d w n) = n.
Proof.
  intros Hn. unfold fmt_d, to_string. ztest.
  destruct (dec_digits_cons 19 n []) as (c & ds & E).
  pose proof (dec_digits_digits 20 n [] ltac:(lia) ltac:(constructor)) as HF.
  pose proof (dec_digits_val 20 n [] ltac:(cbn; lia) ltac:(lia)) as Hv. split_and!.
  - apply Forall_app. split; [|done]. by apply Forall_replicate.
  - rewrite E. by destruct (replicate _ _).
  - rewrite digits_val_zeros. exact Hv.
Qed.

Lemma length_fmt_d w n : 0 <= n -> (length (fmt_d w n) <= Nat.max w 20)%nat.
Proof.
  intros Hn. unfold fmt_d, to_string. ztest. rewrite length_app, length_replicate.
  pose proof (length_dec_digits 20 n []) as H. cbn [length] in H. lia.
Qed.

Lemma scan_digits_run ds c rest acc :
  Forall (fun c => isdigit c = true) ds -> isdigit c = false ->
  HTime.scan_digits (-1) (ds ++ c :: rest) acc = Ret (acc ++ ds, c :: rest).
Proof.
  intros Hd Hc. revert acc. induction Hd as [|d ds Hd _ IH]; intros acc; cbn [HTime.scan_digits app].
  - rewrite Hc. by rewrite app_nil_r.
  - rewrite Hd. cbn [andb orb Z.eqb Pos.eqb]. rewrite IH. by rewrite <- app_assoc.
Qed.

Section parser.
Import HTime.

(** A conversion at the head of the format, and a number with its end in the data. *)
Lemma field_step fuel flag pf ds c rest atm v :
  isdigit flag = false -> flag <> 37 ->
  Forall (fun c => isdigit c = true) ds -> ds <> [] -> isdigit c = false -> digits_val ds < 2 ^ 31 ->
  set_field flag (digits_val ds) atm = Ret (Some v) ->
  fields_loop (S fuel) (37 :: flag :: pf) (ds ++ c :: rest) atm = fields_loop fuel pf (c :: rest) v.
Proof.
  intros Hf Hp Hds Hne Hc Hv Hset. cbn [fields_loop deref literal_loop mbind res_bind Z.eqb Pos.eqb orb advance].
  cbn [scan_digits]. rewrite Hf. cbn [andb mbind res_bind]. rewrite bool_decide_true by done.
  cbn [mbind res_bind deref advance]. rewrite (proj2 (Z.eqb_neq flag 37)) by done.
  rewrite scan_digits_run by done. cbn [mbind res_bind app]. rewrite bool_decide_false by done.
  unfold atoi. pose proof (digits_val_nonneg ds Hds). rewrite sint_ok by lia. cbn [mbind res_bind]. by rewrite Hset.
Qed.

(** One literal character in between. *)
Lemma literal_field_step fuel lit flag pf ds c rest atm v :
  lit = 45 \/ lit = 58 \/ lit = 32 -> isdigit flag = false -> flag <> 37 ->
  Forall (fun c => isdigit c = true) ds -> ds <> [] -> isdigit c = false -> digits_val ds < 2 ^ 31 ->
  set_field flag (digits_val ds) atm = Ret (Some v) ->
  fields_loop (S fuel) (lit :: 37 :: flag :: pf) (lit :: ds ++ c :: rest) atm = fields_loop fuel pf (c :: rest) v.
Proof.
  intros Hlit Hf Hp Hds Hne Hc Hv Hset. rewrite <- (field_step fuel flag pf ds c rest atm v) by done.
  destruct ds as [|d ds]; [done|].
  assert ((d =? 32) || (d =? 9) = false) as Hd.
  { apply Forall_cons in Hds as [Hd _]. unfold isdigit in Hd. lia. }
  assert (literal_loop (lit :: 37 :: flag :: pf) (lit :: (d :: ds) ++ c :: rest) =
          literal_loop (37 :: flag :: pf) ((d :: ds) ++ c :: rest)) as E.
  { destruct Hlit as [->|[->| ->]]; cbn [literal_loop deref advance mbind res_bind Z.eqb Pos.eqb orb andb negb app];
      cbn; try done. by rewrite Hd. }
  cbn [fields_loop]. rewrite E. by destruct Hlit as [->|[->| ->]].
Qed.

(** The fields of a [tm] that a text can carry. *)
Definition tm_ok (m : tm) : Prop :=
  0 <= tm_year m + 1900 < 2 ^ 31 /\ 0 <= tm_mon m + 1 < 2 ^ 31 /\ 0 <= tm_mday m < 2 ^ 31 /\
  0 <= tm_hour m < 2 ^ 31 /\ 0 <= tm_min m < 2 ^ 31 /\ 0 <= tm_sec m < 2 ^ 31.

Lemma fmt_d_num w n : 0 <= n < 2 ^ 31 ->
  Forall (fun c => isdigit c = true) (fmt_d w n) /\ fmt_d w n <> [] /\ digits_val (fmt_d w n) = n.
Proof. intros Hn. apply fmt_d_digits. change (10 ^ 20) with 100000000000000000000. lia. Qed.

(** The parser on a date and time with its fields in the default order. *)
Lemma default_fields m w1 w2 w3 w4 w5 w6 : tm_ok m ->
  fields_loop 18 (cstr0 default_format)
    (cstr0 (fmt_d w1 (tm_year m + 1900) ++ [45] ++ fmt_d w2 (tm_mon m + 1) ++ [45] ++ fmt_d w3 (tm_mday m) ++ [32] ++
            fmt_d w4 (tm_hour m) ++ [58] ++ fmt_d w5 (tm_min m) ++ [58] ++ fmt_d w6 (tm_sec m))) tm_zero
  = Ret (Some (Tm (tm_year m) (tm_mon m) (tm_mday m) (tm_hour m) (tm_min m) (tm_sec m) 0)).
Proof.
  intros (Hy & Hmo & Hd & Hh & Hmi & Hs).
  destruct (fmt_d_num w1 _ Hy) as (Y1 & Y2 & Y3), (fmt_d_num w2 _ Hmo) as (O1 & O2 & O3),
    (fmt_d_num w3 _ Hd) as (D1 & D2 & D3), (fmt_d_num w4 _ Hh) as (H1 & H2 & H3),
    (fmt_d_num w5 _ Hmi) as (I1 & I2 & I3), (fmt_d_num w6 _ Hs) as (S1 & S2 & S3).
  change (cstr0 default_format) with
    (37 :: 89 :: 45 :: 37 :: 109 :: 45 :: 37 :: 100 :: 32 :: 37 :: 72 :: 58 :: 37 :: 77 :: 58 :: 37 :: 83 :: [0]).
  unfold cstr0. rewrite <- !app_assoc. cbn [app].
  set (a1 := set_year (tm_year m) tm_zero). set (a2 := set_mon (tm_mon m) a1). set (a3 := set_mday (tm_mday m) a2).
  set (a4 := set_hour (tm_hour m) a3). set (a5 := set_min (tm_min m) a4). set (a6 := set_sec (tm_sec m) a5).
  assert (set_field 89 (tm_year m + 1900) tm_zero = Ret (Some a1) /\ set_field 109 (tm_mon m + 1) a1 = Ret (Some a2) /\
    set_field 100 (tm_mday m) a2 = Ret (Some a3) /\ set_field 72 (tm_hour m) a3 = Ret (Some a4) /\
    set_field 77 (tm_min m) a4 = Ret (Some a5) /\ set_field 83 (tm_sec m) a5 = Ret (Some a6)) as (F1 & F2 & F3 & F4 & F5 & F6).
  { cbn [set_field Z.eqb Pos.eqb]. rewrite !sint_ok, !Z.add_simpl_r by lia. done. }
  rewrite <- Y3 in F1. rewrite <- O3 in F2. rewrite <- D3 in F3. rewrite <- H3 in F4. rewrite <- I3 in F5. rewrite <- S3 in F6.
  rewrite (field_step _ 89 _ _ 45 _ _ a1 eq_refl ltac:(discriminate) Y1 Y2 eq_refl ltac:(lia) F1).
  rewrite (literal_field_step _ 45 109 _ _ 45 _ _ a2 ltac:(by left) eq_refl ltac:(discriminate) O1 O2 eq_refl ltac:(lia) F2).
  rewrite (literal_field_step _ 45 100 _ _ 32 _ _ a3 ltac:(by left) eq_refl ltac:(discriminate) D1 D2 eq_refl ltac:(lia) F3).
  rewrite (literal_field_step _ 32 72 _ _ 58 _ _ a4 ltac:(by right; right) eq_refl ltac:(discriminate) H1 H2 eq_refl ltac:(lia) F4).
  rewrite (literal_field_step _ 58 77 _ _ 58 _ _ a5 ltac:(by right; left) eq_refl ltac:(discriminate) I1 I2 eq_refl ltac:(lia) F5).
  rewrite (literal_field_step _ 58 83 _ _ 0 _ _ a6 ltac:(by right; left) eq_refl ltac:(discriminate) S1 S2 eq_refl ltac:(lia) F6).
  reflexivity.
Qed.

(** C38: What [GetNow] prints, [FromStr] reads: parsing the text of the current time with
    the default format gives [mktime] the same year, month, day, hour, minute
    and second, whatever the local time is. *)
Theorem GetNow_FromStr localtime mktime now m_time :
  tm_ok (localtime now) ->
  let m := localtime now in
  FromStr mktime m_time (GetNow localtime now).2 (Some default_format)
  = Ret (mktime (Tm (tm_year m) (tm_mon m) (tm_mday m) (tm_hour m) (tm_min m) (tm_sec m) 0)).
Proof.
  intros Hok m. unfold GetNow. fold m. cbn [snd].
  set (s := fmt_d 4 _ ++ _).
  assert (length s <= 127)%nat as Hlen.
  { pose proof Hok as (Hy & Hmo & Hd & Hh & Hmi & Hs). fold m in Hy, Hmo, Hd, Hh, Hmi, Hs. unfold s. rewrite !length_app.
    pose proof (length_fmt_d 4 (tm_year m + 1900)). pose proof (length_fmt_d 2 (tm_mon m + 1)).
    pose proof (length_fmt_d 2 (tm_mday m)). pose proof (length_fmt_d 2 (tm_hour m)).
    pose proof (length_fmt_d 2 (tm_min m)). pose proof (length_fmt_d 2 (tm_sec m)). cbn [length]. lia. }
  rewrite take_ge by (change (Z.to_nat (TIME_BUF_LEN - 1)) with 127%nat; lia).
  unfold FromStr. rewrite bool_decide_false.
  2: { destruct (fmt_d_num 4 (tm_year m + 1900) ltac:(apply Hok)) as (_ & Hne & _). unfold s.
       by destruct (fmt_d 4 (tm_year m + 1900)). }
  change (S (length default_format)) with 18%nat. unfold s. by rewrite default_fields.
Qed.

Lemma GetNow_FromStr_witness :
  let lt := fun _ => Tm 125 6 8 9 5 0 2 in
  FromStr (fun m => tm_mday m + tm_hour m * 100) 0 (GetNow lt 7).2 (Some default_format)
  = Ret ((fun m => tm_mday m + tm_hour m * 100) (Tm 125 6 8 9 5 0 0)).
Proof. intros lt. apply (GetNow_FromStr lt). repeat split; by vm_compute. Defined.

(** *** The parser ends *)

Lemma literal_loop_shrinks pf pd pf' pd' : literal_loop pf pd = Ret (pf', pd') -> (length pf' <= length pf)%nat.
Proof.
  remember (length pf) as n eqn:Hn. assert (length pf <= n)%nat as Hle by lia. rewrite Hn. clear Hn.
  revert pf pd Hle. induction n as [|n IH]; intros pf pd Hle; (destruct pf as [|ch pf]; [done|]); cbn [length] in *; [lia|].
  cbn [literal_loop]. destruct ((ch =? 37) || (ch =? 0)); [by intros [= <- <-]|].
  destruct pf as [|c2 pf]; [done|]. destruct pd as [|d pd]; [done|]. cbn [deref advance mbind res_bind].
  destruct (((ch =? 9) || (ch =? 32)) && negb ((c2 =? 9) || (c2 =? 32))).
  - destruct (skip_blank pd) as [pd1|]; [|done]. cbn [mbind res_bind]. intros E. apply IH in E; cbn in *; lia.
  - destruct (ch >? 0x80); intros E.
    + destruct pd as [|d2 pd]; [done|]. cbn [advance mbind res_bind] in E. apply IH in E; cbn in *; lia.
    + apply IH in E; cbn in *; lia.
Qed.

Lemma scan_digits_shrinks w p acc ds p' : scan_digits w p acc = Ret (ds, p') -> (length p' <= length p)%nat.
Proof.
  revert acc. induction p as [|c p IH]; intros acc; cbn [scan_digits]; [done|].
  destruct (_ && _); [|by intros [= <- <-]]. intros E%IH. cbn. lia.
Qed.

Lemma literal_loop_ends pf pd : literal_loop pf pd <> Throw Diverge.
Proof.
  remember (length pf) as n eqn:Hn. assert (length pf <= n)%nat as Hle by lia. clear Hn.
  revert pf pd Hle. induction n as [|n IH]; intros pf pd Hle; (destruct pf as [|ch pf]; [done|]); cbn [length] in *; [lia|].
  cbn [literal_loop]. destruct ((ch =? 37) || (ch =? 0)); [done|].
  destruct pf as [|c2 pf]; [done|]. destruct pd as [|d pd]; [done|]. cbn [deref advance mbind res_bind].
  destruct (((ch =? 9) || (ch =? 32)) && negb ((c2 =? 9) || (c2 =? 32))).
  - assert (forall p, skip_blank p <> Throw Diverge) as Hs.
    { intros p. induction p as [|c p IHp]; cbn; [done|]. by destruct (_ || _). }
    specialize (Hs pd). destruct (skip_blank pd) as [pd1|]; [|by intros [= ->]]. cbn [mbind res_bind]. apply IH. lia.
  - destruct (ch >? 0x80).
    + destruct pd as [|d2 pd]; [done|]. cbn [advance mbind res_bind]. apply IH. cbn in *. lia.
    + apply IH. lia.
Qed.

Lemma scan_digits_ends w p acc : scan_digits w p acc <> Throw Diverge.
Proof. revert acc. induction p as [|c p IH]; intros acc; cbn [scan_digits]; [done|]. by destruct (_ && _). Qed.

Lemma atoi_ends ds : atoi ds <> Throw Diverge.
Proof. unfold atoi, sint. by case_bool_decide. Qed.

Lemma set_field_ends flag val atm : set_field flag val atm <> Throw Diverge.
Proof.
  unfold set_field, sint. repeat match goal with |- context [if ?b then _ else _] => destruct b end; done.
Qed.

(** A bind that can only fail to return when its parts do. *)
Lemma bind_ends {A B} (m : res A) (f : A -> res B) :
  m <> Throw Diverge -> (forall a, m = Ret a -> f a <> Throw Diverge) -> (m ≫= f) <> Throw Diverge.
Proof. destruct m as [a|e]; cbn; [|congruence]. intros _ H. by apply H. Qed.

Lemma deref_ends p : deref p <> Throw Diverge.
Proof. by destruct p. Qed.

Lemma advance_ends p : advance p <> Throw Diverge.
Proof. by destruct p. Qed.

Lemma advance_length p p' : advance p = Ret p' -> length p = S (length p').
Proof. destruct p; [done|]. by intros [= ->]. Qed.

Lemma fields_loop_ends fuel pf pd atm : (length pf < 2 * fuel)%nat -> fields_loop fuel pf pd atm <> Throw Diverge.
Proof.
  revert pf pd atm. induction fuel as [|fuel IH]; intros pf pd atm Hf; [lia|]. cbn [fields_loop].
  apply bind_ends; [apply deref_ends|]. intros c _. destruct (c =? 0); [done|].
  apply bind_ends; [apply literal_loop_ends|]. intros [pf1 pd1] E1%literal_loop_shrinks.
  apply bind_ends; [apply deref_ends|]. intros c1 _. destruct (c1 =? 0); [done|].
  apply bind_ends; [apply advance_ends|]. intros pf2 E2%advance_length.
  apply bind_ends; [apply scan_digits_ends|]. intros [w pf3] E3%scan_digits_shrinks.
  apply bind_ends; [case_bool_decide; [done|apply atoi_ends]|]. intros width _.
  apply bind_ends; [apply deref_ends|]. intros flag _.
  apply bind_ends; [apply advance_ends|]. intros pf4 E4%advance_length.
  assert (length pf4 < 2 * fuel)%nat as Hlt by lia.
  assert ((deref pf4 ≫= fun _ => Ret (@None tm)) <> Throw Diverge) as Hbad by (apply bind_ends; [apply deref_ends|done]).
  destruct (flag =? 37).
  - apply bind_ends; [apply deref_ends|]. intros c2 _. apply bind_ends; [apply advance_ends|]. intros pd2 _.
    destruct (c2 =? 37); [by apply IH|exact Hbad].
  - apply bind_ends; [apply scan_digits_ends|]. intros [ds pd2] _. case_bool_decide; [exact Hbad|].
    apply bind_ends; [apply atoi_ends|]. intros val _. apply bind_ends; [apply set_field_ends|].
    intros [a|] _; [by apply IH|exact Hbad].
Qed.

(** [FromStr] ends for every text and every format. *)
Theorem FromStr_ends mktime m_time s f : FromStr mktime m_time s f <> Throw Diverge.
Proof.
  destruct f as [f|]; [|done]. cbn [FromStr]. case_bool_decide; [done|].
  apply bind_ends; [|by intros [a|]]. apply fields_loop_ends. unfold cstr0. rewrite length_app. cbn [length]. lia.
Qed.

(** A text that ends before the literal characters of the format do is read past
    its end, and so is a format that ends with '%'. *)
Example FromStr_overreads mktime m :
  FromStr mktime m (str "2025") (Some default_format) = Throw UB /\
  FromStr mktime m (str "5") (Some (str "%d%")) = Throw UB.
Proof. split; vm_compute; reflexivity. Qed.

End parser.

(** *** Spans *)

Section spans.
Import HTimeSpan.

Lemma fmt_d_two n : 0 <= n < 60 -> zlen (fmt_d 2 n) = 2.
Proof.
  intros Hn. assert (forallb (fun n => zlen (fmt_d 2 n) =? 2) (seqZ 0 60) = true) as H by (vm_compute; reflexivity).
  rewrite forallb_forall in H. apply Z.eqb_eq, H, list_elem_of_In, elem_of_seqZ. lia.
Qed.

(** The number of digits of a small number. *)
Lemma length_dec_digits_lt k f n acc :
  (1 <= k)%nat -> 0 <= n < 10 ^ Z.of_nat k -> (length (dec_digits f n acc) <= k + length acc)%nat.
Proof.
  intros Hk. revert f n acc. induction Hk as [|k Hk IH]; intros [|f] n acc Hn; cbn [dec_digits]; try lia.
  - rewrite (Z.div_small n 10) by exact Hn. done.
  - destruct (n / 10 =? 0); [cbn [length]; lia|]. rewrite Nat2Z.inj_succ, Z.pow_succ_r in Hn by lia.
    etransitivity; [apply IH|cbn [length]; lia]. split; [apply Z.div_pos; lia|apply Z.div_lt_upper_bound; lia].
Qed.

(** A span made of days, hours, minutes and seconds in their ranges is taken
    apart into the same numbers, and printed as them by the default format;
    [tostr] copes with less than ten million days. *)
Theorem span_components d h m s :
  0 <= d -> 0 <= h < 24 -> 0 <= m < 60 -> 0 <= s < 60 -> 86400 * (d + 1) <= 2 ^ 31 ->
  exists sp, make d h m s = Ret sp /\
    (GetDays sp, GetHours sp, GetMinutes sp, GetSeconds sp) = (d, h, m, s) /\
    tostr (Some default_format) sp
    = Ret (fmt_d 0 d ++ str "/" ++ fmt_d 2 h ++ str "/" ++ fmt_d 2 m ++ str "/" ++ fmt_d 2 s).
Proof.
  intros Hd Hh Hm Hs Hb. exists (s + 60 * (m + 60 * (h + 24 * d))).
  assert (make d h m s = Ret (s + 60 * (m + 60 * (h + 24 * d)))) as ->.
  { unfold make. rewrite !sint_ok by lia. cbn [mbind res_bind]. repeat (rewrite sint_ok by lia; cbn [mbind res_bind]).
    do 2 f_equal; lia. }
  split; [done|]. set (sp := s + _).
  assert (Z.quot sp (24 * 3600) = d /\ Z.quot sp 3600 = h + 24 * d /\ Z.quot sp 60 = m + 60 * (h + 24 * d) /\ Z.rem sp 60 = s)
    as (E1 & E2 & E3 & E4).
  { rewrite !Z.quot_div_nonneg, Z.rem_mod_nonneg by lia. unfold sp. split_and!; Z.div_mod_to_equations; lia. }
  assert ((GetDays sp, GetHours sp, GetMinutes sp, GetSeconds sp) = (d, h, m, s)) as E.
  { unfold GetDays, GetHours, GetMinutes, GetSeconds, GetTotalHours, GetTotalMinutes. rewrite E1, E2, E3, E4.
    rewrite (s32_id d), (s32_id (h + 24 * d)), (s32_id (m + 60 * (h + 24 * d))), (s32_id s) by lia.
    rewrite !Z.rem_mod_nonneg by lia. do 3 f_equal; Z.div_mod_to_equations; lia. }
  split; [done|]. injection E as ED EH EM ES. unfold tostr.
  change (cstr0 default_format) with [37; 68; 47; 37; 72; 47; 37; 77; 47; 37; 83; 0].
  assert (forall x, zlen x <= 7 -> sprintf8 x = Ret x) as Hb8.
  { intros x Hx. unfold sprintf8, check_ub. by ztest. }
  assert (zlen (fmt_d 0 d) <= 7) as Hd7.
  { unfold fmt_d, to_string. ztest. rewrite zlen_app. pose proof (length_dec_digits_lt 7 20 d []) as H.
    unfold zlen. rewrite length_replicate. cbn [length] in *. specialize (H ltac:(lia) ltac:(change (10 ^ Z.of_nat 7) with 10000000; lia)). lia. }
  cbn [tostr_loop Z.eqb Pos.eqb Z.gtb Z.compare Pos.compare Pos.compare_cont]. rewrite ED, EH, EM, ES.
  rewrite !Hb8 by (rewrite ?fmt_d_two by lia; lia). cbn [mbind res_bind].
  rewrite <- !app_assoc. done.
Qed.

Lemma span_components_witness :
  exists sp, make 3 4 5 6 = Ret sp /\ (GetDays sp, GetHours sp, GetMinutes sp, GetSeconds sp) = (3, 4, 5, 6) /\
    tostr (Some default_format) sp = Ret (fmt_d 0 3 ++ str "/" ++ fmt_d 2 4 ++ str "/" ++ fmt_d 2 5 ++ str "/" ++ fmt_d 2 6).
Proof. apply span_components; vm_compute; (done || split; done). Defined.

(** A format that ends with '%' is read past its end; so is one that ends with
    half a two-byte character; ten million days do not fit the buffer. *)
Example tostr_undefined :
  tostr (Some (str "%")) 0 = Throw UB /\ tostr (Some [200]) 0 = Throw UB /\
  tostr (Some (str "%D")) (86400 * 10000000) = Throw UB.
Proof. split_and!; vm_compute; reflexivity. Qed.

End spans.

(** *** Times and spans *)

Lemma slong_Ret z r : HTimeSpan.slong z = Ret r <-> r = z /\ in_s 64 z.
Proof. unfold HTimeSpan.slong. case_bool_decide; split; [by intros [= ->]|by intros [-> _]|done|by intros []]. Qed.

(** Spans act on times: what is defined can be undone, the difference of two times
    takes the one to the other, and the order of times is that of the spans
    between them. *)
Theorem times_and_spans t u s v :
  (HTime.add t s = Ret v -> in_s 64 t -> HTime.sub v s = Ret t /\ HTime.minus_time v t = HTimeSpan.slong s) /\
  (HTime.minus_time u t = Ret s -> in_s 64 u -> HTime.add t s = Ret u /\
     HTime.less t u = HTimeSpan.greater s 0 /\ HTime.equal t u = HTimeSpan.equal s 0) /\
  HTime.plus_span t s = HTime.add t s /\ HTime.minus_span t s = HTime.sub t s /\
  (HTime.less t u = true \/ HTime.equal t u = true \/ HTime.greater t u = true) /\
  HTime.greater_equal t u = negb (HTime.less t u) /\ HTime.less_equal t u = negb (HTime.greater t u).
Proof.
  split_and!; try done.
  - unfold HTime.add, HTime.sub, HTime.minus_time, HTimeSpan.minus. intros [-> _]%slong_Ret Ht.
    rewrite slong_Ret. split; [by replace (t + s - s) with t by lia; split|]. f_equal. lia.
  - unfold HTime.add, HTime.minus_time, HTimeSpan.minus. intros [-> _]%slong_Ret Hu. rewrite slong_Ret.
    unfold HTime.less, HTime.equal, HTimeSpan.greater, HTimeSpan.equal.
    split_and!; [lia|by replace (t + (u - t)) with u by lia|apply eq_true_iff_eq; lia|apply eq_true_iff_eq; lia].
  - unfold HTime.less, HTime.equal, HTime.greater. lia.
  - unfold HTime.greater_equal, HTime.less. rewrite Z.geb_leb, Z.leb_antisym. done.
  - unfold HTime.less_equal, HTime.greater. rewrite Z.gtb_ltb, Z.leb_antisym. done.
Qed.

(** *** Microseconds *)

(** The distance in milliseconds: antisymmetric, and less than a millisecond off
    the exact difference for normalised times. *)
Theorem timeval_dis_close a b :
  HMicroTime.timeval_dis a b = - HMicroTime.timeval_dis b a /\
  Z.abs ((HMicroTime.tv_sec b - HMicroTime.tv_sec a) * 1000000 + (HMicroTime.tv_usec b - HMicroTime.tv_usec a)
         - 1000 * HMicroTime.timeval_dis a b) < 1000.
Proof.
  destruct a as [s1 u1], b as [s2 u2]. unfold HMicroTime.timeval_dis. cbn [HMicroTime.tv_sec HMicroTime.tv_usec]. split.
  - replace (u1 - u2) with (- (u2 - u1)) by lia. rewrite Z.quot_opp_l by lia. lia.
  - pose proof (Z.quot_rem' (u2 - u1) 1000). pose proof (Z.rem_bound_abs (u2 - u1) 1000). lia.
Qed.
