(* ===== verification/Log.v ===== *)
(** * The log: [src/hlog.cpp], [src/detail/log/*]

    Rollover strategy, log file, message and logger.  No system call's result is
    used after [Init], so an operation yields its new state and the calls it made,
    in order.  The clock is an argument of an operation, [localtime_r] of a group. *)

From S2P Require Import Prelude StdString OrdMap HStr HMstr FsName Time.

Module Logfile.

(** ** The strategy *)

Definition DAY : Z := 0.
Definition HOUR : Z := 1.
Definition HALFHOUR : Z := 2.
Definition TENMIN : Z := 3.
Definition END : Z := 4.

Record strategy : Type := Strategy { m_value : Z; m_mtTime : HMicroTime.t; m_filename : bytes }.

Definition GetHalfHourType (hour : Z) : Z := if hour <? 30 then 0 else 1.
Definition GetHalfHourName (ht : Z) : bytes := if ht =? 0 then str "00" else str "30".
Definition Get10MintuesType (mm : Z) : Z := Z.quot mm 10.

Definition LOG_TEN_MINTUES_TYPE_NAMES : list bytes := [str "00"; str "10"; str "20"; str "30"; str "40"; str "50"].

(** The table is indexed without a test. *)
Definition Get10MintuesName (mt : Z) : res bytes :=
  if mt <? 0 then Throw UB
  else match LOG_TEN_MINTUES_TYPE_NAMES !! Z.to_nat mt with Some s => Ret s | None => Throw UB end.

Definition rollover_names : list bytes := [str "DAY"; str "HOUR"; str "HALF-HOUR"; str "10MIN"].

Fixpoint rollover_loop (names : list bytes) (i : Z) (strName : bytes) : Z :=
  match names with
  | [] => DAY
  | n :: names => if bool_decide (n = strName) then i else rollover_loop names (i + 1) strName
  end.

Definition GetRolloverTypeName (strName : bytes) : Z := rollover_loop rollover_names 0 strName.

(** A call of the system: open on the current descriptor, rename, remove, write. *)
Inductive call : Type :=
  | Open (name : bytes)
  | Dup2 (name : bytes)
  | Rename (src dst : bytes)
  | Remove (name : bytes)
  | WriteStr (s : bytes).

Section clock.
Context (localtime : Z -> HTime.tm).

Definition NeedRollback (s : strategy) (cmt : HMicroTime.t) : bool :=
  let tm_in := HMicroTime.GetTimeTm localtime cmt in
  let tm_me := HMicroTime.GetTimeTm localtime (m_mtTime s) in
  if negb (HTime.tm_year tm_in =? HTime.tm_year tm_me) || negb (HTime.tm_mon tm_in =? HTime.tm_mon tm_me)
     || negb (HTime.tm_mday tm_in =? HTime.tm_mday tm_me) then true
  else if m_value s =? DAY then false
  else if negb (HTime.tm_hour tm_in =? HTime.tm_hour tm_me) then true
  else if m_value s =? HOUR then false
  else if negb (GetHalfHourType (HTime.tm_hour tm_in) =? GetHalfHourType (HTime.tm_hour tm_me)) then true
  else if m_value s =? HALFHOUR then false
  else if negb (Get10MintuesType (HTime.tm_min tm_in) =? Get10MintuesType (HTime.tm_min tm_me)) then true
  else false.

Definition GetFileName (s : strategy) (endstr : bytes) : res bytes :=
  let m := HMicroTime.GetTimeTm localtime (m_mtTime s) in
  let ss := m_filename s ++ [95] ++ fmt_d 0 (1900 + HTime.tm_year m) ++ [95] ++ fmt_d 2 (1 + HTime.tm_mon m)
            ++ [95] ++ fmt_d 2 (HTime.tm_mday m) in
  let ss := if negb (m_value s =? DAY) then ss ++ [95] ++ fmt_d 2 (HTime.tm_hour m) else ss in
  ss ← (if m_value s =? HALFHOUR then Ret (ss ++ [95] ++ GetHalfHourName (GetHalfHourType (HTime.tm_hour m)))
        else if m_value s =? TENMIN then
          n ← Get10MintuesName (Get10MintuesType (HTime.tm_min m)); Ret (ss ++ [95] ++ n)
        else Ret ss);
  Ret ((if bool_decide (endstr = []) then ss else ss ++ [95] ++ endstr) ++ str ".log").

Definition touch (s : strategy) (now : HMicroTime.t) : strategy := Strategy (m_value s) now (m_filename s).

Definition Rollback (s : strategy) (now : HMicroTime.t) : res (strategy * bytes) :=
  let s := touch s now in
  n ← GetFileName s [];
  Ret (s, n).

(** ** The log file *)

Record t : Type := Mk { m_roll_strategy : strategy; m_backup_logs : list bytes }.

Definition DEFAULT_BACKUP_LOG_COUNT : Z := 7.

Definition make (strFileName : bytes) (type : Z) (now : HMicroTime.t) : t := Mk (Strategy type now strFileName) [].

Definition Init (l : t) (now : HMicroTime.t) : res (t * list call) :=
  '(s, n) ← Rollback (m_roll_strategy l) now;
  Ret (Mk s (m_backup_logs l), [Open n]).

(** Tested again under the mutex. *)
Definition doRollback (l : t) (mt now : HMicroTime.t) : res (t * list call) :=
  let s := m_roll_strategy l in
  if NeedRollback s mt then
    strSrcFileName ← GetFileName s [];
    strNewFileName ← GetFileName s (str "bak");
    '(s, strFileName) ← Rollback s now;
    let calls := [Dup2 strFileName; Rename strSrcFileName strNewFileName] in
    let logs := m_backup_logs l ++ [strNewFileName] in
    if (zlen logs >? DEFAULT_BACKUP_LOG_COUNT) && (m_value s =? DAY) then
      match logs with
      | old :: logs => Ret (Mk s logs, calls ++ [Remove old])
      | [] => Throw UB
      end
    else Ret (Mk s logs, calls)
  else Ret (l, []).

Definition rollBack (l : t) (mt now : HMicroTime.t) : res (t * list call) :=
  if NeedRollback (m_roll_strategy l) mt then doRollback l mt now else Ret (l, []).

(** A message is its time and its text; [now] is the clock when it is written. *)
Definition Write (l : t) (mt : HMicroTime.t) (msg : bytes) (now : HMicroTime.t) : res (t * list call) :=
  '(l, calls) ← rollBack l mt now;
  Ret (l, calls ++ [WriteStr msg]).

(** A sequence of writes. *)
Fixpoint Writes (l : t) (ms : list (HMicroTime.t * bytes * HMicroTime.t)) : res (t * list call) :=
  match ms with
  | [] => Ret (l, [])
  | (mt, msg, now) :: ms =>
    '(l, c1) ← Write l mt msg now;
    '(l, c2) ← Writes l ms;
    Ret (l, c1 ++ c2)
  end.

End clock.

End Logfile.

(** ** Messages *)

Module LogMessage.

Definition INFO : Z := 0.
Definition WARNING : Z := 1.
Definition ERROR : Z := 2.

Definition LOG_PRIORITY_NAMES : list bytes := [str "INFO"; str "WARN"; str "ERROR"].

Definition GetLogPriority (val : Z) : res bytes :=
  if val <? 0 then Throw UB
  else match LOG_PRIORITY_NAMES !! Z.to_nat val with Some s => Ret s | None => Throw UB end.

Record t : Type := Mk { m_logvalue : Z; m_time : HMicroTime.t; m_message : bytes; m_filename : bytes; m_lineno : Z }.

Definition INVALID_LINE_NO : Z := -1.

Definition LogMessage_text (message : bytes) (value : Z) (now : HMicroTime.t) : t :=
  Mk value now message [] INVALID_LINE_NO.

(** Octal digits of an [unsigned int]. *)
Fixpoint oct_digits (fuel : nat) (n : Z) (acc : bytes) : bytes :=
  match fuel with
  | O => acc
  | S f => let acc := (48 + n mod 8) :: acc in if n / 8 =? 0 then acc else oct_digits f (n / 8) acc
  end.

(** [std::oct << n] for an [int]: eleven digits hold 32 bits. *)
Definition oct (n : Z) : bytes := oct_digits 11 (u32 n) [].

(** [std::oct] is set before the message is inserted and stays for the line number. *)
Definition GetLogMessage (localtime : Z -> HTime.tm) (pid : Z) (tid : bytes) (m : t) : res bytes :=
  p ← GetLogPriority (m_logvalue m);
  Ret ([91] ++ HMicroTime.GetTimeStr localtime (m_time m) ++ str "][" ++ p ++ str "][" ++ to_string pid ++ str "]["
       ++ tid ++ str "]" ++ m_message m
       ++ (if bool_decide (m_filename m = []) then [] else [91] ++ m_filename m ++ [58] ++ oct (m_lineno m) ++ [93])
       ++ [10]).

End LogMessage.

(** ** The logger *)

Module HLog.

(** [m_plog]. *)
Abbreviation t := (option Logfile.t).

Section clock.
Context (localtime : Z -> HTime.tm) (getcwd : bytes) (realpath : bytes -> bytes).

(** [exists_] and [mkdir] answer for the directory of the file, [opens] for the file. *)
Definition Init (g : t) (strFilename strRolloverType : bytes) (exists_ : bytes -> bool)
    (mkdir : bytes -> Z -> Z * bool) (opens : bool) (now now2 : HMicroTime.t)
    : res (herr * t * list Logfile.call) :=
  let log_dic := HFileName.GetParentDic getcwd realpath strFilename in
  let e := if exists_ log_dic then OK else HDirection.CreateDic mkdir log_dic in
  if negb (IS_OK e) then Ret (e, g, [])
  else
    let l := Logfile.make strFilename (Logfile.GetRolloverTypeName strRolloverType) now in
    '(l, calls) ← Logfile.Init localtime l now2;
    Ret (if opens then OK else SYS_FAILED, Some l, calls).

Definition Uninit (g : t) : t := None.

(** The calls on the file, or the text printed on the standard output. *)
Definition WriteLog (g : t) (lt : Z) (fn : bytes) (ll : Z) (strlog : bytes) (pid : Z) (tid : bytes)
    (created now : HMicroTime.t) : res (t * list Logfile.call * option bytes) :=
  let message := LogMessage.Mk lt created strlog fn ll in
  match g with
  | Some l =>
    if Logfile.NeedRollback localtime (Logfile.m_roll_strategy l) created then
      '(l, c) ← Logfile.doRollback localtime l created now;
      text ← LogMessage.GetLogMessage localtime pid tid message;
      Ret (Some l, c ++ [Logfile.WriteStr text], None)
    else
      text ← LogMessage.GetLogMessage localtime pid tid message;
      Ret (Some l, [Logfile.WriteStr text], None)
  | None => Ret (None, [], Some (strlog ++ [10]))
  end.

(** [writelog]: what the format prints is cut to the buffer. *)
Definition writelog (g : t) (lt : Z) (ff : bytes) (ll : Z) (out : bytes) (pid : Z) (tid : bytes)
    (created now : HMicroTime.t) : res (t * list Logfile.call * option bytes) :=
  WriteLog g lt ff ll (c_str (take (Z.to_nat (HStr.HSTRING_LEN - 1)) out)) pid tid created now.

(** [InitLog] exits the process when [Init] fails. *)
Definition InitLog (g : t) (strFilename strRolloverType : bytes) (exists_ : bytes -> bool)
    (mkdir : bytes -> Z -> Z * bool) (opens : bool) (now now2 : HMicroTime.t)
    : res (option (t * list Logfile.call)) :=
  '(e, g, calls) ← Init g strFilename strRolloverType exists_ mkdir opens now now2;
  Ret (if IS_OK e then Some (g, calls) else None).

End clock.

End HLog.

(** ** Lemmas *)

Section strategy.
Import Logfile.
Context (localtime : Z -> HTime.tm).

(** Fields of the local time in the ranges of [struct tm]. *)
Definition tm_normal (m : HTime.tm) : Prop :=
  0 <= 1900 + HTime.tm_year m < 2 ^ 31 /\ 0 <= HTime.tm_mon m < 12 /\ 1 <= HTime.tm_mday m <= 31 /\
  0 <= HTime.tm_hour m < 24 /\ 0 <= HTime.tm_min m < 60.

(** The stretch of time a rollover value cuts time into: day, hour or ten minutes. *)
Definition period (v : Z) (m : HTime.tm) : list Z :=
  [HTime.tm_year m; HTime.tm_mon m; HTime.tm_mday m] ++ (if v =? DAY then [] else [HTime.tm_hour m])
  ++ (if v =? TENMIN then [HTime.tm_min m / 10] else []).

Definition tm_of (t : HMicroTime.t) : HTime.tm := HMicroTime.GetTimeTm localtime t.

Definition valid_value (v : Z) : Prop := v = DAY \/ v = HOUR \/ v = HALFHOUR \/ v = TENMIN.

(** [NeedRollback] compares the periods; for HALFHOUR that is the hour. *)
Lemma NeedRollback_period s cmt :
  valid_value (m_value s) -> tm_normal (tm_of cmt) -> tm_normal (tm_of (m_mtTime s)) ->
  NeedRollback localtime s cmt
  = negb (bool_decide (period (m_value s) (tm_of cmt) = period (m_value s) (tm_of (m_mtTime s)))).
Proof.
  intros Hv (_ & _ & _ & Hh1 & Hm1) (_ & _ & _ & Hh2 & Hm2). unfold NeedRollback. fold (tm_of cmt). fold (tm_of (m_mtTime s)).
  set (a := tm_of cmt) in *. set (b := tm_of (m_mtTime s)) in *.
  assert (GetHalfHourType (HTime.tm_hour a) = 0 /\ GetHalfHourType (HTime.tm_hour b) = 0) as [-> ->].
  { unfold GetHalfHourType. by ztest. }
  unfold Get10MintuesType. rewrite !Z.quot_div_nonneg by lia. unfold period. cbn [app].
  destruct (Z.eqb_spec (HTime.tm_year a) (HTime.tm_year b)) as [Ey|Ey]; cbn [negb orb];
    [|rewrite bool_decide_false; [done|]; intros E; apply Ey; congruence].
  destruct (Z.eqb_spec (HTime.tm_mon a) (HTime.tm_mon b)) as [Em|Em]; cbn [negb orb];
    [|rewrite bool_decide_false; [done|]; intros E; apply Em; congruence].
  destruct (Z.eqb_spec (HTime.tm_mday a) (HTime.tm_mday b)) as [Ed|Ed]; cbn [negb orb];
    [|rewrite bool_decide_false; [done|]; intros E; apply Ed; congruence].
  rewrite Ey, Em, Ed. destruct Hv as [->|[->|[->| ->]]]; cbn [Z.eqb Pos.eqb DAY HOUR HALFHOUR TENMIN app negb].
  - by rewrite bool_decide_true.
  - destruct (Z.eqb_spec (HTime.tm_hour a) (HTime.tm_hour b)) as [->|Eh]; cbn [negb];
      [by rewrite bool_decide_true|rewrite bool_decide_false; [done|]; intros E; apply Eh; congruence].
  - destruct (Z.eqb_spec (HTime.tm_hour a) (HTime.tm_hour b)) as [->|Eh]; cbn [negb];
      [by rewrite bool_decide_true|rewrite bool_decide_false; [done|]; intros E; apply Eh; congruence].
  - destruct (Z.eqb_spec (HTime.tm_hour a) (HTime.tm_hour b)) as [->|Eh]; cbn [negb];
      [|rewrite bool_decide_false; [done|]; intros E; apply Eh; congruence].
    destruct (Z.eqb_spec (HTime.tm_min a / 10) (HTime.tm_min b / 10)) as [->|E10]; cbn [negb];
      [by rewrite bool_decide_true|rewrite bool_decide_false; [done|]; intros E; apply E10; congruence].
Qed.

(** The components of a file name, between underscores. *)
Definition name_parts (v : Z) (m : HTime.tm) : list bytes :=
  [fmt_d 0 (1900 + HTime.tm_year m); fmt_d 2 (1 + HTime.tm_mon m); fmt_d 2 (HTime.tm_mday m)]
  ++ (if v =? DAY then [] else [fmt_d 2 (HTime.tm_hour m)])
  ++ (if v =? HALFHOUR then [str "00"] else if v =? TENMIN then [to_string (HTime.tm_min m / 10) ++ [48]] else []).

Lemma ten_minutes_name m : 0 <= m < 60 -> Get10MintuesName (Get10MintuesType m) = Ret (to_string (m / 10) ++ [48]).
Proof.
  intros H. unfold Get10MintuesType. rewrite Z.quot_div_nonneg by lia.
  assert (m / 10 = 0 \/ m / 10 = 1 \/ m / 10 = 2 \/ m / 10 = 3 \/ m / 10 = 4 \/ m / 10 = 5)
    as [->|[->|[->|[->|[->| ->]]]]] by (Z.div_mod_to_equations; lia); reflexivity.
Qed.

Definition file_name (s : strategy) (m : HTime.tm) (endstr : bytes) : bytes :=
  m_filename s ++ [95] ++ HStr.join [95] (name_parts (m_value s) m)
  ++ (if bool_decide (endstr = []) then [] else [95] ++ endstr) ++ str ".log".

Lemma GetFileName_ok s endstr :
  valid_value (m_value s) -> tm_normal (tm_of (m_mtTime s)) ->
  GetFileName localtime s endstr = Ret (file_name s (tm_of (m_mtTime s)) endstr).
Proof.
  intros Hv (_ & _ & _ & Hh & Hm). unfold GetFileName, file_name, name_parts. fold (tm_of (m_mtTime s)).
  set (m := tm_of (m_mtTime s)) in *.
  assert (GetHalfHourType (HTime.tm_hour m) = 0) as -> by (unfold GetHalfHourType; by ztest).
  rewrite ten_minutes_name by done.
  destruct Hv as [->|[->|[->| ->]]]; cbn [Z.eqb Pos.eqb DAY HOUR HALFHOUR TENMIN negb mbind res_bind app HStr.join];
    case_bool_decide; repeat (cbn [app]; rewrite <- app_assoc); done.
Qed.

Lemma fmt_d_inj w n m : 0 <= n < 2 ^ 31 -> 0 <= m < 2 ^ 31 -> fmt_d w n = fmt_d w m -> n = m.
Proof.
  intros Hn Hm E. destruct (fmt_d_num w n Hn) as (_ & _ & <-), (fmt_d_num w m Hm) as (_ & _ & <-). by rewrite E.
Qed.

Lemma fmt_d_no_underscore w n : 0 <= n < 2 ^ 31 -> 95 ∉ fmt_d w n.
Proof.
  intros Hn Hin. destruct (fmt_d_num w n Hn) as (HF & _). rewrite Forall_forall in HF. by apply HF in Hin.
Qed.

Lemma parts_no_underscore v m : valid_value v -> tm_normal m -> Forall (fun x => 95 ∉ x) (name_parts v m).
Proof.
  intros Hv (Hy & Hmo & Hd & Hh & Hmi). unfold name_parts.
  assert (95 ∉ to_string (HTime.tm_min m / 10) ++ [48]) as H10.
  { intros [Hin|Hin]%elem_of_app; [|set_solver]. apply to_string_digits in Hin; [done|].
    Z.div_mod_to_equations; lia. }
  rewrite !Forall_app. split_and!.
  - repeat constructor; apply fmt_d_no_underscore; lia.
  - case_test; repeat constructor. apply fmt_d_no_underscore; lia.
  - destruct Hv as [->|[->|[->| ->]]]; cbn [Z.eqb Pos.eqb DAY HOUR HALFHOUR TENMIN]; repeat constructor; try done.
    cbn. set_solver.
Qed.

(** Names of the same file and rollover value are the same exactly within a period. *)
Lemma file_name_inj s a b :
  valid_value (m_value s) -> tm_normal a -> tm_normal b ->
  (file_name s a [] = file_name s b [] <-> period (m_value s) a = period (m_value s) b).
Proof.
  intros Hv (Ay & Am & Ad & Ah & Ai) (By & Bm & Bd & Bh & Bi). unfold file_name. split.
  - intros E. apply app_inv_head in E. apply app_inv_head in E. apply app_inv_tail in E. apply HMstr.join_inj in E; [|by destruct Hv as [->|[->|[->| ->]]]..| |].
    + unfold name_parts, period in *.
      assert (fmt_d 0 (1900 + HTime.tm_year a) = fmt_d 0 (1900 + HTime.tm_year b) /\
        fmt_d 2 (1 + HTime.tm_mon a) = fmt_d 2 (1 + HTime.tm_mon b) /\
        fmt_d 2 (HTime.tm_mday a) = fmt_d 2 (HTime.tm_mday b)) as (E1 & E2 & E3) by (cbn [app] in E; split_and!; congruence).
      apply fmt_d_inj in E1, E2, E3; try lia.
      replace (HTime.tm_year b) with (HTime.tm_year a) by lia. replace (HTime.tm_mon b) with (HTime.tm_mon a) by lia.
      rewrite <- E3. destruct Hv as [-> |Hv]; [done|].
      assert (fmt_d 2 (HTime.tm_hour a) = fmt_d 2 (HTime.tm_hour b)) as E4.
      { revert E. destruct Hv as [->|[->| ->]]; cbn [Z.eqb Pos.eqb DAY HOUR HALFHOUR TENMIN app]; congruence. }
      apply fmt_d_inj in E4; [|lia|lia]. rewrite E4. revert E. destruct Hv as [->|[->| ->]]; [done|done|].
      cbn [Z.eqb Pos.eqb DAY HOUR HALFHOUR TENMIN app]. intros E. injection E as _ _ _ _ E. apply app_inv_tail in E.
      assert (HTime.tm_min a / 10 = HTime.tm_min b / 10) as ->; [|done].
      assert (forall x, 0 <= x < 60 -> strtol (to_string (x / 10)) = Some (x / 10)) as Hx.
      { intros x Hx. apply strtol_to_string. change (10 ^ 20) with 100000000000000000000. Z.div_mod_to_equations. lia. }
      pose proof (Hx _ Ai) as X1. pose proof (Hx _ Bi) as X2. congruence.
    + apply parts_no_underscore; done.
    + apply parts_no_underscore; done.
  - intros E. assert (name_parts (m_value s) a = name_parts (m_value s) b) as ->; [|done].
    revert E. unfold period, name_parts.
    destruct Hv as [->|[->|[->| ->]]]; cbn [Z.eqb Pos.eqb DAY HOUR HALFHOUR TENMIN app]; congruence.
Qed.

Lemma touch_value s now : m_value (touch s now) = m_value s.
Proof. done. Qed.

(** The targets of the renames, the names removed, the texts written. *)
Definition renamed (c : call) : option bytes := match c with Rename _ d => Some d | _ => None end.
Definition removed (c : call) : option bytes := match c with Remove n => Some n | _ => None end.
Definition written (c : call) : option bytes := match c with WriteStr s => Some s | _ => None end.

(** A list of backups in step with the calls that were made. *)
Definition in_step (v : Z) (logs : list bytes) (calls : list call) (logs' : list bytes) : Prop :=
  logs ++ omap renamed calls = omap removed calls ++ logs' /\
  (v = DAY -> zlen logs <= DEFAULT_BACKUP_LOG_COUNT -> zlen logs' <= DEFAULT_BACKUP_LOG_COUNT) /\
  (v <> DAY -> omap removed calls = []).

Lemma in_step_app v l1 c1 l2 c2 l3 : in_step v l1 c1 l2 -> in_step v l2 c2 l3 -> in_step v l1 (c1 ++ c2) l3.
Proof.
  intros (A1 & A2 & A3) (B1 & B2 & B3). split_and!.
  - rewrite !omap_app, app_assoc, A1, <- !app_assoc. by rewrite B1.
  - tauto.
  - intros Hv. rewrite omap_app, A3, B3 by done. done.
Qed.

Lemma Log_Write_ok l mt msg now :
  valid_value (m_value (m_roll_strategy l)) -> tm_normal (tm_of (m_mtTime (m_roll_strategy l))) ->
  tm_normal (tm_of now) ->
  exists l' calls, Write localtime l mt msg now = Ret (l', calls) /\
    m_value (m_roll_strategy l') = m_value (m_roll_strategy l) /\
    tm_normal (tm_of (m_mtTime (m_roll_strategy l'))) /\
    omap written calls = [msg] /\
    in_step (m_value (m_roll_strategy l)) (m_backup_logs l) calls (m_backup_logs l').
Proof.
  intros Hv Hm Hn. unfold Write, rollBack, doRollback.
  destruct (NeedRollback localtime (m_roll_strategy l) mt).
  2: { eexists _, _. split; [done|]. split_and!; try done. split_and!; [apply app_nil_r|done|done]. }
  rewrite !GetFileName_ok by done. cbn [mbind res_bind]. unfold Rollback.
  rewrite GetFileName_ok by done. cbn [mbind res_bind]. rewrite touch_value.
  set (nm := file_name (m_roll_strategy l) _ (str "bak")).
  destruct (Z.gtb_spec (zlen (m_backup_logs l ++ [nm])) DEFAULT_BACKUP_LOG_COUNT) as [Hgt|Hle];
    cbn [andb]; [destruct (Z.eqb_spec (m_value (m_roll_strategy l)) DAY) as [Hday|Hday]|].
  - destruct (m_backup_logs l ++ [nm]) as [|old logs] eqn:E; [by destruct (m_backup_logs l)|].
    eexists _, _. split; [done|]. split_and!; try done. split_and!.
    + cbn. by rewrite E.
    + intros _ Hl. cbn [m_backup_logs]. apply (f_equal zlen) in E. rewrite zlen_app, zlen_cons in E. unfold zlen in *. cbn in E. lia.
    + done.
  - eexists _, _. split; [done|]. split_and!; done.
  - eexists _, _. split; [done|]. split_and!; done.
Qed.

(** C36: Any sequence of writes succeeds and writes its messages, in order.  Every
    rolled file's new name enters the list of backups at the end; under the daily
    strategy names leave it at the front, as their files are removed, so that at
    most seven are kept; under the other strategies nothing is ever removed. *)
Theorem Writes_backups l ms :
  valid_value (m_value (m_roll_strategy l)) -> tm_normal (tm_of (m_mtTime (m_roll_strategy l))) ->
  Forall (fun m => tm_normal (tm_of m.2)) ms ->
  exists l' calls, Writes localtime l ms = Ret (l', calls) /\
    omap written calls = map (fun m => m.1.2) ms /\
    m_backup_logs l ++ omap renamed calls = omap removed calls ++ m_backup_logs l' /\
    (m_value (m_roll_strategy l) = DAY -> zlen (m_backup_logs l) <= 7 -> zlen (m_backup_logs l') <= 7) /\
    (m_value (m_roll_strategy l) <> DAY -> omap removed calls = []).
Proof.
  intros Hv Hm Hms.
  assert (exists l' calls, Writes localtime l ms = Ret (l', calls) /\ omap written calls = map (fun m => m.1.2) ms /\
    in_step (m_value (m_roll_strategy l)) (m_backup_logs l) calls (m_backup_logs l')) as (l' & c & E & Hw & H1 & H2 & H3);
    [|by exists l', c].
  revert l Hv Hm. induction Hms as [|[[mt msg] now] ms Hn Hms IH]; intros l Hv Hm.
  { exists l, []. split_and!; try done. split_and!; [apply app_nil_r|done|done]. }
  destruct (Log_Write_ok l mt msg now Hv Hm Hn) as (l1 & c1 & E1 & Ev & Hm1 & Hw1 & Hs1).
  destruct (IH l1) as (l2 & c2 & E2 & Hw2 & Hs2); [by rewrite Ev|done|].
  exists l2, (c1 ++ c2). cbn [Writes]. rewrite E1. cbn [mbind res_bind]. rewrite E2. split_and!; [done| |].
  - by rewrite omap_app, Hw1, Hw2.
  - eapply in_step_app; [done|]. by rewrite <- Ev.
Qed.

(** A message calls for a new file exactly when the file it would go to, named
    for its own time, is another one than the current file. *)
Theorem rollback_iff_new_name s cmt :
  valid_value (m_value s) -> tm_normal (tm_of cmt) -> tm_normal (tm_of (m_mtTime s)) ->
  (NeedRollback localtime s cmt = true <->
   GetFileName localtime (touch s cmt) [] <> GetFileName localtime s []).
Proof.
  intros Hv Hc Hm. rewrite NeedRollback_period by done. rewrite !GetFileName_ok by done.
  assert (forall m, file_name (touch s cmt) m [] = file_name s m []) as Hft by reflexivity. rewrite Hft.
  cbn [touch m_mtTime]. rewrite negb_true_iff, bool_decide_eq_false. rewrite <- file_name_inj by done.
  split; intros H E; apply H; congruence.
Qed.

(** The half-hour strategy rolls once an hour: it classifies the hour of the day
    where the minute is meant. *)
Theorem halfhour_is_hour s cmt :
  tm_normal (tm_of cmt) -> tm_normal (tm_of (m_mtTime s)) ->
  NeedRollback localtime (Strategy HALFHOUR (m_mtTime s) (m_filename s)) cmt
  = NeedRollback localtime (Strategy HOUR (m_mtTime s) (m_filename s)) cmt.
Proof.
  intros Hc Hm. rewrite !NeedRollback_period by (assumption || (right; right; left; reflexivity) || (right; left; reflexivity)).
  reflexivity.
Qed.

(** A message that was made in the period before and arrives after the rollover
    rolls the file again: the descriptor is pointed at the current file, which is
    then renamed to its backup name, while it is being written to. *)
Theorem late_message_renames_live_file l mt msg now :
  valid_value (m_value (m_roll_strategy l)) -> tm_normal (tm_of (m_mtTime (m_roll_strategy l))) ->
  tm_normal (tm_of now) -> NeedRollback localtime (m_roll_strategy l) mt = true ->
  period (m_value (m_roll_strategy l)) (tm_of now)
    = period (m_value (m_roll_strategy l)) (tm_of (m_mtTime (m_roll_strategy l))) ->
  exists l' live bak calls, Write localtime l mt msg now = Ret (l', Dup2 live :: Rename live bak :: calls).
Proof.
  intros Hv Hm Hn Hneed Hp. unfold Write, rollBack, doRollback. rewrite Hneed.
  rewrite !GetFileName_ok by done. cbn [mbind res_bind]. unfold Rollback.
  rewrite GetFileName_ok by done. cbn [mbind res_bind touch m_mtTime m_value m_filename].
  assert (file_name (touch (m_roll_strategy l) now) (tm_of now) []
          = file_name (m_roll_strategy l) (tm_of (m_mtTime (m_roll_strategy l))) []) as ->.
  { change (file_name (m_roll_strategy l) (tm_of now) [] = file_name (m_roll_strategy l) (tm_of (m_mtTime (m_roll_strategy l))) []).
    by apply file_name_inj. }
  destruct (_ && _); [|by eexists _, _, _, _].
  destruct (m_backup_logs l ++ _) as [|old logs] eqn:E; [by destruct (m_backup_logs l)|]. by eexists _, _, _, _.
Qed.

End strategy.

(** One second is one day and nothing else. *)
Definition toy_clock (s : Z) : HTime.tm := HTime.Tm 125 0 (1 + Z.abs s mod 31) 0 0 0 0.

Lemma toy_normal t : tm_normal (tm_of toy_clock t).
Proof.
  unfold tm_normal, tm_of, HMicroTime.GetTimeTm, toy_clock. cbn.
  pose proof (Z.mod_pos_bound (Z.abs (HMicroTime.tv_sec t)) 31). lia.
Qed.

Lemma Writes_backups_witness :
  let at_ s := HMicroTime.Tv s 0 in
  let l := Logfile.make (str "a") Logfile.DAY (at_ 0) in
  let ms := map (fun s => (at_ s, str "m", at_ s)) [1; 2; 3; 4; 5; 6; 7; 8] in
  exists l' calls, Logfile.Writes toy_clock l ms = Ret (l', calls) /\
    omap written calls = map (fun m => m.1.2) ms /\
    Logfile.m_backup_logs l ++ omap renamed calls = omap removed calls ++ Logfile.m_backup_logs l' /\
    (Logfile.DAY = Logfile.DAY -> zlen (Logfile.m_backup_logs l) <= 7 -> zlen (Logfile.m_backup_logs l') <= 7) /\
    (Logfile.DAY <> Logfile.DAY -> omap removed calls = []).
Proof.
  intros at_ l ms. apply (Writes_backups toy_clock l ms).
  - by left.
  - apply toy_normal.
  - repeat constructor; apply toy_normal.
Defined.

Lemma rollback_iff_new_name_witness :
  let s := Logfile.Strategy Logfile.DAY (HMicroTime.Tv 3 0) (str "a") in
  Logfile.NeedRollback toy_clock s (HMicroTime.Tv 4 0) = true <->
  Logfile.GetFileName toy_clock (Logfile.touch s (HMicroTime.Tv 4 0)) [] <> Logfile.GetFileName toy_clock s [].
Proof. intros s. apply rollback_iff_new_name; [by left|apply toy_normal|apply toy_normal]. Defined.

Lemma halfhour_is_hour_witness :
  Logfile.NeedRollback toy_clock (Logfile.Strategy Logfile.HALFHOUR (HMicroTime.Tv 3 0) (str "a")) (HMicroTime.Tv 4 0)
  = Logfile.NeedRollback toy_clock (Logfile.Strategy Logfile.HOUR (HMicroTime.Tv 3 0) (str "a")) (HMicroTime.Tv 4 0).
Proof.
  apply (halfhour_is_hour toy_clock (Logfile.Strategy Logfile.HOUR (HMicroTime.Tv 3 0) (str "a"))); apply toy_normal.
Defined.

Lemma late_message_renames_live_file_witness :
  let l := Logfile.make (str "a") Logfile.DAY (HMicroTime.Tv 4 0) in
  exists l' live bak calls, Logfile.Write toy_clock l (HMicroTime.Tv 3 0) (str "m") (HMicroTime.Tv 4 5)
    = Ret (l', Logfile.Dup2 live :: Logfile.Rename live bak :: calls).
Proof.
  intros l. apply (late_message_renames_live_file toy_clock l); [by left|apply toy_normal|apply toy_normal|by vm_compute|by vm_compute].
Defined.

(** [std::oct] is still in force when the line number is printed: line 64 is
    logged as line 100. *)
Example line_number_octal : LogMessage.oct 64 = str "100" /\ LogMessage.oct (-1) = str "37777777777".
Proof. split; vm_compute; reflexivity. Qed.
