(* ===== verification/LogThreads.v ===== *)
(** * The log file under several threads: [src/detail/log/logfile_detail.cpp]

    [LogFile::Write] tests the strategy without the mutex and again under it, and
    writes after it has given the mutex back.  Here threads run it in steps, and
    what the test without the mutex reads while another thread is rolling is any
    value.  A change of period is one rollover whatever the order of the steps. *)

From stdpp Require Import relations.
From S2P Require Import Prelude StdString HStr FsName Time Log.
#[local] Open Scope Z_scope.

Module LogThreads.
Import Logfile.

(** ** Definitions *)

(** The time of a message and its text. *)
Abbreviation message := (HMicroTime.t * bytes)%type.

(** Where a thread is in [Write] of its next message. *)
Inductive pc : Type :=
  | Testing                         (* before the test of [rollBack] *)
  | Locking                         (* at the mutex of [doRollback] *)
  | Rolling (pending : list call)   (* under the mutex, with these calls to make *)
  | Writing.                        (* before [WriteString] *)

Record thread : Type := Thread { t_pc : pc; todo : list message }.

Record st : Type := St { file : Logfile.t; owner : option nat; threads : list thread; trace : list (nat * call) }.

#[export] Instance idle_dec (th : thread) : Decision (th = Thread Testing []).
Proof. destruct th as [[] []]; solve [left; reflexivity|right; discriminate]. Defined.

Definition set_thread (i : nat) (th : thread) (s : st) : st := St (file s) (owner s) (<[i := th]> (threads s)) (trace s).
Definition emit (i : nat) (c : call) (s : st) : st := St (file s) (owner s) (threads s) (trace s ++ [(i, c)]).

Definition start (f : Logfile.t) (ms : list (list message)) : st := St f None (map (Thread Testing) ms) [].

Section steps.
(** [clock]: what the clock may answer in a rollover. *)
Context (localtime : Z -> HTime.tm) (clock : HMicroTime.t -> Prop).

Inductive step (s : st) : st -> Prop :=
  | do_test i mt msg rest (b : bool) :
      threads s !! i = Some (Thread Testing ((mt, msg) :: rest)) ->
      (owner s = None -> b = NeedRollback localtime (m_roll_strategy (file s)) mt) ->
      step s (set_thread i (Thread (if b then Locking else Writing) ((mt, msg) :: rest)) s)
  | do_lock i mt msg rest now f calls :
      threads s !! i = Some (Thread Locking ((mt, msg) :: rest)) -> owner s = None -> clock now ->
      doRollback localtime (file s) mt now = Ret (f, calls) ->
      step s (St f (Some i) (<[i := Thread (Rolling calls) ((mt, msg) :: rest)]> (threads s)) (trace s))
  | do_call i c cs l :
      threads s !! i = Some (Thread (Rolling (c :: cs)) l) ->
      step s (emit i c (set_thread i (Thread (Rolling cs) l) s))
  | do_unlock i l :
      threads s !! i = Some (Thread (Rolling []) l) ->
      step s (St (file s) None (<[i := Thread Writing l]> (threads s)) (trace s))
  | do_write i mt msg rest :
      threads s !! i = Some (Thread Writing ((mt, msg) :: rest)) ->
      step s (emit i (WriteStr msg) (set_thread i (Thread Testing rest) s)).

Definition finished (s : st) : Prop := Forall (fun th => th = Thread Testing []) (threads s).

#[export] Instance finished_dec s : Decision (finished s).
Proof. unfold finished. apply _. Defined.

(** The texts thread [i] has written, and the calls of rollovers. *)
Definition written_by (i : nat) (tr : list (nat * call)) : list bytes :=
  omap (fun ic => if bool_decide (ic.1 = i) then written ic.2 else None) tr.

Definition roll_call (c : call) : option call := match c with WriteStr _ => None | c => Some c end.
Definition rolled (tr : list (nat * call)) : list call := omap (fun ic => roll_call ic.2) tr.

Definition is_dup2 (c : call) : bool := match c with Dup2 _ => true | _ => false end.

(** ** Rollovers *)

Section period.
Context (f0 : Logfile.t) (P : list Z).

(** The period that has begun: the messages are of it, and the clock stays in it. *)
Definition in_period (t : HMicroTime.t) : Prop :=
  tm_normal (tm_of localtime t) /\ period (m_value (m_roll_strategy f0)) (tm_of localtime t) = P.

Context (Hv : valid_value (m_value (m_roll_strategy f0)))
  (H0 : tm_normal (tm_of localtime (m_mtTime (m_roll_strategy f0))))
  (Hold : period (m_value (m_roll_strategy f0)) (tm_of localtime (m_mtTime (m_roll_strategy f0))) <> P)
  (Hclock : forall t, clock t -> in_period t).

Lemma need_old mt : in_period mt -> NeedRollback localtime (m_roll_strategy f0) mt = true.
Proof.
  intros [Hn Hp]. rewrite NeedRollback_period by done. rewrite Hp. apply negb_true_iff, bool_decide_eq_false. congruence.
Qed.

(** The file after the rollover. *)
Definition new_file (f : Logfile.t) : Prop :=
  m_value (m_roll_strategy f) = m_value (m_roll_strategy f0) /\ in_period (m_mtTime (m_roll_strategy f)).

Lemma need_new f mt : new_file f -> in_period mt -> NeedRollback localtime (m_roll_strategy f) mt = false.
Proof.
  intros [Ev [Hn1 Hp1]] [Hn2 Hp2]. rewrite NeedRollback_period by (rewrite ?Ev; done). rewrite Ev, Hp1, Hp2.
  by rewrite bool_decide_eq_true_2.
Qed.

(** One rollover: the new file, the renaming of the old, and at most one removal. *)
Definition one_rollover (calls : list call) : Prop :=
  length (List.filter is_dup2 calls) = 1%nat /\ (length calls <= 3)%nat /\ Forall (fun c => roll_call c = Some c) calls.

Lemma doRollback_old mt now : in_period mt -> clock now ->
  exists f calls, doRollback localtime f0 mt now = Ret (f, calls) /\ new_file f /\ one_rollover calls.
Proof.
  intros Hmt Hnow. pose proof (Hclock _ Hnow) as [Hn Hp]. unfold doRollback. rewrite need_old by done.
  rewrite !GetFileName_ok by done. cbn [mbind res_bind]. unfold Rollback.
  rewrite GetFileName_ok by done. cbn [mbind res_bind].
  destruct (_ && _); [destruct (m_backup_logs f0 ++ _) as [|old logs] eqn:E; [by destruct (m_backup_logs f0)|]|];
    (eexists _, _; split; [done|]; split; [done|]; split_and!; [done|cbn; lia|repeat constructor]).
Qed.

Lemma doRollback_new f mt now : new_file f -> in_period mt -> doRollback localtime f mt now = Ret (f, []).
Proof. intros Hf Hmt. unfold doRollback. by rewrite need_new. Qed.

(** ** The invariant *)

Context (ms : list (list message)) (Hms : Forall (Forall (fun m => in_period m.1)) ms).

(** Only the owner of the mutex is rolling. *)
Definition pending (s : st) : list call :=
  match owner s with
  | Some i => match threads s !! i with Some (Thread (Rolling cs) _) => cs | _ => [] end
  | None => []
  end.

Definition thread_ok (s : st) (i : nat) (th : thread) : Prop :=
  (match t_pc th with Rolling _ => owner s = Some i | _ => True end) /\
  (t_pc th = Testing \/ todo th <> []) /\
  exists l, ms !! i = Some l /\ written_by i (trace s) ++ map snd (todo th) = map snd l /\ Forall (fun m => in_period m.1) (todo th).

Definition before (s : st) : Prop :=
  file s = f0 /\ owner s = None /\ trace s = [] /\ Forall (fun th => t_pc th = Testing \/ t_pc th = Locking) (threads s).

Definition behind (s : st) : Prop :=
  new_file (file s) /\ (exists calls, one_rollover calls /\ rolled (trace s) ++ pending s = calls) /\
  (forall i, owner s = Some i -> exists cs l, threads s !! i = Some (Thread (Rolling cs) l)).

Record inv (s : st) : Prop := {
  i_threads i th : threads s !! i = Some th -> thread_ok s i th;
  i_count : length (threads s) = length ms;
  i_phase : before s \/ behind s
}.

Lemma threads_start : inv (start f0 ms).
Proof.
  split.
  - cbn. intros i th Hi. apply list_lookup_fmap_Some in Hi as (l & -> & Hl). split_and!; [done|by left|].
    exists l. split_and!; [done|done|]. cbn. rewrite Forall_forall in Hms. apply Hms. by eapply list_elem_of_lookup_2.
  - cbn. apply length_map.
  - left. split_and!; try done. cbn. rewrite List.Forall_map. apply Forall_true. by left.
Qed.

Lemma written_by_app i t1 t2 : written_by i (t1 ++ t2) = written_by i t1 ++ written_by i t2.
Proof. unfold written_by. by rewrite omap_app. Qed.

Lemma written_by_other i j c : i <> j -> written_by j [(i, c)] = [].
Proof. intros H. unfold written_by. cbn. by rewrite bool_decide_eq_false_2. Qed.

Lemma written_by_self i c : written_by i [(i, c)] = option_list (written c).
Proof. unfold written_by. cbn. rewrite bool_decide_eq_true_2 by done. by destruct (written c). Qed.

(** A step of thread [i] leaves the others as they are. *)
Lemma others_ok s s' i th' tr :
  (forall j th, threads s !! j = Some th -> thread_ok s j th) -> threads s' = <[i := th']> (threads s) ->
  owner s' = owner s \/ owner s = None \/ owner s = Some i -> trace s' = trace s ++ map (pair i) tr ->
  thread_ok s' i th' -> forall j th, threads s' !! j = Some th -> thread_ok s' j th.
Proof.
  intros Hs Et Ho Etr Hi j th. rewrite Et. intros [(<- & <- & _)|[Hne Hj]]%list_lookup_insert_Some; [done|].
  destruct (Hs j th Hj) as (Hp & Hd & l & Hl & Hw & Hin). split_and!.
  - destruct (t_pc th); try done. destruct Ho as [Ho|[Ho|Ho]]; congruence.
  - done.
  - exists l. split_and!; [done| |done]. rewrite Etr, written_by_app.
    assert (written_by j (map (pair i) tr) = []) as ->; [|by rewrite app_nil_r].
    unfold written_by. clear -Hne. induction tr as [|c tr IH]; cbn; [done|]. by rewrite bool_decide_eq_false_2.
Qed.

(** The owner's calls are untouched by a step of a thread that is not rolling. *)
Lemma pending_other s i th th' : threads s !! i = Some th -> (forall cs, t_pc th <> Rolling cs) ->
  (forall k, owner s = Some k -> exists cs l, threads s !! k = Some (Thread (Rolling cs) l)) ->
  forall k, owner s = Some k -> <[i := th']> (threads s) !! k = threads s !! k.
Proof.
  intros Hi Hp Ho k Hk. apply list_lookup_insert_ne. intros <-. destruct (Ho _ Hk) as (cs & l & E).
  rewrite Hi in E. injection E as ->. by apply (Hp cs).
Qed.

Lemma rolled_app t1 t2 : rolled (t1 ++ t2) = rolled t1 ++ rolled t2.
Proof. unfold rolled. by rewrite omap_app. Qed.

Lemma behind_same s s' i th th' tr : behind s -> threads s !! i = Some th -> (forall cs, t_pc th <> Rolling cs) ->
  file s' = file s -> owner s' = owner s -> threads s' = <[i := th']> (threads s) -> trace s' = trace s ++ tr -> rolled tr = [] ->
  behind s'.
Proof.
  intros (Hf & (calls & Hc & Hr) & Ho) Hi Hp Ef Eo Et Etr Hn. pose proof (pending_other s i th th' Hi Hp Ho) as Hk.
  split_and!; [by rewrite Ef| |].
  - exists calls. split; [done|]. rewrite Etr, rolled_app, Hn, app_nil_r, <- Hr. f_equal. unfold pending. rewrite Eo, Et.
    destruct (owner s) as [k|]; [|done]. by rewrite Hk.
  - rewrite Eo, Et. intros k Ek. rewrite Hk by done. by apply Ho.
Qed.

Lemma step_test s i mt msg rest b : inv s -> threads s !! i = Some (Thread Testing ((mt, msg) :: rest)) ->
  (owner s = None -> b = NeedRollback localtime (m_roll_strategy (file s)) mt) ->
  inv (set_thread i (Thread (if b then Locking else Writing) ((mt, msg) :: rest)) s).
Proof.
  intros [Ht Hc Hph] Hi Hb. destruct (Ht i _ Hi) as (_ & _ & l & Hl & Hw & Hin). cbn [todo] in *. split.
  - eapply (others_ok s _ i _ []); [done|done|by left|by rewrite app_nil_r|].
    split_and!; [by destruct b|by right|]. by exists l.
  - cbn. by rewrite length_insert.
  - destruct Hph as [(Hf & Ho & Htr & Hall)|Hbeh]; [left|right].
    + split_and!; [done|done|done|]. cbn. apply Forall_insert; [done|]. right. cbn.
      rewrite (Hb Ho), Hf, need_old; [done|]. by apply Forall_cons in Hin as [? _].
    + eapply (behind_same s _ i _ _ []); [exact Hbeh|exact Hi|by intros cs|done|done|done|by rewrite app_nil_r|done].
Qed.

Lemma step_lock s i mt msg rest now f calls : inv s -> threads s !! i = Some (Thread Locking ((mt, msg) :: rest)) ->
  owner s = None -> clock now -> doRollback localtime (file s) mt now = Ret (f, calls) ->
  inv (St f (Some i) (<[i := Thread (Rolling calls) ((mt, msg) :: rest)]> (threads s)) (trace s)).
Proof.
  intros [Ht Hc Hph] Hi Ho Hnow E. destruct (Ht i _ Hi) as (_ & _ & l & Hl & Hw & Hin). cbn [todo] in *.
  pose proof Hin as [Hmt _]%Forall_cons. cbn in Hmt. pose proof (lookup_lt_Some _ _ _ Hi) as Hlt. split.
  - eapply (others_ok s _ i _ []); [done|done|by right; left|by rewrite app_nil_r|].
    split_and!; [done|by right|]. by exists l.
  - cbn. by rewrite length_insert.
  - right. assert (new_file f /\ exists calls0, one_rollover calls0 /\ rolled (trace s) ++ calls = calls0) as (Hf & calls0 & Hc0 & Hr).
    { destruct Hph as [(Hf & _ & Htr & _)|(Hf & (calls0 & Hc0 & Hr) & _)].
      - rewrite Hf in E. destruct (doRollback_old mt now Hmt Hnow) as (f1 & c1 & E1 & ? & ?).
        rewrite E in E1. injection E1 as <- <-. split; [done|]. exists calls. split; [done|]. by rewrite Htr.
      - rewrite (doRollback_new _ _ _ Hf Hmt) in E. injection E as <- <-. split; [done|]. exists calls0. split; [done|].
        revert Hr. unfold pending. by rewrite Ho. }
    split_and!; [done| |].
    + exists calls0. split; [done|]. unfold pending. cbn. by rewrite list_lookup_insert_eq.
    + cbn. intros k [= <-]. rewrite list_lookup_insert_eq by done. eauto.
Qed.

Lemma step_call s i c cs l : inv s -> threads s !! i = Some (Thread (Rolling (c :: cs)) l) ->
  inv (emit i c (set_thread i (Thread (Rolling cs) l) s)).
Proof.
  intros [Ht Hc Hph] Hi. destruct (Ht i _ Hi) as (Ho & Hne & ml & Hl & Hw & Hin). cbn [todo t_pc] in *.
  pose proof (lookup_lt_Some _ _ _ Hi) as Hlt.
  destruct Hph as [(_ & Ho' & _)|(Hf & (calls & Hcs & Hr) & Hown)]; [congruence|].
  unfold pending in Hr. rewrite Ho, Hi in Hr.
  assert (roll_call c = Some c) as Hrc.
  { destruct Hcs as (_ & _ & Hall). rewrite <- Hr in Hall. by apply Forall_app in Hall as [_ [? _]%Forall_cons]. }
  split.
  - eapply (others_ok s _ i _ [c]); [done|done|by left|done|].
    split_and!; [done|by right; destruct Hne|]. exists ml. split_and!; [done| |done]. cbn [todo emit trace set_thread].
    rewrite written_by_app, written_by_self. assert (written c = None) as -> by (by destruct c). by rewrite app_nil_r.
  - cbn. by rewrite length_insert.
  - right. split_and!; [done| |].
    + exists calls. split; [done|]. unfold pending. cbn. rewrite Ho, list_lookup_insert_eq by done.
      rewrite rolled_app. cbn. rewrite Hrc, <- Hr, <- app_assoc. done.
    + cbn. intros k Hk. assert (k = i) as -> by congruence. rewrite list_lookup_insert_eq by done. eauto.
Qed.

Lemma step_unlock s i l : inv s -> threads s !! i = Some (Thread (Rolling []) l) ->
  inv (St (file s) None (<[i := Thread Writing l]> (threads s)) (trace s)).
Proof.
  intros [Ht Hc Hph] Hi. destruct (Ht i _ Hi) as (Ho & Hne & ml & Hl & Hw & Hin). cbn [todo t_pc] in *.
  destruct Hph as [(_ & Ho' & _)|(Hf & (calls & Hcs & Hr) & Hown)]; [congruence|].
  unfold pending in Hr. rewrite Ho, Hi in Hr. split.
  - eapply (others_ok s _ i _ []); [done|done|by right; right|by rewrite app_nil_r|].
    split_and!; [done|right; by destruct Hne|]. by exists ml.
  - cbn. by rewrite length_insert.
  - right. split_and!; [done|by exists calls|done].
Qed.

Lemma step_write s i mt msg rest : inv s -> threads s !! i = Some (Thread Writing ((mt, msg) :: rest)) ->
  inv (emit i (WriteStr msg) (set_thread i (Thread Testing rest) s)).
Proof.
  intros [Ht Hc Hph] Hi. destruct (Ht i _ Hi) as (_ & _ & l & Hl & Hw & Hin). cbn [todo] in *. split.
  - eapply (others_ok s _ i _ [WriteStr msg]); [done|done|by left|done|].
    split_and!; [done|by left|]. exists l. split_and!; [done| |by apply Forall_cons in Hin as [_ ?]].
    cbn [todo emit trace set_thread]. rewrite written_by_app, written_by_self. cbn. by rewrite <- app_assoc.
  - cbn. by rewrite length_insert.
  - destruct Hph as [(_ & _ & _ & Hall)|Hbeh]; [|right].
    + rewrite Forall_lookup in Hall. destruct (Hall i _ Hi); done.
    + eapply (behind_same s _ i _ _ [(i, WriteStr msg)]); [exact Hbeh|exact Hi|by intros cs|done..].
Qed.

Lemma inv_step s s' : inv s -> step s s' -> inv s'.
Proof.
  intros Hs [i mt msg rest b Hi Hb|i mt msg rest now f calls Hi Ho Hn E|i c cs l Hi|i l Hi|i mt msg rest Hi].
  - by apply step_test.
  - by eapply step_lock.
  - by apply step_call.
  - by apply step_unlock.
  - by eapply step_write.
Qed.

Lemma inv_reach s : rtc step (start f0 ms) s -> inv s.
Proof.
  intros Hr. revert s Hr. apply rtc_ind_r; [apply threads_start|]. intros s1 s2 _ Hst Hi. by eapply inv_step.
Qed.

(** ** Progress *)

Lemma progress s now : inv s -> clock now -> ~ finished s -> exists s', step s s'.
Proof.
  intros [Ht Hc Hph] Hnow Hn. destruct (owner s) as [k|] eqn:Eo.
  - destruct Hph as [(_ & Ho & _)|(_ & _ & Ho)]; [congruence|]. destruct (Ho k Eo) as (cs & l & Hk).
    destruct cs as [|c cs]; eexists; [by eapply do_unlock|by eapply do_call].
  - apply not_Forall_Exists in Hn; [|apply _].
    apply Exists_exists in Hn as (th & Hth & Hd). apply list_elem_of_lookup in Hth as [i Hi].
    destruct (Ht i th Hi) as (Hp & Hne & l & Hl & Hw & Hin). destruct th as [p ml]. cbn [t_pc todo] in *.
    destruct ml as [|[mt msg] rest]; [by destruct Hne as [->|]; [exfalso; apply Hd; reflexivity|]|]. destruct p as [| |cs|]; [| |congruence|].
    + eexists. by eapply do_test.
    + apply Forall_cons in Hin as [Hmt _]. cbn in Hmt.
      assert (exists f calls, doRollback localtime (file s) mt now = Ret (f, calls)) as (f & calls & E).
      { destruct Hph as [(-> & _)|(Hf & _)]; [|rewrite (doRollback_new _ _ _ Hf Hmt); eauto].
        destruct (doRollback_old mt now Hmt Hnow) as (f & calls & E & _). eauto. }
      eexists. by eapply do_lock.
    + eexists. by eapply do_write.
Qed.

(** A message takes at most seven steps. *)
Definition weight (th : thread) : nat :=
  match t_pc th with
  | Testing => 8 * length (todo th)
  | Locking => 8 * length (todo th) - 1
  | Rolling cs => 8 * length (todo th) - 5 + length cs
  | Writing => 8 * length (todo th) - 6
  end.

Definition measure (s : st) : nat := sum_list_with weight (threads s).

Lemma measure_set s i th th' : threads s !! i = Some th -> (weight th' < weight th)%nat ->
  (sum_list_with weight (<[i := th']> (threads s)) < measure s)%nat.
Proof. intros Hi Hw. pose proof (sum_with_insert weight i th th' (threads s) Hi). unfold measure. lia. Qed.

Lemma step_measure s s' : inv s -> step s s' -> (measure s' < measure s)%nat.
Proof.
  intros Hs Hst. pose proof (inv_step s s' Hs Hst) as [_ _ Hph']. destruct Hs as [Ht Hc Hph].
  destruct Hst as [i mt msg rest b Hi Hb|i mt msg rest now f calls Hi Ho Hn E|i c cs l Hi|i l Hi|i mt msg rest Hi];
    (eapply measure_set; [exact Hi|]); cbn [weight t_pc todo length]; try lia.
  - destruct b; cbn [weight t_pc todo length]; lia.
  - assert (length calls <= 3)%nat; [|lia].
    destruct Hph' as [(_ & Ho' & _)|(_ & (c0 & (_ & Hc0 & _) & Hr) & _)]; [done|].
    unfold pending in Hr. cbn in Hr. rewrite list_lookup_insert_eq in Hr by (by eapply lookup_lt_Some).
    rewrite <- Hr, length_app in Hc0. lia.
  - destruct (Ht i _ Hi) as (_ & [Hne|Hne] & _); [done|]. cbn in Hne. destruct l; [done|]. cbn [length]. lia.
Qed.

Lemma steps_bounded n s s' : inv s -> nsteps step n s s' -> (n + measure s' <= measure s)%nat.
Proof.
  intros Hs Hn. induction Hn as [s|n s s1 s' Hst Hn IH]; [lia|].
  pose proof (step_measure _ _ Hs Hst). specialize (IH (inv_step _ _ Hs Hst)). lia.
Qed.

Lemma weight_start : measure (start f0 ms) = (8 * length (concat ms))%nat.
Proof.
  unfold measure. cbn [threads start]. clear. induction ms as [|l k IH]; [done|].
  cbn [map sum_list_with concat]. rewrite IH, length_app. cbn [weight t_pc todo]. lia.
Qed.

Lemma finished_pending s : inv s -> finished s -> pending s = [].
Proof.
  intros _ Hf. unfold pending. destruct (owner s) as [k|]; [|done]. destruct (threads s !! k) as [th|] eqn:E; [|done].
  unfold finished in Hf. rewrite Forall_lookup in Hf. by rewrite (Hf k th E).
Qed.

Lemma finished_written s i l : inv s -> finished s -> ms !! i = Some l -> written_by i (trace s) = map snd l.
Proof.
  intros [Ht Hc _] Hf Hl. destruct (lookup_lt_is_Some_2 (threads s) i) as [th Hi]; [rewrite Hc; by eapply lookup_lt_Some|].
  destruct (Ht i th Hi) as (_ & _ & l' & Hl' & Hw & _). unfold finished in Hf. rewrite Forall_lookup in Hf.
  rewrite (Hf i th Hi), app_nil_r in Hw. congruence.
Qed.

End period.
End steps.

(** C14: A change of period is one rollover, however the threads interleave, although the
    strategy is also tested without the mutex: when all messages are of the period
    that has begun and the clock stays in it, the file is switched once and never
    twice, each thread's messages are written in its order, and the threads get to
    the end, where all are written, in at most eight steps for each. *)
Theorem rollover_once localtime clock f0 P ms now :
  valid_value (m_value (m_roll_strategy f0)) -> tm_normal (tm_of localtime (m_mtTime (m_roll_strategy f0))) ->
  period (m_value (m_roll_strategy f0)) (tm_of localtime (m_mtTime (m_roll_strategy f0))) <> P ->
  (forall t, clock t -> in_period localtime f0 P t) -> clock now ->
  Forall (Forall (fun m => in_period localtime f0 P m.1)) ms ->
  forall n s, nsteps (step localtime clock) n (start f0 ms) s ->
  let switches := length (List.filter is_dup2 (rolled (trace s))) in
  (switches <= 1)%nat /\
  (forall i l, ms !! i = Some l -> exists rest, map snd l = written_by i (trace s) ++ rest) /\
  (n <= 8 * length (concat ms))%nat /\
  (finished s \/ exists s', step localtime clock s s') /\
  (finished s -> (forall i l, ms !! i = Some l -> written_by i (trace s) = map snd l) /\
     (concat ms <> [] -> switches = 1%nat)).
Proof.
  intros Hv H0 Hold Hclock Hnow Hms n s Hn switches.
  assert (inv localtime f0 P ms s) as Hs by (eapply inv_reach; [exact Hv|exact H0|exact Hold|exact Hclock|exact Hms|]; apply rtc_nsteps; eauto).
  split_and!.
  - unfold switches. destruct (i_phase _ _ _ _ _ Hs) as [(_ & _ & -> & _)|(_ & (c & (Hc & _) & Hr) & _)]; [cbn; lia|].
    rewrite <- Hr, List.filter_app, length_app in Hc. lia.
  - intros i l Hl. destruct (lookup_lt_is_Some_2 (threads s) i) as [th Hi].
    { rewrite (i_count _ _ _ _ _ Hs). by eapply lookup_lt_Some. }
    destruct (i_threads _ _ _ _ _ Hs i th Hi) as (_ & _ & l' & Hl' & Hw & _). exists (map snd (todo th)). congruence.
  - pose proof (steps_bounded localtime clock f0 P Hv H0 Hold Hclock ms n (start f0 ms) s) as Hb.
    rewrite weight_start in Hb. specialize (Hb (threads_start localtime f0 P ms Hms) Hn). lia.
  - destruct (decide (finished s)) as [Hf|Hf]; [by left|right].
    by eapply (progress localtime clock f0 P Hv H0 Hold Hclock ms s now).
  - intros Hf. split; [intros i l Hl; by eapply finished_written|]. intros Hne.
    pose proof (finished_pending _ _ _ _ _ Hs Hf) as Hp.
    destruct (i_phase _ _ _ _ _ Hs) as [(_ & _ & Htr & _)|(_ & (c & (Hc & _) & Hr) & _)].
    + exfalso. apply Hne. clear -Hs Hf Htr. apply concat_nil_Forall. apply Forall_lookup. intros i l Hl.
      pose proof (finished_written _ _ _ _ s i l Hs Hf Hl) as Hw. rewrite Htr in Hw. by destruct l.
    + unfold switches. by rewrite Hp, app_nil_r in Hr; subst c.
Qed.

(** Two threads find that a day has passed: the second, when it gets the mutex, finds
    that the first has switched the file. *)
Definition next_day : HMicroTime.t := HMicroTime.Tv 1 0.
Definition two_messages : list (list message) := [[(next_day, str "x")]; [(next_day, str "y")]].
Definition old_file : Logfile.t := Logfile.make (str "a") Logfile.DAY (HMicroTime.Tv 0 0).

Example two_threads_run : exists s,
  nsteps (step toy_clock (eq next_day)) 10 (start old_file two_messages) s /\ finished s.
Proof.
  eexists. split.
  - eapply nsteps_l; [eapply (do_test _ _ _ 0%nat _ _ _ true); [reflexivity|intros _; vm_compute; reflexivity]|].
    eapply nsteps_l; [eapply (do_test _ _ _ 1%nat _ _ _ true); [reflexivity|intros _; vm_compute; reflexivity]|].
    eapply nsteps_l; [eapply (do_lock _ _ _ 0%nat); [reflexivity|reflexivity|reflexivity|vm_compute; reflexivity]|].
    do 2 (eapply nsteps_l; [eapply (do_call _ _ _ 0%nat); reflexivity|]).
    eapply nsteps_l; [eapply (do_unlock _ _ _ 0%nat); reflexivity|].
    eapply nsteps_l; [eapply (do_lock _ _ _ 1%nat); [reflexivity|reflexivity|reflexivity|vm_compute; reflexivity]|].
    eapply nsteps_l; [eapply (do_unlock _ _ _ 1%nat); reflexivity|].
    eapply nsteps_l; [eapply (do_write _ _ _ 1%nat); reflexivity|].
    eapply nsteps_l; [eapply (do_write _ _ _ 0%nat); reflexivity|].
    apply nsteps_O.
  - repeat constructor.
Qed.

Lemma rollover_once_witness : exists s,
  nsteps (step toy_clock (eq next_day)) 10 (start old_file two_messages) s /\
  length (List.filter is_dup2 (rolled (trace s))) = 1%nat.
Proof.
  destruct two_threads_run as (s & Hn & Hf). exists s. split; [exact Hn|].
  destruct (rollover_once toy_clock (eq next_day) old_file (period Logfile.DAY (tm_of toy_clock next_day))
    two_messages next_day) with (n := 10%nat) (s := s) as (_ & _ & _ & _ & H).
  - by left.
  - apply toy_normal.
  - vm_compute. discriminate.
  - intros t <-. split; [apply toy_normal|reflexivity].
  - reflexivity.
  - repeat constructor; apply toy_normal.
  - exact Hn.
  - apply (H Hf). discriminate.
Defined.

End LogThreads.
