(* ===== verification/FdIn.v ===== *)
(** * Descriptors: [src/internal/fd_in.cpp], [src/hfilehandle.cpp]

    A descriptor object owns an integer; the kernel has a set of open
    descriptors with their status flags.  Constructions, moves, assignments, closes and
    destructions of objects are steps of a program; its objects live in a map. *)

From S2P Require Import Prelude.
From stdpp Require Import gmap.
#[local] Open Scope Z_scope.

Module fd_in.

(** ** Definitions *)

Definition invalid_fd : Z := -1.

(** An object is its [m_fd]. *)
Definition IsInvalid (m_fd : Z) : bool := m_fd =? invalid_fd.

(** The open descriptors with their flags, and how often [close] was called on a
    descriptor that is not open. *)
Record kernel : Type := Kernel { k_open : gmap Z Z; k_bad_closes : nat }.

Definition sys_close (fd : Z) (k : kernel) : kernel :=
  match k_open k !! fd with
  | Some _ => Kernel (delete fd (k_open k)) (k_bad_closes k)
  | None => Kernel (k_open k) (S (k_bad_closes k))
  end.

(** The destructor and [Close]. *)
Definition destroy (m_fd : Z) (k : kernel) : kernel := if negb (m_fd =? invalid_fd) then sys_close m_fd k else k.

Definition Close (m_fd : Z) (k : kernel) : Z * kernel :=
  if negb (IsInvalid m_fd) then (invalid_fd, sys_close m_fd k) else (m_fd, k).

(** The move constructor and move assignment: the new values of target and source. *)
Definition move (other : Z) : Z * Z := (other, invalid_fd).
Definition assign (self other : Z) : Z * Z := (other, invalid_fd).

(** *** Reading, writing, flags *)

(** [CHECK_FD] around a system call that answers [ans]. *)
Definition io (m_fd ans : Z) : Z := if IsInvalid m_fd then -1 else ans.

Definition Read := io.
Definition Write := io.
Definition Pread := io.
Definition Pwrite := io.

(** [WriteV] and [ReadV] return [HSIZE]: an error is the largest value. *)
Definition WriteV (m_fd ans : Z) : Z := u64 (io m_fd ans).
Definition ReadV := WriteV.

Definition O_NONBLOCK : Z := 2048.

Definition F_GETFL (fd : Z) (k : kernel) : Z := default (-1) (k_open k !! fd).

(** [fcntl(fd, F_SETFL, flags)] gives 0 or an error. *)
Definition F_SETFL (fd flags : Z) (k : kernel) : Z * kernel :=
  match k_open k !! fd with
  | Some _ => (0, Kernel (<[fd := flags]> (k_open k)) (k_bad_closes k))
  | None => (-1, k)
  end.

Definition nonblocking (flags : Z) : bool := negb (Z.land flags O_NONBLOCK =? 0).

Definition SetNonblocked (m_fd : Z) (bFlag : bool) (k : kernel) : herr * kernel :=
  if IsInvalid m_fd then (SRC_ERR, k)
  else
    let flags := F_GETFL m_fd k in
    if negb (flags >=? 0) then (SYS_FAILED, k)
    else if bFlag && nonblocking flags then (OK, k)
    else if negb bFlag && negb (nonblocking flags) then (OK, k)
    else if bFlag then
      let '(r, k) := F_SETFL m_fd (Z.lor flags O_NONBLOCK) k in
      (if r >=? 0 then OK else SYS_FAILED, k)
    else
      let '(r, k) := F_SETFL m_fd (Z.lor flags (Z.lnot O_NONBLOCK)) k in
      (if r >? 0 then OK else SYS_FAILED, k).

Definition IsNonblocked (m_fd : Z) (k : kernel) : res bool :=
  let flags := F_GETFL m_fd k in
  _ ← assert_throw (flags >=? 0) SYS_FAILED;
  Ret (nonblocking flags).

(** *** Programs over objects *)

Record st : Type := St { objs : gmap nat Z; kern : kernel }.

Inductive op : Type :=
  | New (o : nat)                        (* default constructor *)
  | Own (o : nat) (fd flags : Z)         (* from a descriptor the kernel just opened *)
  | MoveTo (o o' : nat)                  (* object [o] moved out of [o'] *)
  | Assign (o o' : nat)                  (* o = std::move(o') *)
  | DoClose (o : nat)
  | Destroy (o : nat)
  | Reopen (o : nat) (fd flags : Z)      (* HFileHandle::Open on an object *)
  | Dup (o o' : nat) (fd : Z)            (* o is made by o'.Dup(); fd < 0: dup failed *)
  | TmpFile (o : nat) (ftmp fd : Z).     (* o is made by HFileHandle::TmpFile() *)

(** [Dup] of [HFileHandle]: [fd] is what [dup] answers, a number the kernel has not
    given out, or negative. *)
Definition duplicate (m_fd fd : Z) (k : kernel) : option (Z * kernel) :=
  if IsInvalid m_fd then Some (invalid_fd, k)
  else if fd <? 0 then Some (invalid_fd, k)
  else if bool_decide (k_open k !! fd = None)
  then Some (fd, Kernel (<[fd := default 0 (k_open k !! m_fd)]> (k_open k)) (k_bad_closes k))
  else None.

(** [TmpFile] of [HFileHandle]: what [fileno] and [dup] answer, negative for a
    failure, which throws.  The file of [tmpfile64] is closed on every way out. *)
Definition tmp_file (ftmp fd : Z) (k : kernel) : option (option Z * kernel) :=
  let opened fd k := Kernel (<[fd := 2]> (k_open k)) (k_bad_closes k) in
  if ftmp <? 0 then Some (None, k)
  else if bool_decide (k_open k !! ftmp = None) then
    let k := opened ftmp k in
    if fd <? 0 then Some (None, sys_close ftmp k)
    else if bool_decide (k_open k !! fd = None) then Some (Some fd, sys_close ftmp (opened fd k)) else None
  else None.

(** A new object takes an unused name, an operation on one needs it alive; the
    kernel opens unused numbers that are not negative. *)
Definition step (p : op) (s : st) : option st :=
  let k := kern s in
  let opened fd flags := Kernel (<[fd := flags]> (k_open k)) (k_bad_closes k) in
  match p with
  | New o => match objs s !! o with None => Some (St (<[o := invalid_fd]> (objs s)) k) | Some _ => None end
  | Own o fd flags =>
    if (0 <=? fd) && bool_decide (k_open k !! fd = None) && bool_decide (objs s !! o = None)
    then Some (St (<[o := fd]> (objs s)) (opened fd flags)) else None
  | MoveTo o o' =>
    match objs s !! o, objs s !! o' with
    | None, Some x => let '(a, b) := move x in Some (St (<[o := a]> (<[o' := b]> (objs s))) k)
    | _, _ => None
    end
  | Assign o o' =>
    match objs s !! o, objs s !! o' with
    | Some self, Some x => let '(a, b) := assign self x in Some (St (<[o' := b]> (<[o := a]> (objs s))) k)
    | _, _ => None
    end
  | DoClose o =>
    match objs s !! o with Some x => let '(x, k) := Close x k in Some (St (<[o := x]> (objs s)) k) | None => None end
  | Destroy o =>
    match objs s !! o with Some x => Some (St (delete o (objs s)) (destroy x k)) | None => None end
  | Reopen o fd flags =>
    match objs s !! o with
    | Some _ => if (0 <=? fd) && bool_decide (k_open k !! fd = None)
                then Some (St (<[o := fd]> (objs s)) (opened fd flags)) else None
    | None => None
    end
  | Dup o o' fd =>
    match objs s !! o, objs s !! o' with
    | None, Some x => match duplicate x fd k with Some (fd, k) => Some (St (<[o := fd]> (objs s)) k) | None => None end
    | _, _ => None
    end
  | TmpFile o ftmp fd =>
    match objs s !! o, tmp_file ftmp fd k with
    | None, Some (Some fd, k) => Some (St (<[o := fd]> (objs s)) k)
    | None, Some (None, k) => Some (St (objs s) k)
    | _, _ => None
    end
  end.

Fixpoint run (ps : list op) (s : st) : option st :=
  match ps with [] => Some s | p :: ps => match step p s with Some s => run ps s | None => None end end.

Definition start : st := St ∅ (Kernel ∅ 0).

(** An operation that does not overwrite an object that owns a descriptor. *)
Definition keeps (p : op) (s : st) : bool :=
  match p with
  | Assign o o' => negb (bool_decide (o = o')) && bool_decide (objs s !! o = Some invalid_fd)
  | Reopen o _ _ => bool_decide (objs s !! o = Some invalid_fd)
  | _ => true
  end.

Fixpoint run_keeps (ps : list op) (s : st) : bool :=
  match ps with
  | [] => true
  | p :: ps => keeps p s && match step p s with Some s => run_keeps ps s | None => true end
  end.

(** ** Ownership *)

(** Every open descriptor is held by exactly one object, every descriptor an
    object holds is open, and no descriptor was closed twice. *)
Definition owned (s : st) : Prop :=
  (forall fd, is_Some (k_open (kern s) !! fd) <-> fd <> invalid_fd /\ exists o, objs s !! o = Some fd) /\
  (forall o o' fd, fd <> invalid_fd -> objs s !! o = Some fd -> objs s !! o' = Some fd -> o = o') /\
  k_bad_closes (kern s) = 0%nat.

End fd_in.

(** ** File handles *)

Module HFileHandle.
Import fd_in.

(** [ans]: what the system call returned. *)
Definition Open (m_fd ans : Z) : herr * Z := if negb (ans >=? 0) then (SYS_FAILED, m_fd) else (OK, ans).

(** The new descriptor of the file is closed on every way out. *)
Definition Dup2 (ans_open ans_dup2 : Z) (k : kernel) : herr * kernel :=
  if negb (ans_open >=? 0) then (SYS_FAILED, k)
  else (if negb (ans_dup2 >=? 0) then SYS_FAILED else OK, sys_close ans_open k).

Definition dolock (ans : Z) : herr := if ans =? 0 then OK else SYS_FAILED.

Definition WriteString (m_fd ans : Z) : Z := fd_in.Write m_fd ans.

(** The result of [syncfs] is taken for a truth value. *)
Definition Sync (ans : Z) : herr := if negb (ans =? 0) then OK else IO_FAILED.

Definition SetToZero (ans : Z) : herr := if ans =? 0 then OK else IO_FAILED.

End HFileHandle.

Module FdFacts.
Import fd_in.

(** ** Lemmas *)

(** The descriptors a program's objects hold change one object at a time. *)
Lemma owned_add s o fd flags :
  owned s -> objs s !! o = None \/ objs s !! o = Some invalid_fd -> 0 <= fd -> k_open (kern s) !! fd = None ->
  owned (St (<[o := fd]> (objs s)) (Kernel (<[fd := flags]> (k_open (kern s))) (k_bad_closes (kern s)))).
Proof.
  intros (H1 & H2 & H3) Ho Hfd Hk. assert (fd <> invalid_fd) as Hi by (unfold invalid_fd; lia).
  assert (forall o', objs s !! o' <> Some fd) as Hfree.
  { intros o' E. assert (is_Some (k_open (kern s) !! fd)) as [? Hs] by (apply H1; eauto). congruence. }
  split_and!; [| |done]; cbn [kern objs k_open].
  - intros fd'. destruct (decide (fd = fd')) as [<-|Hne].
    + rewrite lookup_insert_eq. split; [|by eauto]. intros _. split; [done|]. exists o. by rewrite lookup_insert_eq.
    + rewrite lookup_insert_ne by done. rewrite H1. split; intros (Hv & o' & E); (split; [done|]); exists o'.
      * destruct (decide (o = o')) as [<-|]; [|by rewrite lookup_insert_ne]. destruct Ho; congruence.
      * destruct (decide (o = o')) as [<-|]; [rewrite lookup_insert_eq in E; congruence|by rewrite lookup_insert_ne in E].
  - intros o1 o2 fd' Hv [[<- <-]|[N1 E1]]%lookup_insert_Some [[<- E]|[N2 E2]]%lookup_insert_Some; [done| | |by eapply H2].
    + by destruct (Hfree o2).
    + subst fd'. by destruct (Hfree o1).
Qed.

(** Adding or renaming an object without a descriptor. *)
Lemma owned_invalid s o :
  owned s -> objs s !! o = None \/ objs s !! o = Some invalid_fd -> owned (St (<[o := invalid_fd]> (objs s)) (kern s)).
Proof.
  intros (H1 & H2 & H3) Ho. split_and!; [| |done]; cbn [kern objs].
  - intros fd. rewrite H1. split; intros (Hv & o' & E); (split; [done|]); exists o'.
    + destruct (decide (o = o')) as [<-|]; [destruct Ho; congruence|by rewrite lookup_insert_ne].
    + destruct (decide (o = o')) as [<-|]; [rewrite lookup_insert_eq in E; congruence|by rewrite lookup_insert_ne in E].
  - intros o1 o2 fd Hv [[<- <-]|[N1 E1]]%lookup_insert_Some [[<- E]|[N2 E2]]%lookup_insert_Some; by (done || eapply H2).
Qed.

(** The descriptor of [o'] goes to [o]. *)
Lemma owned_transfer s o o' x :
  owned s -> o <> o' -> objs s !! o = None \/ objs s !! o = Some invalid_fd -> objs s !! o' = Some x ->
  owned (St (<[o := x]> (<[o' := invalid_fd]> (objs s))) (kern s)).
Proof.
  intros (H1 & H2 & H3) Hne Ho Ho'. split_and!; [| |done]; cbn [kern objs].
  - intros fd. rewrite H1. split; intros (Hv & q & E); (split; [done|]).
    + destruct (decide (q = o')) as [->|].
      * exists o. rewrite lookup_insert_eq. congruence.
      * exists q. rewrite !lookup_insert_ne; [done|done|]. intros <-. destruct Ho; congruence.
    + destruct (decide (o = q)) as [<-|].
      * rewrite lookup_insert_eq in E. exists o'. congruence.
      * rewrite lookup_insert_ne in E by done. destruct (decide (o' = q)) as [<-|].
        { rewrite lookup_insert_eq in E. congruence. }
        rewrite lookup_insert_ne in E by done. eauto.
  - intros o1 o2 fd Hv E1 E2.
    assert (forall q, (<[o := x]> (<[o' := invalid_fd]> (objs s))) !! q = Some fd ->
              (q = o /\ objs s !! o' = Some fd) \/ (q <> o' /\ objs s !! q = Some fd)) as L.
    { intros q E. destruct (decide (o = q)) as [<-|]; [rewrite lookup_insert_eq in E; left; split; congruence|].
      rewrite lookup_insert_ne in E by done. destruct (decide (o' = q)) as [<-|].
      { rewrite lookup_insert_eq in E. congruence. } rewrite lookup_insert_ne in E by done. by right. }
    apply L in E1, E2. destruct E1 as [[-> E1]|[N1 E1]], E2 as [[-> E2]|[N2 E2]]; [done| | |by eapply H2].
    + exfalso. apply N2. by eapply H2.
    + exfalso. apply N1. by eapply H2.
Qed.

(** Closing the descriptor of an object that then has none, or is gone. *)
Lemma owned_close s o x m :
  owned s -> objs s !! o = Some x ->
  (forall q, q <> o -> m !! q = objs s !! q) -> m !! o = None \/ m !! o = Some invalid_fd ->
  owned (St m (destroy x (kern s))).
Proof.
  intros (H1 & H2 & H3) Ho Hm Hmo. unfold destroy. destruct (Z.eqb_spec x invalid_fd) as [->|Hx]; cbn [negb].
  - split_and!; [| |done]; cbn [kern objs].
    + intros fd. rewrite H1. split; intros (Hv & q & E); (split; [done|]); exists q;
        (destruct (decide (q = o)) as [->|]; [|by rewrite ?Hm in * by done]); [congruence|destruct Hmo; congruence].
    + intros o1 o2 fd Hv E1 E2. destruct (decide (o1 = o)) as [->|]; [destruct Hmo; congruence|].
      destruct (decide (o2 = o)) as [->|]; [destruct Hmo; congruence|]. rewrite Hm in E1, E2 by done. eauto.
  - assert (is_Some (k_open (kern s) !! x)) as [f Hf] by (apply H1; eauto).
    unfold sys_close. rewrite Hf. split_and!; [| |done]; cbn [kern objs k_open].
    + intros fd. destruct (decide (x = fd)) as [<-|Hne].
      * rewrite lookup_delete_eq. split; [by intros [? [=]]|]. intros (_ & q & E).
        destruct (decide (q = o)) as [->|Hq]; [destruct Hmo; congruence|]. rewrite Hm in E by done.
        exfalso. apply Hq. by eapply H2.
      * rewrite lookup_delete_ne by done. rewrite H1.
        split; intros (Hv & q & E); (split; [done|]); exists q;
          (destruct (decide (q = o)) as [->|]; [|by rewrite ?Hm in * by done]); [congruence|destruct Hmo; congruence].
    + intros o1 o2 fd Hv E1 E2. destruct (decide (o1 = o)) as [->|]; [destruct Hmo; congruence|].
      destruct (decide (o2 = o)) as [->|]; [destruct Hmo; congruence|]. rewrite Hm in E1, E2 by done. eauto.
Qed.

(** Of a temporary file at most the duplicate stays open. *)
Lemma tmp_file_spec ftmp fd k r k' : tmp_file ftmp fd k = Some (r, k') ->
  match r with
  | None => k' = k
  | Some fd' => fd' = fd /\ 0 <= fd /\ k_open k !! fd = None /\ k' = Kernel (<[fd := 2]> (k_open k)) (k_bad_closes k)
  end.
Proof.
  unfold tmp_file, sys_close. cbn [k_open k_bad_closes]. destruct k as [m n]. cbn [k_open k_bad_closes].
  case_match; [by intros [= <- <-]|]. case_bool_decide as Ht; [|done]. case_match.
  - rewrite lookup_insert_eq. intros [= <- <-]. by rewrite delete_insert_id.
  - case_bool_decide as Hf; [|done]. apply lookup_insert_None in Hf as [Hf Hne].
    rewrite lookup_insert_ne, lookup_insert_eq by done. intros [= <- <-]. split_and!; [done|lia|done|].
    by rewrite delete_insert_ne, delete_insert_id.
Qed.

Lemma owned_step p s s' : owned s -> keeps p s = true -> step p s = Some s' -> owned s'.
Proof.
  intros Hs Hk Hstep. destruct s as [m k]. destruct p as [o|o fd fl|o o'|o o'|o|o|o fd fl|o o' fd|o ftmp fd]; cbn [step objs kern keeps] in *.
  - destruct (m !! o) eqn:E; [done|]. injection Hstep as <-. apply (owned_invalid (St m k)); [done|by left].
  - destruct (0 <=? fd) eqn:Efd; [|done]. do 2 (case_bool_decide; [|done]). injection Hstep as <-.
    apply (owned_add (St m k)); [done|by left|lia|done].
  - destruct (m !! o) eqn:E; [done|]. destruct (m !! o') as [x|] eqn:E'; [|done]. injection Hstep as <-.
    apply (owned_transfer (St m k)); [done|congruence|by left|done].
  - apply andb_true_iff in Hk as [Hne Ho]. apply negb_true_iff, bool_decide_eq_false in Hne. apply bool_decide_eq_true in Ho.
    rewrite Ho in Hstep. destruct (m !! o') as [x|] eqn:E'; [|done]. injection Hstep as <-.
    rewrite insert_insert_ne by congruence. apply (owned_transfer (St m k)); [done|done|by right|done].
  - destruct (m !! o) as [x|] eqn:E; [|done]. unfold Close in Hstep.
    assert (s' = St (<[o := invalid_fd]> m) (destroy x k)) as ->.
    { unfold destroy, IsInvalid in *. destruct (Z.eqb_spec x invalid_fd) as [->|]; cbn [negb] in *; by injection Hstep. }
    apply (owned_close (St m k) o); [done|done| |right; apply lookup_insert_eq]. intros q Hq. by rewrite lookup_insert_ne.
  - destruct (m !! o) as [x|] eqn:E; [|done]. injection Hstep as <-.
    apply (owned_close (St m k) o); [done|done| |left; apply lookup_delete_eq]. intros q Hq. by rewrite lookup_delete_ne.
  - apply bool_decide_eq_true in Hk. rewrite Hk in Hstep. destruct (0 <=? fd) eqn:Efd; [|done].
    case_bool_decide; [|done]. injection Hstep as <-. apply (owned_add (St m k)); [done|by right|lia|done].
  - destruct (m !! o) eqn:E; [done|]. destruct (m !! o') as [x|] eqn:E'; [|done].
    unfold duplicate in Hstep. destruct (IsInvalid x); [|destruct (fd <? 0) eqn:Efd].
    + injection Hstep as <-. apply (owned_invalid (St m k)); [done|by left].
    + injection Hstep as <-. apply (owned_invalid (St m k)); [done|by left].
    + case_bool_decide; [|done]. injection Hstep as <-. apply (owned_add (St m k)); [done|by left|lia|done].
  - destruct (m !! o) eqn:E; [done|]. destruct (tmp_file ftmp fd k) as [[r k']|] eqn:Et; [|done].
    apply tmp_file_spec in Et. destruct r as [fd'|]; injection Hstep as <-.
    + destruct Et as (-> & ? & ? & ->). apply (owned_add (St m k)); [done|by left|done|done].
    + by rewrite Et.
Qed.

Lemma owned_start : owned start.
Proof.
  split_and!; [|done|done]. intros fd. cbn. rewrite lookup_empty. split; [by intros [? [=]]|].
  intros (_ & o & E). by rewrite lookup_empty in E.
Qed.

End FdFacts.

(** C22: Descriptors are owned: in every program of constructions, moves, closes,
    duplications, temporary files and destructions, in any order, that assigns to and reopens
    only objects without a descriptor, every open descriptor is held by exactly one
    object, every held descriptor is open and none is closed twice; when all
    objects are gone no descriptor is left open. *)
Theorem descriptors_owned ps s :
  fd_in.run ps fd_in.start = Some s -> fd_in.run_keeps ps fd_in.start = true ->
  fd_in.owned s /\ (fd_in.objs s = ∅ -> fd_in.k_open (fd_in.kern s) = ∅).
Proof.
  intros Hrun Hk.
  assert (fd_in.owned s) as Hs.
  { pose proof FdFacts.owned_start as H0. revert H0 Hrun Hk. generalize fd_in.start as s0.
    induction ps as [|p ps IH]; intros s0 H0 Hrun Hk; cbn [fd_in.run fd_in.run_keeps] in *; [congruence|].
    apply andb_true_iff in Hk as [Hp Hk]. destruct (fd_in.step p s0) as [s1|] eqn:E; [|done].
    apply (IH s1); [|done|done]. by eapply FdFacts.owned_step. }
  split; [done|]. intros Hobj. destruct Hs as (H1 & _ & _). apply map_empty. intros fd.
  destruct (fd_in.k_open (fd_in.kern s) !! fd) eqn:E; [|done].
  assert (is_Some (fd_in.k_open (fd_in.kern s) !! fd)) as (_ & o & Ho)%H1 by eauto.
  by rewrite Hobj, lookup_empty in Ho.
Qed.

Lemma descriptors_owned_witness :
  let ps := [fd_in.Own 0 3 0; fd_in.MoveTo 1 0; fd_in.Dup 2 1 4; fd_in.DoClose 1; fd_in.Destroy 2; fd_in.New 3;
             fd_in.Own 4 3 0; fd_in.Assign 3 4; fd_in.TmpFile 5 4 5; fd_in.TmpFile 6 4 (-1); fd_in.Destroy 3; fd_in.Destroy 4;
             fd_in.Destroy 5; fd_in.Destroy 0; fd_in.Destroy 1] in
  let s := fd_in.St ∅ (fd_in.Kernel ∅ 0) in
  fd_in.owned s /\ (fd_in.objs s = ∅ -> fd_in.k_open (fd_in.kern s) = ∅).
Proof. intros ps s. apply (descriptors_owned ps s); vm_compute; reflexivity. Defined.

(** Assigning over an object that owns a descriptor leaves it open with no owner;
    so does assigning an object to itself, and opening a second file. *)
Example assignment_leaks_descriptor :
  match fd_in.run [fd_in.Own 0 3 0; fd_in.Own 1 4 0; fd_in.Assign 0 1; fd_in.Destroy 0; fd_in.Destroy 1] fd_in.start with
  | Some s => fd_in.objs s = ∅ /\ fd_in.k_open (fd_in.kern s) = {[ 3 := 0 ]} | None => False end /\
  match fd_in.run [fd_in.Own 0 3 0; fd_in.Assign 0 0; fd_in.Destroy 0] fd_in.start with
  | Some s => fd_in.k_open (fd_in.kern s) = {[ 3 := 0 ]} | None => False end /\
  match fd_in.run [fd_in.Own 0 3 0; fd_in.Reopen 0 4 0; fd_in.Destroy 0] fd_in.start with
  | Some s => fd_in.k_open (fd_in.kern s) = {[ 3 := 0 ]} | None => False end.
Proof. split_and!; vm_compute; done. Qed.

(** [SetNonblocked(true)] makes an open descriptor non-blocking and says OK.
    [SetNonblocked(false)] on a non-blocking one asks the kernel for every flag
    but keeps O_NONBLOCK, and says SYS_FAILED although the kernel accepted. *)
Theorem SetNonblocked_spec fd k flags :
  fd <> fd_in.invalid_fd -> fd_in.k_open k !! fd = Some flags -> 0 <= flags ->
  (exists k', fd_in.SetNonblocked fd true k = (OK, k') /\
     fd_in.nonblocking (fd_in.F_GETFL fd k') = true) /\
  (fd_in.nonblocking flags = true -> exists k', fd_in.SetNonblocked fd false k = (SYS_FAILED, k') /\
     fd_in.nonblocking (fd_in.F_GETFL fd k') = true).
Proof.
  intros Hfd Hk Hf. unfold fd_in.SetNonblocked, fd_in.IsInvalid. rewrite (proj2 (Z.eqb_neq _ _)) by done.
  assert (fd_in.F_GETFL fd k = flags) as -> by (unfold fd_in.F_GETFL; by rewrite Hk). ztest.
  assert (forall f, Z.testbit f 11 = true -> fd_in.nonblocking f = true) as Hbit.
  { intros f Hb. unfold fd_in.nonblocking. apply negb_true_iff, Z.eqb_neq. intros E.
    apply (f_equal (fun z => Z.testbit z 11)) in E. rewrite Z.land_spec, Hb, Z.bits_0 in E. done. }
  unfold fd_in.F_SETFL. rewrite Hk. split.
  - destruct (fd_in.nonblocking flags) eqn:En; cbn [andb negb].
    + exists k. split; [done|]. unfold fd_in.F_GETFL. by rewrite Hk.
    + eexists. split; [done|]. unfold fd_in.F_GETFL. cbn [fd_in.k_open]. rewrite lookup_insert_eq.
      unfold default, id. apply Hbit. by rewrite Z.lor_spec, orb_true_r.
  - intros En. rewrite En. cbn [andb negb]. eexists. split; [done|]. unfold fd_in.F_GETFL. cbn [fd_in.k_open].
    rewrite lookup_insert_eq. unfold default, id. apply Hbit. rewrite Z.lor_spec. apply orb_true_iff. left.
    unfold fd_in.nonblocking in En. apply negb_true_iff, Z.eqb_neq in En.
    destruct (Z.testbit flags 11) eqn:Eb; [done|]. exfalso. apply En. apply Z.bits_inj'. intros n Hn.
    rewrite Z.land_spec, Z.bits_0. destruct (decide (n = 11)) as [->|Hne]; [by rewrite Eb|].
    change fd_in.O_NONBLOCK with (2 ^ 11). rewrite Z.pow2_bits_false by lia. apply andb_false_r.
Qed.

Lemma SetNonblocked_spec_witness :
  let k := fd_in.Kernel {[ 3 := 2050 ]} 0 in
  (exists k', fd_in.SetNonblocked 3 true k = (OK, k') /\ fd_in.nonblocking (fd_in.F_GETFL 3 k') = true) /\
  (fd_in.nonblocking 2050 = true -> exists k', fd_in.SetNonblocked 3 false k = (SYS_FAILED, k') /\
     fd_in.nonblocking (fd_in.F_GETFL 3 k') = true).
Proof. intros k. apply (SetNonblocked_spec 3 k 2050); by vm_compute. Defined.

(** [Sync] reports a success as a failure and a failure as a success. *)
Example Sync_inverted : HFileHandle.Sync 0 = IO_FAILED /\ HFileHandle.Sync (-1) = OK.
Proof. done. Qed.
