(* ===== verification/Socket.v ===== *)
(** * Sockets: [src/hsocket.cpp], [src/hsocket.h]

    The loops that write and read all of a buffer, and the connection with a time
    limit.  What [select], [write], [read] and [connect] answer are scripts the loops
    run along; the descriptor and its flags are those of [FdIn]. *)

From S2P Require Import Prelude HStr Memory Time Addr FdIn.
From stdpp Require Import gmap.
#[local] Open Scope Z_scope.

Module HSocket.
Import fd_in.

Definition SOCKET_DEFAULT_TIMEOUT : Z := 1500.

Definition IsGoodSocket (m_fd : Z) : bool := negb (IsInvalid m_fd).

(** [SOCK_FD_CHECK]: the exception of a socket is one of NETWORK_ERROR. *)
Definition sock_fd_check (m_fd : Z) : res unit := assert_throw (IsGoodSocket m_fd) NETWORK_ERROR.

Definition FD_SETSIZE : Z := 1024.

(** [select] on the one descriptor, when there is a time limit: [FD_SET] has room for
    [FD_SETSIZE] descriptors; 0 is the end of the time, less an error. *)
Definition wait_ready (m_fd timeout sel : Z) : res unit :=
  if timeout >? 0 then
    _ ← check_ub (m_fd <? FD_SETSIZE);
    if sel =? 0 then Throw (HExc NETWORK_ERROR)
    else if sel <? 0 then Throw (HExc NETWORK_ERROR)
    else Ret tt
  else Ret tt.

(** ** Writing *)

(** A round: the answer of [select], and how many bytes the kernel has room for - or, if that is
    not positive, what [write] (or [send]) returns. *)
Record round : Type := Round { r_select : Z; r_write : Z }.

(** [Write(pos, nbyte)]: the kernel takes no more than it is asked to, from the memory at [pos];
    past its end nothing is defined. *)
Definition Write (m_fd : Z) (pos : bytes) (nbyte room : Z) : res (Z * bytes) :=
  let ans := io m_fd room in
  if ans <=? 0 then Ret (ans, [])
  else let n := Z.min ans nbyte in b ← mem_read pos 0 n; Ret (n, b).

(** The loop of [WriteAll] and [SendAll]: what it returns, and what the kernel took. *)
Fixpoint write_loop (m_fd timeout : Z) (script : list round) (pos : bytes) (nbyte sent_bytes : Z) (out : bytes)
  : res Z * bytes :=
  if sent_bytes <? nbyte then
    match script with
    | [] => (Throw Diverge, out)
    | r :: script =>
      match wait_ready m_fd timeout (r_select r) with
      | Throw e => (Throw e, out)
      | Ret _ =>
        match Write m_fd pos (u64 (nbyte - sent_bytes)) (r_write r) with
        | Throw e => (Throw e, out)
        | Ret (this_send, taken) =>
          if this_send <=? 0 then (Ret this_send, out)
          else write_loop m_fd timeout script (drop (Z.to_nat this_send) pos) nbyte (u64 (sent_bytes + this_send)) (out ++ taken)
        end
      end
    end
  else (Ret sent_bytes, out).

Definition WriteAll (m_fd timeout : Z) (script : list round) (buf : bytes) : res Z * bytes :=
  match sock_fd_check m_fd with
  | Throw e => (Throw e, [])
  | Ret _ => write_loop m_fd timeout script buf (zlen buf) 0 []
  end.

(** The same loop around [send]. *)
Definition SendAll := WriteAll.

(** ** Reading *)

(** What [read] or [recv] delivers: bytes, none at the end of the stream, or an error. *)
Definition ReadWithTimeOut (m_fd timeout sel : Z) (got : option bytes) : res (Z * bytes) :=
  _ ← sock_fd_check m_fd;
  _ ← wait_ready m_fd timeout sel;
  match got with Some b => Ret (zlen b, b) | None => Ret (-1, []) end.

Definition RecvWithTimeOut := ReadWithTimeOut.

(** The bytes read so far, and the rounds that were not needed. *)
Fixpoint read_all_loop (m_fd timeout : Z) (script : list (Z * option bytes)) (acc : bytes)
  : res Z * bytes * list (Z * option bytes) :=
  match script with
  | [] => (Throw Diverge, acc, [])
  | (sel, got) :: script =>
    match ReadWithTimeOut m_fd timeout sel got with
    | Throw UB => (Throw UB, acc, script)
    | Throw _ => (Ret (zlen acc), acc, script)
    | Ret (cb, b) =>
      if cb >? 0 then read_all_loop m_fd timeout script (acc ++ b) else (Ret (zlen acc), acc, script)
    end
  end.

Definition ReadAllWithTimeout (m_fd timeout : Z) (script : list (Z * option bytes)) : res Z * bytes * list (Z * option bytes) :=
  read_all_loop m_fd timeout script [].

(** [SOCK_STREAM] and [SOCK_DGRAM] sockets print what they cannot do. *)
Definition Pread : Z := 0.
Definition Pwrite : Z := 0.

(** ** Options *)

(** [ans]: whether the call succeeded. *)
Definition SetSockOpt (ans : Z) : herr := if ans =? 0 then OK else SYS_FAILED.
Definition GetSockOpt := SetSockOpt.

End HSocket.

Module HTcpSocket.
Import fd_in HSocket.

(** [sock]: what [socket] returned; a descriptor it opened is open in the kernel. *)
Definition Init (m_fd sock : Z) (k : kernel) : herr * Z * kernel :=
  let '(m_fd, k) := Close m_fd k in
  let k := if sock <? 0 then k else Kernel (<[sock := 2]> (k_open k)) (k_bad_closes k) in
  if negb (sock >? 0) then (SYS_FAILED, m_fd, k) else (OK, sock, k).

Definition ShutDown (ans : Z) : herr := if ans =? 0 then OK else SYS_FAILED.
Definition Listen := ShutDown.

Inductive sockopt : Type := SO_KEEPALIVE | TCP_KEEPIDLE | TCP_KEEPINTVL | TCP_KEEPCNT.

(** The options set, in order, up to the first that fails; every test is on [keepAlive]. *)
Definition keep_options (keepAlive keepIdle keepInterval keepCount : Z) : list (sockopt * Z) :=
  (if keepAlive >=? 0 then [(SO_KEEPALIVE, keepAlive)] else []) ++
  (if keepAlive >=? 0 then [(TCP_KEEPIDLE, keepIdle)] else []) ++
  (if keepAlive >=? 0 then [(TCP_KEEPINTVL, keepInterval)] else []) ++
  (if keepAlive >=? 0 then [(TCP_KEEPCNT, keepCount)] else []).

Fixpoint set_options (ans : sockopt -> Z -> Z) (opts : list (sockopt * Z)) : herr * list (sockopt * Z) :=
  match opts with
  | [] => (OK, [])
  | (o, v) :: opts =>
    if negb (IS_OK (SetSockOpt (ans o v))) then (SYS_FAILED, [(o, v)])
    else let '(e, l) := set_options ans opts in (e, (o, v) :: l)
  end.

Definition SetKeepAlive (ans : sockopt -> Z -> Z) (m_fd keepAlive keepIdle keepInterval keepCount : Z)
  : herr * list (sockopt * Z) :=
  if negb (IsGoodSocket m_fd) then (ERR_STATUS, [])
  else set_options ans (keep_options keepAlive keepIdle keepInterval keepCount).

(** ** Connecting *)

(** A round of the loop: whether [connect] succeeded; if not, the answers of
    [select] with whether an error is EINTR, whether [errno] is EHOSTUNREACH after it, and SO_ERROR. *)
Record attempt : Type := Attempt {
  a_connect : bool;
  a_selects : list (Z * bool);
  a_unreachable : bool;
  a_error : Z
}.

(** The inner loop: [None] when [select] failed for good. *)
Fixpoint select_loop (answers : list (Z * bool)) : res (option Z) :=
  match answers with
  | [] => Throw Diverge
  | (cb, eintr) :: answers =>
    if cb <? 0 then if eintr : bool then select_loop answers else Ret None else Ret (Some cb)
  end.

Fixpoint connect_loop (m_fd : Z) (attempts : list attempt) : res herr :=
  match attempts with
  | [] => Throw Diverge
  | a :: attempts =>
    if a_connect a then Ret OK
    else
      _ ← check_ub (m_fd <? FD_SETSIZE);
      c ← select_loop (a_selects a);
      match c with
      | None => Ret SYS_FAILED
      | Some cb =>
        if cb =? 0 then Ret TIME_OUT
        else if a_unreachable a then Ret NETWORK_ERROR
        else if negb (a_error a =? 0) then Ret NETWORK_ERROR
        else connect_loop m_fd attempts
      end
  end.

(** The time limit in milliseconds that [select] is given. *)
Definition connect_timeout (timeout : Z) : HMicroTime.t :=
  HMicroTime.HMicroTime_int (if timeout <=? 0 then SOCKET_DEFAULT_TIMEOUT else timeout).

(** [HSCOPE_EXIT] puts a socket that was blocking back, however the loop ends. *)
Definition ConnectWithTimeOut (m_fd : Z) (attempts : list attempt) (k : kernel) : res herr * kernel :=
  if negb (IsGoodSocket m_fd) then (Ret ERR_STATUS, k)
  else
    match IsNonblocked m_fd k with
    | Throw e => (Throw e, k)
    | Ret nonblocked =>
      let bHasSet := negb nonblocked in
      let k := if bHasSet then snd (SetNonblocked m_fd true k) else k in
      let r := connect_loop m_fd attempts in
      (r, if bHasSet then snd (SetNonblocked m_fd false k) else k)
    end.

End HTcpSocket.

(** [HUdpSock::Init] and [HUnixScoket::Init] differ in the arguments of [socket] only. *)
Module HUdpSock.
Definition Init := HTcpSocket.Init.
Definition Read (ans : Z) : Z := ans.
Definition Write (ans : Z) : Z := ans.
End HUdpSock.

Module HUnixScoket.
Definition Init := HTcpSocket.Init.
End HUnixScoket.

(** ** Lemmas *)

Module SocketFacts.
Import fd_in HSocket HTcpSocket.

(** What a caller learns from the result of a loop that was to write [buf]. *)
Definition told (buf : bytes) (r : res Z) (out : bytes) : Prop :=
  match r with
  | Ret n => n = zlen buf /\ out = buf \/ n <= 0 /\ out <> buf
  | Throw e => (e = Diverge \/ e = HExc NETWORK_ERROR) /\ out <> buf
  end.

(** [FD_SET] is only reached with a time limit. *)
Definition fits_set (m_fd timeout : Z) : Prop := timeout <= 0 \/ m_fd < FD_SETSIZE.

Lemma wait_ready_throws m_fd timeout sel e :
  fits_set m_fd timeout -> wait_ready m_fd timeout sel = Throw e -> e = HExc NETWORK_ERROR.
Proof.
  unfold fits_set, wait_ready, check_ub. intros Hf Hw. destruct (timeout >? 0) eqn:E; bool_to_prop; [|done].
  destruct (m_fd <? FD_SETSIZE) eqn:E1; bool_to_prop; [|lia]. cbn [mbind res_bind] in Hw.
  repeat case_match; congruence.
Qed.

Lemma not_all (buf out rest : bytes) : buf = out ++ rest -> 0 < zlen rest -> out <> buf.
Proof.
  intros E H E'. rewrite E' in E. rewrite <- (app_nil_r buf) in E at 1. apply app_inv_head in E as <-. done.
Qed.

Lemma good_io m_fd ans : IsGoodSocket m_fd = true -> io m_fd ans = ans.
Proof. unfold IsGoodSocket, io. by destruct (IsInvalid m_fd). Qed.

(** A call of [Write] with the bytes that are left. *)
Lemma Write_takes m_fd pos room :
  IsGoodSocket m_fd = true ->
  Write m_fd pos (zlen pos) room =
    if room <=? 0 then Ret (room, [])
    else Ret (Z.min room (zlen pos), take (Z.to_nat (Z.min room (zlen pos))) pos).
Proof.
  intros Hg. unfold Write. rewrite good_io by done. destruct (room <=? 0) eqn:E; bool_to_prop; [done|].
  pose proof (zlen_nonneg pos). unfold mem_read. ztest. cbn [check_ub mbind res_bind]. by rewrite drop_0.
Qed.

Section loop.
Context (m_fd timeout : Z) (buf : bytes) (Hg : IsGoodSocket m_fd = true) (Hf : fits_set m_fd timeout) (Hb : zlen buf < 2 ^ 64).

(** The loop with [out] sent and [pos] left, and its next round. *)
Lemma write_loop_step r script pos out :
  buf = out ++ pos -> pos <> [] ->
  write_loop m_fd timeout (r :: script) pos (zlen buf) (zlen out) out =
  match wait_ready m_fd timeout (r_select r) with
  | Throw e => (Throw e, out)
  | Ret _ =>
    if r_write r <=? 0 then (Ret (r_write r), out)
    else let n := Z.min (r_write r) (zlen pos) in
         write_loop m_fd timeout script (drop (Z.to_nat n) pos) (zlen buf)
           (zlen (out ++ take (Z.to_nat n) pos)) (out ++ take (Z.to_nat n) pos)
  end.
Proof using Hg Hb.
  intros E Hne. pose proof (f_equal zlen E) as Hl. rewrite zlen_app in Hl. pose proof (zlen_nonneg out).
  assert (0 < zlen pos) by (destruct pos as [|c pos]; [done|rewrite zlen_cons; pose proof (zlen_nonneg pos); lia]).
  cbn [write_loop]. assert (zlen out <? zlen buf = true) as -> by (apply Z.ltb_lt; lia).
  destruct (wait_ready m_fd timeout (r_select r)); [|done]. rewrite u64_id by lia.
  replace (zlen buf - zlen out) with (zlen pos) by lia. rewrite Write_takes by done.
  destruct (r_write r <=? 0) eqn:Ew; bool_to_prop; [by ztest|]. cbv zeta. set (n := Z.min (r_write r) (zlen pos)).
  assert (0 < n <= zlen pos) by lia. ztest.
  assert (zlen (take (Z.to_nat n) pos) = n) as Hz by (unfold zlen in *; rewrite length_take; lia).
  rewrite zlen_app, Hz, u64_id by lia. done.
Qed.

Lemma write_loop_spec script pos out :
  buf = out ++ pos ->
  let '(r, out') := write_loop m_fd timeout script pos (zlen buf) (zlen out) out in out' `prefix_of` buf /\ told buf r out'.
Proof using Hg Hb Hf.
  revert pos out. induction script as [|[sel w] script IH]; intros pos out E;
    pose proof (f_equal zlen E) as Hl; rewrite zlen_app in Hl;
    (destruct (decide (pos = [])) as [->|Hne];
      [rewrite app_nil_r in E; subst; unfold write_loop; rewrite Z.ltb_irrefl; split; [reflexivity|by left]|]);
    (assert (0 < zlen pos) by (destruct pos as [|c pos]; [done|rewrite zlen_cons; pose proof (zlen_nonneg pos); lia]));
    (assert (out `prefix_of` buf /\ out <> buf) as [Hp Hne2] by (split; [by exists pos|by eapply not_all])).
  - cbn [write_loop]. ztest. split; [done|]. split; [by left|done].
  - rewrite write_loop_step by done. cbn [r_select r_write]. destruct (wait_ready m_fd timeout sel) as [u|e] eqn:Ew.
    + destruct (w <=? 0) eqn:E0; bool_to_prop; [split; [done|by right]|]. cbv zeta. apply IH.
      by rewrite <- app_assoc, take_drop.
    + apply wait_ready_throws in Ew as ->; [|done]. split; [done|]. split; [by right|done].
Qed.

Lemma write_loop_ends script pos out :
  buf = out ++ pos -> zlen pos <= zlen script ->
  fst (write_loop m_fd timeout script pos (zlen buf) (zlen out) out) <> Throw Diverge.
Proof using Hg Hb Hf.
  revert pos out. induction script as [|[sel w] script IH]; intros pos out E Hl;
    (destruct (decide (pos = [])) as [->|Hne];
      [rewrite app_nil_r in E; subst; unfold write_loop; by rewrite Z.ltb_irrefl|]);
    (assert (0 < zlen pos) by (destruct pos as [|c pos]; [done|rewrite zlen_cons; pose proof (zlen_nonneg pos); lia]));
    [rewrite zlen_nil in Hl; lia|].
  rewrite write_loop_step by done. cbn [r_select r_write]. destruct (wait_ready m_fd timeout sel) as [u|e] eqn:Ew.
  - destruct (w <=? 0) eqn:E0; bool_to_prop; [done|]. cbv zeta. apply IH; [by rewrite <- app_assoc, take_drop|].
    rewrite zlen_cons in Hl. unfold zlen in *. rewrite length_drop. lia.
  - apply wait_ready_throws in Ew as ->; done.
Qed.

(** Rounds that are ready and have room send everything. *)
Lemma write_loop_sends script pos out :
  buf = out ++ pos -> zlen pos <= zlen script -> Forall (fun r => 0 < r_select r /\ 0 < r_write r) script ->
  write_loop m_fd timeout script pos (zlen buf) (zlen out) out = (Ret (zlen buf), buf).
Proof using Hg Hb Hf.
  revert pos out. induction script as [|[sel w] script IH]; intros pos out E Hl HF;
    (destruct (decide (pos = [])) as [->|Hne];
      [rewrite app_nil_r in E; subst; unfold write_loop; by rewrite Z.ltb_irrefl|]);
    (assert (0 < zlen pos) by (destruct pos as [|c pos]; [done|rewrite zlen_cons; pose proof (zlen_nonneg pos); lia]));
    [rewrite zlen_nil in Hl; lia|].
  apply Forall_cons in HF as [[Hs Hw] HF]. rewrite write_loop_step by done. cbn [r_select r_write] in *.
  assert (wait_ready m_fd timeout sel = Ret tt) as ->.
  { unfold wait_ready, check_ub. destruct (timeout >? 0) eqn:E0; bool_to_prop; [|done]. destruct Hf; [lia|]. by ztest. }
  ztest. cbv zeta. apply IH; [by rewrite <- app_assoc, take_drop| |done].
  rewrite zlen_cons in Hl. unfold zlen in *. rewrite length_drop. lia.
Qed.
End loop.

(** A round of reading that delivers something, and one that ends the loop. *)
Definition delivers_some (m_fd timeout : Z) (r : Z * option bytes) (b : bytes) : Prop :=
  wait_ready m_fd timeout r.1 = Ret tt /\ r.2 = Some b /\ b <> [].

Definition stops (m_fd timeout : Z) (r : Z * option bytes) : Prop :=
  wait_ready m_fd timeout r.1 = Throw (HExc NETWORK_ERROR) \/
  wait_ready m_fd timeout r.1 = Ret tt /\ (r.2 = Some [] \/ r.2 = None).

Lemma read_all_loop_spec m_fd timeout script chunks stop rest acc :
  IsGoodSocket m_fd = true -> Forall2 (delivers_some m_fd timeout) script chunks -> stops m_fd timeout stop ->
  read_all_loop m_fd timeout (script ++ stop :: rest) acc
  = (Ret (zlen (acc ++ concat chunks)), acc ++ concat chunks, rest).
Proof.
  intros Hg HF Hs. revert acc. induction HF as [|[sel got] b script chunks (Hw & Hb & Hne) _ IH]; intros acc; cbn [app read_all_loop].
  - destruct stop as [sel got]. unfold ReadWithTimeOut, sock_fd_check. rewrite Hg. cbn [assert_throw mbind res_bind fst snd] in *.
    unfold stops in Hs. cbn [fst snd] in Hs. rewrite app_nil_r. by destruct Hs as [-> |[-> [-> | ->]]].
  - unfold ReadWithTimeOut, sock_fd_check. rewrite Hg. cbn [assert_throw mbind res_bind fst snd] in *. rewrite Hw, Hb.
    assert (0 < zlen b) by (destruct b; [done|rewrite zlen_cons; pose proof (zlen_nonneg b); lia]).
    cbn [mbind res_bind]. rewrite Z.gtb_ltb. ztest. rewrite IH. cbn [concat]. by rewrite <- app_assoc.
Qed.

(** The flags of a descriptor after a step of [SetNonblocked]. *)
Lemma nonblocking_lor flags x : nonblocking flags = true -> nonblocking (Z.lor flags x) = true.
Proof.
  unfold nonblocking, O_NONBLOCK. rewrite !negb_true_iff, !Z.eqb_neq. intros H E. apply H.
  apply Z.bits_inj'. intros n Hn. rewrite Z.bits_0. apply (f_equal (fun z => Z.testbit z n)) in E.
  rewrite Z.land_spec, Z.lor_spec, Z.bits_0 in E. rewrite Z.land_spec.
  destruct (Z.testbit 2048 n); [|apply andb_false_r]. rewrite andb_true_r in *. by apply orb_false_iff in E as [? _].
Qed.

Lemma nonblocking_set flags : nonblocking (Z.lor flags O_NONBLOCK) = true.
Proof. rewrite Z.lor_comm. by apply nonblocking_lor. Qed.

(** Putting a non-blocking descriptor back leaves it non-blocking. *)
Lemma SetNonblocked_false_keeps fd flags k :
  k_open k !! fd = Some flags -> nonblocking flags = true ->
  exists flags', k_open (snd (SetNonblocked fd false k)) !! fd = Some flags' /\ nonblocking flags' = true.
Proof.
  intros Hk Hn. unfold SetNonblocked. case_match; [by exists flags|]. unfold F_GETFL. rewrite Hk. cbn [default from_option id].
  case_match; [by exists flags|]. cbn [andb negb]. rewrite Hn. cbn [negb]. unfold F_SETFL. rewrite Hk. cbn [snd k_open].
  exists (Z.lor flags (Z.lnot O_NONBLOCK)). split; [by rewrite lookup_insert_eq|by apply nonblocking_lor].
Qed.

Lemma SetNonblocked_true_sets fd flags k :
  IsGoodSocket fd = true -> k_open k !! fd = Some flags -> 0 <= flags ->
  exists flags', k_open (snd (SetNonblocked fd true k)) !! fd = Some flags' /\ nonblocking flags' = true.
Proof.
  intros Hg Hk Hf. unfold SetNonblocked. unfold IsGoodSocket in Hg. apply negb_true_iff in Hg. rewrite Hg.
  unfold F_GETFL. rewrite Hk. change (default (-1) (Some flags)) with flags. rewrite Z.geb_leb. ztest.
  destruct (nonblocking flags) eqn:Hn; cbn [andb negb]; [by exists flags|]. unfold F_SETFL. rewrite Hk. cbn [snd k_open].
  exists (Z.lor flags O_NONBLOCK). split; [by rewrite lookup_insert_eq|by apply nonblocking_set].
Qed.

End SocketFacts.

(** ** Properties *)

Section properties.
Import fd_in HSocket HTcpSocket SocketFacts.

(** C40: Whatever [select] answers and the kernel has room for in each round - it takes what it
    has room for of the count it is given, and reading past the buffer is undefined - what
    [WriteAll] has sent is a prefix of the buffer, and nothing past it; it returns the length of
    the buffer exactly when all of it is sent, and else the exception of a network error or a
    number that is not positive, which does not tell how much was sent.  It returns when the
    kernel has answered as many rounds as there are bytes, and sends everything if all of them
    were ready and had room.  (With a time limit the descriptor must be one that [FD_SET] has
    room for: [large_descriptor].) *)
Theorem WriteAll_spec m_fd timeout script buf :
  IsGoodSocket m_fd = true -> fits_set m_fd timeout -> zlen buf < 2 ^ 64 ->
  let '(r, out) := WriteAll m_fd timeout script buf in
  out `prefix_of` buf /\ told buf r out /\
  (zlen buf <= zlen script -> r <> Throw Diverge /\
    (Forall (fun r => 0 < r_select r /\ 0 < r_write r) script -> r = Ret (zlen buf) /\ out = buf)).
Proof.
  intros Hg Hf Hb. unfold WriteAll, sock_fd_check. rewrite Hg. cbn [assert_throw].
  pose proof (write_loop_spec m_fd timeout buf Hg Hf Hb script buf [] eq_refl) as H.
  pose proof (write_loop_ends m_fd timeout buf Hg Hf Hb script buf [] eq_refl) as He.
  pose proof (write_loop_sends m_fd timeout buf Hg Hf Hb script buf [] eq_refl) as Hs. rewrite zlen_nil in H, He, Hs.
  destruct (write_loop m_fd timeout script buf (zlen buf) 0 []) as [r out]. destruct H as [Hp Ht].
  split_and!; [done|done|]. intros Hl. split; [by apply He|]. intros HF. by injection (Hs Hl HF).
Qed.

(** Three of five bytes, then an error: the result is the one of a write that sent nothing.
    A kernel with room for more takes what is left. *)
Lemma WriteAll_spec_witness :
  WriteAll 5 1000 [Round 1 3; Round 1 (-1)] (str "hello") = (Ret (-1), str "hel") /\
  told (str "hello") (Ret (-1)) (str "hel") /\
  WriteAll 5 1000 [Round 1 3; Round 1 100] (str "hello") = (Ret 5, str "hello").
Proof.
  split; [by vm_compute|]. split; [|by vm_compute].
  apply (WriteAll_spec 5 1000 [Round 1 3; Round 1 (-1)] (str "hello")); [done|by right|by vm_compute].
Defined.

(** [ReadAllWithTimeout] delivers everything up to the first end of the stream, error or
    end of the time, whatever of the three it is; it waits for that round even when the buffer is full. *)
Theorem ReadAll_spec m_fd timeout script chunks stop rest :
  IsGoodSocket m_fd = true -> Forall2 (delivers_some m_fd timeout) script chunks -> stops m_fd timeout stop ->
  ReadAllWithTimeout m_fd timeout (script ++ stop :: rest) = (Ret (zlen (concat chunks)), concat chunks, rest).
Proof. intros. by apply (read_all_loop_spec m_fd timeout script chunks stop rest []). Qed.

Lemma ReadAll_spec_witness :
  ReadAllWithTimeout 5 1000 [(1, Some (str "ab")); (1, Some (str "c")); (0, None); (1, Some (str "d"))]
  = (Ret 3, str "abc", [(1, Some (str "d"))]).
Proof.
  apply (ReadAll_spec 5 1000 [(1, Some (str "ab")); (1, Some (str "c"))] [str "ab"; str "c"] (0, None)); [done| |by left].
  by repeat constructor.
Defined.

(** A blocking socket is non-blocking after [ConnectWithTimeOut], whether the connection
    succeeded or not: the holder that should put it back does not. *)
Theorem ConnectWithTimeOut_leaves_nonblocking m_fd attempts k flags :
  IsGoodSocket m_fd = true -> k_open k !! m_fd = Some flags -> 0 <= flags -> nonblocking flags = false ->
  exists flags', k_open (snd (ConnectWithTimeOut m_fd attempts k)) !! m_fd = Some flags' /\ nonblocking flags' = true.
Proof.
  intros Hg Hk Hf Hn. unfold ConnectWithTimeOut, IsNonblocked, F_GETFL. rewrite Hg, Hk.
  change (default (-1) (Some flags)) with flags. rewrite Z.geb_leb. ztest. cbn [negb assert_throw mbind res_bind]. rewrite Hn.
  cbn [negb snd]. destruct (SetNonblocked_true_sets m_fd flags k Hg Hk Hf) as (f1 & H1 & H2).
  exact (SetNonblocked_false_keeps m_fd f1 _ H1 H2).
Qed.

Lemma ConnectWithTimeOut_leaves_nonblocking_witness :
  let k := Kernel {[ 5 := 2 ]} 0 in
  exists flags', k_open (snd (ConnectWithTimeOut 5 [Attempt true [] false 0] k)) !! 5 = Some flags' /\ nonblocking flags' = true.
Proof. apply (ConnectWithTimeOut_leaves_nonblocking 5 [Attempt true [] false 0] (Kernel {[ 5 := 2 ]} 0) 2); by vm_compute. Defined.

(** A connection in progress is asked for again when the socket is ready without an error. *)
Theorem connect_retries m_fd sels rest :
  m_fd < FD_SETSIZE -> Forall (fun s => 0 < s) sels ->
  connect_loop m_fd (map (fun s => Attempt false [(-1, true); (s, false)] false 0) sels ++ Attempt true [] false 0 :: rest) = Ret OK.
Proof.
  intros Hm. induction 1 as [|s sels Hs _ IH]; [done|]. cbn [map app connect_loop a_connect a_selects a_error a_unreachable].
  unfold check_ub. ztest. cbn [mbind res_bind select_loop Z.ltb Z.compare]. ztest. cbn [mbind res_bind]. by ztest.
Qed.

Lemma connect_retries_witness :
  connect_loop 5 [Attempt false [(-1, true); (1, false)] false 0; Attempt true [] false 0] = Ret OK.
Proof. apply (connect_retries 5 [1] []); [by vm_compute|by repeat constructor]. Defined.

(** Descriptor 0 is taken for a failure and stays open. *)
Example Init_loses_descriptor_0 :
  Init (-1) 0 (Kernel ∅ 0) = (SYS_FAILED, -1, Kernel {[ 0 := 2 ]} 0).
Proof. by vm_compute. Qed.

(** The other options are set by the sign of the first argument. *)
Example SetKeepAlive_tests :
  SetKeepAlive (fun _ _ => 0) 5 1 (-1) (-1) (-1)
    = (OK, [(SO_KEEPALIVE, 1); (TCP_KEEPIDLE, -1); (TCP_KEEPINTVL, -1); (TCP_KEEPCNT, -1)]) /\
  SetKeepAlive (fun _ _ => 0) 5 (-1) 600 5 3 = (OK, []).
Proof. split; reflexivity. Qed.

(** [FD_SET] on a descriptor beyond the set writes past it. *)
Example large_descriptor : fst (WriteAll 1024 1000 [Round 1 1] (str "x")) = Throw UB.
Proof. reflexivity. Qed.

End properties.
