(* ===== verification/Endpoint.v ===== *)
(** * Sockets and their addresses: the calls of [src/hsocket.cpp] that go through the
    virtual functions of [HAddr] ([src/haddr.h], [src/haddr.cpp])

    [HAddr] is a class, its two implementations are instances; [HSocket] is written
    against the class.  The kernel is the class [Net] of its answers. *)

From S2P Require Import Prelude StdString HStr Addr FdIn Socket.
From stdpp Require Import gmap.
#[local] Open Scope Z_scope.

(** ** The kernel *)

Inductive sockaddr : Type := In (a : HIp4Addr.t) | Un (a : HUnixAddr.t).

(** What the calls on a descriptor return; the peer is what the kernel has to store in the
    address it is given, if it has one. *)
Class Net : Type := {
  sys_bind : Z -> sockaddr -> Z;
  sys_connect : Z -> sockaddr -> Z;
  sys_accept : Z -> Z * option HIp4Addr.t;
  sys_getpeername : Z -> Z * option sockaddr;
  sys_recvfrom : Z -> Z -> Z -> Z * bytes * option sockaddr;
  sys_sendto : Z -> bytes -> Z -> sockaddr -> Z;
  sys_setsockopt : Z -> Z -> Z -> Z -> Z;      (* descriptor, level, name, value *)
  sys_getsockopt : Z -> Z -> Z -> Z * Z
}.

(** ** Addresses as [HAddr] *)

Module HAddr.

Inductive ADDR_TYPE : Type := IP_NORMAL | IP_V4 | IP_V6 | ADDR_UNIX | ADDR_END.

(** The virtual functions; a socket is its descriptor. *)
Class HAddr (A : Type) : Type := {
  GetAddrType : A -> ADDR_TYPE;
  Bind : A -> Z -> res herr;
  Connect : A -> Z -> res herr;
  Accept : A -> Z -> Z -> res (herr * A * Z);
  GetFromSocket : A -> Z -> res (herr * A);
  GetAddrInfo : A -> res (herr * bytes * Z);
  ToString : A -> res bytes;
  Recvfrom : A -> Z -> Z -> Z -> Z * bytes * A;
  Sendto : A -> Z -> bytes -> Z -> Z
}.

Section instances.
Context `{Net} `{InetLib}.

(** The kernel stores no more of a peer than the length it is given says. *)
Definition store4 (len : Z) (peer : option sockaddr) (a : HIp4Addr.t) : HIp4Addr.t :=
  match peer with Some (In p) => if len =? 0 then a else p | _ => a end.
Definition store_un (len : Z) (peer : option sockaddr) (a : HUnixAddr.t) : HUnixAddr.t :=
  match peer with Some (Un p) => if len =? 0 then a else p | _ => a end.

Definition sizeof_sockaddr_in : Z := 16.
Definition sizeof_sockaddr_un : Z := 110.

Definition HIp4Addr_Recvfrom (a : HIp4Addr.t) (sock size flags : Z) : Z * bytes * HIp4Addr.t :=
  let len := sizeof_sockaddr_in in
  let '(n, buf, peer) := sys_recvfrom sock size flags in (n, buf, store4 len peer a).
Definition HIp4Addr_Sendto (a : HIp4Addr.t) (sock : Z) (cbuf : bytes) (flags : Z) : Z := sys_sendto sock cbuf flags (In a).

#[global] Instance HIp4Addr_HAddr : HAddr HIp4Addr.t := {
  GetAddrType _ := IP_V4;
  Bind a sock := Ret (HIp4Addr.Bind (sys_bind sock (In a)));
  Connect a sock := Ret (HIp4Addr.Connect (sys_connect sock (In a)));
  Accept a server client := let (cb, peer) := sys_accept server in Ret (HIp4Addr.Accept cb (default a peer) client);
  GetFromSocket a sock :=
    let len := sizeof_sockaddr_in in
    let (cb, peer) := sys_getpeername sock in Ret (HIp4Addr.GetFromSocket cb (store4 len peer a));
  GetAddrInfo a := Ret (HIp4Addr.GetAddrInfo a);
  ToString := HIp4Addr.ToString;
  Recvfrom := HIp4Addr_Recvfrom;
  Sendto := HIp4Addr_Sendto
}.

(** [len] is 0, where it should be the room for the sender's address. *)
Definition HUnixAddr_Recvfrom (a : HUnixAddr.t) (sock size flags : Z) : Z * bytes * HUnixAddr.t :=
  let len := 0 in
  let '(n, buf, peer) := sys_recvfrom sock size flags in (n, buf, store_un len peer a).
Definition HUnixAddr_Sendto (a : HUnixAddr.t) (sock : Z) (cbuf : bytes) (flags : Z) : Z := sys_sendto sock cbuf flags (Un a).

#[global] Instance HUnixAddr_HAddr : HAddr HUnixAddr.t := {
  GetAddrType _ := ADDR_UNIX;
  Bind a sock := Ret (HUnixAddr.Bind (sys_bind sock (Un a)));
  Connect _ _ := HUnixAddr.Connect;
  Accept a _ client := e ← HUnixAddr.Accept; Ret (e, a, client);
  GetFromSocket a sock :=
    let len := sizeof_sockaddr_un in
    let (cb, peer) := sys_getpeername sock in Ret (HUnixAddr.GetFromSocket cb (store_un len peer a));
  GetAddrInfo _ := e ← HUnixAddr.GetAddrInfo; Ret (e, [], 0);
  ToString _ := HUnixAddr.ToString;
  Recvfrom := HUnixAddr_Recvfrom;
  Sendto := HUnixAddr_Sendto
}.

End instances.
End HAddr.

(** *** Constructors and lookups by interface name, which ignore or convert a result *)

Definition HIp4Addr_str `{InetLib} (strIp : bytes) (port : Z) : HIp4Addr.t := snd (HIp4Addr.init_string strIp port).
Definition HIp4Addr_copy (other : HIp4Addr.t) : HIp4Addr.t := snd (HIp4Addr.init_copy other).
Definition HUnixAddr_path (strAddrPath : bytes) : res HUnixAddr.t := '(_, a) ← HUnixAddr.init strAddrPath; Ret a.

Section lookups.
Context (strName : bytes) (sock : Z) (ioctl : bytes -> option network_detail.ifreq).

Definition GetIPByName : Z := HIp4Addr.AddrTypeToInt (network_detail.GetIfAddr strName sock ioctl).
Definition GetNetMaskByName : Z := HIp4Addr.AddrTypeToInt (network_detail.GetNetMask strName sock ioctl).
Definition GetHwAddr : bytes := network_detail.GetHwAddr strName sock ioctl.
End lookups.

Definition GetGateway (strName : bytes) (table : option (list network_detail.route)) : Z :=
  HIp4Addr.AddrTypeToInt (network_detail.GetGateWay strName table).

Definition GetLocalIps (s : Z) (conf : option (list (option bytes))) (ips : list bytes) : herr * list bytes * bool :=
  network_detail.get_local_ips s conf ips.

(** ** Sockets over any address *)

Module HSocketNet.
Import HSocket HAddr fd_in.

Section socket.
Context `{Net} `{InetLib}.

Definition Bind {A} `{HAddr A} (m_fd : Z) (addr : A) : res herr := HAddr.Bind addr m_fd.
Definition Connect {A} `{HAddr A} (m_fd : Z) (addr : A) : res herr := HAddr.Connect addr m_fd.

(** [RETURN_SOCK_STATUS]. *)
Definition GetAddrInfo {A} `{HAddr A} (m_fd : Z) (addr : A) : res (herr * A) :=
  if negb (IsGoodSocket m_fd) then Ret (ERR_STATUS, addr) else HAddr.GetFromSocket addr m_fd.

Definition GetAddr4Info (m_fd : Z) (strIp : bytes) (iPort : Z) : res (herr * bytes * Z) :=
  let addr := HIp4Addr.HIp4Addr_int 0 0 in
  '(e, addr) ← GetAddrInfo m_fd addr;
  if negb (IS_OK e) then Ret (e, strIp, iPort) else HAddr.GetAddrInfo addr.

Definition ToString (m_fd : Z) : res bytes :=
  '(e, strIp, iPort) ← GetAddr4Info m_fd [] 0;
  if negb (IS_OK e) then Throw (HExc e)
  else HStr.Format (Some (c_str strIp ++ str ":" ++ to_string iPort)).

(** *** Single calls *)

Definition Send (m_fd ans : Z) : Z := ans.
Definition Recv (m_fd ans : Z) : Z := ans.

Definition SOL_SOCKET : Z := 1.
Definition IPPROTO_TCP : Z := 6.
Definition SO_REUSEADDR : Z := 2.
Definition SO_SNDBUF : Z := 7.
Definition SO_REUSEPORT : Z := 15.
Definition TCP_NODELAY : Z := 1.

Definition SetReuseAddr (m_fd : Z) : herr := SetSockOpt (sys_setsockopt m_fd SOL_SOCKET SO_REUSEADDR 1).
Definition SetReusePort (m_fd : Z) : herr := SetSockOpt (sys_setsockopt m_fd SOL_SOCKET SO_REUSEPORT 1).
Definition SetupSendBufLength (m_fd buf_len : Z) : herr := SetSockOpt (sys_setsockopt m_fd SOL_SOCKET SO_SNDBUF buf_len).
Definition SetupNodelay (m_fd val : Z) : herr := SetSockOpt (sys_setsockopt m_fd IPPROTO_TCP TCP_NODELAY val).

(** The status and the new [buf_len]. *)
Definition GetSendBufferLength (m_fd : Z) : herr * Z :=
  let buf_len := 0 in
  let (cb, val) := sys_getsockopt m_fd SOL_SOCKET SO_SNDBUF in
  (GetSockOpt cb, if cb =? 0 then val else buf_len).

(** *** Accepting: the kernel opens the new descriptor, whatever is made of it *)

Definition sys_open (fd : Z) (k : kernel) : kernel :=
  if fd <? 0 then k else Kernel (<[fd := 2]> (k_open k)) (k_bad_closes k).

Definition Accept (m_fd sock : Z) (addr : HIp4Addr.t) (k : kernel) : res (herr * HIp4Addr.t * Z) * kernel :=
  (HAddr.Accept addr m_fd sock, sys_open (fst (sys_accept m_fd)) k).

(** *** Datagrams *)

Definition Recvfrom {A} `{HAddr A} (m_fd size flags : Z) (addr : A) : Z * bytes * A := HAddr.Recvfrom addr m_fd size flags.
Definition Sendto {A} `{HAddr A} (m_fd : Z) (cbuf : bytes) (flags : Z) (addr : A) : Z := HAddr.Sendto addr m_fd cbuf flags.

End socket.
End HSocketNet.

(** ** Properties *)

Section properties.
Import HSocketNet HAddr HSocket fd_in.
Context `{Net} `{InetLib} `{!InetLaws}.

(** The text of a connected socket is its peer's, in the form the parser of addresses reads. *)
Theorem ToString_peer m_fd peer port ip :
  IsGoodSocket m_fd = true -> 0 <= port < 2 ^ 16 -> 0 <= ip < 2 ^ 32 -> peer = HIp4Addr.Mk HIp4Addr.AF_INET (htons port) ip ->
  sys_getpeername m_fd = (0, Some (In peer)) ->
  exists s, HSocketNet.ToString m_fd = Ret s /\ HIp4Addr.ParseNetFromString s = Ret (OK, peer).
Proof.
  intros Hg Hport Hip -> Hp. destruct (ToString_Parse_ok port ip Hport Hip) as (s & E & Es). exists s. split; [|done].
  rewrite <- E. unfold HSocketNet.ToString, GetAddr4Info, HSocketNet.GetAddrInfo. rewrite Hg.
  cbn [negb HAddr.GetFromSocket HIp4Addr_HAddr]. by rewrite Hp.
Qed.

(** A datagram's sender is where the answer goes, over IPv4; over a Unix socket the sender
    is not asked for, and the answer goes to the address the object had. *)
Theorem reply_to_sender sock size flags (a : HIp4Addr.t) (u : HUnixAddr.t) n buf peer msg flags' :
  (sys_recvfrom sock size flags = (n, buf, Some (In peer)) ->
   let '(n', buf', a') := HSocketNet.Recvfrom sock size flags a in
   n' = n /\ buf' = buf /\ HSocketNet.Sendto sock msg flags' a' = sys_sendto sock msg flags' (In peer)) /\
  (let '(_, _, u') := HSocketNet.Recvfrom sock size flags u in
   HSocketNet.Sendto sock msg flags' u' = sys_sendto sock msg flags' (Un u)).
Proof.
  unfold HSocketNet.Recvfrom, HSocketNet.Sendto. cbn [HAddr.Recvfrom HAddr.Sendto HIp4Addr_HAddr HUnixAddr_HAddr].
  unfold HIp4Addr_Recvfrom, HUnixAddr_Recvfrom, HIp4Addr_Sendto, HUnixAddr_Sendto. split.
  - by intros ->.
  - destruct (sys_recvfrom sock size flags) as [[? ?] [[p|p]|]]; done.
Qed.

(** The descriptor a client object had is still open after it has accepted a connection,
    and no object knows it. *)
Theorem Accept_leaks m_fd sock flags addr k cb peer :
  sys_accept m_fd = (cb, peer) -> 0 < cb -> cb <> sock -> k_open k !! sock = Some flags ->
  exists addr', HSocketNet.Accept m_fd sock addr k = (Ret (OK, addr', cb), sys_open cb k) /\
    k_open (sys_open cb k) !! sock = Some flags /\ is_Some (k_open (sys_open cb k) !! cb).
Proof.
  intros Ha Hc Hne Hk. unfold HSocketNet.Accept. cbn [HAddr.Accept HIp4Addr_HAddr]. rewrite Ha. cbn [fst].
  unfold HIp4Addr.Accept. rewrite Z.gtb_ltb. ztest. eexists. split; [reflexivity|]. unfold sys_open. ztest. cbn [k_open].
  rewrite lookup_insert_ne, lookup_insert_eq by done. by eauto.
Qed.

End properties.

(** *** A kernel to run them on *)

#[local] Instance sample_net : Net := {
  sys_bind _ _ := 0;
  sys_connect _ _ := 0;
  sys_accept _ := (8, Some (HIp4Addr.Mk 2 0 1));
  sys_getpeername _ := (0, Some (In (HIp4Addr.Mk HIp4Addr.AF_INET (htons 80) 16777343)));
  sys_recvfrom _ _ _ := (2, str "hi", Some (In (HIp4Addr.Mk 2 0 7)));
  sys_sendto _ b _ _ := zlen b;
  sys_setsockopt _ _ _ _ := 0;
  sys_getsockopt _ _ _ := (0, 4096)
}.

Lemma ToString_peer_witness :
  exists s, HSocketNet.ToString 5 = Ret s /\ HIp4Addr.ParseNetFromString s = Ret (OK, HIp4Addr.Mk HIp4Addr.AF_INET (htons 80) 16777343).
Proof. by apply (ToString_peer 5 (HIp4Addr.Mk HIp4Addr.AF_INET (htons 80) 16777343) 80 16777343). Defined.

Lemma reply_to_sender_witness :
  let '(n, _, a) := HSocketNet.Recvfrom 5 100 0 HIp4Addr.zero in n = 2 /\ a = HIp4Addr.Mk 2 0 7.
Proof.
  pose proof (reply_to_sender 5 100 0 HIp4Addr.zero (HUnixAddr.Mk 1 []) 2 (str "hi") (HIp4Addr.Mk 2 0 7) [] 0) as [H _].
  specialize (H eq_refl). split; [exact (proj1 H)|reflexivity].
Defined.

Lemma Accept_leaks_witness :
  let k := fd_in.Kernel {[ 5 := 2 ]} 0 in
  fd_in.k_open (HSocketNet.sys_open 8 k) !! 5 = Some 2.
Proof.
  destruct (Accept_leaks 3 5 2 HIp4Addr.zero (fd_in.Kernel {[ 5 := 2 ]} 0) 8 (Some (HIp4Addr.Mk 2 0 1))) as (a & _ & E & _);
    [reflexivity|reflexivity|discriminate|reflexivity|exact E].
Defined.

(** Descriptor 0 is a connection, taken for a failure: it stays open. *)
Example accept_descriptor_0 (addr : HIp4Addr.t) :
  let net := {| sys_bind := fun _ _ => 0; sys_connect := fun _ _ => 0; sys_accept := fun _ => (0, None); sys_getpeername := fun _ => (0, None);
    sys_recvfrom := fun _ _ _ => (0, [], None); sys_sendto := fun _ _ _ _ => 0; sys_setsockopt := fun _ _ _ _ => 0; sys_getsockopt := fun _ _ _ => (0, 0) |} in
  @HSocketNet.Accept net _ 3 (-1) addr (fd_in.Kernel ∅ 0) = (Ret (SYS_FAILED, addr, -1), fd_in.Kernel {[ 0 := 2 ]} 0).
Proof. reflexivity. Qed.
