(* ===== verification/App.v ===== *)
(** * The application: [src/happ.cpp], [src/happ.h], [src/happlock.cpp], [src/hfilelock.cpp]

    [HApp] composes the configuration, the file names and the log: it reads the
    command line into the configuration, finds its directories, loads the
    configuration file, starts the log, becomes a daemon, writes its pid file and
    takes its lock.  A call that calls [exit] ends in [Exit]; the calls
    of the system that change something are kept in order. *)

From S2P Require Import Prelude StdString OrdMap HStr HMstr NormalConf FsName Time Log FdIn.

(** ** Locks *)

Module HAppLock.

(** [m_fd] and what [lockf] answers to F_TEST, F_LOCK and F_UNLCK on an open descriptor. *)
Definition lockf (m_fd ans : Z) : Z := if m_fd <? 0 then -1 else ans.

Definition LockApp (m_fd test lock : Z) : herr :=
  if negb (lockf m_fd test =? 0) then INVL_PARA
  else if negb (lockf m_fd lock =? 0) then SYS_FAILED
  else OK.

Definition UnlockApp (m_fd unlck : Z) : herr := if negb (lockf m_fd unlck =? 0) then SYS_FAILED else OK.

End HAppLock.

Module HFileLock.

(** The answers of [fcntl], in order: a result, or an error and whether it is EINTR. *)
Inductive answer : Type := Result (r : Z) | Error (eintr : bool).

(** Repeated while the call is interrupted. *)
Fixpoint fcntl_lock (answers : list answer) : res herr :=
  match answers with
  | [] => Throw Diverge
  | Result _ :: _ => Ret OK
  | Error eintr :: answers => _ ← assert_throw eintr SYS_FAILED; fcntl_lock answers
  end.

Definition Lock := fcntl_lock.
Definition UnLock := fcntl_lock.

End HFileLock.

Module HApp.
Import HStr.

(** ** State and outcomes *)

Definition CONF_KEY_CONF : bytes := str "CK_conf".
Definition CONF_KEY_EXE_FILEPATH : bytes := str "CK_exe_filepath".
Definition CONF_KEY_EXE_NAME : bytes := str "CK_exe_name".
Definition CONF_KEY_LOG : bytes := str "CK_log".
Definition CONF_KEY_EXE_PATH : bytes := str "CK_exe_path".
Definition CONF_KEY_HOMEPATH : bytes := str "CK_homepath".
Definition CONF_KEY_DAEMON : bytes := str "CK_isdaemon".
Definition CONF_KEY_APPLOCK : bytes := str "CK_applock".
Definition CONF_KEY_ARGS : bytes := str "CK_argv".
Definition CONF_KEY_ARGS_COUNT : bytes := str "CK_argv_count".
Definition CONF_KEY_DATA_PATH : bytes := str "CK_data_path".
Definition DEF_CONF_VAL_CONF : bytes := str "conf/conf".
Definition DEF_CONF_VAL_DATA_PATH : bytes := str "data".

(** A call of the system, with the log's calls as one entry. *)
Inductive call : Type :=
  | Mkdir (name : bytes)
  | ReadConf (name : bytes)
  | LogCalls (cs : list Logfile.call)
  | Fork
  | Setsid
  | Umask
  | TruncateFile (name : bytes)
  | WriteFile (name text : bytes)
  | LockFile (name : bytes).

Record t : Type := Mk {
  m_bDaemon : bool;
  m_bInited : bool;
  m_bRunning : bool;
  m_conf : HNormalConfig.t;
  m_app_lock : option bytes;      (* the name of the file locked *)
  g_log : HLog.t;
  calls : list call
}.

Inductive out (A : Type) : Type :=
  | Done (a : A)
  | Exit (code : Z)
  | Raise (e : exn).
Arguments Done {A} a.
Arguments Exit {A} code.
Arguments Raise {A} e.

Definition M (A : Type) : Type := t -> out A * t.

#[export] Instance M_ret : MRet M := fun A a s => (Done a, s).
#[export] Instance M_bind : MBind M := fun A B f m s =>
  match m s with
  | (Done a, s) => f a s
  | (Exit c, s) => (Exit c, s)
  | (Raise e, s) => (Raise e, s)
  end.

Definition lift {A} (r : res A) : M A := fun s => match r with Ret a => (Done a, s) | Throw e => (Raise e, s) end.
Definition exit {A} (code : Z) : M A := fun s => (Exit code, s).
Definition conf : M HNormalConfig.t := fun s => (Done (m_conf s), s).

Definition upd_conf (f : HNormalConfig.t -> HNormalConfig.t) (s : t) : t :=
  Mk (m_bDaemon s) (m_bInited s) (m_bRunning s) (f (m_conf s)) (m_app_lock s) (g_log s) (calls s).
Definition set_conf (k v : bytes) : M unit := fun s => (Done tt, upd_conf (fun c => HNormalConfig.SetValue c k v) s).
Definition put_conf (c : HNormalConfig.t) : M unit := fun s => (Done tt, upd_conf (fun _ => c) s).
Definition set_daemon : M unit := fun s =>
  (Done tt, Mk true (m_bInited s) (m_bRunning s) (m_conf s) (m_app_lock s) (g_log s) (calls s)).
Definition upd_call (c : call) (s : t) : t :=
  Mk (m_bDaemon s) (m_bInited s) (m_bRunning s) (m_conf s) (m_app_lock s) (g_log s) (calls s ++ [c]).
Definition do_call (c : call) : M unit := fun s => (Done tt, upd_call c s).
Definition set_log (g : HLog.t) : M unit := fun s =>
  (Done tt, Mk (m_bDaemon s) (m_bInited s) (m_bRunning s) (m_conf s) (m_app_lock s) g (calls s)).
Definition set_lock (l : bytes) : M unit := fun s =>
  (Done tt, Mk (m_bDaemon s) (m_bInited s) (m_bRunning s) (m_conf s) (Some l) (g_log s) (calls s)).

(** [HNOTOK_MSG_RETURN]. *)
Definition and_then (m k : M herr) : M herr := e ← m; if negb (IS_OK e) then mret e else k.

(** What the system answers. *)
Record os : Type := Os {
  getcwd : bytes;
  realpath : bytes -> bytes;
  stat : bytes -> option (Z * Z);
  mkdir : bytes -> Z -> Z * bool;
  conf_file : bytes -> HFileStr.fd;
  getopt_long : list bytes -> list (Z * bytes) * list bytes;  (* options with their arguments; [argv] afterwards *)
  getpid : Z;
  localtime : Z -> HTime.tm;
  log_opens : bool;
  now : HMicroTime.t;
  now2 : HMicroTime.t;
  fork : Z * Z;
  open_pid : bytes -> Z;
  ftruncate : Z;
  open_lock : bytes -> Z;
  lockf_test : Z;
  lockf_lock : Z
}.

Section app.
Context (o : os).

(** ** The command line *)

Definition start : t := Mk true false true [] None None [].

Definition initApp : M unit :=
  _ ← set_conf CONF_KEY_CONF DEF_CONF_VAL_CONF;
  set_conf CONF_KEY_EXE_PATH (fsname.SetAsCurrent (getcwd o) []).

Definition arg_key (index : Z) : res bytes := Format (Some (CONF_KEY_ARGS ++ [95] ++ to_string index)).

Definition opt (cb : Z) (optarg : bytes) : M unit :=
  if cb =? 99 then set_conf CONF_KEY_CONF optarg
  else if cb =? 100 then set_daemon
  else if cb =? 104 then exit 0
  else mret tt.

Fixpoint opts_loop (opts : list (Z * bytes)) : M unit :=
  match opts with [] => mret tt | (cb, optarg) :: opts => _ ← opt cb optarg; opts_loop opts end.

Fixpoint args_loop (argv : list bytes) (i : Z) : M unit :=
  match argv with
  | [] => mret tt
  | szarg :: argv => k ← lift (arg_key i); _ ← set_conf k szarg; args_loop argv (i + 1)
  end.

(** The path of the program and its directory. *)
Definition program_paths (strProgram : bytes) : bytes * bytes :=
  let strProgramName := fsname.FileName strProgram in
  if negb (fsname.IsAbsolute strProgram) then
    let cur_dic := fsname.SetAsCurrent (getcwd o) [] in
    (HDirection.GetDicFile (getcwd o) cur_dic strProgramName, cur_dic)
  else (strProgram, HDirection.GetParent (getcwd o) (realpath o) strProgram).

(** [argc] is the length of [argv]; [*argv] is null when it is 0. *)
Definition anaOpt (argv : list bytes) : M unit :=
  match argv with
  | [] => lift (Throw UB)
  | strProgram :: _ =>
    _ ← set_conf CONF_KEY_EXE_NAME (fsname.FileName strProgram);
    let '(file, dir) := program_paths strProgram in
    _ ← set_conf CONF_KEY_EXE_FILEPATH file;
    _ ← set_conf CONF_KEY_EXE_PATH dir;
    let '(opts, argv') := getopt_long o argv in
    _ ← opts_loop opts;
    _ ← args_loop argv' 0;
    set_conf CONF_KEY_ARGS_COUNT (FromN (zlen argv))
  end.

(** The two constructors. *)
Definition HApp_default : out unit * t := initApp start.
Definition HApp_argv (argv : list bytes) : out unit * t := anaOpt argv start.

Definition GetArgvByIndex (c : HNormalConfig.t) (index : Z) : res bytes :=
  k ← arg_key index; Ret (HNormalConfig.GetValue c k).

Definition GetArgvCount (c : HNormalConfig.t) : res Z := ToN (HNormalConfig.GetValue c CONF_KEY_ARGS_COUNT).

(** ** The steps of [Init] *)

Definition setup_app_dir : M herr :=
  c ← conf;
  if negb (HNormalConfig.Exists c CONF_KEY_EXE_PATH) then mret SRC_ERR
  else
    let home_dir := HDirection.GetParent (getcwd o) (realpath o) (HNormalConfig.GetValue c CONF_KEY_EXE_PATH) in
    _ ← set_conf CONF_KEY_HOMEPATH home_dir;
    let data_dir := fsname.Append (getcwd o) home_dir (str "data") in
    _ ← (if negb (fsname.Exists (stat o) data_dir) then
           _ ← do_call (Mkdir data_dir);
           if negb (IS_OK (HDirection.CreateDic (mkdir o) data_dir)) then exit 1 else mret tt
         else mret tt);
    _ ← set_conf CONF_KEY_DATA_PATH DEF_CONF_VAL_DATA_PATH;
    mret OK.

Definition default_conf : M unit :=
  c ← conf;
  if negb (HNormalConfig.Exists c CONF_KEY_CONF) then
    let home_dir := HNormalConfig.GetValue c CONF_KEY_HOMEPATH in
    set_conf CONF_KEY_CONF (fsname.Append (getcwd o) home_dir (str "conf/conf"))
  else mret tt.

(** A file that cannot be loaded is reported on the standard output only. *)
Definition setup_config : M herr :=
  _ ← default_conf;
  c ← conf;
  let name := HNormalConfig.GetValue c CONF_KEY_CONF in
  _ ← do_call (ReadConf name);
  r ← lift (HNormalConfig.LoadConfig (conf_file o) c name);
  _ ← put_conf r.1;
  mret OK.

(** [InitLog]: exits with EXIT_FAILURE when the log cannot be opened. *)
Definition initLog (strLogFileName strLogType : bytes) : M herr := fun s =>
  match HLog.InitLog (localtime o) (getcwd o) (realpath o) (g_log s) strLogFileName strLogType
          (fsname.Exists (stat o)) (mkdir o) (log_opens o) (now o) (now2 o) with
  | Throw e => (Raise e, s)
  | Ret None => (Exit 1, s)
  | Ret (Some (g, cs)) => (_ ← set_log g; _ ← do_call (LogCalls cs); mret OK) s
  end.

(** The name of a log file the configuration does not name. *)
Definition default_log_name : M unit :=
  c ← conf;
  let log_dir := fsname.Append (getcwd o) (HNormalConfig.GetValue c CONF_KEY_HOMEPATH) (str "log") in
  let strExeName := fsname.FileNameOnly (HNormalConfig.GetValue c CONF_KEY_EXE_NAME) in
  strExeName ← (if bool_decide (strExeName = []) then lift (Format (Some (str "huicpp_" ++ to_string (getpid o))))
                else mret strExeName);
  set_conf CONF_KEY_LOG (HDirection.GetDicFile (getcwd o) log_dir (snd (Lower strExeName))).

Definition setup_log : M herr :=
  c ← conf;
  if negb (HNormalConfig.Exists c CONF_KEY_LOG) then mret OK
  else
    let strLogType := HNormalConfig.GetValueDef c (str "CK_logtype") (str "DAY") in
    strLogFileName ← (if HNormalConfig.Exists c CONF_KEY_LOG then mret (HNormalConfig.GetValue c CONF_KEY_LOG)
                      else _ ← default_log_name; mret []);
    c ← conf;
    let strLogFileName := if bool_decide (strLogFileName = []) then HNormalConfig.GetValue c CONF_KEY_LOG
                          else strLogFileName in
    initLog strLogFileName strLogType.

(** The process that called [fork] exits; after an error the caller goes on. *)
Definition setas_daemon_app : M unit :=
  _ ← do_call Fork;
  _ ← (if (o.(fork)).1 >? 0 then exit 0 else mret tt);
  _ ← do_call Setsid;
  _ ← do_call Fork;
  _ ← (if (o.(fork)).2 >? 0 then exit 0 else mret tt);
  do_call Umask.

Definition setup_daemon : M herr :=
  c ← conf;
  _ ← (if HNormalConfig.Exists c CONF_KEY_DAEMON then
         if bool_decide (Trim (HNormalConfig.GetValue c CONF_KEY_DAEMON) None = str "1") then setas_daemon_app
         else mret tt
       else mret tt);
  mret OK.

(** [OutOpen] and [WriteFromString] of [HFileStr]; the result of the write is not looked at. *)
Definition write_file (fd : Z) (name text : bytes) : M herr :=
  let '(e, m_fd) := HFileHandle.Open fd_in.invalid_fd fd in
  if negb (IS_OK e) then mret e
  else if fd_in.IsInvalid m_fd then mret ERR_STATUS
  else
    _ ← do_call (TruncateFile name);
    let e := HFileHandle.SetToZero (ftruncate o) in
    if negb (IS_OK e) then mret e
    else _ ← do_call (WriteFile name text); mret OK.

(** [strExeName] refers to what [GetValue] returns: the value in the map, or the
    temporary string of the default, which is gone when the name is used. *)
Definition setup_pidfile : M herr :=
  c ← conf;
  _ ← lift (check_ub (HNormalConfig.Exists c CONF_KEY_EXE_NAME));
  let strExeName := HNormalConfig.GetValue c CONF_KEY_EXE_NAME in
  strPidFileName ← lift (Format (Some (str "../" ++ DEF_CONF_VAL_DATA_PATH ++ [47] ++ c_str strExeName ++ str ".pid")));
  strPid ← lift (Format (Some (to_string (getpid o))));
  write_file (open_pid o strPidFileName) strPidFileName strPid.

Definition lock_app : M unit :=
  c ← conf;
  let strLockFileName := [46] ++ fsname.FileNameOnly (HNormalConfig.GetValue c CONF_KEY_EXE_NAME) in
  _ ← set_lock strLockFileName;
  _ ← do_call (LockFile strLockFileName);
  let e := HAppLock.LockApp (open_lock o strLockFileName) (lockf_test o) (lockf_lock o) in
  lift (assert_throw (IS_OK e) e).

Definition setup_applock : M herr :=
  c ← conf;
  _ ← (if HNormalConfig.Exists c CONF_KEY_APPLOCK then
         if bool_decide (Trim (HNormalConfig.GetValueDef c CONF_KEY_APPLOCK (str "1")) None = str "1") then lock_app
         else mret tt
       else mret tt);
  mret OK.

(** The handlers [setup_signal] installs do not show in the state of the object. *)
Definition Init : M herr :=
  and_then setup_app_dir (
  and_then setup_config (
  and_then setup_log (
  and_then setup_daemon (
  and_then setup_pidfile (
  and_then setup_applock (mret OK)))))).

End app.

(** ** Signals and the main loop *)

Definition SIGILL : Z := 4.
Definition SIGABRT : Z := 6.
Definition SIGFPE : Z := 8.
Definition SIGSEGV : Z := 11.
Definition SIGPIPE : Z := 13.
Definition SIGTERM : Z := 15.
Definition SIGINT : Z := 2.

Definition Stop (s : t) : t :=
  Mk (m_bDaemon s) (m_bInited s) false (m_conf s) (m_app_lock s) (g_log s) (calls s).

Definition IsRunning (s : t) : bool := m_bRunning s.

Inductive disposition : Type := Ignore | stop_handle | bug_handle | Default.

#[export] Instance disposition_eq_dec : EqDecision disposition.
Proof. solve_decision. Defined.

Definition setup_signal (sig : Z) : disposition :=
  if sig =? SIGTERM then stop_handle
  else if sig =? SIGINT then stop_handle
  else if sig =? SIGSEGV then bug_handle
  else if sig =? SIGPIPE then Ignore
  else if sig =? SIGILL then stop_handle
  else if sig =? SIGFPE then stop_handle
  else if sig =? SIGABRT then stop_handle
  else Default.

Section signals.
(** The signals whose default action ends the process. *)
Context (ends : Z -> bool).

(** A signal that reaches an application under [gapp]. *)
Definition deliver (sig : Z) : M unit := fun s =>
  match setup_signal sig with
  | stop_handle => (Done tt, Stop s)
  | bug_handle => (Exit sig, s)
  | Ignore => (Done tt, s)
  | Default => if ends sig then (Exit sig, s) else (Done tt, s)
  end.

Fixpoint delivers (sigs : list Z) : M unit :=
  match sigs with [] => mret tt | sig :: sigs => _ ← deliver sig; delivers sigs end.

(** [Run], with the signals that arrive in each round of the loop. *)
Fixpoint Run (rounds : list (list Z)) : M bool := fun s =>
  if IsRunning s then
    match rounds with
    | [] => (Raise Diverge, s)
    | sigs :: rounds => (_ ← delivers sigs; Run rounds) s
    end
  else (Done true, s).
End signals.

End HApp.

(** ** Lemmas *)

Module HAppFacts.
Import HStr HApp.

(** *** The configuration as a finite function *)

Definition look (c : HNormalConfig.t) (k : bytes) : option bytes := snd <$> get (@fst bytes bytes) k c.

Lemma GetValueDef_look c k d : HNormalConfig.GetValueDef c k d = default d (look c k).
Proof. unfold HNormalConfig.GetValueDef, HMstr.GetValueDef, look. by destruct (get fst k c). Qed.

Lemma GetValue_look c k : HNormalConfig.GetValue c k = default [] (look c k).
Proof. apply GetValueDef_look. Qed.

Lemma GetValue_Some c k v : look c k = Some v -> HNormalConfig.GetValue c k = v.
Proof. intros E. by rewrite GetValue_look, E. Qed.

Lemma Exists_Some c k v : look c k = Some v -> HNormalConfig.Exists c k = true.
Proof. intros E. unfold HNormalConfig.Exists, HMstr.Exists. unfold look in E. by destruct (get fst k c). Qed.

Lemma Exists_None c k : look c k = None -> HNormalConfig.Exists c k = false.
Proof. intros E. unfold HNormalConfig.Exists, HMstr.Exists. unfold look in E. by destruct (get fst k c). Qed.

Lemma look_set c k v k' :
  HMstr.wf c -> look (HNormalConfig.SetValue c k v) k' = if decide (k' = k) then Some v else look c k'.
Proof.
  intros Hw. unfold look, HNormalConfig.SetValue. rewrite HMstr.SetValue_assign. case_decide as E.
  - subst. by rewrite (get_assign_eq fst (k, v)).
  - by rewrite get_assign_ne.
Qed.

Lemma wf_set c k v : HMstr.wf c -> HMstr.wf (HNormalConfig.SetValue c k v).
Proof. apply HMstr.wf_SetValue. Qed.

Lemma wf_nil : HMstr.wf [].
Proof. done. Qed.

#[export] Hint Resolve wf_set wf_nil : huicpp.

(** *** The command line *)

Definition argk (i : Z) : bytes := CONF_KEY_ARGS ++ [95] ++ to_string i.

Lemma to_string_short i : 0 <= i -> zlen (to_string i) <= 21.
Proof.
  intros Hi. unfold to_string. ztest. unfold zlen.
  pose proof (length_dec_digits 20 i []). cbn [length] in *. lia.
Qed.

Lemma Format_ok f : zlen f < HSTRING_LEN -> Forall (fun c => c <> 0) f -> Format (Some f) = Ret f.
Proof. apply vFormat_ok. Qed.

Lemma to_string_clean i : 0 <= i -> Forall (fun c => c <> 0) (to_string i).
Proof. intros Hi. apply Forall_forall. intros c Hc ->. by apply to_string_digits in Hc. Qed.

Lemma Format_to_string i : 0 <= i -> Format (Some (to_string i)) = Ret (to_string i).
Proof.
  intros Hi. apply Format_ok; [|by apply to_string_clean]. pose proof (to_string_short i Hi). unfold HSTRING_LEN. lia.
Qed.

Lemma arg_key_ok i : 0 <= i -> arg_key i = Ret (argk i).
Proof.
  intros Hi. apply vFormat_ok.
  - unfold argk. rewrite !zlen_app. pose proof (to_string_short i Hi).
    change (zlen CONF_KEY_ARGS) with 7. change (zlen [95]) with 1. unfold HSTRING_LEN. lia.
  - unfold argk. rewrite !Forall_app. split_and!; [by repeat constructor|by repeat constructor|].
    by apply to_string_clean.
Qed.

Lemma argk_inj i j : in_s 32 i -> in_s 32 j -> argk i = argk j -> i = j.
Proof.
  intros Hi Hj E. unfold argk in E. apply app_inv_head, app_inv_head in E.
  pose proof (stoi_to_string i Hi) as H. rewrite E, (stoi_to_string j Hj) in H. congruence.
Qed.

Definition opts_conf (opts : list (Z * bytes)) (c : HNormalConfig.t) : HNormalConfig.t :=
  foldl (fun c o => if o.1 =? 99 then HNormalConfig.SetValue c CONF_KEY_CONF o.2 else c) c opts.

Fixpoint args_conf (argv : list bytes) (i : Z) (c : HNormalConfig.t) : HNormalConfig.t :=
  match argv with [] => c | a :: argv => args_conf argv (i + 1) (HNormalConfig.SetValue c (argk i) a) end.

Lemma bind_Done {A B} (m : M A) (f : A -> M B) a s s' : m s = (Done a, s') -> (m ≫= f) s = f a s'.
Proof. intros E. unfold mbind, M_bind. by rewrite E. Qed.

Lemma set_daemon_id s : m_bDaemon s = true -> set_daemon s = (Done tt, s).
Proof. destruct s; cbn. by intros ->. Qed.

Lemma opts_loop_ok opts s :
  Forall (fun o => o.1 <> 104) opts -> m_bDaemon s = true -> opts_loop opts s = (Done tt, upd_conf (opts_conf opts) s).
Proof.
  intros HF. revert s. induction HF as [|[cb a] opts Ho _ IH]; intros s Hs; [by destruct s|].
  cbn [fst] in Ho. cbn [opts_loop].
  set (c' := fun c => if cb =? 99 then HNormalConfig.SetValue c CONF_KEY_CONF a else c).
  rewrite (bind_Done _ _ tt s (upd_conf c' s)); [by rewrite IH|]. unfold opt, c'.
  destruct (cb =? 99); [done|]. destruct (cb =? 100); [rewrite set_daemon_id by done; by destruct s|].
  rewrite (proj2 (Z.eqb_neq cb 104)) by done. by destruct s.
Qed.

Lemma args_loop_ok argv i s : 0 <= i -> args_loop argv i s = (Done tt, upd_conf (args_conf argv i) s).
Proof.
  revert i s. induction argv as [|a argv IH]; intros i s Hi; [by destruct s|].
  cbn [args_loop]. rewrite arg_key_ok by done. rewrite (bind_Done _ _ (argk i) s s) by done.
  rewrite (bind_Done _ _ tt s (upd_conf (fun c => HNormalConfig.SetValue c (argk i) a) s)) by done.
  by rewrite IH by lia.
Qed.

Lemma wf_opts opts c : HMstr.wf c -> HMstr.wf (opts_conf opts c).
Proof.
  revert c. induction opts as [|o opts IH]; intros c Hw; [done|]. apply IH. case_match; auto with huicpp.
Qed.

Lemma wf_args argv i c : HMstr.wf c -> HMstr.wf (args_conf argv i c).
Proof. revert i c. induction argv as [|a argv IH]; intros i c Hw; [done|]. apply IH. auto with huicpp. Qed.

#[export] Hint Resolve wf_opts wf_args : huicpp.

Lemma look_opts opts c k : HMstr.wf c -> k <> CONF_KEY_CONF -> look (opts_conf opts c) k = look c k.
Proof.
  intros Hw Hk. revert c Hw. induction opts as [|o opts IH]; intros c Hw; [done|].
  change (opts_conf (o :: opts) c) with (opts_conf opts (if o.1 =? 99 then HNormalConfig.SetValue c CONF_KEY_CONF o.2 else c)).
  rewrite IH by (case_match; auto with huicpp). case_match; [|done]. rewrite look_set by done. by case_decide.
Qed.

Lemma look_args_ne argv i c k :
  HMstr.wf c -> (forall j, i <= j < i + zlen argv -> k <> argk j) -> look (args_conf argv i c) k = look c k.
Proof.
  revert i c. induction argv as [|a argv IH]; intros i c Hw Hk; [done|]. cbn [args_conf].
  rewrite zlen_cons in Hk. pose proof (zlen_nonneg argv).
  rewrite IH; [|auto with huicpp|intros; apply Hk; lia]. rewrite look_set by done. case_decide as E; [|done].
  by destruct (Hk i ltac:(lia)).
Qed.

Lemma look_args argv (n : nat) i c a :
  HMstr.wf c -> 0 <= i -> i + zlen argv < 2 ^ 31 -> argv !! n = Some a ->
  look (args_conf argv i c) (argk (i + Z.of_nat n)) = Some a.
Proof.
  revert n i c. induction argv as [|b argv IH]; intros [|n] i c Hw Hi Hl Hn; [done|done| |].
  - injection Hn as ->. cbn [args_conf]. rewrite Z.add_0_r. rewrite zlen_cons in Hl.
    rewrite look_args_ne; [|auto with huicpp|intros j Hj E; apply argk_inj in E; unfold in_s; lia]. rewrite look_set by done. by case_decide.
  - cbn [args_conf]. rewrite zlen_cons in Hl. replace (i + Z.of_nat (S n)) with (i + 1 + Z.of_nat n) by lia.
    apply IH; auto with huicpp; lia.
Qed.

(** A key that is not the name of an argument. *)
Definition plain (k : bytes) : Prop := forall j, 0 <= j -> k <> argk j.

Lemma plain_key k : take 8 k <> str "CK_argv_" -> plain k.
Proof.
  intros H j _ ->. apply H. unfold argk. by rewrite app_assoc, take_app_le by (cbn; lia).
Qed.

Lemma argk_plain_ne j k : plain k -> 0 <= j -> argk j <> k.
Proof. intros Hk Hj E. by apply (Hk j Hj). Qed.

Lemma count_plain : plain CONF_KEY_ARGS_COUNT.
Proof.
  intros j Hj E. change CONF_KEY_ARGS_COUNT with (CONF_KEY_ARGS ++ [95] ++ str "count") in E.
  unfold argk in E. apply app_inv_head, app_inv_head in E. symmetry in E. rename E into Ej.
  assert (isdigit 99 = true) as Hd; [|done]. apply (to_string_digits j); [done|]. rewrite Ej. cbn. left.
Qed.

(** The configuration after the command line was read. *)
Definition ana_conf (o : os) (p : bytes) (argc : Z) : HNormalConfig.t -> HNormalConfig.t :=
  fun c =>
  let c := HNormalConfig.SetValue c CONF_KEY_EXE_NAME (fsname.FileName p) in
  let c := HNormalConfig.SetValue c CONF_KEY_EXE_FILEPATH (program_paths o p).1 in
  HNormalConfig.SetValue c CONF_KEY_EXE_PATH (program_paths o p).2.

Definition argv_conf (o : os) (p : bytes) (argc : Z) (opts : list (Z * bytes)) (argv : list bytes) : HNormalConfig.t :=
  HNormalConfig.SetValue (args_conf argv 0 (opts_conf opts (ana_conf o p argc []))) CONF_KEY_ARGS_COUNT (FromN argc).

Lemma HApp_argv_ok o p argv opts argv' :
  getopt_long o (p :: argv) = (opts, argv') -> Forall (fun o => o.1 <> 104) opts ->
  HApp_argv o (p :: argv) = (Done tt, upd_conf (fun _ => argv_conf o p (zlen (p :: argv)) opts argv') start).
Proof.
  intros Hg Ho. unfold HApp_argv, anaOpt. erewrite bind_Done by reflexivity.
  destruct (program_paths o p) as [file dir] eqn:Ep. do 2 erewrite bind_Done by reflexivity. rewrite Hg.
  erewrite bind_Done by (by apply opts_loop_ok). erewrite bind_Done by (by apply args_loop_ok).
  unfold argv_conf, ana_conf. by rewrite Ep.
Qed.

Lemma wf_ana o p argc c : HMstr.wf c -> HMstr.wf (ana_conf o p argc c).
Proof. intros. unfold ana_conf. auto with huicpp. Qed.

#[export] Hint Resolve wf_ana : huicpp.

Lemma wf_argv o p argc opts argv : HMstr.wf (argv_conf o p argc opts argv).
Proof. unfold argv_conf. auto with huicpp. Qed.

Lemma look_argv_plain o p argc opts argv k :
  plain k -> k <> CONF_KEY_ARGS_COUNT -> k <> CONF_KEY_CONF ->
  look (argv_conf o p argc opts argv) k = look (ana_conf o p argc []) k.
Proof.
  intros Hp H1 H2. unfold argv_conf. rewrite look_set by auto with huicpp. rewrite decide_False by done.
  rewrite look_args_ne; [|auto with huicpp|intros j Hj; apply Hp; lia]. by apply look_opts; auto with huicpp.
Qed.

Lemma opts_none opts c : Forall (fun o => o.1 <> 99) opts -> opts_conf opts c = c.
Proof.
  induction 1 as [|o opts Ho _ IH]; [done|]. unfold opts_conf in *. cbn [foldl]. by rewrite (proj2 (Z.eqb_neq _ _)).
Qed.

(** What the command line of an absolute program binds. *)
Lemma look_program o p argc opts argv :
  look (argv_conf o p argc opts argv) CONF_KEY_EXE_NAME = Some (fsname.FileName p) /\
  look (argv_conf o p argc opts argv) CONF_KEY_EXE_FILEPATH = Some (program_paths o p).1 /\
  look (argv_conf o p argc opts argv) CONF_KEY_EXE_PATH = Some (program_paths o p).2.
Proof.
  split_and!; rewrite look_argv_plain by (by apply plain_key || done); unfold ana_conf;
    rewrite !look_set by auto with huicpp; reflexivity.
Qed.

Lemma look_conf_none o p argc opts argv :
  Forall (fun o => o.1 <> 99) opts -> look (argv_conf o p argc opts argv) CONF_KEY_CONF = None.
Proof.
  intros Ho. unfold argv_conf. rewrite opts_none by done. rewrite look_set by auto with huicpp.
  rewrite decide_False by done.
  rewrite look_args_ne; [|auto with huicpp|intros j Hj; apply plain_key; [done|lia]].
  unfold ana_conf. rewrite !look_set by auto with huicpp. reflexivity.
Qed.

Lemma program_absolute o d f :
  fsnameFacts.directory d -> fsnameFacts.component f -> program_paths o (d ++ 47 :: f) = (d ++ 47 :: f, d).
Proof.
  intros Hd Hf. unfold program_paths, fsname.IsAbsolute, HDirection.GetParent.
  rewrite (fsnameFacts.dir_root _ (fsnameFacts.child_directory d f Hd Hf)). cbn [negb].
  by rewrite fsnameFacts.child_parent.
Qed.

(** *** The steps of [Init] *)

Definition home_conf (h : bytes) (c : HNormalConfig.t) : HNormalConfig.t :=
  HNormalConfig.SetValue (HNormalConfig.SetValue c CONF_KEY_HOMEPATH h) CONF_KEY_DATA_PATH DEF_CONF_VAL_DATA_PATH.

Lemma wf_home h c : HMstr.wf c -> HMstr.wf (home_conf h c).
Proof. unfold home_conf. auto with huicpp. Qed.

(** A state with another configuration and more calls. *)
Definition next (c : HNormalConfig.t) (cs : list call) (s : t) : t :=
  Mk (m_bDaemon s) (m_bInited s) (m_bRunning s) c (m_app_lock s) (g_log s) (calls s ++ cs).

Definition slash (d f : bytes) : bytes := d ++ 47 :: f.

Definition data_calls (o : os) (h : bytes) : list call :=
  if fsname.Exists (stat o) (slash h (str "data")) then [] else [Mkdir (slash h (str "data"))].

Lemma and_then_OK m k s s' : m s = (Done OK, s') -> and_then m k s = k s'.
Proof. intros E. unfold and_then. by erewrite bind_Done by exact E. Qed.

Lemma component_data : fsnameFacts.component (str "data").
Proof. split; [done| |]; vm_compute; set_solver. Qed.

Lemma component_conf : fsnameFacts.component (str "conf").
Proof. split; [done| |]; vm_compute; set_solver. Qed.

Lemma setup_app_dir_ok o s h b :
  fsnameFacts.directory h -> fsnameFacts.component b -> look (m_conf s) CONF_KEY_EXE_PATH = Some (slash h b) ->
  (fsname.Exists (stat o) (slash h (str "data")) = false -> HDirection.CreateDic (mkdir o) (slash h (str "data")) = OK) ->
  setup_app_dir o s = (Done OK, next (home_conf h (m_conf s)) (data_calls o h) s).
Proof.
  intros Hh Hb Hp Hd. unfold setup_app_dir. erewrite bind_Done by reflexivity.
  rewrite (Exists_Some _ _ _ Hp), (GetValue_Some _ _ _ Hp). cbn [negb]. unfold HDirection.GetParent, slash in *.
  rewrite fsnameFacts.child_parent, fsnameFacts.Append_child by (done || apply component_data).
  erewrite bind_Done by reflexivity. unfold data_calls, slash.
  destruct (fsname.Exists (stat o) (h ++ 47 :: str "data")) eqn:E; cbn [negb].
  - do 2 erewrite bind_Done by reflexivity. unfold next. by rewrite app_nil_r.
  - match goal with |- (_ ≫= _) ?s1 = _ => rewrite (bind_Done _ _ tt s1 (upd_call (Mkdir (h ++ 47 :: str "data")) s1)) end.
    + by erewrite bind_Done by reflexivity.
    + erewrite bind_Done by reflexivity. by rewrite Hd.
Qed.

Lemma setup_config_ok o s h c e :
  fsnameFacts.directory h -> look (m_conf s) CONF_KEY_HOMEPATH = Some h -> look (m_conf s) CONF_KEY_CONF = None ->
  let name := slash h (str "conf/conf") in
  HNormalConfig.LoadConfig (conf_file o) (HNormalConfig.SetValue (m_conf s) CONF_KEY_CONF name) name = Ret (c, e) ->
  HMstr.wf (m_conf s) ->
  setup_config o s = (Done OK, next c [ReadConf name] s).
Proof.
  intros Hh Hp Hc name Hl Hw. unfold setup_config.
  assert (fsname.Append (getcwd o) h (str "conf/conf") = name) as Ha.
  { unfold fsname.Append. rewrite bool_decide_eq_false_2 by done. destruct Hh as [Hr He _].
    rewrite bool_decide_eq_false_2 by (by destruct h). change (fsname.IsRootBegin (str "conf/conf")) with false. by rewrite He. }
  erewrite (bind_Done (default_conf o)).
  2: { unfold default_conf. erewrite bind_Done by reflexivity.
       rewrite (Exists_None _ _ Hc), (GetValue_Some _ _ _ Hp). cbn [negb]. rewrite Ha. reflexivity. }
  erewrite bind_Done by reflexivity. cbn [m_conf upd_conf].
  rewrite (GetValue_Some _ _ name) by (by rewrite look_set, decide_True).
  erewrite bind_Done by reflexivity. rewrite Hl. by do 2 erewrite bind_Done by reflexivity.
Qed.

Lemma setup_log_none o s : look (m_conf s) CONF_KEY_LOG = None -> setup_log o s = (Done OK, s).
Proof.
  intros H. unfold setup_log. erewrite bind_Done by reflexivity.
  by rewrite (Exists_None _ _ H).
Qed.

Lemma setup_daemon_none o s : look (m_conf s) CONF_KEY_DAEMON = None -> setup_daemon o s = (Done OK, s).
Proof.
  intros H. unfold setup_daemon. erewrite bind_Done by reflexivity.
  rewrite (Exists_None _ _ H). by erewrite bind_Done by reflexivity.
Qed.

Lemma setup_applock_none o s : look (m_conf s) CONF_KEY_APPLOCK = None -> setup_applock o s = (Done OK, s).
Proof.
  intros H. unfold setup_applock. erewrite bind_Done by reflexivity.
  rewrite (Exists_None _ _ H). by erewrite bind_Done by reflexivity.
Qed.

Definition pid_name (f : bytes) : bytes := str "../data/" ++ f ++ str ".pid".

(** The calls that write the pid file. *)
Definition pid_calls (o : os) (f : bytes) : list call :=
  [TruncateFile (pid_name f); WriteFile (pid_name f) (to_string (getpid o))].

Lemma setup_pidfile_ok o s f :
  fsnameFacts.component f -> zlen f < 2000 -> look (m_conf s) CONF_KEY_EXE_NAME = Some f -> 0 <= getpid o ->
  0 <= open_pid o (pid_name f) -> ftruncate o = 0 ->
  setup_pidfile o s = (Done OK, next (m_conf s) (pid_calls o f) s).
Proof.
  intros Hf Hl Hn Hp Ho Ht. unfold setup_pidfile. erewrite bind_Done by reflexivity.
  rewrite (Exists_Some _ _ _ Hn), (GetValue_Some _ _ _ Hn).
  erewrite bind_Done by reflexivity. change c_str with c_str.
  rewrite c_str_clean by apply Hf.
  change (str "../" ++ DEF_CONF_VAL_DATA_PATH ++ [47] ++ f ++ str ".pid") with (pid_name f).
  rewrite (Format_ok (pid_name f)); cycle 1.
  { unfold pid_name. rewrite !zlen_app. change (zlen (str "../data/")) with 8. change (zlen (str ".pid")) with 4.
    unfold HSTRING_LEN. lia. }
  { unfold pid_name. rewrite !Forall_app. split_and!; [by repeat constructor| |by repeat constructor].
    apply Forall_forall. intros c Hc ->. by apply (fsnameFacts.c_clean f). }
  erewrite bind_Done by reflexivity. rewrite Format_to_string by done. erewrite bind_Done by reflexivity.
  unfold write_file, HFileHandle.Open. rewrite Z.geb_leb. ztest. cbn [negb IS_OK].
  unfold fd_in.IsInvalid, fd_in.invalid_fd. ztest. change (IS_OK OK) with true. cbn [negb].
  erewrite bind_Done by reflexivity. rewrite Ht.
  change (IS_OK (HFileHandle.SetToZero 0)) with true. cbn [negb]. erewrite bind_Done by reflexivity.
  unfold mret, M_ret, upd_call, next, pid_calls. cbn. by rewrite <- app_assoc.
Qed.


(** *** Signals *)

Lemma delivers_quiet ends sigs s :
  Forall (fun g => setup_signal g = Ignore \/ setup_signal g = Default /\ ends g = false) sigs ->
  delivers ends sigs s = (Done tt, s).
Proof.
  induction 1 as [|g sigs Hg _ IH]; [done|]. cbn [delivers]. rewrite (bind_Done _ _ tt s s); [done|]. unfold deliver.
  by destruct Hg as [->|[-> ->]].
Qed.

Lemma delivers_stopped ends sigs s :
  Forall (fun g => setup_signal g <> bug_handle /\ (setup_signal g = Default -> ends g = false)) sigs ->
  delivers ends sigs (Stop s) = (Done tt, Stop s).
Proof.
  induction 1 as [|g sigs [Hb Hd] _ IH]; [done|]. cbn [delivers].
  rewrite (bind_Done _ _ tt (Stop s) (Stop s)); [done|]. unfold deliver.
  destruct (setup_signal g); try done. by rewrite Hd.
Qed.

Lemma delivers_stop ends sigs s :
  Forall (fun g => setup_signal g <> bug_handle /\ (setup_signal g = Default -> ends g = false)) sigs ->
  Exists (fun g => setup_signal g = stop_handle) sigs ->
  delivers ends sigs s = (Done tt, Stop s).
Proof.
  intros HF He. induction HF as [|g sigs [Hb Hd] HF IH]; [by invc He|]. cbn [delivers].
  destruct (decide (setup_signal g = stop_handle)) as [E|E].
  - rewrite (bind_Done _ _ tt s (Stop s)); [by apply delivers_stopped|]. unfold deliver. by rewrite E.
  - rewrite (bind_Done _ _ tt s s); [by apply IH; invc He|]. unfold deliver.
    destruct (setup_signal g); try done. by rewrite Hd.
Qed.

End HAppFacts.

(** ** Properties *)

Section properties.
Import HStr HApp HAppFacts.

(** The command line can be read back from the configuration: the number of
    arguments, and at each index the argument [getopt_long] left there; at any other
    index the empty string. *)
Theorem argv_readback o p argv opts argv' :
  getopt_long o (p :: argv) = (opts, argv') -> Forall (fun o => o.1 <> 104) opts ->
  length argv' = S (length argv) -> zlen (p :: argv) < 2 ^ 31 ->
  exists s, HApp_argv o (p :: argv) = (Done tt, s) /\
    GetArgvCount (m_conf s) = Ret (zlen (p :: argv)) /\
    (forall i : nat, Z.of_nat i < 2 ^ 31 -> GetArgvByIndex (m_conf s) (Z.of_nat i) = Ret (default [] (argv' !! i))).
Proof.
  intros Hg Ho Hl Hb. eexists. split; [by apply HApp_argv_ok|]. cbn [m_conf upd_conf].
  assert (zlen argv' = zlen (p :: argv)) as Hz by (unfold zlen; cbn [length]; lia).
  split.
  - unfold GetArgvCount. rewrite GetValue_look. unfold argv_conf.
    rewrite look_set, decide_True by auto with huicpp. apply stoi_to_string.
    pose proof (zlen_nonneg (p :: argv)). unfold in_s. lia.
  - intros i Hi. unfold GetArgvByIndex. rewrite arg_key_ok by lia. cbn [mbind res_bind]. f_equal.
    rewrite GetValue_look. f_equal. unfold argv_conf.
    rewrite look_set by auto with huicpp. rewrite decide_False by (apply argk_plain_ne; [apply count_plain|lia]).
    destruct (argv' !! i) as [a|] eqn:Ea.
    + apply (look_args argv' i 0); auto with huicpp; lia.
    + apply lookup_ge_None in Ea. rewrite look_args_ne; [|auto with huicpp|].
      * rewrite look_opts by (auto with huicpp || (apply argk_plain_ne; [by apply plain_key|lia])).
        unfold ana_conf. rewrite !look_set by auto with huicpp.
        rewrite !decide_False by (apply argk_plain_ne; [by apply plain_key|lia]). done.
      * intros j Hj E. apply argk_inj in E; unfold in_s, zlen in *; lia.
Qed.

(** C19: An absolute program [h/b/f] started without [-c]: the home directory is [h], the
    data directory is made when it is missing, the configuration is read from
    [h/conf/conf] over the bindings of the command line, and the pid goes to a file whose
    name does not depend on [h] at all; these are all the calls when the configuration
    names no log, no daemon and no lock. *)
Theorem Init_started o h b f argv opts argv' c e :
  fsnameFacts.directory h -> fsnameFacts.component b -> fsnameFacts.component f -> zlen f < 2000 ->
  let p := slash (slash h b) f in
  getopt_long o (p :: argv) = (opts, argv') -> Forall (fun o => o.1 <> 104 /\ o.1 <> 99) opts ->
  (fsname.Exists (stat o) (slash h (str "data")) = false -> HDirection.CreateDic (mkdir o) (slash h (str "data")) = OK) ->
  let name := slash h (str "conf/conf") in
  let c1 := home_conf h (argv_conf o p (zlen (p :: argv)) opts argv') in
  HNormalConfig.LoadConfig (conf_file o) (HNormalConfig.SetValue c1 CONF_KEY_CONF name) name = Ret (c, e) ->
  look c CONF_KEY_LOG = None -> look c CONF_KEY_DAEMON = None -> look c CONF_KEY_APPLOCK = None ->
  look c CONF_KEY_EXE_NAME = Some f -> 0 <= getpid o -> 0 <= open_pid o (pid_name f) -> ftruncate o = 0 ->
  exists s s', HApp_argv o (p :: argv) = (Done tt, s) /\ Init o s = (Done OK, s') /\
    m_conf s' = c /\ look c1 CONF_KEY_HOMEPATH = Some h /\ look c1 CONF_KEY_EXE_NAME = Some f /\
    calls s' = data_calls o h ++ [ReadConf name] ++ pid_calls o f.
Proof.
  intros Hh Hb Hf Hlf p Hg Ho Hd name c1 Hl HL HD HA HN Hp Hop Ht.
  pose proof (fsnameFacts.child_directory h b Hh Hb) as Hhb.
  apply Forall_and in Ho as [Ho1 Ho2].
  destruct (look_program o p (zlen (p :: argv)) opts argv') as (LN & _ & LP).
  pose proof (look_conf_none o p (zlen (p :: argv)) opts argv' Ho2) as LC.
  unfold p, slash in LN, LP. rewrite program_absolute in LP by done.
  rewrite fsnameFacts.child_name in LN by (done || apply Hhb). fold (slash h b) in LN, LP. fold (slash (slash h b) f) p in LN, LP.
  eexists _, _. split; [by apply HApp_argv_ok|]. set (c0 := argv_conf _ _ _ _ _) in *. set (s := upd_conf _ start).
  assert (HMstr.wf c0) as Hw by apply wf_argv.
  assert (look c1 CONF_KEY_HOMEPATH = Some h /\ look c1 CONF_KEY_CONF = None /\ look c1 CONF_KEY_EXE_NAME = Some f) as (KH & KC & KN).
  { unfold c1, home_conf. rewrite !look_set by auto with huicpp. split_and!; [done|exact LC|exact LN]. }
  unfold Init.
  rewrite (and_then_OK _ _ _ _ (setup_app_dir_ok o s h b Hh Hb LP Hd)).
  rewrite (and_then_OK _ _ _ _ (setup_config_ok o (next c1 (data_calls o h) s) h c e Hh KH KC Hl (wf_home h c0 Hw))).
  set (s1 := next c _ (next c1 _ s)).
  rewrite (and_then_OK _ _ _ _ (setup_log_none o s1 HL)).
  rewrite (and_then_OK _ _ _ _ (setup_daemon_none o s1 HD)).
  rewrite (and_then_OK _ _ _ _ (setup_pidfile_ok o s1 f Hf Hlf HN Hp Hop Ht)).
  rewrite (and_then_OK _ _ _ _ (setup_applock_none o (next c (pid_calls o f) s1) HA)).
  split; [reflexivity|]. split_and!; try done. cbn [calls next s s1 upd_conf start app]. by rewrite <- app_assoc.
Qed.

(** A system: [conf] is the text of the configuration file, [test] the answer to F_TEST. *)
Definition sample_os (conf : bytes) (test : Z) : os :=
  Os (str "/work") id (fun _ => None) (fun _ _ => (0, false)) (fun _ => Some [Some conf])
    (fun argv => ([], argv)) 42 (fun _ => HTime.Tm 70 0 1 0 0 0 4) true (HMicroTime.Tv 0 0) (HMicroTime.Tv 0 0)
    (1, 1) (fun _ => 5) 0 (fun _ => 6) test 0.

Lemma argv_readback_witness :
  exists s, HApp_argv (sample_os [] 0) [str "app"; str "x"] = (Done tt, s) /\
    GetArgvCount (m_conf s) = Ret 2 /\ GetArgvByIndex (m_conf s) 1 = Ret (str "x").
Proof.
  destruct (argv_readback (sample_os [] 0) (str "app") [str "x"] [] [str "app"; str "x"]) as (s & H1 & H2 & H3);
    [done|done|done|by vm_compute|]. exists s. split_and!; [done|done|]. by apply (H3 1%nat).
Defined.

Lemma Init_started_witness :
  exists s s', HApp_argv (sample_os (str "CK_level = 12") 0) [str "/opt/bin/app"] = (Done tt, s) /\
    Init (sample_os (str "CK_level = 12") 0) s = (Done OK, s') /\
    calls s' = [Mkdir (str "/opt/data"); ReadConf (str "/opt/conf/conf"); TruncateFile (str "../data/app.pid");
                WriteFile (str "../data/app.pid") (str "42")].
Proof.
  destruct (Init_started (sample_os (str "CK_level = 12") 0) (str "/opt") (str "bin") (str "app") [] [] [str "/opt/bin/app"]
     (HNormalConfig.SetValue (HNormalConfig.SetValue (home_conf (str "/opt")
        (argv_conf (sample_os (str "CK_level = 12") 0) (str "/opt/bin/app") 1 [] [str "/opt/bin/app"]))
        CONF_KEY_CONF (str "/opt/conf/conf")) (str "CK_level") (str "12")) OK)
    as (s & s' & H1 & H2 & _ & _ & _ & H3);
    [split; try done; vm_compute; set_solver..|by vm_compute|done|done|by vm_compute|by vm_compute|by vm_compute|
     by vm_compute|by vm_compute|by vm_compute|by vm_compute|by vm_compute|done|].
  exists s, s'. split_and!; [exact H1|exact H2|]. rewrite H3. by vm_compute.
Defined.

(** A second instance under [CK_applock = 1] is refused by an exception, but only after it has
    truncated the pid file of the first one and written its own pid there. *)
Theorem second_instance o s f v :
  fsnameFacts.component f -> zlen f < 2000 -> look (m_conf s) CONF_KEY_EXE_NAME = Some f -> 0 <= getpid o ->
  0 <= open_pid o (pid_name f) -> ftruncate o = 0 ->
  look (m_conf s) CONF_KEY_APPLOCK = Some v -> Trim v None = str "1" -> lockf_test o <> 0 ->
  exists s', and_then (setup_pidfile o) (and_then (setup_applock o) (mret OK)) s = (Raise (HExc INVL_PARA), s') /\
    calls s' = calls s ++ pid_calls o f ++ [LockFile ([46] ++ fsname.FileNameOnly f)].
Proof.
  intros Hf Hl Hn Hp Ho Ht Ha Hv Hlock. set (s1 := next (m_conf s) (pid_calls o f) s).
  exists (upd_call (LockFile ([46] ++ fsname.FileNameOnly f))
            (Mk (m_bDaemon s1) (m_bInited s1) (m_bRunning s1) (m_conf s1) (Some ([46] ++ fsname.FileNameOnly f)) (g_log s1) (calls s1))).
  split; [|cbn; by rewrite <- !app_assoc].
  rewrite (and_then_OK _ _ _ _ (setup_pidfile_ok o s f Hf Hl Hn Hp Ho Ht)). fold s1.
  unfold and_then, setup_applock. do 2 (unfold mbind at 1, M_bind at 1). unfold conf at 1. change (m_conf s1) with (m_conf s).
  rewrite (Exists_Some _ _ _ Ha). unfold mbind at 1, M_bind at 1.
  rewrite GetValueDef_look, Ha. change (Trim (default (str "1") (Some v)) None) with (Trim v None).
  rewrite Hv. change (bool_decide (str "1" = str "1")) with true. cbv iota.
  unfold lock_app. erewrite bind_Done by reflexivity. change (m_conf s1) with (m_conf s). rewrite (GetValue_Some _ _ _ Hn).
  do 2 erewrite bind_Done by reflexivity. unfold HAppLock.LockApp.
  assert (HAppLock.lockf (open_lock o ([46] ++ fsname.FileNameOnly f)) (lockf_test o) =? 0 = false) as ->.
  { unfold HAppLock.lockf. case_match; [done|]. by apply Z.eqb_neq. }
  reflexivity.
Qed.

Lemma second_instance_witness :
  exists s', and_then (setup_pidfile (sample_os [] (-1))) (and_then (setup_applock (sample_os [] (-1))) (mret OK))
      (upd_conf (fun _ => [(CONF_KEY_APPLOCK, str " 1"); (CONF_KEY_EXE_NAME, str "app")]) start)
    = (Raise (HExc INVL_PARA), s') /\
    calls s' = [TruncateFile (str "../data/app.pid"); WriteFile (str "../data/app.pid") (str "42"); LockFile (str ".app")].
Proof.
  destruct (second_instance (sample_os [] (-1))
    (upd_conf (fun _ => [(CONF_KEY_APPLOCK, str " 1"); (CONF_KEY_EXE_NAME, str "app")]) start) (str "app") (str " 1"))
    as (s' & H1 & H2); [split; try done; vm_compute; set_solver|by vm_compute|by vm_compute|done|by vm_compute|done|by vm_compute|by vm_compute|done|].
  exists s'. split; [exact H1|]. rewrite H2. by vm_compute.
Defined.

(** The default constructor binds no program name: the name of the pid file is
    made from a string that is gone. *)
Example default_app_undefined :
  (Init (sample_os (str "CK_level = 12") 0) (HApp_default (sample_os [] 0)).2).1 = Raise UB.
Proof. by vm_compute. Qed.

(** The directories of a relative program name are lost. *)
Example relative_program :
  program_paths (sample_os [] 0) (str "tools/bin/app") = (str "/work/app", str "/work").
Proof. by vm_compute. Qed.

(** The parent of a daemon exits before anything is written; the second child does the rest. *)
Example daemon_parent_exits :
  let o := sample_os (str "CK_isdaemon = 1") 0 in
  let r := Init o (HApp_argv o [str "/opt/bin/app"]).2 in
  r.1 = Exit 0 /\ calls r.2 = [Mkdir (str "/opt/data"); ReadConf (str "/opt/conf/conf"); Fork].
Proof. by vm_compute. Qed.

(** A log that is not named is not opened: the name of a default log is never made. *)
Example no_default_log :
  let o := sample_os (str "CK_level = 12") 0 in
  g_log (Init o (HApp_argv o [str "/opt/bin/app"]).2).2 = None.
Proof. by vm_compute. Qed.

(** [Run] returns with the first round in which a stop signal arrives, when no round so far
    brings a signal that ends the process. *)
Theorem Run_stops ends quiet sigs rest s :
  m_bRunning s = true ->
  Forall (Forall (fun g => setup_signal g = Ignore \/ setup_signal g = Default /\ ends g = false)) quiet ->
  Forall (fun g => setup_signal g <> bug_handle /\ (setup_signal g = Default -> ends g = false)) sigs ->
  Exists (fun g => setup_signal g = stop_handle) sigs ->
  Run ends (quiet ++ sigs :: rest) s = (Done true, Stop s).
Proof.
  intros Hs Hq Hn He. revert s Hs. induction Hq as [|q quiet Hq _ IH]; intros s Hs; cbn [app Run]; unfold IsRunning.
  - rewrite Hs. rewrite (bind_Done _ _ tt s (Stop s)); [by destruct rest|]. by apply delivers_stop.
  - rewrite Hs. rewrite (bind_Done _ _ tt s s); [by apply IH|]. by apply delivers_quiet.
Qed.

Lemma Run_stops_witness : Run (fun _ => true) [[]; [SIGPIPE]; [SIGPIPE; SIGTERM]; [SIGSEGV]] start = (Done true, Stop start).
Proof.
  apply (Run_stops (fun _ => true) [[]; [SIGPIPE]] [SIGPIPE; SIGTERM] [[SIGSEGV]] start); [done| | |].
  - repeat constructor.
  - by repeat constructor.
  - by repeat constructor.
Defined.

(** An interrupted lock is asked for again until the kernel answers. *)
Theorem fcntl_lock_spec n rest r :
  HFileLock.fcntl_lock (replicate n (HFileLock.Error true) ++ HFileLock.Result r :: rest) = Ret OK /\
  HFileLock.fcntl_lock (replicate n (HFileLock.Error true) ++ HFileLock.Error false :: rest) = Throw (HExc SYS_FAILED).
Proof. by induction n as [|n IH]. Qed.

End properties.
