(* ===== verification/Db.v ===== *)
(** * Database connections: [db/hdbres.cpp], [db/dbconnectionbase.cpp]

    Query results, the interface of a connection ([dbconnectionbase]'s virtual
    functions, a class), and what the base class builds on it: several statements
    in one transaction (what it comes to on a MySQL connection is in [DbDrives]), and
    inserts of many rows in batches. *)

From S2P Require Import Prelude StdString HStr HMstr.

(** ** Results *)

Module HDBRes.

Record t : Type := Mk { m_header : list bytes; m_data : list (list bytes) }.

Definition Clear (r : t) : t := Mk [] [].
Definition SetHeader (header : list bytes) (r : t) : t := Mk header (m_data r).
Definition SetData (data : list (list bytes)) (r : t) : t := Mk (m_header r) data.
Definition AddRow (row : list bytes) (r : t) : t := Mk (m_header r) (m_data r ++ [row]).
Definition IsValid (r : t) : bool := negb (bool_decide (m_header r = [])) && negb (bool_decide (m_data r = [])).

Fixpoint column (header : list bytes) (strKey : bytes) : option nat :=
  match header with
  | [] => None
  | n :: header => if bool_decide (n = strKey) then Some O else S <$> column header strKey
  end.

(** [_r[j]] without a test. *)
Definition cell (row : list bytes) (j : nat) : res bytes :=
  match row !! j with Some v => Ret v | None => Throw UB end.

Definition GetValue_key (r : t) (strKey : bytes) (_row : nat) : res bytes :=
  match m_data r !! _row with
  | None => Throw (HExc INVL_PARA)
  | Some _r => match column (m_header r) strKey with None => Throw (HExc INVL_PARA) | Some j => cell _r j end
  end.

(** The last test has the wrong direction. *)
Definition GetValue (r : t) (i j : nat) : res bytes :=
  match m_data r !! i with
  | None => Throw (HExc INVL_PARA)
  | Some _r =>
    _ ← assert_throw (j <? length (m_header r))%nat INVL_PARA;
    _ ← assert_throw (length _r <=? j)%nat SRC_ERR;
    cell _r j
  end.

Definition GetRowCount (r : t) : Z := zlen (m_data r).
Definition GetColumnCount (r : t) : Z := zlen (m_header r).

End HDBRes.

(** ** The interface *)

(** An operation returns an error code or throws, and changes the connection. *)
Definition op (C : Type) : Type := C -> res herr * C.

Class Connection (C : Type) := {
  Execute : bytes -> op C;
  BeginTransaction : op C;
  CommitTransaction : op C;
  RollBack : op C
}.

(** [HNOTOK_RETURN]. *)
Definition and_if {C} (m k : op C) : op C := fun c =>
  match m c with
  | (Ret e, c) => if IS_OK e then k c else (Ret e, c)
  | (Throw x, c) => (Throw x, c)
  end.

(** [HIGNORE_RETURN], then the code. *)
Definition then_return {C} (m : op C) (e : herr) : op C := fun c =>
  match m c with (Ret _, c) => (Ret e, c) | (Throw x, c) => (Throw x, c) end.

Module dbconnectionbase.

Definition MAX_MULTI_INSERT_COUNT : Z := 256.

Section base.
Context {C : Type} `{Connection C}.

Fixpoint exec_loop (sqlss : list bytes) : op C :=
  match sqlss with
  | [] => CommitTransaction
  | str :: sqlss => fun c =>
    match Execute str c with
    | (Ret e, c) => if negb (IS_OK e) then then_return RollBack DEP_ERROR c else exec_loop sqlss c
    | (Throw x, c) => (Throw x, c)
    end
  end.

Definition MultiExec (sqlss : list bytes) : op C := and_if BeginTransaction (exec_loop sqlss).

(** *** The text of an insert *)

(** [substr(0, length() - 1)]. *)
Definition chop (s : bytes) : res bytes := substr s 0 (u64 (zlen s - 1)).

Definition field_list (header : list bytes) : res bytes :=
  filds ← chop (foldl (fun filds _name => filds ++ _name ++ str ",") (str "( ") header);
  Ret (filds ++ str ")").

Definition quote : bytes := [39].

Definition row_values (row : list bytes) : res bytes :=
  _row_val ← chop (foldl (fun s val => s ++ quote ++ val ++ quote ++ str ",") (str "( ") row);
  Ret (_row_val ++ str ")").

Fixpoint values_loop (data : list (list bytes)) (values : bytes) : res bytes :=
  match data with
  | [] => Ret values
  | row :: data => v ← row_values row; values_loop data (values ++ v ++ str ",")
  end.

Definition insert_sql (strTabName : bytes) (header : list bytes) (data : list (list bytes)) : res bytes :=
  filds ← field_list header;
  values ← values_loop data (str " ");
  values ← chop values;
  HStr.Format (Some (str "INSERT INTO `" ++ c_str strTabName ++ str "` " ++ c_str filds
                     ++ str " VALUES " ++ c_str values)).

Definition multi_insert_impl (strTabName : bytes) (header : list bytes) (data : list (list bytes)) : op C := fun c =>
  if bool_decide (strTabName = []) then (Ret INVL_PARA, c)
  else match insert_sql strTabName header data with
       | Ret sql => Execute sql c
       | Throw x => (Throw x, c)
       end.

Fixpoint insert_loop (strTable : bytes) (header : list bytes) (src_data item_data : list (list bytes)) : op C :=
  match src_data with
  | [] => if negb (bool_decide (item_data = [])) then and_if (multi_insert_impl strTable header item_data) (fun c => (Ret OK, c))
          else fun c => (Ret OK, c)
  | row :: src_data =>
    let item_data := item_data ++ [row] in
    if zlen item_data =? MAX_MULTI_INSERT_COUNT
    then and_if (multi_insert_impl strTable header item_data) (insert_loop strTable header src_data [])
    else insert_loop strTable header src_data item_data
  end.

Definition MultiInsert (strTable : bytes) (r : HDBRes.t) : op C :=
  insert_loop strTable (HDBRes.m_header r) (HDBRes.m_data r) [].

End base.
End dbconnectionbase.

(** ** The batches and the text of an insert *)

Module InsertFacts.
Import HStr dbconnectionbase.

(** *** Batches *)

Section batches.
Context {C : Type} `{Connection C}.

(** One statement for each batch, up to the first that fails. *)
Fixpoint insert_batches (strTable : bytes) (header : list bytes) (batches : list (list (list bytes))) : op C :=
  match batches with
  | [] => fun c => (Ret OK, c)
  | b :: batches => and_if (multi_insert_impl strTable header b) (insert_batches strTable header batches)
  end.

(** Full batches and a last one that is not empty. *)
Fixpoint well_batched (batches : list (list (list bytes))) : Prop :=
  match batches with
  | [] => True
  | [b] => 0 < zlen b <= MAX_MULTI_INSERT_COUNT
  | b :: batches => zlen b = MAX_MULTI_INSERT_COUNT /\ well_batched batches
  end.

Lemma insert_loop_batches strTable header src item :
  zlen item < MAX_MULTI_INSERT_COUNT -> exists batches,
    concat batches = item ++ src /\ well_batched batches /\
    forall c : C, insert_loop strTable header src item c = insert_batches strTable header batches c.
Proof.
  unfold MAX_MULTI_INSERT_COUNT in *. revert item. induction src as [|row src IH]; intros item Hl; cbn [insert_loop].
  - case_bool_decide as E; cbn [negb].
    + subst. by exists [].
    + exists [item]. split_and!; [cbn; by rewrite !app_nil_r| |done].
      assert (0 < zlen item) by (destruct item; [done|rewrite zlen_cons; pose proof (zlen_nonneg item); lia]).
      cbn. unfold MAX_MULTI_INSERT_COUNT. lia.
  - unfold MAX_MULTI_INSERT_COUNT. destruct (zlen (item ++ [row]) =? 256) eqn:E; bool_to_prop.
    + destruct (IH []) as (bs & Hc & Hw & He); [done|]. exists ((item ++ [row]) :: bs). split_and!.
      * cbn. rewrite Hc. by rewrite <- app_assoc.
      * destruct bs; cbn; unfold MAX_MULTI_INSERT_COUNT; [lia|done].
      * intros c. cbn [insert_batches]. unfold and_if. by repeat case_match.
    + destruct (IH (item ++ [row])) as (bs & Hc & Hw & He).
      * rewrite zlen_app, zlen_cons, zlen_nil in *. lia.
      * exists bs. split_and!; [|done|done]. rewrite Hc. by rewrite <- app_assoc.
Qed.
End batches.

(** *** Text *)

Lemma foldl_append {A} (f : A -> bytes) l s : foldl (fun s x => s ++ f x) s l = s ++ concat (map f l).
Proof. revert s. induction l as [|x l IH]; intros s; cbn; [by rewrite app_nil_r|]. by rewrite IH, <- app_assoc. Qed.

Lemma chop_comma s : zlen s < 2 ^ 64 -> chop (s ++ str ",") = Ret s.
Proof.
  intros Hl. unfold chop. rewrite zlen_app. change (zlen (str ",")) with 1. pose proof (zlen_nonneg s).
  rewrite u64_id, substr_0 by lia. f_equal. apply take_app_length'. unfold zlen in *. lia.
Qed.

Definition quoted (v : bytes) : bytes := quote ++ v ++ quote.

(** A parenthesised list. *)
Definition tuple (items : list bytes) : bytes :=
  match items with [] => str "()" | _ => str "( " ++ join (str ",") items ++ str ")" end.

Definition values_text (data : list (list bytes)) : bytes :=
  match data with [] => [] | _ => str " " ++ join (str ",") (map (fun row => tuple (map quoted row)) data) end.

Definition insert_text (name : bytes) (header : list bytes) (data : list (list bytes)) : bytes :=
  str "INSERT INTO `" ++ name ++ str "` " ++ tuple header ++ str " VALUES " ++ values_text data.

Lemma chop_tuple items :
  zlen (tuple items) < 2 ^ 64 ->
  (s ← chop (str "( " ++ concat (map (fun x => x ++ str ",") items)); Ret (s ++ str ")")) = Ret (tuple items).
Proof.
  intros Hl. destruct items as [|x items]; [by vm_compute|].
  rewrite HMstr.concat_sep, HMstr.sep_all_join by done. rewrite app_assoc, chop_comma.
  - cbn [mbind res_bind tuple]. by rewrite <- app_assoc.
  - cbn [tuple] in Hl. rewrite !zlen_app in *. change (zlen (str ")")) with 1 in Hl. lia.
Qed.

Lemma field_list_ok header : zlen (tuple header) < 2 ^ 64 -> field_list header = Ret (tuple header).
Proof. intros Hl. unfold field_list. rewrite foldl_append. by apply chop_tuple. Qed.

Lemma row_values_ok row : zlen (tuple (map quoted row)) < 2 ^ 64 -> row_values row = Ret (tuple (map quoted row)).
Proof.
  intros Hl. unfold row_values. rewrite foldl_append, <- (chop_tuple (map quoted row)) by done. do 3 f_equal.
  rewrite map_map. f_equal. apply map_ext. intros v. unfold quoted. by rewrite <- !app_assoc.
Qed.

Lemma values_loop_ok data s :
  Forall (fun row => zlen (tuple (map quoted row)) < 2 ^ 64) data ->
  values_loop data s = Ret (s ++ concat (map (fun row => tuple (map quoted row) ++ str ",") data)).
Proof.
  intros HF. revert s. induction HF as [|row data Hr _ IH]; intros s; cbn [values_loop]; [by rewrite app_nil_r|].
  rewrite row_values_ok by done. cbn [mbind res_bind]. rewrite IH. cbn. by rewrite <- !app_assoc.
Qed.

Lemma chop_values data :
  zlen (values_text data) < 2 ^ 64 ->
  (v ← values_loop data (str " "); chop v) = Ret (values_text data).
Proof.
  intros Hl. destruct data as [|row data]; [by vm_compute|].
  assert (Forall (fun row => zlen (tuple (map quoted row)) < 2 ^ 64) (row :: data)) as HF.
  { apply Forall_forall. intros r Hr. cbn [values_text] in Hl. rewrite zlen_app in Hl. pose proof (zlen_nonneg (str " ")).
    assert (tuple (map quoted r) ∈ map (fun row => tuple (map quoted row)) (row :: data)) as Hj
      by (by apply (list_elem_of_fmap_2 (fun row => tuple (map quoted row)))).
    apply (HMstr.zlen_join_elem (str ",")) in Hj. lia. }
  rewrite values_loop_ok by done. cbn [mbind res_bind].
  rewrite <- (map_map (fun row => tuple (map quoted row)) (fun x => x ++ str ",")).
  rewrite HMstr.concat_sep, HMstr.sep_all_join by done. rewrite app_assoc, chop_comma; [done|]. cbn [values_text] in Hl. lia.
Qed.

Lemma insert_sql_ok name header data :
  Forall (fun c => c <> 0) (insert_text name header data) -> zlen (insert_text name header data) < 2 ^ 64 ->
  insert_sql name header data =
    if zlen (insert_text name header data) <? HSTRING_LEN then Ret (insert_text name header data) else Throw UB.
Proof.
  intros Hc Hl. unfold insert_sql. set (txt := insert_text name header data) in *.
  assert (zlen (tuple header) < 2 ^ 64 /\ zlen (values_text data) < 2 ^ 64) as [Hh Hv].
  { unfold txt, insert_text in Hl. rewrite !zlen_app in Hl.
    pose proof (zlen_nonneg name). pose proof (zlen_nonneg (tuple header)). pose proof (zlen_nonneg (values_text data)).
    pose proof (zlen_nonneg (str "INSERT INTO `")). pose proof (zlen_nonneg (str "` ")). pose proof (zlen_nonneg (str " VALUES ")). lia. }
  rewrite field_list_ok by done. cbn [mbind res_bind].
  pose proof (chop_values data Hv) as Hcv. destruct (values_loop data (str " ")) as [v|]; [|done]. cbn [mbind res_bind] in *.
  rewrite Hcv. cbn [mbind res_bind].
  unfold txt, insert_text in Hc. rewrite !Forall_app in Hc. destruct Hc as (_ & Hn & _ & Ht & _ & Hd).
  rewrite !c_str_id by done. fold (insert_text name header data) txt.
  destruct (zlen txt <? HSTRING_LEN) eqn:E; bool_to_prop.
  - apply vFormat_ok; [done|]. unfold txt, insert_text. rewrite !Forall_app. split_and!; try done; by repeat constructor.
  - unfold Format, vFormat, check_ub. by ztest.
Qed.

(** *** The text determines the rows, unless they hold quotes *)

(** The text cut at the quotes. *)
Fixpoint row_pieces (row : list bytes) (tail : list bytes) : list bytes :=
  match row with
  | [] => tail
  | [v] => v :: tail
  | v :: row => v :: str "," :: row_pieces row tail
  end.

Fixpoint pieces (rows : list (list bytes)) : list bytes :=
  match rows with
  | [] => []
  | [row] => row_pieces row [str ")"]
  | row :: rows => row_pieces row (str "),( " :: pieces rows)
  end.

Definition quote_free (row : list bytes) : Prop := row <> [] /\ Forall (fun v => 39 ∉ v) row.

Lemma row_pieces_ne row tail : row <> [] -> row_pieces row tail <> [].
Proof. by destruct row as [|? []]. Qed.

Lemma pieces_ne row rows : row <> [] -> pieces (row :: rows) <> [].
Proof. destruct rows; apply row_pieces_ne. Qed.

Lemma join_row_pieces row tail :
  row <> [] -> tail <> [] -> quote ++ join quote (row_pieces row tail) = join (str ",") (map quoted row) ++ join quote tail.
Proof.
  intros Hr Ht. induction row as [|v row IH]; [done|]. destruct row as [|w row].
  - cbn [row_pieces map]. rewrite HMstr.join_cons by done. cbn [join]. unfold quoted. by rewrite <- !app_assoc.
  - change (row_pieces (v :: w :: row) tail) with (v :: str "," :: row_pieces (w :: row) tail).
    rewrite (HMstr.join_cons _ v), (HMstr.join_cons _ (str ",")) by (done || by apply row_pieces_ne). rewrite IH by done.
    change (map quoted (v :: w :: row)) with (quoted v :: map quoted (w :: row)). rewrite (HMstr.join_cons _ (quoted v)) by done. unfold quoted at 2. by rewrite <- !app_assoc.
Qed.

Lemma join_pieces row rows :
  Forall (fun r => r <> []) (row :: rows) ->
  str "( " ++ quote ++ join quote (pieces (row :: rows)) = join (str ",") (map (fun r => tuple (map quoted r)) (row :: rows)).
Proof.
  revert row. induction rows as [|r2 rows IH]; intros row [Hr HF]%Forall_cons.
  - cbn [pieces map]. rewrite join_row_pieces by done. cbn [join]. unfold tuple. by destruct row.
  - change (pieces (row :: r2 :: rows)) with (row_pieces row (str "),( " :: pieces (r2 :: rows))).
    rewrite join_row_pieces by done. inversion HF as [|? ? Hr2 _]; subst.
    rewrite HMstr.join_cons by (by apply pieces_ne).
    change (str "),( ") with (str ")" ++ str "," ++ str "( "). rewrite <- !app_assoc. rewrite (IH r2) by done.
    rewrite (HMstr.join_cons _ (tuple (map quoted row)) (map (fun r => tuple (map quoted r)) (r2 :: rows))) by done.
    unfold tuple at 2. destruct row as [|v row]; [done|]. cbn [map]. by rewrite <- !app_assoc.
Qed.

Lemma row_pieces_inj row row' tail tail' :
  row <> [] -> row' <> [] -> head tail <> Some (str ",") -> head tail' <> Some (str ",") ->
  row_pieces row tail = row_pieces row' tail' -> row = row' /\ tail = tail'.
Proof.
  intros Hr. revert row'. induction row as [|v row IH]; [done|]. intros row' Hr' Ht Ht'.
  destruct row' as [|v' row']; [done|]. destruct row as [|w row], row' as [|w' row'].
  - cbn. intros [= -> ->]. done.
  - intros [= -> ->]. by destruct Ht.
  - intros [= -> <-]. by destruct Ht'.
  - change (v :: str "," :: row_pieces (w :: row) tail = v' :: str "," :: row_pieces (w' :: row') tail' ->
            v :: w :: row = v' :: w' :: row' /\ tail = tail').
    intros E. inversion E as [[Hv E']]. destruct (IH ltac:(done) (w' :: row')) as [Hrow ->]; [done..|]. by rewrite Hrow.
Qed.

Lemma pieces_inj rows rows' :
  Forall (fun r => r <> []) rows -> Forall (fun r => r <> []) rows' -> pieces rows = pieces rows' -> rows = rows'.
Proof.
  intros HF. revert rows'. induction HF as [|r rows Hr HF IH]; intros rows' HF' E.
  - destruct HF' as [|r' rows' Hr' _]; [done|]. by destruct (pieces_ne r' rows' Hr').
  - destruct HF' as [|r' rows' Hr' HF']; [by destruct (pieces_ne r rows Hr)|].
    destruct rows as [|r2 rows], rows' as [|r2' rows']; cbn [pieces] in E;
      apply row_pieces_inj in E as [-> E]; try done.
    f_equal. apply IH; [done|]. by injection E.
Qed.

Lemma row_pieces_clean row tail :
  Forall (fun v => 39 ∉ v) row -> Forall (fun v => 39 ∉ v) tail -> Forall (fun v => 39 ∉ v) (row_pieces row tail).
Proof.
  intros Hr Ht. induction Hr as [|v row Hv Hr IH]; [done|]. destruct row as [|w row]; [by constructor|].
  change (Forall (fun v => 39 ∉ v) (v :: str "," :: row_pieces (w :: row) tail)). constructor; [done|].
  constructor; [|done]. vm_compute. set_solver.
Qed.

Lemma pieces_clean rows : Forall quote_free rows -> Forall (fun v => 39 ∉ v) (pieces rows).
Proof.
  induction 1 as [|r rows [_ Hr] _ IH]; [by constructor|]. destruct rows as [|r2 rows].
  - apply row_pieces_clean; [done|]. repeat constructor. vm_compute. set_solver.
  - change (Forall (fun v => 39 ∉ v) (row_pieces r (str "),( " :: pieces (r2 :: rows)))). apply row_pieces_clean; [done|].
    constructor; [|done]. vm_compute. set_solver.
Qed.

Lemma values_text_inj rows rows' :
  Forall quote_free rows -> Forall quote_free rows' -> values_text rows = values_text rows' -> rows = rows'.
Proof.
  intros HF HF' E. assert (forall l, Forall quote_free l -> Forall (fun r => r <> []) l) as Hne.
  { intros l Hl. eapply Forall_impl; [exact Hl|]. by intros r [? _]. }
  destruct rows as [|r rows], rows' as [|r' rows']; [done|done|done|].
  unfold values_text in E. apply app_inv_head in E. rewrite <- !join_pieces in E by auto.
  apply app_inv_head, app_inv_head in E. apply pieces_inj; [by auto..|].
  inversion HF as [|? ? [Hr _] _]; inversion HF' as [|? ? [Hr' _] _]; subst.
  apply (HMstr.join_inj 39); [by apply pieces_ne|by apply pieces_ne|by apply pieces_clean|by apply pieces_clean|exact E].
Qed.

End InsertFacts.

Section inserts.
Import HStr dbconnectionbase InsertFacts.

(** [MultiInsert] sends the rows in order in batches of 256 and a last shorter one, one
    statement each, and stops with the first that fails; the batches before it stay. *)
Theorem MultiInsert_batches {C} `{Connection C} strTable (r : HDBRes.t) :
  exists batches, concat batches = HDBRes.m_data r /\ well_batched batches /\
    forall c : C, MultiInsert strTable r c = insert_batches strTable (HDBRes.m_header r) batches c.
Proof. apply (insert_loop_batches strTable (HDBRes.m_header r) (HDBRes.m_data r) []). by vm_compute. Qed.

(** C39: The statement of a batch is the text of the insert when it is shorter than the buffer of
    [HStr::Format], and runs over the buffer otherwise; without quotes in the values the
    statement determines the rows. *)
Theorem insert_sql_spec name header data data' :
  let txt := insert_text name header data in
  Forall (fun c => c <> 0) txt -> zlen txt < 2 ^ 64 ->
  insert_sql name header data = (if zlen txt <? HSTRING_LEN then Ret txt else Throw UB) /\
  (Forall quote_free data -> Forall quote_free data' -> insert_text name header data' = txt -> data' = data).
Proof.
  intros txt Hc Hl. split; [by apply insert_sql_ok|]. intros Hq Hq' E. unfold txt, insert_text in E.
  do 5 apply app_inv_head in E. by apply values_text_inj.
Qed.

Lemma insert_sql_spec_witness :
  insert_sql (str "t") [str "a"; str "b"] [[str "1"; str "2"]; [str "3"; str "4"]]
    = Ret (str "INSERT INTO `t` ( a,b) VALUES  ( '1','2'),( '3','4')") /\
  insert_sql (str "t") [str "a"] (replicate 256 [str "12"]) = Throw UB.
Proof.
  split.
  - apply (insert_sql_spec (str "t") [str "a"; str "b"] [[str "1"; str "2"]; [str "3"; str "4"]] []);
      [by apply (bool_decide_eq_true_1 (Forall _ _))|by vm_compute].
  - destruct (insert_sql_spec (str "t") [str "a"] (replicate 256 [str "12"]) []) as [E _];
      [by apply (bool_decide_eq_true_1 (Forall _ _)); vm_compute|by vm_compute|]. rewrite E. by vm_compute.
Defined.

(** A quote in a value: one value of one row, or two. *)
Example quotes_collide :
  insert_sql (str "t") [str "a"] [[str "x','y"]] = insert_sql (str "t") [str "a"] [[str "x"; str "y"]].
Proof. reflexivity. Qed.

(** [GetValue] by numbers never returns: it throws for a cell that is there, and reads
    past the row for one that is not. *)
Theorem GetValue_never_returns r i j v : HDBRes.GetValue r i j <> Ret v.
Proof.
  unfold HDBRes.GetValue, HDBRes.cell. destruct (HDBRes.m_data r !! i) as [row|]; [|done].
  destruct (j <? _)%nat; [|done]. cbn [assert_throw mbind res_bind].
  destruct (length row <=? j)%nat eqn:E; [|done]. cbn. apply Nat.leb_le in E.
  by rewrite (proj2 (lookup_ge_None row j) E).
Qed.

(** [GetValue] by name is the cell of the row under the first column of that name. *)
Theorem GetValue_key_spec r k i row j v :
  HDBRes.m_data r !! i = Some row -> HDBRes.m_header r !! j = Some k ->
  (forall j', (j' < j)%nat -> HDBRes.m_header r !! j' <> Some k) -> row !! j = Some v ->
  HDBRes.GetValue_key r k i = Ret v.
Proof.
  intros Hi Hj Hf Hv. unfold HDBRes.GetValue_key. rewrite Hi.
  assert (HDBRes.column (HDBRes.m_header r) k = Some j) as ->; [|unfold HDBRes.cell; by rewrite Hv].
  generalize dependent (HDBRes.m_header r). clear Hi Hv. induction j as [|j IH]; intros [|n h] Hj Hf; try done; cbn in *.
  - injection Hj as ->. by rewrite bool_decide_true.
  - rewrite bool_decide_false; [|intros ->; by apply (Hf O); [lia|]]. rewrite (IH h); [done|done|].
    intros j' Hlt. apply (Hf (S j')). lia.
Qed.

Lemma GetValue_key_spec_witness :
  HDBRes.GetValue_key (HDBRes.Mk [str "id"; str "name"] [[str "1"; str "x"]]) (str "name") 0 = Ret (str "x").
Proof.
  apply (GetValue_key_spec _ _ _ [str "1"; str "x"] 1); [done|done| |done]. intros [|j'] H; [done|lia].
Defined.

End inserts.
