(* ===== verification/DbDrives.v ===== *)
(** * Database drives: [db/sqlitedrive.cpp], [db/mysqldrive.cpp], [db/hsqliteconnection.cpp],
    [db/hmysqlconnection.cpp], [db/dbconnconfig.cpp]

    The two drives over the client libraries, whose functions are arguments; the connections made
    of them as instances of [Connection]; and the table of connections by name. *)

From S2P Require Import Prelude StdString OrdMap HStr NormalConf Db.

(** ** SQLite *)

Module sqlite_drive.

Definition SQLITE_OK : Z := 0.
Definition SQLITE_DONE : Z := 101.

Section sqlite.
(** The library: opening, compiling a statement, its first [sqlite3_step], all its rows (column names and
    texts, [None] for NULL), and [sqlite3_exec]. *)
Context {D : Type} (sqlite3_open : bytes -> option D) (prepares : D -> bytes -> bool) (step : D -> bytes -> Z * D)
  (rows : D -> bytes -> list (list bytes * list (option bytes)) * D) (exec : D -> bytes -> Z * D).

(** [m_st]. *)
Definition t : Type := option D.

Definition IsInited (s : t) : bool := bool_decide (is_Some s).

Definition Connect (strDbPath : bytes) (s : t) : herr * t :=
  match s with
  | Some _ => (SRC_ERR, s)
  | None => match sqlite3_open strDbPath with Some d => (OK, Some d) | None => (DEP_ERROR, None) end
  end.

Definition Disconnect (s : t) : t := None.

Definition Execute (sql : bytes) (s : t) : herr * t :=
  match s with
  | None => (SRC_ERR, s)
  | Some d =>
    if negb (prepares d sql) then (INVL_PARA, s)
    else let '(code, d) := step d sql in
         (if code =? SQLITE_OK then OK else DEP_ERROR, Some d)
  end.

(** A text that is null is given to a string. *)
Fixpoint row_strings (row : list (option bytes)) : res (list bytes) :=
  match row with
  | [] => Ret []
  | None :: _ => Throw UB
  | Some v :: row => r ← row_strings row; Ret (v :: r)
  end.

Fixpoint rows_loop (rs : list (list bytes * list (option bytes))) (header : list bytes) (data : list (list bytes))
  : res (list bytes * list (list bytes)) :=
  match rs with
  | [] => Ret (header, data)
  | (names, row) :: rs =>
    let header := if bool_decide (header = []) then names else header in
    row ← row_strings row;
    rows_loop rs header (data ++ [row])
  end.

Definition GetResult (sql : bytes) (s : t) (r : HDBRes.t) : res (herr * HDBRes.t) * t :=
  match s with
  | None => (Ret (SRC_ERR, r), s)
  | Some d =>
    if negb (prepares d sql) then (Ret (INVL_PARA, HDBRes.Clear r), s)
    else let '(rs, d) := rows d sql in
         (match rows_loop rs [] [] with
          | Ret (header, data) => Ret (OK, HDBRes.SetData data (HDBRes.SetHeader header (HDBRes.Clear r)))
          | Throw e => Throw e
          end, Some d)
  end.

Definition ExecuteUnsafe (cmd : bytes) (s : t) : herr * t :=
  match s with
  | None => (SRC_ERR, s)
  | Some d => let '(code, d) := exec d cmd in (if code =? SQLITE_OK then OK else INVL_PARA, Some d)
  end.

(** [HSqliteConnection]. *)
Definition returns (r : herr * t) : res herr * t := (Ret r.1, r.2).

#[local] Instance HSqliteConnection : Connection t := {|
  Db.Execute sql s := returns (Execute sql s);
  BeginTransaction s := returns (ExecuteUnsafe (str "BEGIN;") s);
  CommitTransaction s := returns (ExecuteUnsafe (str "COMMIT;") s);
  RollBack s := returns (ExecuteUnsafe (str "ROLLBACK;") s)
|}.

Definition MultiExec (sqlss : list bytes) : op t := dbconnectionbase.MultiExec sqlss.

(** [sqlite3_step] answers SQLITE_DONE, SQLITE_ROW or an error, never SQLITE_OK: no
    statement succeeds, executed or not, and a transaction of one statement or more is always
    taken back. *)
Theorem Execute_never_OK :
  (forall d sql, fst (step d sql) <> SQLITE_OK) -> forall s sql sqlss,
  fst (Execute sql s) <> OK /\ fst (MultiExec (sql :: sqlss) s) <> Ret OK.
Proof.
  intros Hstep. assert (forall s sql, fst (Execute sql s) <> OK) as Hex.
  { intros [d|] sql; [|done]. unfold Execute. destruct (prepares d sql); [|done]. cbn [negb].
    specialize (Hstep d sql). destruct (step d sql) as [code d']. cbn [fst] in *. by rewrite (proj2 (Z.eqb_neq _ _)). }
  intros s sql sqlss. split; [apply Hex|]. unfold MultiExec, dbconnectionbase.MultiExec, and_if.
  destruct (BeginTransaction s) as [[e|x] s1]; [|done]. case_match eqn:He; [|cbn; intros [= ->]; done].
  cbn [dbconnectionbase.exec_loop]. change (Db.Execute sql s1) with (returns (Execute sql s1)).
  specialize (Hex s1 sql). destruct (Execute sql s1) as [e2 s2]. cbn [fst returns snd] in *.
  unfold IS_OK. rewrite bool_decide_false by done. cbn [negb]. unfold then_return. by destruct (RollBack s2) as [[?|?] ?].
Qed.

End sqlite.

(** The answers of a table whose statements are kept as they are. *)
Definition sample_step (d : list bytes) (sql : bytes) : Z * list bytes := (SQLITE_DONE, d ++ [sql]).

Lemma Execute_never_OK_witness :
  fst (Execute (fun _ _ => true) sample_step (str "INSERT INTO t VALUES (1)") (Some [])) = DEP_ERROR /\
  fst (Execute (fun _ _ => true) sample_step (str "INSERT INTO t VALUES (1)") (Some [])) <> OK.
Proof.
  split; [reflexivity|].
  apply (Execute_never_OK (fun _ _ => true) sample_step (fun d _ => (0, d)) ltac:(done) (Some []) (str "INSERT INTO t VALUES (1)") []).
Defined.

(** The statement was executed all the same. *)
Example Execute_did :
  Execute (fun _ _ => true) sample_step (str "x") (Some []) = (DEP_ERROR, Some [str "x"]).
Proof. reflexivity. Qed.

(** A NULL in a result. *)
Example null_column : rows_loop [([str "a"], [None])] [] [] = Throw UB.
Proof. reflexivity. Qed.

End sqlite_drive.

(** ** MySQL *)

Module mysql_drive.

Record CONN_INFO : Type := ConnInfo { m_host : bytes; m_port : Z; m_user : bytes; m_pw : bytes; m_db : bytes }.

Record INNER_INFO : Type := InnerInfo { nConnectTimeout : Z; nReadTimeout : Z; bRec : bool }.

Inductive option_name : Type := MYSQL_OPT_RECONNECT | MYSQL_OPT_CONNECT_TIMEOUT | MYSQL_OPT_READ_TIMEOUT | MYSQL_SET_CHARSET_NAME.

(** The client library over a state of its own; handles are numbers. *)
Record client (L : Type) : Type := Client {
  mysql_init : L -> option Z * L;
  mysql_close : Z -> L -> L;
  mysql_options : Z -> option_name -> Z -> L -> bool * L;
  mysql_get_info : Z -> L -> option (CONN_INFO * INNER_INFO);
  mysql_real_connect : Z -> CONN_INFO -> L -> bool * L;
  mysql_real_query : Z -> bytes -> L -> bool * L;
  mysql_ping : Z -> L -> bool * L
}.
Arguments mysql_init {L}. Arguments mysql_close {L}. Arguments mysql_options {L}. Arguments mysql_get_info {L}.
Arguments mysql_real_connect {L}. Arguments mysql_real_query {L}. Arguments mysql_ping {L}.

Section mysql.
Context {L : Type} (lib : client L).

(** The object and the library. *)
Record t : Type := Mk { m_st : option Z; m_bConnected : bool; l_state : L }.

Definition IsInited (s : t) : bool := bool_decide (is_Some (m_st s)).
Definition IsConnected (s : t) : bool := m_bConnected s.

Definition init (s : t) : res unit * t :=
  let '(h, l) := mysql_init lib (l_state s) in
  (if bool_decide (h = None) then Throw (HExc DEP_ERROR) else Ret tt, Mk h (m_bConnected s) l).

Definition uninit (s : t) : t :=
  match m_st s with Some h => Mk None false (mysql_close lib h (l_state s)) | None => s end.

Definition Disconnect : t -> t := uninit.

(** The constructor. *)
Definition make (l : L) : res unit * t := init (Mk None false l).

Definition set_option (o : option_name) (v : Z) : op t := fun s =>
  match m_st s with
  | None => (Ret ERR_STATUS, s)
  | Some h => let '(b, l) := mysql_options lib h o v (l_state s) in
              (Ret (if b : bool then OK else DEP_ERROR), Mk (m_st s) (m_bConnected s) l)
  end.

Definition SetReconnect (b : bool) : op t := set_option MYSQL_OPT_RECONNECT (Z.b2z b).
Definition SetConnectTimeout (n : Z) : op t := set_option MYSQL_OPT_CONNECT_TIMEOUT n.
Definition SetReadTimeout (n : Z) : op t := set_option MYSQL_OPT_READ_TIMEOUT n.
Definition SetUtf8 : op t := set_option MYSQL_SET_CHARSET_NAME 0.

(** [m_st] takes what [mysql_real_connect] returns: null when it fails. *)
Definition Connect (conn_info : CONN_INFO) (nConnect nRead : Z) (rec : bool) : op t := fun s =>
  if negb (IsInited s) then (Ret ERR_STATUS, s)
  else
    and_if (if negb (nConnect =? 0) then SetConnectTimeout nConnect else fun s => (Ret OK, s))
    (and_if (if negb (nRead =? 0) then SetReadTimeout nRead else fun s => (Ret OK, s))
    (and_if (SetReconnect rec)
    (fun s => match m_st s with
              | None => (Throw UB, s)
              | Some h =>
                let '(b, l) := mysql_real_connect lib h conn_info (l_state s) in
                if b : bool then (Ret OK, Mk (Some h) true l) else (Ret DEP_ERROR, Mk None (m_bConnected s) l)
              end))) s.

Definition GetConnInfo (s : t) : res (CONN_INFO * INNER_INFO) :=
  _ ← assert_throw (IsInited s && IsConnected s) ERR_STATUS;
  match m_st s with
  | None => Throw (HExc ERR_STATUS)
  | Some h => match mysql_get_info lib h (l_state s) with Some i => Ret i | None => Throw (HExc DEP_ERROR) end
  end.

Definition Reconnect : op t := fun s =>
  match GetConnInfo s with
  | Throw e => (Throw e, s)
  | Ret (conn_info, inner) =>
    match init (Disconnect s) with
    | (Throw e, s) => (Throw e, s)
    | (Ret _, s) => Connect conn_info (nConnectTimeout inner) (nReadTimeout inner) (bRec inner) s
    end
  end.

Definition drive_Execute (sql : bytes) : op t := fun s =>
  if negb (IsInited s && IsConnected s) then (Ret ERR_STATUS, s)
  else match m_st s with
       | None => (Throw UB, s)
       | Some h => let '(b, l) := mysql_real_query lib h sql (l_state s) in
                   (Ret (if b : bool then OK else DEP_ERROR), Mk (m_st s) (m_bConnected s) l)
       end.

Definition Ping (s : t) : bool * t :=
  match m_st s with
  | None => (false, s)
  | Some h => let '(b, l) := mysql_ping lib h (l_state s) in (b, Mk (m_st s) (m_bConnected s) l)
  end.

(** [HMysqlConnection::Execute]: a statement that failed on a lost connection is given to a new one. *)
Definition Execute (sql : bytes) : op t := fun s =>
  if negb (IsInited s) then (Ret SRC_ERR, s)
  else if negb (IsConnected s) then (Ret SRC_ERR, s)
  else
    match drive_Execute sql s with
    | (Ret ret, s) =>
      if negb (IS_OK ret) then
        let '(alive, s) := Ping s in
        if negb alive then
          match Reconnect s with
          | (Ret e, s) => if negb (IS_OK e) then (Ret ret, s) else drive_Execute sql s
          | (Throw x, s) => (Throw x, s)
          end
        else (Ret ret, s)
      else (Ret ret, s)
    | (Throw x, s) => (Throw x, s)
    end.

#[local] Instance HMysqlConnection : Connection t := {|
  Db.Execute := Execute;
  BeginTransaction := drive_Execute (str "start transaction");
  CommitTransaction := drive_Execute (str "commit");
  RollBack := drive_Execute (str "rollback")
|}.

Definition MultiExec (sqlss : list bytes) : op t := dbconnectionbase.MultiExec sqlss.

(** *** Results *)

(** [saveRes]: the names of the fields and the texts of the rows, NULL as a word. *)
Definition saveRes (names : list bytes) (rows : list (list (option bytes))) (r : HDBRes.t) : HDBRes.t :=
  foldl (fun r row => HDBRes.AddRow (map (default (str "NULL")) row) r) (HDBRes.SetHeader names (HDBRes.Clear r)) rows.

(** [cb_res]: what [mysql_store_result] or [mysql_use_result] returned. *)
Definition StoreResult (s : t) (cb_res : option (list bytes * list (list (option bytes)))) (r : HDBRes.t) : herr * HDBRes.t :=
  if negb (IsInited s && IsConnected s) then (ERR_STATUS, r)
  else match cb_res with None => (OK, r) | Some (names, rows) => (OK, saveRes names rows r) end.

Definition UseResult := StoreResult.

(** A value in every case: [ERR_STATUS] becomes a number when there is no connection. *)
Definition GetNewId (err_status : Z) (s : t) (id : Z) : Z :=
  if negb (IsInited s && IsConnected s) then u64 err_status else u64 id.

Definition Query (sql : bytes) (cb_res : t -> option (list bytes * list (list (option bytes)))) (r : HDBRes.t) (s : t)
  : res herr * HDBRes.t * t :=
  match Execute sql s with
  | (Ret e, s) => if negb (IS_OK e) then (Ret e, r, s) else let '(e, r) := StoreResult s (cb_res s) r in (Ret e, r, s)
  | (Throw x, s) => (Throw x, r, s)
  end.

(** *** Properties *)

(** A statement that fails while the connection is lost is executed once more on a new
    connection with the data of the old one, and its result is the one of the second time. *)
Theorem Execute_retries sql h s l1 l2 info inner h' l4 l5 l6 l7 l8 b l9 :
  m_st s = Some h -> m_bConnected s = true ->
  mysql_real_query lib h sql (l_state s) = (false, l1) -> mysql_ping lib h l1 = (false, l2) ->
  mysql_get_info lib h l2 = Some (info, inner) -> nConnectTimeout inner <> 0 -> nReadTimeout inner <> 0 ->
  mysql_init lib (mysql_close lib h l2) = (Some h', l4) ->
  mysql_options lib h' MYSQL_OPT_CONNECT_TIMEOUT (nConnectTimeout inner) l4 = (true, l5) ->
  mysql_options lib h' MYSQL_OPT_READ_TIMEOUT (nReadTimeout inner) l5 = (true, l6) ->
  mysql_options lib h' MYSQL_OPT_RECONNECT (Z.b2z (bRec inner)) l6 = (true, l7) ->
  mysql_real_connect lib h' info l7 = (true, l8) -> mysql_real_query lib h' sql l8 = (b, l9) ->
  Execute sql s = (Ret (if b then OK else DEP_ERROR), Mk (Some h') true l9).
Proof.
  destruct s as [st con l]. cbn [m_st m_bConnected l_state]. intros -> -> Hq Hp Hi Hct Hrt Hin H1 H2 H3 Hc Hq2.
  unfold Execute, drive_Execute, IsInited, IsConnected. cbn [m_st m_bConnected l_state is_Some]. rewrite Hq.
  unfold Ping. cbn -[Reconnect]. rewrite Hp. cbn -[Reconnect].
  unfold Reconnect, GetConnInfo, IsInited, IsConnected. cbn. rewrite Hi. unfold init, Disconnect, uninit. cbn. rewrite Hin. cbn.
  unfold Connect, IsInited. cbn. rewrite !(proj2 (Z.eqb_neq _ _)) by done. cbn.
  unfold and_if, SetConnectTimeout, SetReadTimeout, SetReconnect, set_option. cbn. rewrite H1. cbn. rewrite H2. cbn.
  change (IS_OK OK) with true. change (IS_OK DEP_ERROR) with false. cbn.
  rewrite H3. change (IS_OK OK) with true. cbn. rewrite Hc. change (IS_OK OK) with true. cbn. by rewrite Hq2.
Qed.

(** A connection that could not be made again is lost for good: its handle is null, and
    every statement after that is refused without another attempt. *)
Theorem failed_reconnect_is_final conn_info ct rt rec s h l :
  m_st s = Some h -> ct = 0 -> rt = 0 ->
  (let '(b, l') := mysql_options lib h MYSQL_OPT_RECONNECT (Z.b2z rec) (l_state s) in
   b = true /\ mysql_real_connect lib h conn_info l' = (false, l)) ->
  exists s', Connect conn_info ct rt rec s = (Ret DEP_ERROR, s') /\ l_state s' = l /\
    forall sql, Execute sql s' = (Ret SRC_ERR, s').
Proof.
  destruct s as [st con l0]. cbn [m_st l_state]. intros -> -> -> H.
  destruct (mysql_options lib h MYSQL_OPT_RECONNECT (Z.b2z rec) l0) as [b l1] eqn:E. destruct H as [-> Hc].
  eexists. split_and!.
  - unfold Connect, and_if, SetReconnect, set_option. cbn. rewrite E. cbn. rewrite Hc. reflexivity.
  - done.
  - done.
Qed.

(** *** Several statements in one transaction *)

(** A server that stays up, as the manual of MySQL has it: [alive] handles have a session; what
    is [committed]; what the session's open transaction sees; [run_sql] is what a statement
    does, or that it is refused, and a refused one changes nothing and leaves the transaction
    open.  [ordinary] statements answer no rows and neither begin nor end transactions.  A
    [commit] may be refused. *)
Class Session (D : Type) := {
  alive : Z -> L -> Prop;
  committed : L -> D;
  working : L -> option D;
  ordinary : bytes -> Prop;
  run_sql : bytes -> D -> option D;
  begin_law h l : alive h l -> working l = None ->
    exists b l', mysql_real_query lib h (str "start transaction") l = (b, l') /\ alive h l' /\
      committed l' = committed l /\ working l' = if b then Some (committed l) else None;
  query_law h l d sql : alive h l -> working l = Some d -> ordinary sql ->
    exists b l', mysql_real_query lib h sql l = (b, l') /\ alive h l' /\ committed l' = committed l /\
      match run_sql sql d with
      | Some d' => b = true /\ working l' = Some d'
      | None => b = false /\ working l' = Some d
      end;
  commit_law h l d : alive h l -> working l = Some d ->
    exists b l', mysql_real_query lib h (str "commit") l = (b, l') /\ alive h l' /\
      committed l' = (if b then d else committed l) /\ working l' = if b then None else Some d;
  rollback_law h l : alive h l ->
    exists l', mysql_real_query lib h (str "rollback") l = (true, l') /\ alive h l' /\
      committed l' = committed l /\ working l' = None;
  ping_law h l : alive h l ->
    exists l', mysql_ping lib h l = (true, l') /\ alive h l' /\ committed l' = committed l /\ working l' = working l
}.

Section transactions.
Context {D : Type} `{!Session D}.

(** All statements in order, unless one is refused. *)
Fixpoint run_sqls (sqlss : list bytes) (d : D) : option D :=
  match sqlss with
  | [] => Some d
  | sql :: sqlss => match run_sql sql d with Some d => run_sqls sqlss d | None => None end
  end.

(** A connection with the session [h]. *)
Definition on (h : Z) (s : t) : Prop := m_st s = Some h /\ m_bConnected s = true /\ alive h (l_state s).

Lemma drive_Execute_on h sql s b l :
  on h s -> mysql_real_query lib h sql (l_state s) = (b, l) ->
  drive_Execute sql s = (Ret (if b then OK else DEP_ERROR), Mk (Some h) true l).
Proof.
  destruct s as [st con l0]. intros (Hh & Hc & _) E. cbn in *. subst.
  unfold drive_Execute, IsInited, IsConnected. cbn. by rewrite E.
Qed.

Lemma Execute_on h sql s d :
  on h s -> working (l_state s) = Some d -> ordinary sql ->
  exists s', Execute sql s = (Ret (if run_sql sql d then OK else DEP_ERROR), s') /\ on h s' /\
    committed (l_state s') = committed (l_state s) /\ working (l_state s') = Some (default d (run_sql sql d)).
Proof.
  intros Ho Hw Hs. pose proof Ho as (Hh & Hc & Ha). destruct (query_law h (l_state s) d sql Ha Hw Hs) as (b & l & E & Ha1 & Hc1 & Hb).
  unfold Execute. rewrite (drive_Execute_on h sql s b l Ho E). unfold IsInited, IsConnected. rewrite Hh, Hc. cbn -[IS_OK Reconnect].
  destruct (run_sql sql d) as [d'|]; destruct Hb as [-> Hb]; cbn -[Reconnect].
  - eexists. split; [reflexivity|]. by split_and!.
  - destruct (ping_law h l Ha1) as (l2 & Ep & Ha2 & Hc2 & Hw2). rewrite Ep. cbn.
    eexists. split; [reflexivity|]. split_and!; cbn; first [done|congruence].
Qed.

Lemma exec_loop_on h sqlss s d :
  on h s -> working (l_state s) = Some d -> Forall ordinary sqlss ->
  exists r s', dbconnectionbase.exec_loop sqlss s = (Ret r, s') /\ on h s' /\
    ((r = OK /\ run_sqls sqlss d = Some (committed (l_state s')) /\ working (l_state s') = None) \/
     (r = DEP_ERROR /\ committed (l_state s') = committed (l_state s) /\ working (l_state s') = run_sqls sqlss d)).
Proof.
  revert s d. induction sqlss as [|sql sqlss IH]; intros s d Ho Hw Hs; cbn [dbconnectionbase.exec_loop run_sqls];
    pose proof Ho as (Hh & Hc & Ha).
  - destruct (commit_law h (l_state s) d Ha Hw) as (b & l & E & Ha1 & Hc1 & Hw1). cbn [CommitTransaction HMysqlConnection].
    rewrite (drive_Execute_on h _ s b l Ho E). eexists _, _. split; [reflexivity|]. split; [by split_and!|].
    destruct b; [left|right]; cbn in *; split_and!; first [done|congruence].
  - apply Forall_cons in Hs as [Hs1 Hs]. destruct (Execute_on h sql s d Ho Hw Hs1) as (s1 & E & Ho1 & Hc1 & Hw1).
    cbn [Db.Execute HMysqlConnection]. rewrite E. destruct (run_sql sql d) as [d'|]; cbn -[RollBack dbconnectionbase.exec_loop].
    + destruct (IH s1 d' Ho1 Hw1 Hs) as (r & s' & E' & Ho' & H'). rewrite Hc1 in H'. by exists r, s'.
    + pose proof Ho1 as (_ & _ & Ha1). destruct (rollback_law h (l_state s1) Ha1) as (l & Er & Ha2 & Hc2 & Hw2).
      unfold then_return. cbn [RollBack HMysqlConnection]. rewrite (drive_Execute_on h _ s1 true l Ho1 Er).
      eexists _, _. split; [reflexivity|]. split; [by split_and!|]. right. cbn. split_and!; first [done|congruence].
Qed.


End transactions.

End mysql.
Arguments t L : clear implicits.
Arguments Mk {L}.

(** *** A server *)

(** Handles, one session, and the statements after which the connection is lost. *)
Record server : Type := Server {
  next : Z;
  live : list Z;
  up : bool;
  stored : list bytes;
  tx : option (list bytes);
  drops : list bool
}.

(** Outside a transaction a statement is committed at once; an empty one is refused. *)
Definition run_query (h : Z) (sql : bytes) (l : server) : bool * server :=
  match drops l with
  | true :: ds => (false, Server (next l) (live l) false (stored l) None ds)
  | ds =>
    let ds := tail ds in
    if negb (up l) then (false, l)
    else if bool_decide (sql = str "start transaction") then (true, Server (next l) (live l) true (stored l) (Some []) ds)
    else if bool_decide (sql = str "commit") then (true, Server (next l) (live l) true (stored l ++ default [] (tx l)) None ds)
    else if bool_decide (sql = str "rollback") then (true, Server (next l) (live l) true (stored l) None ds)
    else if bool_decide (sql = []) then (false, Server (next l) (live l) true (stored l) (tx l) ds)
    else match tx l with
         | Some w => (true, Server (next l) (live l) true (stored l) (Some (w ++ [sql])) ds)
         | None => (true, Server (next l) (live l) true (stored l ++ [sql]) None ds)
         end
  end.

(** [reachable]: whether a new connection succeeds. *)
Definition sample_client (reachable : bool) : client server := {|
  mysql_init l := (Some (next l), Server (next l + 1) (next l :: live l) (up l) (stored l) (tx l) (drops l));
  mysql_close h l := Server (next l) (filter (fun x => x <> h) (live l)) false (stored l) None (drops l);
  mysql_options _ _ _ l := (true, l);
  mysql_get_info _ _ := Some (ConnInfo (str "db") 3306 (str "u") (str "p") (str "d"), InnerInfo 2 2 false);
  mysql_real_connect h _ l := (reachable, Server (next l) (live l) reachable (stored l) (tx l) (drops l));
  mysql_real_query := run_query;
  mysql_ping _ l := (up l, l)
|}.

Definition connected (drops : list bool) : t server := Mk (Some 1) true (Server 2 [1] true [] None drops).

Lemma Execute_retries_witness :
  Execute (sample_client true) (str "A") (connected [true]) = (Ret OK, Mk (Some 2) true (Server 3 [2] true [str "A"] None [])).
Proof.
  eapply (Execute_retries (sample_client true) (str "A") 1 (connected [true]) _ _ _ _ 2 _ _ _ _ _ true); by vm_compute.
Defined.

Lemma failed_reconnect_is_final_witness :
  exists s', Connect (sample_client false) (ConnInfo [] 0 [] [] []) 0 0 false (connected []) = (Ret DEP_ERROR, s') /\
    l_state s' = Server 2 [1] false [] None [] /\ forall sql, Execute (sample_client false) sql s' = (Ret SRC_ERR, s').
Proof. by apply (failed_reconnect_is_final (sample_client false) (ConnInfo [] 0 [] [] []) 0 0 false (connected []) 1). Defined.

(** The server while no connection is lost: the statements that are not refused are kept. *)
#[local] Program Instance sample_session : Session (sample_client true) (list bytes) := {|
  alive _ l := up l = true /\ drops l = [];
  committed := stored;
  working l := match tx l with Some w => Some (stored l ++ w) | None => None end;
  ordinary sql := sql ∉ [str "start transaction"; str "commit"; str "rollback"];
  run_sql sql d := if bool_decide (sql = []) then None else Some (d ++ [sql])
|}.
Next Obligation.
  intros h [n lv u st w ds] [Hu Hd] Hw. cbn in *. subst. destruct w; [done|]. eexists true, _. split; [by vm_compute|]. cbn.
  by rewrite app_nil_r.
Qed.
Next Obligation.
  intros h [n lv u st w ds] d sql [Hu Hd] Hw Hs. cbn in *. subst. destruct w as [w|]; [|done]. injection Hw as <-.
  unfold run_query. cbn [drops up tail negb]. rewrite !not_elem_of_cons in Hs. destruct Hs as (H1 & H2 & H3 & _).
  rewrite !(bool_decide_false _ H1), (bool_decide_false _ H2), (bool_decide_false _ H3).
  case_bool_decide; cbn; eexists _, _; (split; [reflexivity|]); cbn; [done|]. by rewrite app_assoc.
Qed.
Next Obligation.
  intros h [n lv u st w ds] d [Hu Hd] Hw. cbn in *. subst. destruct w as [w|]; [|done]. injection Hw as <-.
  by eexists true, _.
Qed.
Next Obligation. intros h [n lv u st w ds] [Hu Hd]. cbn in *. subst. by eexists. Qed.
Next Obligation. intros h [n lv u st w ds] [Hu Hd]. cbn in *. subst. by eexists. Qed.


(** The connection is lost in the middle of a transaction: the statement before is gone, the
    statements after it are committed one by one, and the result is OK. *)
Example reconnect_loses_statements :
  let '(r, s) := MultiExec (sample_client true) [str "A"; str "B"; str "C"] (connected [false; false; true]) in
  r = Ret OK /\ stored (l_state s) = [str "B"; str "C"].
Proof. by vm_compute. Qed.

(** The handle of a connection that failed is never closed. *)
Example failed_connect_leaks :
  let '(_, s) := make (sample_client false) (Server 1 [] false [] None []) in
  let '(r, s) := Connect (sample_client false) (ConnInfo [] 0 [] [] []) 2 2 false s in
  r = Ret DEP_ERROR /\ live (l_state (Disconnect (sample_client false) s)) = [1].
Proof. by vm_compute. Qed.

End mysql_drive.

(** ** Connections by name *)

Module DbConnConfig.

(** [m_db_conns]; a connection is the number of its object. *)
Definition t : Type := list (bytes * list Z).

Definition AddConn (s : bytes) (ptr : Z) (m : t) : t :=
  match get fst s m with
  | Some (_, conns) => assign fst (s, conns ++ [ptr]) m
  | None => ins fst (s, [ptr]) m
  end.

Definition GetConn (m : t) (strName : bytes) (index : nat) : res Z :=
  match get fst strName m with
  | None => Throw (HExc INVL_PARA)
  | Some (_, conns) => match conns !! index with Some p => Ret p | None => Throw (HExc INVL_PARA) end
  end.

(** The destructor deletes every connection of every name. *)
Definition destroy (m : t) : list Z := concat (map snd m).

Definition min_db_count : Z := 1.

(** An element of "dbs": the members it has. *)
Record item : Type := Item { dbtype : option bytes; dbname : option bytes; dbpath : option bytes }.

(** What parsing gives: [None] when it throws; whether "dbs" is there, and its elements when it is an array. *)
Definition json : Type := option (option (option (list item))).

Section init.
(** [connects p i]: whether the [i]-th object connects to [p]. *)
Context (connects : bytes -> Z -> bool).

(** [next]: the objects made so far. *)
Fixpoint conn_loop (n : nat) (path name : bytes) (m : t) (next : Z) : herr * t * Z :=
  match n with
  | O => (OK, m, next)
  | S n => if connects path next then conn_loop n path name (AddConn name next m) (next + 1)
           else (DEP_ERROR, m, next + 1)
  end.

Fixpoint items_loop (conn_count : Z) (items : list item) (m : t) (next : Z) : herr * t * Z :=
  match items with
  | [] => (OK, m, next)
  | i :: items =>
    match dbtype i, dbname i with
    | None, _ => (INVL_PARA, m, next)
    | Some _, None => (INVL_PARA, m, next)
    | Some strType, Some strDbName =>
      if bool_decide (strType = str "SQLITE") then
        match dbpath i with
        | None => (INVL_PARA, m, next)
        | Some p => let '(e, m, next) := conn_loop (Z.to_nat conn_count) p strDbName m next in
                    if IS_OK e then items_loop conn_count items m next else (e, m, next)
        end
      else (INVL_PARA, m, next)
    end
  end.

(** [file]: what [HFileStr] opens; [parse]: the JSON library. *)
Definition InitFromConfigFile (strFileName : bytes) (conn_count : Z) (file : HFileStr.fd) (parse : bytes -> json)
    (m : t) (next : Z) : herr * t * Z :=
  if bool_decide (strFileName = []) then (INVL_PARA, m, next)
  else
    let conn_count := if conn_count <? min_db_count then min_db_count else conn_count in
    let '(e, strDbConfig) := HFileStr.ReadToString file [] in
    if negb (IS_OK e) then (e, m, next)
    else match parse strDbConfig with
         | None => (INVL_PARA, m, next)
         | Some None => (INVL_PARA, m, next)
         | Some (Some None) => (INVL_PARA, m, next)
         | Some (Some (Some items)) => items_loop conn_count items m next
         end.
End init.

(** [Query] and [Exec] find the connection and pass the call on. *)
Definition Exec {C} (run : Z -> op C) (m : t) (strName : bytes) (index : nat) : op C := fun c =>
  match GetConn m strName index with Ret p => run p c | Throw e => (Throw e, c) end.

(** *** Lemmas *)

Definition conns_of (m : t) (k : bytes) : list Z := match get fst k m with Some (_, l) => l | None => [] end.

Lemma sorted_AddConn s p (m : t) : sorted fst m -> sorted fst (AddConn s p m).
Proof. intros Hm. unfold AddConn. destruct (get fst s m) as [[? ?]|]; [by apply sorted_assign|by apply sorted_ins]. Qed.

Lemma conns_AddConn s p (m : t) k :
  sorted fst m -> conns_of (AddConn s p m) k = conns_of m k ++ (if decide (k = s) then [p] else []).
Proof.
  intros Hm. unfold AddConn. destruct (get fst s m) as [[s' l]|] eqn:E.
  - unfold conns_of. case_decide as Hk.
    + subst k. by rewrite (get_assign_eq fst (s, l ++ [p])), E.
    + rewrite get_assign_ne by done. by rewrite app_nil_r.
  - rewrite (ins_assign fst (s, [p])) by done. unfold conns_of. case_decide as Hk.
    + subst k. by rewrite (get_assign_eq fst (s, [p])), E.
    + rewrite get_assign_ne by done. by rewrite app_nil_r.
Qed.

(** The connections added under each name, in order. *)
Definition added (l : list (bytes * Z)) (k : bytes) : list Z := map snd (filter (fun x => x.1 = k) l).

Definition AddConns (l : list (bytes * Z)) (m : t) : t := foldl (fun m x => AddConn x.1 x.2 m) m l.

Lemma conns_AddConns l (m : t) k : sorted fst m -> conns_of (AddConns l m) k = conns_of m k ++ added l k.
Proof.
  revert m. induction l as [|[s p] l IH]; intros m Hm; [by rewrite app_nil_r|]. cbn [AddConns foldl fst snd].
  fold (AddConns l (AddConn s p m)). rewrite IH by (by apply sorted_AddConn). rewrite conns_AddConn by done.
  unfold added. rewrite <- app_assoc. f_equal. destruct (decide (k = s)) as [->|Hk].
  - by rewrite filter_cons_True.
  - rewrite filter_cons_False by (cbn; congruence). done.
Qed.

Lemma GetConn_conns m k i :
  GetConn m k i = match conns_of m k !! i with Some p => Ret p | None => Throw (HExc INVL_PARA) end.
Proof. unfold GetConn, conns_of. by destruct (get fst k m) as [[? ?]|]. Qed.

(** [GetConn] gives the connection that was added under the name at that place, and throws
    for a name or a place that was never reached. *)
Theorem GetConn_added l k i :
  GetConn (AddConns l []) k i = match added l k !! i with Some p => Ret p | None => Throw (HExc INVL_PARA) end.
Proof. by rewrite GetConn_conns, conns_AddConns. Qed.

(** The object whose connection failed is in no list: it is not deleted. *)
Example failed_connection_leaks :
  let '(e, m, next) := items_loop (fun _ i => i <? 2) 3 [Item (Some (str "SQLITE")) (Some (str "a")) (Some (str "a.db"))] [] 0 in
  e = DEP_ERROR /\ destroy m = [0; 1] /\ next = 3.
Proof. by vm_compute. Qed.

End DbConnConfig.
