(* ===== verification/DbCopy.v ===== *)
(** * Copies and moves of database drives: [db/mysqldrive.cpp], [db/sqlitedrive.cpp]

    What the drives do beside their statements: the copy of a connection onto another
    handle, what is moved, and the numbers and texts they pass on. *)

From S2P Require Import Prelude StdString HStr Db DbDrives.

Module mysql_copy.
Import mysql_drive.

#[export] Instance option_name_eq_dec : EqDecision option_name.
Proof. solve_decision. Defined.

Section copy.
Context {L : Type} (lib : client L).
(** [mysql_get_option]: the value, or a failure; [mysql_affected_rows], [mysql_errno]. *)
Context (mysql_get_option : Z -> option_name -> L -> option Z) (mysql_affected_rows mysql_errno : Z -> L -> Z).

Notation t := (mysql_drive.t L).

Definition HASSERT_MSG_THROW (b : bool) (k : t -> res unit * t) (s : t) : res unit * t :=
  if b then k s else (Throw (HExc DEP_ERROR), s).

(** [HIGNORE_RETURN] around a call that sets an option. *)
Definition ignoring (m : op t) (k : t -> res unit * t) : t -> res unit * t := fun s =>
  match m s with (Ret _, s) => k s | (Throw e, s) => (Throw e, s) end.

(** The other object is its handle and its flag; the character set is read from it and set
    on it again. *)
Definition copy (conn : option Z * bool) (s : t) : res unit * t :=
  if negb (IsInited s) then (Throw (HExc ERR_STATUS), s)
  else
    match fst conn with
    | None => (Ret tt, s)
    | Some other =>
      match mysql_get_option other MYSQL_OPT_RECONNECT (l_state s) with
      | None => (Throw (HExc DEP_ERROR), s)
      | Some myval =>
        ignoring (if negb (myval =? 0) then SetReconnect lib true else fun s => (Ret OK, s)) (fun s =>
        match mysql_get_option other MYSQL_OPT_CONNECT_TIMEOUT (l_state s) with
        | None => (Throw (HExc DEP_ERROR), s)
        | Some n =>
          ignoring (SetConnectTimeout lib n) (fun s =>
          match mysql_get_option other MYSQL_OPT_READ_TIMEOUT (l_state s) with
          | None => (Throw (HExc DEP_ERROR), s)
          | Some n =>
            ignoring (SetReadTimeout lib n) (fun s =>
            match mysql_get_option other MYSQL_SET_CHARSET_NAME (l_state s) with
            | None => (Throw (HExc DEP_ERROR), s)
            | Some buf =>
              let '(b, l) := mysql_options lib other MYSQL_SET_CHARSET_NAME buf (l_state s) in
              let s := Mk (m_st s) (m_bConnected s) l in
              HASSERT_MSG_THROW b (fun s =>
              if snd conn then
                match m_st s, mysql_get_info lib other (l_state s) with
                | Some h, Some (info, _) =>
                  let '(b, l) := mysql_real_connect lib h info (l_state s) in
                  if b : bool then (Ret tt, Mk (Some h) (snd conn) l)
                  else (Throw (HExc DEP_ERROR), Mk None (m_bConnected s) l)
                | _, _ => (Throw UB, s)
                end
              else (Ret tt, Mk (m_st s) (snd conn) (l_state s))) s
            end) s
          end) s
        end) s
      end
    end.

(** The members have no value when the copy constructor calls [uninit]: what is in their
    memory decides; undefined unless it is a null pointer. *)
Definition mysql_drive_copy (garbage : option Z) (conn : option Z * bool) (l : L) : res unit * t :=
  match garbage with
  | Some _ => (Throw UB, Mk None false l)
  | None =>
    match mysql_drive.init lib (Mk None false l) with
    | (Ret _, s) => copy conn s
    | (Throw e, s) => (Throw e, s)
    end
  end.

(** The new object's flag has no value either; the old object keeps its own. *)
Definition mysql_drive_move (garbage : bool) (s : t) : t * t :=
  (Mk (m_st s) garbage (l_state s), Mk None (m_bConnected s) (l_state s)).

Definition GetAffectedRows (s : t) : Z :=
  match m_st s with Some h => if negb (IsConnected s) then 0 else mysql_affected_rows h (l_state s) | None => 0 end.

Definition GetClientVersion (mysql_get_client_info : bytes) (s : t) : bytes :=
  if negb (IsInited s) then str "Error Mysql Client Version" else mysql_get_client_info.

(** [-1] as an unsigned number. *)
Definition GetMysqlErrno (s : t) : Z := match m_st s with Some h => u64 (mysql_errno h (l_state s)) | None => u64 (-1) end.

(** *** What the library says of options *)
Class OptionLaws : Prop := {
  options_set h o v l : exists l', mysql_options lib h o v l = (true, l') /\
    forall h' o', mysql_get_option h' o' l' = if decide (h' = h /\ o' = o) then Some v else mysql_get_option h' o' l
}.

End copy.
Arguments options_set {L} lib mysql_get_option {_}.

Section properties.
Context {L : Type} (lib : client L) (mysql_get_option : Z -> option_name -> L -> option Z).
Context `{!OptionLaws lib mysql_get_option}.

(** One option set on [h]: nothing else changes, neither on [h] nor on the other handle. *)
Definition sets (h other : Z) (o : option_name) (v : Z) (l l' : L) : Prop :=
  (forall o', mysql_get_option other o' l' = mysql_get_option other o' l) /\
  mysql_get_option h o l' = Some v /\
  forall o', o' <> o -> mysql_get_option h o' l' = mysql_get_option h o' l.

Lemma options_sets h other o v l : other <> h -> exists l', mysql_options lib h o v l = (true, l') /\ sets h other o v l l'.
Proof.
  intros Hne. destruct (options_set lib mysql_get_option h o v l) as (l' & E & Hl). exists l'. split; [done|].
  split_and!; [intros o'|by rewrite Hl, decide_True|intros o' Ho]; rewrite Hl, decide_False; [done| |done|]; intros [? ?]; done.
Qed.

Lemma set_option_ok h other o v con l : other <> h ->
  exists l', set_option lib o v (Mk (Some h) con l) = (Ret OK, Mk (Some h) con l') /\ sets h other o v l l'.
Proof.
  intros Hne. unfold set_option. cbn [m_st l_state m_bConnected]. destruct (options_sets h other o v l Hne) as (l' & -> & Hl). by exists l'.
Qed.

(** A copy of a drive that is not connected has the times of the other, and asks for
    reconnection if the other does; but not its character set, which the other is given
    once more. *)
Theorem copy_options h other s r c d e :
  m_st s = Some h -> other <> h ->
  mysql_get_option other MYSQL_OPT_RECONNECT (l_state s) = Some r ->
  mysql_get_option other MYSQL_OPT_CONNECT_TIMEOUT (l_state s) = Some c ->
  mysql_get_option other MYSQL_OPT_READ_TIMEOUT (l_state s) = Some d ->
  mysql_get_option other MYSQL_SET_CHARSET_NAME (l_state s) = Some e ->
  exists l', copy lib mysql_get_option (Some other, false) s = (Ret tt, Mk (Some h) false l') /\
    (r <> 0 -> mysql_get_option h MYSQL_OPT_RECONNECT l' = Some 1) /\
    mysql_get_option h MYSQL_OPT_CONNECT_TIMEOUT l' = Some c /\
    mysql_get_option h MYSQL_OPT_READ_TIMEOUT l' = Some d /\
    mysql_get_option h MYSQL_SET_CHARSET_NAME l' = mysql_get_option h MYSQL_SET_CHARSET_NAME (l_state s).
Proof.
  intros Hs Hne Hr Hc Hd He. destruct s as [st con l]. cbn [m_st l_state] in *. subst st.
  unfold copy. cbn [IsInited m_st is_Some fst snd l_state]. unfold IsInited. rewrite bool_decide_true by done. cbn [negb]. rewrite Hr.
  assert (exists l1, (if negb (r =? 0) then SetReconnect lib true else fun s => (Ret OK, s)) (Mk (Some h) con l)
      = (Ret OK, Mk (Some h) con l1) /\
    (forall o, mysql_get_option other o l1 = mysql_get_option other o l) /\
    (r <> 0 -> mysql_get_option h MYSQL_OPT_RECONNECT l1 = Some 1) /\
    forall o, o <> MYSQL_OPT_RECONNECT -> mysql_get_option h o l1 = mysql_get_option h o l) as (l1 & E1 & Ho1 & Hr1 & Hk1).
  { destruct (r =? 0) eqn:E; bool_to_prop; cbn [negb]; [by exists l; subst|].
    destruct (set_option_ok h other MYSQL_OPT_RECONNECT 1 con l Hne) as (l1 & E1 & Ho & Hv & Hk). by exists l1. }
  unfold ignoring at 1. rewrite E1. cbn [l_state]. rewrite Ho1, Hc.
  destruct (set_option_ok h other MYSQL_OPT_CONNECT_TIMEOUT c con l1 Hne) as (l2 & E2 & Ho2 & Hv2 & Hk2).
  unfold ignoring at 1. unfold SetConnectTimeout. rewrite E2. cbn [l_state]. rewrite Ho2, Ho1, Hd.
  destruct (set_option_ok h other MYSQL_OPT_READ_TIMEOUT d con l2 Hne) as (l3 & E3 & Ho3 & Hv3 & Hk3).
  unfold ignoring, SetReadTimeout. rewrite E3. cbn [l_state m_bConnected m_st]. rewrite Ho3, Ho2, Ho1, He.
  destruct (options_sets other h MYSQL_SET_CHARSET_NAME e l3 (not_eq_sym Hne)) as (l4 & -> & Ho4 & _).
  unfold HASSERT_MSG_THROW. cbn [m_st l_state]. exists l4. split; [done|]. rewrite !Ho4, Hv3.
  split_and!; [|by rewrite Hk3|done|by rewrite Hk3, Hk2, Hk1]. intros Hr0. rewrite Hk3, Hk2 by done. by apply Hr1.
Qed.

End properties.

(** A library that keeps its options. *)
Definition store : Type := list (Z * option_name * Z).

Fixpoint lookup_option (h : Z) (o : option_name) (l : store) : option Z :=
  match l with
  | [] => None
  | (h', o', v) :: l => if decide (h = h' /\ o = o') then Some v else lookup_option h o l
  end.

Definition store_client : client store := {|
  mysql_init l := (Some 9, l);
  mysql_close _ l := l;
  mysql_options h o v l := (true, (h, o, v) :: l);
  mysql_get_info _ _ := None;
  mysql_real_connect _ _ l := (true, l);
  mysql_real_query _ _ l := (true, l);
  mysql_ping _ l := (true, l)
|}.

#[local] Instance store_laws : OptionLaws store_client lookup_option.
Proof. split. intros h o v l. exists ((h, o, v) :: l). by split. Qed.

Definition configured : store :=
  [(1, MYSQL_OPT_RECONNECT, 1); (1, MYSQL_OPT_CONNECT_TIMEOUT, 5); (1, MYSQL_OPT_READ_TIMEOUT, 7); (1, MYSQL_SET_CHARSET_NAME, 8)].

Lemma copy_options_witness :
  exists l', copy store_client lookup_option (Some 1, false) (Mk (Some 2) true configured) = (Ret tt, Mk (Some 2) false l') /\
    lookup_option 2 MYSQL_OPT_READ_TIMEOUT l' = Some 7 /\ lookup_option 2 MYSQL_SET_CHARSET_NAME l' = None.
Proof.
  destruct (copy_options store_client lookup_option 2 1 (Mk (Some 2) true configured) 1 5 7 8) as (l' & E & _ & _ & Hd & He);
    [reflexivity|discriminate|reflexivity|reflexivity|reflexivity|reflexivity|]. exists l'. split; [exact E|split; [exact Hd|exact He]].
Defined.

End mysql_copy.

Module sqlite_copy.
Import sqlite_drive.

Section copy.
Context {D : Type} (sqlite3_open : bytes -> option D).
(** [sqlite3_db_filename(db, name)]: the file of the database of that name, or null. *)
Context (sqlite3_db_filename : D -> bytes -> option bytes).

(** The name that is asked for is an empty buffer. *)
Definition get_dbfilepath (s : sqlite_drive.t (D := D)) : res bytes :=
  match s with
  | None => Throw (HExc SRC_ERR)
  | Some d =>
    let buf := [] in
    match sqlite3_db_filename d buf with Some p => Ret (c_str p) | None => Throw UB end
  end.

Definition sqlite_drive_copy (conn : sqlite_drive.t (D := D)) : res (sqlite_drive.t (D := D)) :=
  strDBPath ← get_dbfilepath conn;
  Ret (snd (Connect sqlite3_open strDBPath None)).

(** The new object and the one moved from. *)
Definition sqlite_drive_move (conn : sqlite_drive.t (D := D)) : sqlite_drive.t (D := D) * sqlite_drive.t (D := D) := (conn, None).

(** A number is printed as a string. *)
Definition GetClientVersion : res bytes := Throw UB.

(** No database of a connection has an empty name: a copy cannot be made. *)
Theorem no_copy conn : (forall d, sqlite3_db_filename d [] = None) -> forall s, sqlite_drive_copy conn <> Ret s.
Proof. intros Hn s. unfold sqlite_drive_copy, get_dbfilepath. destruct conn as [d|]; [rewrite Hn|]; done. Qed.

End copy.

Lemma no_copy_witness :
  sqlite_drive_copy (fun _ => Some tt) (fun _ name => if decide (name = str "main") then Some (str "a.db") else None) (Some tt) <> Ret None.
Proof. apply (no_copy (fun _ => Some tt)). reflexivity. Defined.

End sqlite_copy.
