(* ===== verification/Ipc.v ===== *)
(** * System V objects: [internal/ipcbase_in.h], [src/hsemaphore.cpp], [src/hmessagequeue.cpp],
    [src/hsharememory.cpp]

    The common [Init] over the two virtual functions, and the three classes.  What
    the kernel answers is an argument; the calls of a segment are kept in order. *)

From S2P Require Import Prelude StdString.

Module ipc_basic.

Definition DEF_ID_VAL : Z := -1.
Definition IPC_CREAT : Z := 512.
Definition IPC_EXCL : Z := 1024.

(** Octal 0600 with [IPC_CREAT]. *)
Definition DEFAULT_IPC_FLAG : Z := Z.lor IPC_CREAT 384.

Record t : Type := Mk { m_key : Z; m_id : Z; m_flag : Z }.

(** The constructor from a file: [ftok] is what it answers. *)
Definition make_file (ftok : Z) : t := Mk (if negb (ftok =? -1) then ftok else -1) DEF_ID_VAL 0.
Definition make_key (key flag : Z) : t := Mk key DEF_ID_VAL flag.

Definition HasInited (b : t) : bool := negb (m_id b =? DEF_ID_VAL).
Definition SetId (id : Z) (b : t) : t := Mk (m_key b) id (m_flag b).
Definition SetInvalid (b : t) : t := SetId DEF_ID_VAL b.

(** [Init]: an object that could not be made is opened, unless the reason was SYS_FAILED. *)
Definition Init {S} (create open : S -> herr * S) (s : S) : herr * S :=
  let '(create_ret, s) := create s in
  if bool_decide (create_ret = SYS_FAILED) then (SYS_FAILED, s)
  else if negb (IS_OK create_ret) then
    let '(r, s) := open s in
    if negb (IS_OK r) then (r, s) else (OK, s)
  else (OK, s).

End ipc_basic.

(** ** Semaphores *)

Module HSemaphore.
Import ipc_basic.

Record t : Type := Sem { base : ipc_basic.t; m_nsems : Z }.

Definition set_id (id : Z) (s : t) : t := Sem (SetId id (base s)) (m_nsems s).

(** [semget] answers an identifier, or less than 0 with [errno]. *)
Definition create (semid : Z) (eexist : bool) (s : t) : herr * t :=
  if HasInited (base s) then (OK, s)
  else if negb ((semid >? 0) || negb eexist) then (SRC_ERR, s)
  else if negb (semid >? 0) then (SYS_FAILED, s)
  else (OK, set_id semid s).

Definition open (semid : Z) (s : t) : herr * t :=
  if HasInited (base s) then (OK, s)
  else if negb (semid >? 0) then (SYS_FAILED, s)
  else (OK, set_id semid s).

Definition Remove (ans : Z) (s : t) : herr :=
  if negb (HasInited (base s)) then SRC_ERR else if negb (ans >=? 0) then SYS_FAILED else OK.

Definition MAX_TRIES : nat := 5.

(** The answers of IPC_STAT: the result and [sem_otime]. *)
Fixpoint stat_loop (tries : nat) (stats : list (Z * Z)) : herr :=
  match tries, stats with
  | O, _ | _, [] => TIME_OUT
  | S tries, (ans, sem_otime) :: stats =>
    if negb (ans >=? 0) then SYS_FAILED
    else if negb (sem_otime =? 0) then OK
    else stat_loop tries stats
  end.

(** The values set, and the result; no array stands for ones. *)
Definition Setall (init_array : option (list Z)) (setall : Z) (stats : list (Z * Z)) (s : t) : list Z * herr :=
  let array := match init_array with Some a => a | None => replicate (Z.to_nat (m_nsems s)) 1 end in
  (array, if negb (setall >=? 0) then SYS_FAILED else stat_loop MAX_TRIES stats).

Record sembuf : Type := Sembuf { sem_num : Z; sem_op : Z; sem_flg : Z }.

Definition lock_op (semnum sem_flg : Z) : sembuf := Sembuf semnum (-1) sem_flg.
Definition unlock_op (semnum sem_flg : Z) : sembuf := Sembuf semnum 1 sem_flg.

(** [operation]: [semop] does the operation or fails. *)
Definition operation (semop : sembuf -> Z -> option Z) (op : sembuf) (v : Z) : herr * Z :=
  match semop op v with Some v => (OK, v) | None => (SYS_FAILED, v) end.

Definition Lock (semop : sembuf -> Z -> option Z) (semnum sem_flg v : Z) : herr * Z := operation semop (lock_op semnum sem_flg) v.
Definition Unlock (semop : sembuf -> Z -> option Z) (semnum sem_flg v : Z) : herr * Z := operation semop (unlock_op semnum sem_flg) v.

(** [SemHolder]: neither result is looked at. *)
Definition hold (semop : sembuf -> Z -> option Z) (m_index v : Z) : Z := snd (Lock semop m_index 4096 v).
Definition release (semop : sembuf -> Z -> option Z) (m_index v : Z) : Z := snd (Unlock semop m_index 4096 v).

End HSemaphore.

(** ** Message queues *)

Module HMessageQueue.
Import ipc_basic.

(** The type at the front of a message. *)
Definition sizeof_HLN : Z := 8.

Definition create (msgid : Z) (eexist : bool) (b : ipc_basic.t) : herr * ipc_basic.t :=
  if HasInited b then (OK, b)
  else if msgid <? 0 then (if eexist then SYS_FAILED else SRC_ERR, b)
  else (OK, SetId msgid b).

(** The flags of [msgget]: 600 is not octal. *)
Definition create_flags (b : ipc_basic.t) : Z := Z.lor (Z.lor (m_flag b) IPC_CREAT) 600.

Definition open (msgid : Z) (b : ipc_basic.t) : herr * ipc_basic.t :=
  if HasInited b then (OK, b)
  else if negb (msgid >? 0) then (SYS_FAILED, b)
  else (OK, SetId msgid b).

Definition control (ans : Z) (b : ipc_basic.t) : herr :=
  if negb (HasInited b) then SRC_ERR else if negb (ans >=? 0) then SYS_FAILED else OK.

Definition Remove := control.

(** The number of bytes [msgsnd] is given for a message of [size] with its type. *)
Definition send_size (size : Z) : Z := u64 (size - sizeof_HLN).

Definition Send (msgsnd : Z -> Z) (size : Z) : herr := if msgsnd (send_size size) =? 0 then OK else SYS_FAILED.

(** [msg]: the text of the message [msgrcv] takes, at most [size] bytes, or an error; it
    is stored with its type in a buffer of [room] bytes. *)
Definition Recv (msg : option bytes) (room size : Z) : res (herr * Z) :=
  match msg with
  | None => Ret (SYS_FAILED, size)
  | Some d => _ ← check_ub (sizeof_HLN + zlen d <=? room); Ret (OK, zlen d)
  end.

Definition HWORD_LEN : Z := 128.

(** Every message is taken, cut to the length, until there is none. *)
Fixpoint ClearMessage (queue : list bytes) (r : Z) : res Z :=
  match queue with
  | [] => Ret r
  | d :: queue => _ ← check_ub (sizeof_HLN + Z.min (zlen d) HWORD_LEN <=? HWORD_LEN); ClearMessage queue (r + 1)
  end.

(** [DataLength], [MsgCount] and [MaxLength]: a field of the answer of IPC_STAT. *)
Definition stat_field (ans field : Z) (b : ipc_basic.t) : res Z :=
  let e := control ans b in _ ← assert_throw (IS_OK e) e; Ret (u64 field).

Definition DataLength := stat_field.
Definition MsgCount := stat_field.
Definition MaxLength := stat_field.

End HMessageQueue.

(** ** Shared memory *)

Module HShareMemory.
Import ipc_basic.

(** What [shmat] returned: nothing yet, an address, or the -1 of an error. *)
Inductive ptr : Type := Null | At (a : Z) | Bad.

#[export] Instance ptr_eq_dec : EqDecision ptr.
Proof. solve_decision. Defined.

Inductive call : Type :=
  | Shmget (key size flags : Z)
  | Shmat (id : Z)
  | Memset (a size : Z)
  | Shmdt (p : ptr)
  | Rmid (id : Z).

Record t : Type := Shm { base : ipc_basic.t; m_size : Z; m_shm_ptr : ptr; calls : list call }.

Definition make (key shmsize flag : Z) : t := Shm (make_key key flag) shmsize Null [].

Definition log (c : call) (s : t) : t := Shm (base s) (m_size s) (m_shm_ptr s) (calls s ++ [c]).
Definition set_id (id : Z) (s : t) : t := Shm (SetId id (base s)) (m_size s) (m_shm_ptr s) (calls s).
Definition set_ptr (p : ptr) (s : t) : t := Shm (base s) (m_size s) p (calls s).

Section kernel.
(** [shmget] with whether an error is EEXIST; [shmat]; whether [shmdt] succeeds. *)
Context (shmget : Z -> Z -> Z -> Z * bool) (shmat : Z -> ptr) (shmdt : ptr -> bool).

Definition dettach (s : t) : herr * t :=
  if negb (HasInited (base s)) then (SRC_ERR, s)
  else if bool_decide (m_shm_ptr s = Null) then (OK, s)
  else
    let p := m_shm_ptr s in
    let s := log (Shmdt p) s in
    if negb (shmdt p) then (SYS_FAILED, s) else (OK, set_ptr Null s).

Definition Remove (s : t) : herr * t :=
  if negb (HasInited (base s)) then (ERR_STATUS, s)
  else
    let '(_, s) := dettach s in
    (OK, Shm (SetInvalid (base s)) (m_size s) (m_shm_ptr s) (calls s ++ [Rmid (m_id (base s))])).

Definition destroy (s : t) : t := snd (dettach s).

(** The common end of [create] and [open]. *)
Definition attach_new (shmid : Z) (s : t) : herr * t :=
  let s := log (Shmat shmid) (set_id shmid s) in
  let p := shmat shmid in
  let s := set_ptr p s in
  if bool_decide (p = Bad) then (SYS_FAILED, snd (Remove s)) else (OK, s).

Definition create (s : t) : herr * t :=
  if HasInited (base s) then (OK, s)
  else
    let flags := Z.lor (Z.lor (m_flag (base s)) IPC_CREAT) 600 in
    let s := log (Shmget (m_key (base s)) (m_size s) flags) s in
    let '(shmid, eexist) := shmget (m_key (base s)) (m_size s) flags in
    if shmid <? 0 then (if eexist then SYS_FAILED else SRC_ERR, s)
    else
      let '(e, s) := attach_new shmid s in
      if negb (IS_OK e) then (e, s)
      else match m_shm_ptr s with At a => (OK, log (Memset a (m_size s)) s) | _ => (OK, s) end.

Definition open (s : t) : herr * t :=
  if HasInited (base s) then (OK, s)
  else
    let s := log (Shmget (m_key (base s)) (m_size s) (m_flag (base s))) s in
    let '(shmid, _) := shmget (m_key (base s)) (m_size s) (m_flag (base s)) in
    if negb (shmid >? 0) then (SYS_FAILED, s) else attach_new shmid s.

Definition attach (s : t) : herr * t :=
  if negb (HasInited (base s)) then (SRC_ERR, s)
  else
    let p := shmat (m_id (base s)) in
    let s := set_ptr p (log (Shmat (m_id (base s))) s) in
    if bool_decide (p = Bad) then (SYS_FAILED, s) else (OK, s).

Definition Init : t -> herr * t := ipc_basic.Init create open.

End kernel.
End HShareMemory.

(** ** Properties *)

Section properties.
Import ipc_basic.

(** A segment that is made is cleared, whether [shmget] made it or found it: the flags
    have no IPC_EXCL, so [Init] of a second process erases what the first has stored,
    and [open] is never reached. *)
Theorem Init_clears shmget shmat shmdt key size flag id a :
  0 <= id -> (forall k n f, shmget k n f = (id, false)) -> shmat id = HShareMemory.At a ->
  HShareMemory.Init shmget shmat shmdt (HShareMemory.make key size flag)
  = (OK, HShareMemory.Shm (Mk key id flag) size (HShareMemory.At a)
           [HShareMemory.Shmget key size (Z.lor (Z.lor flag IPC_CREAT) 600); HShareMemory.Shmat id; HShareMemory.Memset a size]).
Proof.
  intros Hid Hg Ha. unfold HShareMemory.Init, Init, HShareMemory.create. cbn -[Z.ltb]. rewrite Hg. ztest.
  unfold HShareMemory.attach_new. rewrite Ha. reflexivity.
Qed.

Lemma Init_clears_witness :
  fst (HShareMemory.Init (fun _ _ _ => (7, false)) (fun _ => HShareMemory.At 4096) (fun _ => true)
         (HShareMemory.make 11 64 DEFAULT_IPC_FLAG)) = OK.
Proof.
  by rewrite (Init_clears (fun _ _ _ => (7, false)) (fun _ => HShareMemory.At 4096) (fun _ => true) 11 64 DEFAULT_IPC_FLAG 7 4096).
Defined.

(** The mode of a new queue or segment: octal 0730 for the default flags. *)
Example create_mode : Z.land (HMessageQueue.create_flags (make_key 1 DEFAULT_IPC_FLAG)) 511 = 7 * 64 + 3 * 8.
Proof. reflexivity. Qed.

(** After [Remove] the object has no segment; what was attached is attached no longer, unless
    detaching failed. *)
Theorem Remove_spec shmdt s s' :
  HasInited (HShareMemory.base s) = true -> HShareMemory.Remove shmdt s = (OK, s') ->
  HasInited (HShareMemory.base s') = false /\
  (HShareMemory.m_shm_ptr s' = HShareMemory.Null \/ shmdt (HShareMemory.m_shm_ptr s') = false).
Proof.
  intros Hi. unfold HShareMemory.Remove, HShareMemory.dettach. rewrite Hi. cbn [negb].
  case_bool_decide as Hn; [intros [= <-]; split; [done|by left]|].
  destruct (shmdt (HShareMemory.m_shm_ptr s)) eqn:E; cbn [negb]; intros [= <-]; (split; [done|]); [by left|by right].
Qed.

Lemma Remove_spec_witness :
  let s' := snd (HShareMemory.Remove (fun _ => true) (HShareMemory.Shm (Mk 1 7 0) 64 (HShareMemory.At 4096) [])) in
  HasInited (HShareMemory.base s') = false.
Proof. by eapply (Remove_spec (fun _ => true) (HShareMemory.Shm (Mk 1 7 0) 64 (HShareMemory.At 4096) [])). Defined.

(** [Recv] gives the kernel the whole size of the buffer for the text alone: a message
    that fits the size and not the room left by its type is written past the end. *)
Theorem Recv_room room d :
  zlen d <= room ->
  HMessageQueue.Recv (Some d) room room = if zlen d <=? room - 8 then Ret (OK, zlen d) else Throw UB.
Proof.
  intros Hd. unfold HMessageQueue.Recv, HMessageQueue.sizeof_HLN, check_ub.
  destruct (zlen d <=? room - 8) eqn:E; bool_to_prop; by ztest.
Qed.

Lemma Recv_room_witness : HMessageQueue.Recv (Some (str "0123456789")) 16 16 = Throw UB.
Proof. by rewrite (Recv_room 16 (str "0123456789")) by (by vm_compute). Defined.

(** [ClearMessage] counts the messages when none has more than 120 bytes, and overruns its buffer otherwise. *)
Theorem ClearMessage_spec queue r :
  HMessageQueue.ClearMessage queue r = if forallb (fun d => zlen d <=? 120) queue then Ret (r + zlen queue) else Throw UB.
Proof.
  revert r. induction queue as [|d queue IH]; intros r; cbn [HMessageQueue.ClearMessage forallb].
  - by rewrite zlen_nil, Z.add_0_r.
  - unfold HMessageQueue.sizeof_HLN, HMessageQueue.HWORD_LEN, check_ub. destruct (zlen d <=? 120) eqn:E; bool_to_prop; ztest; [|done].
    cbn [mbind res_bind]. rewrite IH, zlen_cons. cbn [andb]. case_match; [|done]. f_equal. lia.
Qed.

(** A message shorter than its type. *)
Example short_send : HMessageQueue.send_size 4 = 2 ^ 64 - 4.
Proof. reflexivity. Qed.

(** The semaphores are set, but no operation has been done on them: [sem_otime] is 0, and
    [Setall] times out. *)
Theorem Setall_times_out s :
  HSemaphore.Setall None 0 (replicate 5 (0, 0)) s = (replicate (Z.to_nat (HSemaphore.m_nsems s)) 1, TIME_OUT).
Proof. reflexivity. Qed.

(** An identifier of 0 is one: it is taken for a failure. *)
Example identifier_0 :
  HSemaphore.create 0 false (HSemaphore.Sem (make_key 1 0) 1) = (SYS_FAILED, HSemaphore.Sem (make_key 1 0) 1).
Proof. reflexivity. Qed.

(** An interrupted holder gives back what it never had: a taken semaphore is free. *)
Example interrupted_holder :
  let interrupted op v := if HSemaphore.sem_op op <? 0 then None else Some (v + HSemaphore.sem_op op) in
  HSemaphore.release interrupted 0 (HSemaphore.hold interrupted 0 0) = 1.
Proof. reflexivity. Qed.

(** The two classes give the two errors of [create] opposite meanings: of an object that
    exists a semaphore is opened, a queue is not; on any other error the reverse. *)
Theorem exists_then_open key flag id n :
  0 < id ->
  Init (HSemaphore.create (-1) true) (HSemaphore.open id) (HSemaphore.Sem (make_key key flag) n)
    = (OK, HSemaphore.Sem (Mk key id flag) n) /\
  Init (HMessageQueue.create (-1) true) (HMessageQueue.open id) (make_key key flag) = (SYS_FAILED, make_key key flag) /\
  Init (HSemaphore.create (-1) false) (HSemaphore.open id) (HSemaphore.Sem (make_key key flag) n)
    = (SYS_FAILED, HSemaphore.Sem (make_key key flag) n) /\
  Init (HMessageQueue.create (-1) false) (HMessageQueue.open id) (make_key key flag) = (OK, Mk key id flag).
Proof.
  intros Hid. split_and!; try reflexivity.
  - change (Init (HSemaphore.create (-1) true) (HSemaphore.open id) (HSemaphore.Sem (make_key key flag) n))
      with (let '(r, s) := HSemaphore.open id (HSemaphore.Sem (make_key key flag) n) in if negb (IS_OK r) then (r, s) else (OK, s)).
    unfold HSemaphore.open. rewrite Z.gtb_ltb. cbn -[Z.ltb]. by ztest.
  - change (Init (HMessageQueue.create (-1) false) (HMessageQueue.open id) (make_key key flag))
      with (let '(r, s) := HMessageQueue.open id (make_key key flag) in if negb (IS_OK r) then (r, s) else (OK, s)).
    unfold HMessageQueue.open. rewrite Z.gtb_ltb. cbn -[Z.ltb]. by ztest.
Qed.

Lemma exists_then_open_witness :
  Init (HMessageQueue.create (-1) true) (HMessageQueue.open 5) (make_key 1 0) = (SYS_FAILED, make_key 1 0).
Proof. apply (exists_then_open 1 0 5 1). reflexivity. Defined.

End properties.
