(* ===== verification/Singleton.v ===== *)
(** * Lazy singletons: [src/detail/lazysingleton/] and [src/hlazysingleton.h]

    [HLazySingleton::Get] goes through two double-checked locks: the table of holders,
    one entry for each type and tag, each entry with a mutex and each unit of the
    program with a cache of its own; and the holder, which makes the object.  The two
    are step functions over what the threads share, and a state of the composition has
    any number of threads that call [Get], for any types and from any units. *)

From S2P Require Import Prelude.
From stdpp Require Import gmap.

(** A type and tag is a number; a pointer is the place of its object in the order in
    which the objects were made. *)
Module StaticSingletonHolder.

Record Entry : Type := MkEntry { m_ptr : option nat; m_mutex : option nat }.

(** The caches of the units, the table and its mutex, the keys of the objects made. *)
Record shared : Type := Sh {
  cache : gmap (nat * nat) nat;
  map_mutex : option nat;
  m_map : gmap nat Entry;
  made : list nat
}.

Definition start : shared := Sh ∅ None ∅ [].

Definition set_entry (k : nat) (e : Entry) (s : shared) : shared := Sh (cache s) (map_mutex s) (<[k := e]> (m_map s)) (made s).

(** The next action of a thread in [Create]. *)
Inductive pc : Type :=
  | LoadCache | LockMap | Find | UnlockMap            (* create, create_entry *)
  | Load1 | LockEntry | Load2 | Make | StorePtr (p : nat) | Unlock (r : option nat)
  | StoreCache (p : nat) | Done (p : nat) | Threw.

#[global] Instance pc_eq_dec : EqDecision pc.
Proof. solve_decision. Defined.

(** [create_entry]: [m_map\[key\]] under the mutex of the table. *)
Definition create_entry (t k : nat) (c : pc) (s : shared) : option (pc * shared) :=
  match c with
  | LockMap =>
    match map_mutex s with
    | Some _ => None
    | None => Some (Find, Sh (cache s) (Some t) (m_map s) (made s))
    end
  | Find => Some (UnlockMap, match m_map s !! k with Some _ => s | None => set_entry k (MkEntry None None) s end)
  | UnlockMap => Some (Load1, Sh (cache s) None (m_map s) (made s))
  | _ => None
  end.

(** [Entry::create]; [throws]: what [make] does.  The scope of the lock ends in [Unlock]. *)
Definition entry_create (t k : nat) (throws : bool) (c : pc) (s : shared) : option (pc * shared) :=
  e ← m_map s !! k;
  match c with
  | Load1 => Some (match m_ptr e with Some p => StoreCache p | None => LockEntry end, s)
  | LockEntry => match m_mutex e with Some _ => None | None => Some (Load2, set_entry k (MkEntry (m_ptr e) (Some t)) s) end
  | Load2 => Some (match m_ptr e with Some p => Unlock (Some p) | None => Make end, s)
  | Make =>
    if throws then Some (Unlock None, s)
    else Some (StorePtr (length (made s)), Sh (cache s) (map_mutex s) (m_map s) (made s ++ [k]))
  | StorePtr p => Some (Unlock (Some p), set_entry k (MkEntry (Some p) (m_mutex e)) s)
  | Unlock r => Some (match r with Some p => StoreCache p | None => Threw end, set_entry k (MkEntry (m_ptr e) None) s)
  | _ => None
  end.

(** A step of thread [t] that wants key [k] from unit [u]; [None]: it waits or has ended. *)
Definition Create (t u k : nat) (throws : bool) (c : pc) (s : shared) : option (pc * shared) :=
  match c with
  | LoadCache => Some (match cache s !! (u, k) with Some p => Done p | None => LockMap end, s)
  | LockMap | Find | UnlockMap => create_entry t k c s
  | StoreCache p => Some (Done p, Sh (<[(u, k) := p]> (cache s)) (map_mutex s) (m_map s) (made s))
  | Done _ | Threw => None
  | _ => entry_create t k throws c s
  end.

End StaticSingletonHolder.

Module LazySingletonHolder.

Inductive SingletonHolderState : Type := Dead | Living | LivingInChildAfterFork.

#[global] Instance SingletonHolderState_eq_dec : EqDecision SingletonHolderState.
Proof. solve_decision. Defined.

Record t : Type := Holder { m_mutex : option nat; m_state : SingletonHolderState; m_instance : option nat }.

Definition init : t := Holder None Dead None.

(** The next action of a thread in [Get]. *)
Inductive pc : Type :=
  | Load | Lock | Check | New | SetInstance (p : nat) | Publish | Unlock (ok : bool) | Read | Done (p : option nat) | Threw.

#[global] Instance pc_eq_dec : EqDecision pc.
Proof. solve_decision. Defined.

(** [create_instance] of holder [h]; [made]: the holders of the objects made. *)
Definition create_instance (i h : nat) (throws : bool) (c : pc) (s : t) (made : list nat) : option (pc * t * list nat) :=
  match c with
  | Lock => match m_mutex s with Some _ => None | None => Some (Check, Holder (Some i) (m_state s) (m_instance s), made) end
  | Check => Some (if bool_decide (m_state s = Living) then Unlock true else New, s, made)
  | New => if throws then Some (Unlock false, s, made) else Some (SetInstance (length made), s, made ++ [h])
  | SetInstance p => Some (Publish, Holder (m_mutex s) (m_state s) (Some p), made)
  | Publish => Some (Unlock true, Holder (m_mutex s) Living (m_instance s), made)
  | Unlock ok => Some (if ok then Read else Threw, Holder None (m_state s) (m_instance s), made)
  | _ => None
  end.

Definition Get (i h : nat) (throws : bool) (c : pc) (s : t) (made : list nat) : option (pc * t * list nat) :=
  match c with
  | Load => Some (if bool_decide (m_state s = Living) then Read else Lock, s, made)
  | Read => Some (Done (m_instance s), s, made)
  | Done _ | Threw => None
  | _ => create_instance i h throws c s made
  end.

End LazySingletonHolder.

(** [HLazySingleton::Get] is [get_holder().Get()]. *)
Module HLazySingleton.
Module S := StaticSingletonHolder.
Module L := LazySingletonHolder.

Inductive pc : Type := get_holder (c : S.pc) | Get (h : nat) (c : L.pc).

Record thread : Type := Thread { unit_of : nat; key_of : nat; at_ : pc }.

Record st : Type := St { shared : S.shared; holders : list L.t; insts : list nat; threads : list thread }.

(** A thread for each unit and key that are asked for. *)
Definition start (calls : list (nat * nat)) : st :=
  St S.start [] [] (map (fun x => Thread x.1 x.2 (get_holder S.LoadCache)) calls).

(** [Thunk::make] of a holder: the object is there when [make] returns. *)
Definition grow (s s' : S.shared) (hs : list L.t) : list L.t :=
  hs ++ replicate (length (S.made s') - length (S.made s)) L.init.

Definition exec (i : nat) (throws : bool) (s : st) : option st :=
  th ← threads s !! i;
  let 'Thread u k c := th in
  match c with
  | get_holder (S.Done h) => Some (St (shared s) (holders s) (insts s) (<[i := Thread u k (Get h L.Load)]> (threads s)))
  | get_holder c =>
    '(c, sh) ← S.Create i u k throws c (shared s);
    Some (St sh (grow (shared s) sh (holders s)) (insts s) (<[i := Thread u k (get_holder c)]> (threads s)))
  | Get h c =>
    hs ← holders s !! h;
    '(c, hs, insts) ← L.Get i h throws c hs (insts s);
    Some (St (shared s) (<[h := hs]> (holders s)) insts (<[i := Thread u k (Get h c)]> (threads s)))
  end.

Inductive reach (s0 : st) : st -> Prop :=
  | reach_refl : reach s0 s0
  | reach_step s i throws s' : reach s0 s -> exec i throws s = Some s' -> reach s0 s'.

(** A schedule: a thread that waits or has ended is passed over. *)
Fixpoint run (sched : list (nat * bool)) (s : st) : st :=
  match sched with [] => s | (i, b) :: rest => run rest (default s (exec i b s)) end.

(** A call that has returned or thrown. *)
Definition ended (th : thread) : bool :=
  match at_ th with get_holder S.Threw | Get _ (L.Done _) | Get _ L.Threw => true | _ => false end.

End HLazySingleton.

(** ** The table of holders *)

Module StaticSingletonHolderFacts.
Import StaticSingletonHolder.

Definition in_map (c : pc) : bool := match c with Find | UnlockMap => true | _ => false end.
Definition in_entry (c : pc) : bool := match c with Load2 | Make | StorePtr _ | Unlock _ => true | _ => false end.
Definition found (c : pc) : bool :=
  match c with LoadCache | LockMap | Find | Threw => false | _ => true end.

Definition ptr_of (s : shared) (k : nat) : option nat := m_map s !! k ≫= m_ptr.
Definition lock_of (s : shared) (k : nat) : option nat := m_map s !! k ≫= m_mutex.

(** What a thread at [c] knows of its key. *)
Definition knows (s : shared) (k : nat) (c : pc) : Prop :=
  match c with
  | Make => ptr_of s k = None
  | StorePtr p => ptr_of s k = None /\ made s !! p = Some k
  | Unlock (Some p) | StoreCache p | Done p => ptr_of s k = Some p
  | _ => True
  end.

(** The threads: unit, key and place of each. *)
Definition view : Type := nat -> option (nat * nat * pc).
Definition at_pc (i u k : nat) (c : pc) (ts : view) : view := fun j => if decide (j = i) then Some (u, k, c) else ts j.

Record inv (s : shared) (ts : view) : Prop := {
  i_map : forall i, map_mutex s = Some i -> exists u k c, ts i = Some (u, k, c) /\ in_map c = true;
  i_lock : forall i k, lock_of s k = Some i -> exists u c, ts i = Some (u, k, c) /\ in_entry c = true;
  i_thread : forall i u k c, ts i = Some (u, k, c) ->
    (in_map c = true -> map_mutex s = Some i) /\ (in_entry c = true -> lock_of s k = Some i) /\
    (found c = true -> is_Some (m_map s !! k)) /\ knows s k c;
  i_cache : forall u k p, cache s !! (u, k) = Some p -> ptr_of s k = Some p;
  i_ptr : forall k p, ptr_of s k = Some p -> made s !! p = Some k;
  i_made : forall p k, made s !! p = Some k -> ptr_of s k = Some p \/ exists i u, ts i = Some (u, k, StorePtr p)
}.

Lemma table_inv_ext s ts ts' : (forall i, ts' i = ts i) -> inv s ts -> inv s ts'.
Proof. intros E [Im Il It Ic Ip Ia]. split; try done; intros; rewrite ?E in *; try setoid_rewrite E; eauto. Qed.

(** A step of [i] changes what the others know only where [i] holds the lock. *)
Lemma table_frame s s' ts i u k c c' :
  inv s ts -> ts i = Some (u, k, c) ->
  (forall j, j <> i -> map_mutex s' = Some j <-> map_mutex s = Some j) ->
  (forall j q, j <> i -> lock_of s' q = Some j <-> lock_of s q = Some j) ->
  (map_mutex s' = Some i <-> in_map c' = true) ->
  (forall q, lock_of s' q = Some i <-> q = k /\ in_entry c' = true) ->
  (forall q, is_Some (m_map s !! q) -> is_Some (m_map s' !! q)) ->
  (forall q, ptr_of s' q = ptr_of s q \/ lock_of s q = Some i /\ ptr_of s q = None) ->
  (forall p q, made s !! p = Some q -> made s' !! p = Some q) ->
  (found c' = true -> is_Some (m_map s' !! k)) -> knows s' k c' ->
  (forall v q p, cache s' !! (v, q) = Some p -> cache s !! (v, q) = Some p \/ ptr_of s' q = Some p) ->
  (forall q p, ptr_of s' q = Some p -> ptr_of s q = Some p \/ made s' !! p = Some q) ->
  (forall p q, made s' !! p = Some q ->
     ptr_of s' q = Some p \/ (q = k /\ c' = StorePtr p) \/ (made s !! p = Some q /\ ~ (q = k /\ c = StorePtr p))) ->
  inv s' (at_pc i u k c' ts).
Proof.
  intros [Im Il It Ic Ip Ia] Hi Hm Hl Hmi Hli Hd Hp Ha Hf Hk Hc Hpm Hn.
  assert (forall q p, ptr_of s q = Some p -> ptr_of s' q = Some p) as Hps by
    (intros q p Hq; destruct (Hp q) as [E|[_ E]]; congruence).
  unfold at_pc. split.
  - intros j Hj. destruct (decide (j = i)) as [->|Hne]; [by eexists _, _, _; split; [done|apply Hmi]|].
    by apply Im, Hm.
  - intros j q Hj. destruct (decide (j = i)) as [->|Hne]; [|by apply Il, Hl].
    apply Hli in Hj as [-> Hj]. by eexists _, _.
  - intros j v q d Hj. destruct (decide (j = i)) as [->|Hne].
    + injection Hj as <- <- <-. split_and!; [apply Hmi|intros; by apply Hli|done|done].
    + destruct (It j v q d Hj) as (H1 & H2 & H3 & H4).
      split_and!; [by intros; apply Hm, H1|by intros; apply Hl, H2|by intros; apply Hd, H3|].
      assert (in_entry d = true -> ptr_of s' q = ptr_of s q) as E.
      { intros Hd'. destruct (Hp q) as [E|[E _]]; [done|]. specialize (H2 Hd'). congruence. }
      destruct d as [| | | | | | | |r|[r|]|r|r|]; try done; cbn in *; [by rewrite E| |by apply Hps..].
      split; [rewrite E by done|apply Ha]; apply H4.
  - intros v q p Hq. destruct (Hc v q p Hq) as [H|H]; [|done]. by eapply Hps, Ic.
  - intros q p Hq. destruct (Hpm q p Hq) as [H|H]; [|done]. by apply Ha, Ip.
  - intros p q Hq. destruct (Hn p q Hq) as [H|[[-> ->]|[H Hno]]]; [by left|right; exists i, u; by case_decide|].
    destruct (Ia p q H) as [H'|(j & v & H')]; [left; by apply Hps|]. right. exists j, v.
    case_decide as E; [subst j; rewrite Hi in H'; injection H' as <- <- ->; by destruct Hno|done].
Qed.

Lemma ptr_set s k e q : ptr_of (set_entry k e s) q = if decide (q = k) then m_ptr e else ptr_of s q.
Proof. unfold ptr_of. cbn. case_decide as E; [subst; by rewrite lookup_insert_eq|by rewrite lookup_insert_ne]. Qed.

Lemma lock_set s k e q : lock_of (set_entry k e s) q = if decide (q = k) then m_mutex e else lock_of s q.
Proof. unfold lock_of. cbn. case_decide as E; [subst; by rewrite lookup_insert_eq|by rewrite lookup_insert_ne]. Qed.

Lemma found_set s k e q : is_Some (m_map s !! q) -> is_Some (m_map (set_entry k e s) !! q).
Proof. cbn. intros H. destruct (decide (q = k)) as [->|]; [by rewrite lookup_insert_eq|by rewrite lookup_insert_ne]. Qed.

Lemma entry_of s k e : m_map s !! k = Some e -> ptr_of s k = m_ptr e /\ lock_of s k = m_mutex e.
Proof. unfold ptr_of, lock_of. by intros ->. Qed.

(** A step that changes neither table nor locks. *)
Lemma step_quiet s ts i u k c c' :
  inv s ts -> ts i = Some (u, k, c) -> in_map c' = in_map c -> in_entry c' = in_entry c ->
  (found c' = true -> is_Some (m_map s !! k)) -> knows s k c' -> (forall p, c <> StorePtr p) ->
  inv s (at_pc i u k c' ts).
Proof.
  intros Hi Hc Em Ee Hf Hk Hn. pose proof Hi as [Im Il It Ic Ip Ia]. destruct (It i u k c Hc) as (H1 & H2 & H3 & H4).
  eapply table_frame; eauto.
  - rewrite Em. split; [|done]. intros H. destruct (Im i H) as (? & ? & ? & E & ?). by simplify_eq.
  - intros q. rewrite Ee. split; [|by intros [-> ?]; auto]. intros H. destruct (Il i q H) as (? & ? & E & ?). by simplify_eq.
  - intros p q Hq. right. right. split; [done|]. by intros [_ ->]; eapply Hn.
Qed.

(** A step that leaves the lock of the entry or of the table alone. *)
Lemma map_held s ts i u k c : inv s ts -> ts i = Some (u, k, c) -> map_mutex s = Some i <-> in_map c = true.
Proof.
  intros [Im Il It Ic Ip Ia] Hc. split; [|apply (It i u k c Hc)].
  intros H. destruct (Im i H) as (? & ? & ? & E & ?). by simplify_eq.
Qed.

Lemma entry_held s ts i u k c q :
  inv s ts -> ts i = Some (u, k, c) -> lock_of s q = Some i <-> q = k /\ in_entry c = true.
Proof.
  intros [Im Il It Ic Ip Ia] Hc. split; [|intros [-> ?]; by apply (It i u k c Hc)].
  intros H. destruct (Il i q H) as (? & ? & E & ?). by simplify_eq.
Qed.

(** The case analysis of a step of [i]; the facts on its locks and entry close most cases. *)
Ltac frame Hi Hc He :=
  eapply (table_frame _ _ _ _ _ _ _ _ Hi Hc); cbn [knows found in_map in_entry]; try done;
  try (intros; by left); try (intros _; cbn; by rewrite lookup_insert_eq); try (intros ?; apply found_set);
  try (intros; rewrite lock_set; case_decide; subst; cbn);
  try (intros; rewrite ptr_set; case_decide; subst; cbn);
  intros; cbn; rewrite ?He; clear Hi Hc He; try done;
  try match goal with H : ptr_of (set_entry _ _ _) _ = _ |- _ => rewrite ptr_set in H; case_decide; subst; cbn in H end;
  try (intuition congruence).

Lemma create_entry_inv s ts i u k c c' s' :
  inv s ts -> ts i = Some (u, k, c) -> create_entry i k c s = Some (c', s') -> inv s' (at_pc i u k c' ts).
Proof.
  intros Hi Hc. pose proof (map_held _ _ _ _ _ _ Hi Hc) as Hm. pose proof (fun q => entry_held _ _ _ _ _ _ q Hi Hc) as He.
  destruct c; try done; cbn in *.
  - destruct (map_mutex s) as [j|] eqn:Em; [done|]. intros [= <- <-]. frame Hi Hc He.
  - destruct (m_map s !! k) as [e|] eqn:Ek; intros [= <- <-]; [by eapply step_quiet; eauto|].
    assert (ptr_of s k = None) as Hp by (unfold ptr_of; by rewrite Ek).
    assert (lock_of s k = None) as Hl by (unfold lock_of; by rewrite Ek).
    frame Hi Hc He.
  - intros [= <- <-]. assert (is_Some (m_map s !! k)) as Hf by (by apply (i_thread _ _ Hi _ _ _ _ Hc)).
    frame Hi Hc He.
Qed.

(** [Entry::create]; the entry is there. *)
Lemma entry_create_inv s ts i u k throws c c' s' :
  inv s ts -> ts i = Some (u, k, c) -> entry_create i k throws c s = Some (c', s') -> inv s' (at_pc i u k c' ts).
Proof.
  intros Hi Hc. pose proof (map_held _ _ _ _ _ _ Hi Hc) as Hm. pose proof (fun q => entry_held _ _ _ _ _ _ q Hi Hc) as He.
  pose proof (proj2 (proj2 (proj2 (i_thread _ _ Hi _ _ _ _ Hc)))) as Hk.
  unfold entry_create. destruct (m_map s !! k) as [e|] eqn:Ek; [|done]. cbn [mbind option_bind].
  destruct (entry_of _ _ _ Ek) as [Ep El]. assert (is_Some (m_map s !! k)) as Hf by done.
  destruct c as [| | | | | | | |p|r|p|p|]; try done; cbn in *.
  - destruct (m_ptr e) as [p|] eqn:Ee; intros [= <- <-]; by eapply step_quiet; eauto.
  - destruct (m_mutex e) eqn:Ee; [done|]. intros [= <- <-]. frame Hi Hc He.
  - destruct (m_ptr e) as [p|] eqn:Ee; intros [= <- <-]; by eapply step_quiet; eauto.
  - destruct throws; intros [= <- <-]; [by eapply step_quiet; eauto|].
    frame Hi Hc He; cbn.
    + by apply lookup_app_l_Some.
    + split; [done|]. by apply list_lookup_middle.
    + match goal with H : _ !! _ = Some q |- _ => apply lookup_app_Some in H as [H|[Hge H]] end; [right; right; naive_solver|].
      match goal with H : [_] !! _ = Some q |- _ => apply list_lookup_singleton_Some in H as [E ->] end.
      right. left. split; [done|]. f_equal. lia.
  - destruct Hk as [Hn Hk]. intros [= <- <-]. assert (m_mutex e = Some i) as Hl by (rewrite <- El; by apply He).
    frame Hi Hc He. destruct (decide (p0 = p)) as [->|Hne]; [by left|right; right; split; [done|naive_solver]].
  - assert (lock_of s k = Some i) as Hl by (by apply He). intros [= <- <-]. destruct r as [p|]; frame Hi Hc He.
Qed.

Lemma Create_inv s ts i u k throws c c' s' :
  inv s ts -> ts i = Some (u, k, c) -> Create i u k throws c s = Some (c', s') -> inv s' (at_pc i u k c' ts).
Proof.
  intros Hi Hc. destruct c as [| | | | | | | |p|r|p|p|]; try (by apply create_entry_inv); try (by apply entry_create_inv); [| |done|done].
  - cbn. destruct (cache s !! (u, k)) as [p|] eqn:Ee; intros [= <- <-]; [|by eapply step_quiet; eauto].
    pose proof (i_cache _ _ Hi _ _ _ Ee) as Hp. eapply step_quiet; eauto.
    intros _. unfold ptr_of in Hp. by destruct (m_map s !! k).
  - pose proof (i_thread _ _ Hi _ _ _ _ Hc) as (_ & _ & Hf & Hk). specialize (Hf eq_refl).
    pose proof (map_held _ _ _ _ _ _ Hi Hc) as Hm. pose proof (fun q => entry_held _ _ _ _ _ _ q Hi Hc) as He.
    cbn in *. intros [= <- <-]. frame Hi Hc He.
    match goal with H : cache _ !! _ = _ |- _ => cbn in H; rename H into Hq end.
    destruct (decide ((v, q) = (u, k))) as [[= -> ->]|Hne].
    + rewrite lookup_insert_eq in Hq. injection Hq as <-. by right.
    + rewrite lookup_insert_ne in Hq by done. by left.
Qed.

Lemma table_start_inv (ts : view) :
  (forall i u k c, ts i = Some (u, k, c) -> c = LoadCache) -> inv StaticSingletonHolder.start ts.
Proof.
  intros Ht. assert (forall k, m_map StaticSingletonHolder.start !! k = None) as E by (intros k; apply lookup_empty).
  split; cbn; [done|by unfold lock_of; intros i k; rewrite E| |done|by unfold ptr_of; intros k p; rewrite E|by intros p k; rewrite lookup_nil].
  intros i u k c Hc. by rewrite (Ht i u k c Hc).
Qed.

(** One object for a key, and one answer. *)
Lemma made_unique s ts p q k : inv s ts -> made s !! p = Some k -> made s !! q = Some k -> p = q.
Proof.
  intros Hi Hp Hq. pose proof Hi as [Im Il It Ic Ip Ia].
  destruct (Ia p k Hp) as [Ep|(i & u & Ei)], (Ia q k Hq) as [Eq|(j & v & Ej)]; [congruence| | |].
  - destruct (It j v k _ Ej) as (_ & _ & _ & Hn & _). congruence.
  - destruct (It i u k _ Ei) as (_ & _ & _ & Hn & _). congruence.
  - destruct (It i u k _ Ei) as (_ & H1 & _). destruct (It j v k _ Ej) as (_ & H2 & _).
    specialize (H1 eq_refl). specialize (H2 eq_refl). rewrite H1 in H2. injection H2 as ->. rewrite Ei in Ej. by injection Ej as _ ->.
Qed.

Lemma NoDup_made s ts : inv s ts -> NoDup (made s).
Proof. intros Hi. apply NoDup_alt. intros p q k. by eapply made_unique. Qed.

Lemma Done_same s ts i j u v k p q :
  inv s ts -> ts i = Some (u, k, Done p) -> ts j = Some (v, k, Done q) -> p = q.
Proof.
  intros [Im Il It Ic Ip Ia] Hp Hq. destruct (It i u k _ Hp) as (_ & _ & _ & E1), (It j v k _ Hq) as (_ & _ & _ & E2).
  cbn in *. congruence.
Qed.

(** A thread goes on unless it takes a lock or has ended. *)
Definition can (c : pc) : bool := match c with LockMap | LockEntry | Done _ | Threw => false | _ => true end.

Lemma can_step s ts i u k c b : inv s ts -> ts i = Some (u, k, c) -> can c = true -> is_Some (Create i u k b c s).
Proof.
  intros Hi Hc Hcan. destruct (i_thread _ _ Hi _ _ _ _ Hc) as (_ & _ & Hf & _).
  destruct c; try done; cbn; try (by eexists); destruct (Hf eq_refl) as [e He]; unfold entry_create; rewrite He; cbn; try (by eexists).
  by destruct b; eexists.
Qed.

(** A thread that cannot go on waits for one that can. *)
Lemma Create_progress s ts i u k c :
  inv s ts -> ts i = Some (u, k, c) -> c <> Threw -> (forall p, c <> Done p) ->
  exists j v q d, ts j = Some (v, q, d) /\ is_Some (Create j v q false d s).
Proof.
  intros Hi Hc Ht Hd. destruct (can c) eqn:Hcan; [by exists i, u, k, c; eauto using can_step|].
  destruct c as [| | | | | | | | | | |p|]; try done; [| |by destruct (Hd p)].
  - destruct (map_mutex s) as [j|] eqn:Ej; [|exists i, u, k, LockMap; cbn; rewrite Ej; eauto].
    destruct (i_map _ _ Hi j Ej) as (v & q & d & Hj & Hin).
    exists j, v, q, d. split; [done|].
    eapply can_step; eauto. by destruct d.
  - destruct (lock_of s k) as [j|] eqn:Ej.
    + destruct (i_lock _ _ Hi j k Ej) as (v & d & Hj & Hin). exists j, v, k, d. split; [done|].
      eapply can_step; eauto. by destruct d.
    + exists i, u, k, LockEntry. split; [done|]. destruct (i_thread _ _ Hi _ _ _ _ Hc) as (_ & _ & Hf & _).
      destruct (Hf eq_refl) as [e He]. unfold lock_of in Ej. cbn [Create]. unfold entry_create. rewrite He in *. cbn in *. rewrite Ej. by eexists.
Qed.

End StaticSingletonHolderFacts.

(** ** A holder *)

Module LazySingletonHolderFacts.
Import LazySingletonHolder.

Definition locked (c : pc) : bool := match c with Check | New | SetInstance _ | Publish | Unlock _ => true | _ => false end.

Definition view : Type := nat -> option pc.
Definition at_pc (i : nat) (c : pc) (ts : view) : view := fun j => if decide (j = i) then Some c else ts j.

(** What a thread at [c] knows of holder [h]. *)
Definition knows (h : nat) (s : t) (made : list nat) (c : pc) : Prop :=
  match c with
  | New => m_state s = Dead
  | SetInstance p => m_state s = Dead /\ made !! p = Some h
  | Publish => m_state s = Dead /\ exists p, m_instance s = Some p /\ made !! p = Some h
  | Unlock true | Read => m_state s = Living
  | Done r => m_state s = Living /\ r = m_instance s
  | _ => True
  end.

Record inv (h : nat) (s : t) (made : list nat) (ts : view) : Prop := {
  i_mutex : forall i, m_mutex s = Some i -> exists c, ts i = Some c /\ locked c = true;
  i_thread : forall i c, ts i = Some c -> (locked c = true -> m_mutex s = Some i) /\ knows h s made c;
  i_state : m_state s = Dead \/ m_state s = Living /\ exists p, m_instance s = Some p /\ made !! p = Some h;
  i_made : forall p, made !! p = Some h ->
    (m_state s = Living /\ m_instance s = Some p) \/
    exists i, ts i = Some (SetInstance p) \/ ts i = Some Publish /\ m_instance s = Some p
}.

Lemma knows_stable h s s' made made' c :
  knows h s made c -> locked c = false -> (m_state s = Living -> m_state s' = Living /\ m_instance s' = m_instance s) ->
  knows h s' made' c.
Proof.
  intros Hk Hl Hs. destruct c as [| | | |p| |[|]| |r|]; try done; cbn in *; [by apply Hs|].
  destruct Hk as [E ->]. by destruct (Hs E) as [-> ->].
Qed.

(** The other threads on a holder that [i] has locked are outside. *)
Lemma outside h s made ts i c j d :
  inv h s made ts -> ts i = Some c -> locked c = true -> ts j = Some d -> j <> i -> locked d = false.
Proof.
  intros [Im It _ _] Hi Hc Hj Hne. destruct (It i c Hi) as [H1 _], (It j d Hj) as [H2 _].
  destruct (locked d); [|done]. rewrite H1 in H2 by done. by injection (H2 eq_refl) as [= ->].
Qed.

(** A step of the thread that has the lock. *)
Lemma locked_frame h s s' made made' ts i c c' :
  inv h s made ts -> ts i = Some c -> locked c = true ->
  m_mutex s' = (if locked c' then Some i else None) ->
  (m_state s = Living -> m_state s' = Living /\ m_instance s' = m_instance s) -> knows h s' made' c' ->
  (m_state s' = Dead \/ m_state s' = Living /\ exists p, m_instance s' = Some p /\ made' !! p = Some h) ->
  (forall p, made' !! p = Some h -> (m_state s' = Living /\ m_instance s' = Some p) \/
     c' = SetInstance p \/ c' = Publish /\ m_instance s' = Some p) ->
  inv h s' made' (at_pc i c' ts).
Proof.
  intros Hi Hc Hl Hm Hs Hk Hst Hma. pose proof (fun j d => outside _ _ _ _ _ _ j d Hi Hc Hl) as Ho.
  unfold at_pc. split; [| |done|].
  - intros j. rewrite Hm. destruct (locked c') eqn:E; [|done]. intros [= <-]. exists c'. by case_decide.
  - intros j d. case_decide as E; [subst j|].
    + intros [= <-]. split; [|done]. intros E'. by rewrite Hm, E'.
    + intros Hj. specialize (Ho j d Hj E). split; [by rewrite Ho|].
      eapply knows_stable; [by apply (i_thread _ _ _ _ Hi j d Hj)|done|done].
  - intros p Hp. destruct (Hma p Hp) as [?|H]; [by left|]. right. exists i. case_decide; [|done].
    by destruct H as [->|[-> ?]]; [left|right].
Qed.

(** A step of a thread outside. *)
Lemma outside_frame h s s' made ts i c c' :
  inv h s made ts -> ts i = Some c -> locked c = false ->
  (if locked c' then m_mutex s = None /\ m_mutex s' = Some i else m_mutex s' = m_mutex s) ->
  m_state s' = m_state s -> m_instance s' = m_instance s -> knows h s made c' ->
  inv h s' made (at_pc i c' ts).
Proof.
  intros Hi Hc Hl Hm Es Ei Hk. pose proof Hi as [Im It Is Ia].
  assert (forall d, knows h s made d -> knows h s' made d) as Hkn.
  { intros d Hd. destruct d as [| | | |p| |[|]| |r|]; cbn in *; by rewrite ?Es, ?Ei. }
  unfold at_pc. split; [| |by rewrite Es, Ei|].
  - intros j Hj. destruct (locked c') eqn:E.
    + destruct Hm as [_ Hm]. rewrite Hm in Hj. injection Hj as <-. exists c'. by case_decide.
    + rewrite Hm in Hj. destruct (Im j Hj) as (d & Hd & E'). exists d. case_decide; [congruence|done].
  - intros j d. case_decide as E; [subst j|].
    + intros [= <-]. split; [|by apply Hkn]. intros E'. rewrite E' in Hm. apply Hm.
    + intros Hj. destruct (It j d Hj) as [H1 H2]. split; [|by apply Hkn]. intros Hd.
      destruct (locked c'); [destruct Hm as [Hm _]; rewrite H1 in Hm by done; done|]. rewrite Hm. by apply H1.
  - intros p Hp. rewrite Es, Ei. destruct (Ia p Hp) as [?|(j & Hj)]; [by left|]. right. exists j.
    case_decide; [|done]. subst. by destruct Hj as [Hj|[Hj _]]; rewrite Hc in Hj; injection Hj as ->.
Qed.

Lemma holder_inv_ext h s made ts ts' : (forall i, ts' i = ts i) -> inv h s made ts -> inv h s made ts'.
Proof.
  intros E [Im It Is Ia]. split; [| |done|]; intros; rewrite ?E in *; try setoid_rewrite E; auto.
Qed.

Lemma Get_inv h s made ts i throws c c' s' made' :
  inv h s made ts -> ts i = Some c -> Get i h throws c s made = Some (c', s', made') -> inv h s' made' (at_pc i c' ts).
Proof.
  intros Hi Hc. destruct (i_thread _ _ _ _ Hi i c Hc) as [Hl Hk].
  pose proof (i_state _ _ _ _ Hi) as Hst. pose proof (i_made _ _ _ _ Hi) as Hma.
  assert (locked c = true -> forall p, made !! p = Some h -> (m_state s = Living /\ m_instance s = Some p) \/
    c = SetInstance p \/ c = Publish /\ m_instance s = Some p) as Hmi.
  { intros Hlc p Hp. destruct (Hma p Hp) as [?|(j & Hj)]; [by left|]. right.
    destruct (decide (j = i)) as [->|Hne]; [rewrite Hc in Hj; naive_solver|].
    destruct Hj as [Hj|[Hj _]]; by discriminate (outside _ _ _ _ _ _ _ _ Hi Hc Hlc Hj Hne). }
  destruct c as [| | | |q| |ok| |r|]; cbn in *; try done.
  - case_bool_decide as E; intros [= <- <- <-]; by eapply outside_frame.
  - destruct (m_mutex s) eqn:Em; [done|]. intros [= <- <- <-]. by eapply outside_frame.
  - specialize (Hl eq_refl). case_bool_decide as E; intros [= <- <- <-].
    + eapply locked_frame; eauto. intros p Hp. destruct (Hmi eq_refl p Hp); naive_solver.
    + eapply locked_frame; eauto; [by destruct Hst as [?|[? _]]|]. intros p Hp. destruct (Hmi eq_refl p Hp); naive_solver.
  - specialize (Hl eq_refl). destruct throws; intros [= <- <- <-].
    + eapply locked_frame; eauto; [done|]. intros p Hp. destruct (Hmi eq_refl p Hp); naive_solver.
    + eapply locked_frame; eauto; cbn.
      * split; [done|]. by apply list_lookup_middle.
      * intros p Hp. apply lookup_app_Some in Hp as [Hp|[Hge Hp]]; [destruct (Hmi eq_refl p Hp); naive_solver|].
        apply list_lookup_singleton_Some in Hp as [E _]. right. left. f_equal. lia.
  - destruct Hk as [Hd Hq]. specialize (Hl eq_refl). intros [= <- <- <-].
    eapply locked_frame; eauto; cbn; [congruence| |].
    + eauto.
    + intros p Hp. right. right. split; [done|]. destruct (Hmi eq_refl p Hp) as [[? _]|[[= ->]|[? _]]]; [congruence|done|done].
  - destruct Hk as (Hd & q & Hq & Hqm). specialize (Hl eq_refl). intros [= <- <- <-].
    eapply locked_frame; eauto; cbn; [done|].
    intros p Hp. left. split; [done|]. destruct (Hmi eq_refl p Hp); naive_solver.
  - specialize (Hl eq_refl). intros [= <- <- <-].
    eapply locked_frame; eauto; cbn; [by destruct ok|by destruct ok|].
    intros p Hp. left. destruct (Hmi eq_refl p Hp); naive_solver.
  - intros [= <- <- <-]. eapply outside_frame; eauto; cbn; try done; by split.
Qed.

End LazySingletonHolderFacts.

(** ** The composition *)

Module HLazySingletonFacts.
Import HLazySingleton.
Module SF := StaticSingletonHolderFacts.
Module LF := LazySingletonHolderFacts.

(** The threads as the table sees them, and as holder [h] does. *)
Definition static_of (th : thread) : nat * nat * S.pc :=
  (unit_of th, key_of th, match at_ th with get_holder c => c | Get h _ => S.Done h end).
Definition on (h : nat) (th : thread) : option L.pc :=
  match at_ th with Get h' c => if decide (h' = h) then Some c else None | get_holder _ => None end.
Definition sview (ths : list thread) : SF.view := fun i => static_of <$> ths !! i.
Definition lview (h : nat) (ths : list thread) : LF.view := fun i => ths !! i ≫= on h.

Record inv (s : st) : Prop := {
  v_static : SF.inv (shared s) (sview (threads s));
  v_length : length (holders s) = length (S.made (shared s));
  v_insts : forall p h, insts s !! p = Some h -> (h < length (holders s))%nat;
  v_holder : forall h hs, holders s !! h = Some hs -> LF.inv h hs (insts s) (lview h (threads s))
}.

Lemma start_inv calls : inv (start calls).
Proof.
  split; cbn; [|done|done|done]. apply SF.table_start_inv. intros i u k c. unfold sview.
  rewrite list_lookup_fmap. destruct (calls !! i); [|done]. cbn. by intros [= <- <- <-].
Qed.

Lemma sview_insert ths i th th' u k c j :
  ths !! i = Some th -> static_of th' = (u, k, c) -> sview (<[i := th']> ths) j = SF.at_pc i u k c (sview ths) j.
Proof.
  intros Hi E. unfold sview, SF.at_pc. case_decide as Hj; [subst|by rewrite list_lookup_insert_ne].
  rewrite list_lookup_insert_eq by (by eapply lookup_lt_Some). cbn. by rewrite E.
Qed.

(** A thread that is not, and will not be, on holder [h] does not count there. *)
Lemma lview_insert_ne h ths i th th' j :
  ths !! i = Some th -> on h th = on h th' -> lview h (<[i := th']> ths) j = lview h ths j.
Proof.
  intros Hi E. unfold lview. destruct (decide (i = j)) as [->|Hj]; [|by rewrite list_lookup_insert_ne].
  rewrite list_lookup_insert_eq by (by eapply lookup_lt_Some). rewrite Hi. by cbn.
Qed.

Lemma lview_insert h ths i th th' c j :
  ths !! i = Some th -> on h th' = Some c -> lview h (<[i := th']> ths) j = LF.at_pc i c (lview h ths) j.
Proof.
  intros Hi E. unfold lview, LF.at_pc. case_decide as Hj; [subst|by rewrite list_lookup_insert_ne].
  by rewrite list_lookup_insert_eq by (by eapply lookup_lt_Some).
Qed.

(** A thread enters a holder. *)
Lemma enter_inv h s made ts i : LF.inv h s made ts -> ts i = None -> LF.inv h s made (LF.at_pc i L.Load ts).
Proof.
  intros [Im It Is Ia] Hi. unfold LF.at_pc. split; [| |done|].
  - intros j Hj. destruct (Im j Hj) as (c & Hc & ?). exists c. case_decide; [congruence|done].
  - intros j c. case_decide; [by intros [= <-]|apply It].
  - intros p Hp. destruct (Ia p Hp) as [?|(j & Hj)]; [by left|]. right. exists j. case_decide; [|done].
    subst. rewrite Hi in Hj. by destruct Hj as [?|[? _]].
Qed.

(** A holder that was just made: nobody is there. *)
Lemma fresh_inv h made ts : (forall i, ts i = None) -> (forall p, made !! p <> Some h) -> LF.inv h L.init made ts.
Proof. intros Ht Hm. split; [done| |by left|]; intros p; [by rewrite Ht|by intros Hp%Hm]. Qed.

(** An action of the holder's threads leaves the other holders alone. *)
Lemma other_holder h h' s made made' ts :
  LF.inv h s made ts -> (made' = made \/ made' = made ++ [h']) -> h' <> h -> LF.inv h s made' ts.
Proof.
  intros Hi [->| ->] Hne; [done|]. destruct Hi as [Im It Is Ia].
  assert (forall p, (made ++ [h']) !! p = Some h <-> made !! p = Some h) as E.
  { intros p. split; [|apply lookup_app_l_Some]. intros Hp. apply lookup_app_Some in Hp as [?|[_ Hp]]; [done|].
    apply list_lookup_singleton_Some in Hp as [_ ?]. by subst. }
  split; [done| | |].
  - intros i c Hc. destruct (It i c Hc) as [H1 H2]. split; [done|].
    destruct c as [| | | |q| |[|]| |r|]; cbn in *; try done; try (by rewrite E). destruct H2 as (? & q & ? & Hq). split; [done|].
    exists q. by rewrite E.
  - destruct Is as [?|(? & p & ? & Hp)]; [by left|]. right. split; [done|]. exists p. by rewrite E.
  - intros p Hp. apply Ia. by apply E.
Qed.

Lemma insts_grow i h throws c hs made c' hs' made' :
  L.Get i h throws c hs made = Some (c', hs', made') -> made' = made \/ made' = made ++ [h].
Proof. destruct c; cbn; try done; repeat case_match; intros; simplify_eq; auto. Qed.

Lemma made_grow i u k throws c s c' s' :
  S.Create i u k throws c s = Some (c', s') -> S.made s' = S.made s \/ S.made s' = S.made s ++ [k].
Proof.
  unfold S.Create, S.create_entry, S.entry_create, S.set_entry.
  destruct c; cbn; try done; try (destruct (S.m_map s !! k) eqn:E; cbn; [|try done]);
    repeat case_match; intros; simplify_eq; auto.
Qed.

Lemma grow_lookup s s' hs h x k :
  length hs = length (S.made s) -> S.made s' = S.made s \/ S.made s' = S.made s ++ [k] ->
  grow s s' hs !! h = Some x -> hs !! h = Some x \/ (length hs <= h)%nat /\ x = L.init.
Proof.
  intros Hl _ H. apply lookup_app_Some in H as [?|[Hge H]]; [by left|]. right. split; [done|].
  by apply lookup_replicate in H as [-> _].
Qed.

Lemma grow_length s s' hs k :
  length hs = length (S.made s) -> S.made s' = S.made s \/ S.made s' = S.made s ++ [k] ->
  length (grow s s' hs) = length (S.made s').
Proof. intros Hl [E|E]; unfold grow; rewrite length_app, length_replicate, E, ?length_app; cbn; lia. Qed.

(** The holder a thread is on was made for its key. *)
Lemma on_holder s i u k h c : inv s -> threads s !! i = Some (Thread u k (Get h c)) -> S.made (shared s) !! h = Some k.
Proof.
  intros Hi Hc. apply (SF.i_ptr _ _ (v_static _ Hi)).
  apply (SF.i_thread _ _ (v_static _ Hi) i u k (S.Done h)). unfold sview. by rewrite Hc.
Qed.

Lemma exec_static_inv s i throws u k c c' sh :
  inv s -> threads s !! i = Some (Thread u k (get_holder c)) -> S.Create i u k throws c (shared s) = Some (c', sh) ->
  inv (St sh (grow (shared s) sh (holders s)) (insts s) (<[i := Thread u k (get_holder c')]> (threads s))).
Proof.
  intros Hi Hc Hx. pose proof Hi as [Hs Hl Hn Hh]. pose proof (made_grow _ _ _ _ _ _ _ _ Hx) as Hg.
  assert (forall h, on h (Thread u k (get_holder c)) = on h (Thread u k (get_holder c'))) as Hon by done.
  split; cbn.
  - eapply SF.table_inv_ext; [intros j; by eapply sview_insert|].
    eapply SF.Create_inv; [done| |done]. unfold sview. by rewrite Hc.
  - by eapply grow_length.
  - intros p h Hp. unfold grow. rewrite length_app. specialize (Hn p h Hp). lia.
  - intros h hs Hk. eapply LF.holder_inv_ext; [intros j; by eapply lview_insert_ne|].
    destruct (grow_lookup _ _ _ _ _ _ Hl Hg Hk) as [H|[Hge ->]]; [by apply Hh|].
    apply fresh_inv.
    + intros j. unfold lview. destruct (threads s !! j) as [[v q [d|h' d]]|] eqn:Ej; [done| |done]. cbn.
      case_decide; [|done]. subst. pose proof (on_holder _ _ _ _ _ _ Hi Ej) as Hb. apply lookup_lt_Some in Hb. lia.
    + intros p Hp. specialize (Hn p h Hp). lia.
Qed.

Lemma exec_inv s i throws s' : inv s -> exec i throws s = Some s' -> inv s'.
Proof.
  intros Hi. unfold exec. destruct (threads s !! i) as [[u k c]|] eqn:Hc; [|done]. cbn [mbind option_bind].
  pose proof Hi as [Hs Hl Hn Hh]. destruct c as [c|h c].
  - assert ((exists h, c = S.Done h) \/ forall h, c <> S.Done h) as [[h ->]|Hd] by (destruct c; eauto; by right).
    + intros [= <-]. split; cbn; [| |done|].
      * eapply SF.table_inv_ext; [|exact Hs]. intros j. erewrite sview_insert by done. unfold SF.at_pc, sview.
        case_decide; [subst; by rewrite Hc|done].
      * done.
      * intros h' hs Hk. destruct (decide (h = h')) as [->|Hne].
        -- eapply LF.holder_inv_ext; [intros j; eapply lview_insert; [done|]; cbn; by rewrite decide_True|].
           apply enter_inv; [by apply Hh|]. unfold lview. by rewrite Hc.
        -- eapply LF.holder_inv_ext; [intros j; eapply lview_insert_ne; [done|]; cbn; by rewrite decide_False|]. by apply Hh.
    + intros Hx. assert (exists c' sh, S.Create i u k throws c (shared s) = Some (c', sh) /\
        s' = St sh (grow (shared s) sh (holders s)) (insts s) (<[i := Thread u k (get_holder c')]> (threads s))) as (c' & sh & Hx' & ->).
      { destruct (S.Create i u k throws c (shared s)) as [[c' sh]|] eqn:E; destruct c; simplify_eq/=; eauto; by edestruct Hd. }
      by eapply exec_static_inv.
  - destruct (holders s !! h) as [hs|] eqn:Hk; [|done]. cbn.
    destruct (L.Get i h throws c hs (insts s)) as [[[c' hs'] insts']|] eqn:Hx; [|done]. intros [= <-].
    pose proof (insts_grow _ _ _ _ _ _ _ _ _ Hx) as Hg. split; cbn.
    + eapply SF.table_inv_ext; [|exact Hs]. intros j. erewrite sview_insert by done. unfold SF.at_pc, sview.
      case_decide; [subst; by rewrite Hc|done].
    + by rewrite length_insert.
    + intros p q Hp. rewrite length_insert. destruct Hg as [->| ->]; [by eapply Hn|].
      apply lookup_app_Some in Hp as [?|[_ Hp]]; [by eapply Hn|].
      apply list_lookup_singleton_Some in Hp as [_ <-]. by eapply lookup_lt_Some.
    + intros q x Hq. destruct (decide (h = q)) as [<-|Hne].
      * rewrite list_lookup_insert_eq in Hq by (by eapply lookup_lt_Some). injection Hq as <-.
        eapply LF.holder_inv_ext; [intros j; eapply lview_insert; [done|]; cbn; by rewrite decide_True|].
        eapply LF.Get_inv; [by apply Hh| |done]. unfold lview. rewrite Hc. cbn. by rewrite decide_True.
      * rewrite list_lookup_insert_ne in Hq by done.
        eapply LF.holder_inv_ext; [intros j; eapply lview_insert_ne; [done|]; cbn; by rewrite !decide_False|].
        eapply other_holder; [by apply Hh|done|done].
Qed.

Lemma singleton_reach_inv calls s : reach (start calls) s -> inv s.
Proof. induction 1; [apply start_inv|by eapply exec_inv]. Qed.

End HLazySingletonFacts.

(** ** Properties *)

Section properties.
Import HLazySingleton HLazySingletonFacts.

(** C5: All calls for a type and tag that have returned, from whatever unit, have the same
    pointer; it is that of an object made for them, and no second one was made. *)
Theorem single_instance calls s i j u v k h h' r r' :
  reach (start calls) s ->
  threads s !! i = Some (Thread u k (Get h (L.Done r))) ->
  threads s !! j = Some (Thread v k (Get h' (L.Done r'))) ->
  h = h' /\ r = r' /\ exists p, r = Some p /\ insts s !! p = Some h /\
    forall q g, insts s !! q = Some g -> S.made (shared s) !! g = Some k -> q = p.
Proof.
  intros Hr Hi Hj. apply singleton_reach_inv in Hr as Hv.
  pose proof (on_holder _ _ _ _ _ _ Hv Hi) as Hh. pose proof (on_holder _ _ _ _ _ _ Hv Hj) as Hh'.
  pose proof (SF.made_unique _ _ _ _ _ (v_static _ Hv) Hh Hh') as <-. split; [done|].
  destruct (lookup_lt_is_Some_2 (holders s) h) as [hs Hs]; [rewrite (v_length _ Hv); by eapply lookup_lt_Some|].
  pose proof (v_holder _ Hv _ _ Hs) as Hl.
  destruct (LF.i_thread _ _ _ _ Hl i (L.Done r)) as [_ [El ->]]; [unfold lview; rewrite Hi; cbn; by rewrite decide_True|].
  destruct (LF.i_thread _ _ _ _ Hl j (L.Done r')) as [_ [_ ->]]; [unfold lview; rewrite Hj; cbn; by rewrite decide_True|].
  split; [done|]. destruct (LF.i_state _ _ _ _ Hl) as [?|(_ & p & Ep & Hp)]; [congruence|].
  exists p. split_and!; [done|done|]. intros q g Hq Hg.
  pose proof (SF.made_unique _ _ _ _ _ (v_static _ Hv) Hh Hg) as <-.
  destruct (LF.i_made _ _ _ _ Hl q Hq) as [[_ E]|(m & Hm)]; [congruence|].
  destruct Hm as [Hm|[Hm _]]; by pose proof (proj2 (LF.i_thread _ _ _ _ Hl m _ Hm)) as [? _]; congruence.
Qed.

(** Two units ask for one type at once: a schedule that interleaves them, with one object. *)
Definition two_units : list (nat * bool) := map (fun i => (i, false)) (concat (replicate 40 [0; 1]%nat)).

Lemma run_reach s0 sched s : reach s0 s -> reach s0 (run sched s).
Proof.
  revert s. induction sched as [|[i b] rest IH]; intros s Hs; [done|]. cbn. apply IH.
  destruct (exec i b s) eqn:E; [by eapply reach_step|done].
Qed.

Lemma single_instance_witness :
  let s := run two_units (start [(0, 7); (1, 7)]%nat) in
  threads s = [Thread 0 7 (Get 0 (L.Done (Some 0))); Thread 1 7 (Get 0 (L.Done (Some 0)))]%nat /\
  exists p, Some 0%nat = Some p /\ insts s !! p = Some 0%nat /\
    forall q g, insts s !! q = Some g -> S.made (shared s) !! g = Some 7%nat -> q = p.
Proof.
  split; [by vm_compute|].
  refine (proj2 (proj2 (single_instance [(0, 7); (1, 7)]%nat _ 0 1 0 1 7 0 0 (Some 0%nat) (Some 0%nat) _ _ _))).
  - apply run_reach, reach_refl.
  - by vm_compute.
  - by vm_compute.
Defined.

(** What is left to do for a thread. *)
Definition left_of (th : thread) : nat :=
  match at_ th with
  | get_holder c =>
    match c with
    | S.LoadCache => 30 | S.LockMap => 29 | S.Find => 28 | S.UnlockMap => 27 | S.Load1 => 26 | S.LockEntry => 25
    | S.Load2 => 24 | S.Make => 23 | S.StorePtr _ => 22 | S.Unlock _ => 21 | S.StoreCache _ => 20 | S.Done _ => 19
    | S.Threw => 0
    end
  | Get _ c =>
    match c with
    | L.Load => 9 | L.Lock => 8 | L.Check => 7 | L.New => 6 | L.SetInstance _ => 5 | L.Publish => 4 | L.Unlock _ => 3
    | L.Read => 2 | L.Done _ | L.Threw => 0
    end
  end.

Definition work (s : st) : nat := sum_list_with left_of (threads s).

Lemma work_insert ths i th th' :
  ths !! i = Some th -> (left_of th' < left_of th)%nat ->
  (sum_list_with left_of (<[i := th']> ths) < sum_list_with left_of ths)%nat.
Proof. revert i. induction ths as [|x ths IH]; intros [|i]; cbn; try done; [intros [= ->]; lia|]. intros Hi Hl. apply Nat.add_lt_mono_l, (IH i Hi Hl). Qed.

Lemma Create_left i u k b c s c' s' :
  S.Create i u k b c s = Some (c', s') -> (left_of (Thread u k (get_holder c')) < left_of (Thread u k (get_holder c)))%nat.
Proof.
  unfold S.Create, S.create_entry, S.entry_create. destruct (S.m_map s !! k) eqn:E; destruct c; cbn; try done;
    repeat case_match; intros; simplify_eq; cbn; lia.
Qed.

Lemma Get_left i h b c s made c' s' made' u k :
  L.Get i h b c s made = Some (c', s', made') -> (left_of (Thread u k (Get h c')) < left_of (Thread u k (Get h c)))%nat.
Proof. destruct c; cbn; try done; repeat case_match; intros; simplify_eq; cbn; lia. Qed.

Lemma exec_work i b s s' : exec i b s = Some s' -> (work s' < work s)%nat.
Proof.
  unfold exec, work. destruct (threads s !! i) as [[u k c]|] eqn:Hi; [|done]. cbn [mbind option_bind].
  destruct c as [c|h c].
  - destruct c; cbn [mbind option_bind]; try (destruct (S.Create _ _ _ _ _ _) as [[c' sh]|] eqn:E; [|done]);
      intros [= <-]; eapply work_insert; try done; try (by eapply Create_left); cbn; lia.
  - destruct (holders s !! h) as [hs|]; [|done]. cbn. destruct (L.Get _ _ _ _ _ _) as [[[c' hs'] insts']|] eqn:E; [|done].
    intros [= <-]. eapply work_insert; [done|by eapply Get_left].
Qed.

Lemma exec_static i b s u k c c' sh :
  threads s !! i = Some (Thread u k (get_holder c)) -> S.Create i u k b c (shared s) = Some (c', sh) -> is_Some (exec i b s).
Proof. intros Hi Hx. unfold exec. rewrite Hi. cbn [mbind option_bind]. rewrite Hx. by destruct c; eexists. Qed.

(** The thread that has the mutex of a holder goes on. *)
Lemma exec_locked i s u k h c hs :
  threads s !! i = Some (Thread u k (Get h c)) -> holders s !! h = Some hs ->
  (LF.locked c = true \/ c = L.Load \/ c = L.Read \/ c = L.Lock /\ L.m_mutex hs = None) -> is_Some (exec i false s).
Proof.
  intros Hi Hh Hc. unfold exec. rewrite Hi. cbn. rewrite Hh. cbn.
  destruct c; cbn; try (by eexists); try (destruct Hc as [?|[?|[?|[? ->]]]]; try done; by eexists);
    by destruct Hc as [?|[?|[?|[? _]]]].
Qed.

Lemma sview_inv ths i u k c :
  sview ths i = Some (u, k, c) -> (forall p, c <> S.Done p) -> ths !! i = Some (Thread u k (get_holder c)).
Proof.
  unfold sview. destruct (ths !! i) as [[v q [d|h d]]|]; cbn; [| |done]; intros [= <- <- <-] Hd; [done|by destruct (Hd h)].
Qed.

Lemma exec_progress s i th :
  inv s -> threads s !! i = Some th -> ended th = false -> exists j, is_Some (exec j false s).
Proof.
  intros Hv Hi He. destruct th as [u k [c|h c]].
  - destruct c as [| | | | | | | |p|r|p|p|] eqn:Ec; try done;
      try (destruct (SF.Create_progress _ _ i u k c (v_static _ Hv)) as (j & v & q & d & Hj & [[d' sh] Hx]);
        [unfold sview; by rewrite Hi, Ec|by subst|by subst|]; exists j; subst c;
        eapply exec_static; [by eapply sview_inv; [done|intros p' ->]|done]).
    exists i. unfold exec. rewrite Hi. by eexists.
  - destruct (lookup_lt_is_Some_2 (holders s) h) as [hs Hs].
    { rewrite (v_length _ Hv). eapply lookup_lt_Some, (on_holder _ _ _ _ _ _ Hv Hi). }
    destruct (decide (c = L.Lock)) as [->|Hc]; [|exists i; eapply exec_locked; try done; destruct c; try done; auto].
    destruct (L.m_mutex hs) as [j|] eqn:Em; [|exists i; eapply exec_locked; eauto].
    destruct (LF.i_mutex _ _ _ _ (v_holder _ Hv _ _ Hs) j Em) as (d & Hd & Hl). unfold lview in Hd.
    destruct (threads s !! j) as [[v q [e|g e]]|] eqn:Ej; try done. cbn in Hd. case_decide; [|done]. subst. injection Hd as ->.
    exists j. eapply exec_locked; eauto.
Qed.

Definition step (s s' : st) : Prop := exists i b, exec i b s = Some s'.

(** C17: Whatever the schedule, and whether constructors throw, the calls come to an end: no
    run is infinite, and one that cannot go on has returned from, or thrown in, all calls. *)
Theorem Get_ends calls s :
  reach (start calls) s -> sn step s /\ (nf step s -> forallb ended (threads s) = true).
Proof.
  intros Hr. split.
  - clear Hr. induction s as [s IH] using (well_founded_induction (Wf_nat.well_founded_ltof _ work)).
    constructor. intros s' (i & b & Hx). apply IH. unfold Wf_nat.ltof. by eapply exec_work.
  - intros Hn. apply Is_true_eq_true, forallb_True, Forall_lookup. intros i th Hi. destruct (ended th) eqn:E; [done|].
    destruct (exec_progress _ _ _ (singleton_reach_inv _ _ Hr) Hi E) as [j [s' Hx]]. destruct Hn. by exists s', j, false.
Qed.

Lemma Get_ends_witness :
  let s := start [(0, 7); (1, 7)]%nat in sn step s /\ (nf step (run two_units s) -> forallb ended (threads (run two_units s)) = true).
Proof.
  split; [exact (proj1 (Get_ends _ _ (reach_refl _)))|].
  exact (proj2 (Get_ends _ _ (run_reach _ _ _ (reach_refl _)))).
Defined.

(** A constructor that throws ends the call with its exception; the mutexes are free again,
    and the next call makes the object. *)
Example throwing_constructor :
  let s := run (replicate 16 (0%nat, true) ++ replicate 40 (1%nat, false)) (start [(0, 7); (1, 7)]%nat) in
  threads s = [Thread 0 7 (get_holder S.Threw); Thread 1 7 (Get 0 (L.Done (Some 0)))]%nat.
Proof. by vm_compute. Qed.

End properties.
