(* ===== verification/Fork.v ===== *)
(** * Fork handlers and the cached process id: [src/process/atfork.cpp], [src/process/pid.cpp]

    The list of handlers runs around a fork through the three functions given to
    [pthread_atfork].  A handler's name is a reference to the caller's string, so the
    strings are a store of their own in which a string can be gone.  What a handler
    does is a number in the trace, but for the one of [PidCache], which sets the cache. *)

From S2P Require Import Prelude StdString.

Module HAtFork.

(** What a handler does; [None] below is an empty function. *)
Inductive action : Type := Nop | SetPid | User (n : nat).

#[global] Instance action_eq_dec : EqDecision action.
Proof. solve_decision. Defined.

(** [strName]: the place of the string the reference was bound to. *)
Record AtForkTask : Type := Task { strName : nat; prepare : option action; parent : option action; child : option action }.

(** A process: its id, its strings ([None]: destroyed), [AtForkList] once it is made, [PidCache::m_pid], and
    what its handlers have done. *)
Record proc : Type := Proc { pid : Z; strs : list (option bytes); m_task : option (list AtForkTask); m_pid : Z; trace : list action }.

Definition start (pid : Z) : proc := Proc pid [] None 0 [].

(** [AtForkList::Prepare], [Parent] and [Child]: the handlers of one kind, in order. *)
Definition Prepare (ts : list AtForkTask) : list action := omap prepare ts.
Definition Parent (ts : list AtForkTask) : list action := omap parent ts.
Definition Child (ts : list AtForkTask) : list action := omap child ts.

Definition Append (strName : nat) (prepare parent son : option action) (ts : list AtForkTask) : list AtForkTask :=
  ts ++ [Task strName prepare parent son].

(** [Remove]: the first task whose name compares equal; a name that is gone is read all the same. *)
Fixpoint Remove (st : list (option bytes)) (name : bytes) (ts : list AtForkTask) : res (list AtForkTask) :=
  match ts with
  | [] => Ret []
  | t :: ts =>
    match st !! strName t with
    | Some (Some s) => if bool_decide (s = name) then Ret ts else ts ← Remove st name ts; Ret (t :: ts)
    | _ => Throw UB
    end
  end.

(** [AtForkListSingleton::Get]: [Make] registers with [pthread_atfork], which answers 0. *)
Definition Get (p : proc) : list AtForkTask := default [] (m_task p).

Definition set_tasks (ts : list AtForkTask) (p : proc) : proc := Proc (pid p) (strs p) (Some ts) (m_pid p) (trace p).

Definition RegisterHandler (strName : nat) (prepare parent son : option action) (p : proc) : proc :=
  set_tasks (Append strName prepare parent son (Get p)) p.

Definition UnregisterHandler (name : bytes) (p : proc) : res proc :=
  ts ← Remove (strs p) name (Get p); Ret (set_tasks ts p).

(** What the handlers do to a process. *)
Definition act (a : action) (p : proc) : proc :=
  Proc (pid p) (strs p) (m_task p) (match a with SetPid => pid p | _ => m_pid p end)
       (match a with User _ => trace p ++ [a] | _ => trace p end).

Definition run_all (l : list action) (p : proc) : proc := foldl (fun p a => act a p) p l.

(** [fork]: the handlers of [pthread_atfork] run only once the list has been made; the
    child is the parent after the prepare handlers, with an id of its own. *)
Definition fork (newpid : Z) (p : proc) : proc * proc :=
  match m_task p with
  | None => (p, Proc newpid (strs p) (m_task p) (m_pid p) (trace p))
  | Some ts =>
    let p := run_all (Prepare ts) p in
    (run_all (Parent ts) p, run_all (Child ts) (Proc newpid (strs p) (m_task p) (m_pid p) (trace p)))
  end.

(** A string of the caller, and its end. *)
Definition new_string (s : bytes) (p : proc) : nat * proc :=
  (length (strs p), Proc (pid p) (strs p ++ [Some s]) (m_task p) (m_pid p) (trace p)).
Definition free_string (i : nat) (p : proc) : proc := Proc (pid p) (<[i := None]> (strs p)) (m_task p) (m_pid p) (trace p).

End HAtFork.

Module PidCache.
Import HAtFork.

Definition valid (p : proc) : bool := negb (m_pid p =? 0).

Definition set_pid (p : proc) : proc := Proc (pid p) (strs p) (m_task p) (pid p) (trace p).

(** [init]: the name is a temporary, destroyed when [RegisterHandler] has returned. *)
Definition init (p : proc) : proc :=
  let '(i, p) := new_string (str "pidcache") p in
  let p := RegisterHandler i (Some Nop) (Some Nop) (Some SetPid) p in
  set_pid (free_string i p).

Definition HGetPid (p : proc) : Z * proc :=
  let p := if negb (valid p) then init p else p in (m_pid p, p).

End PidCache.

(** What a program does with them, and which side of a fork is looked at. *)
Inductive event : Type :=
  | EGetPid
  | ERegister (name : bytes) (keep : bool) (prepare parent son : option nat)
  | EUnregister (name : bytes)
  | EFork (newpid : Z) (follow_child : bool).

Definition do_event (e : event) (p : HAtFork.proc) : res HAtFork.proc :=
  match e with
  | EGetPid => Ret (snd (PidCache.HGetPid p))
  | ERegister name keep a b c =>
    let '(i, p) := HAtFork.new_string name p in
    let p := HAtFork.RegisterHandler i (HAtFork.User <$> a) (HAtFork.User <$> b) (HAtFork.User <$> c) p in
    Ret (if keep then p else HAtFork.free_string i p)
  | EUnregister name => HAtFork.UnregisterHandler name p
  | EFork newpid follow => let '(q, c) := HAtFork.fork newpid p in Ret (if (follow : bool) then c else q)
  end.

Fixpoint do_events (es : list event) (p : HAtFork.proc) : res HAtFork.proc :=
  match es with [] => Ret p | e :: es => p ← do_event e p; do_events es p end.

(** ** Facts *)

Section facts.
Import HAtFork PidCache.

Lemma run_all_fields l p :
  pid (run_all l p) = pid p /\ strs (run_all l p) = strs p /\ m_task (run_all l p) = m_task p /\
  m_pid (run_all l p) = (if bool_decide (SetPid ∈ l) then pid p else m_pid p).
Proof.
  revert p. induction l as [|a l IH]; intros p; [done|].
  change (run_all (a :: l) p) with (run_all l (act a p)). destruct (IH (act a p)) as (-> & -> & -> & ->).
  split_and!; [done|done|done|]. cbn. case_bool_decide as E; case_bool_decide as E'; try done.
  - by destruct E'; right.
  - destruct a; try done; by apply elem_of_cons in E' as [|].
  - destruct a; try done. by destruct E'; left.
Qed.

Lemma set_pid_in p (f : AtForkTask -> option action) ts t : t ∈ ts -> f t = Some SetPid -> m_pid (run_all (omap f ts) p) = pid p.
Proof.
  intros Ht Hf. destruct (run_all_fields (omap f ts) p) as (_ & _ & _ & ->).
  rewrite bool_decide_eq_true_2; [done|]. apply list_elem_of_omap. by exists t.
Qed.

(** The handler of the cache is the only one that sets it, and only in a child. *)
Record inv (p : proc) : Prop := {
  i_pid : pid p <> 0;
  i_only : forall t, t ∈ Get p -> prepare t <> Some SetPid /\ parent t <> Some SetPid;
  i_name : forall t, t ∈ Get p -> child t = Some SetPid -> strs p !! strName t = Some None;
  i_cache : m_pid p = 0 \/ m_pid p = pid p /\ exists t ts, m_task p = Some ts /\ t ∈ ts /\ child t = Some SetPid
}.

Lemma run_other p (f : AtForkTask -> option action) ts : (forall t, t ∈ ts -> f t <> Some SetPid) -> m_pid (run_all (omap f ts) p) = m_pid p.
Proof.
  intros Hf. destruct (run_all_fields (omap f ts) p) as (_ & _ & _ & ->).
  rewrite bool_decide_eq_false_2; [done|]. intros (t & Ht & E)%list_elem_of_omap. by apply (Hf t Ht).
Qed.

Lemma append_inv p i a b c p' :
  inv p -> a <> Some SetPid -> b <> Some SetPid -> pid p' = pid p -> m_task p' = Some (Append i a b c (Get p)) ->
  (forall j, strs p !! j = Some None -> strs p' !! j = Some None) -> (c = Some SetPid -> strs p' !! i = Some None) ->
  (m_pid p' = m_pid p \/ m_pid p' = pid p /\ c = Some SetPid) -> inv p'.
Proof.
  intros [Hp Ho Hn Hc] Ha Hb Ep Et Hst Hi Em. split; [by rewrite Ep| | |].
  - intros t. unfold Get. rewrite Et. cbn. intros [Ht|Ht]%elem_of_app; [by apply Ho|].
    by apply list_elem_of_singleton in Ht as ->.
  - intros t. unfold Get. rewrite Et. cbn. intros [Ht|Ht]%elem_of_app Hs; [by apply Hst, Hn|].
    apply list_elem_of_singleton in Ht as ->. by apply Hi.
  - rewrite Ep. destruct Em as [-> |[-> ->]].
    + destruct Hc as [?|(E & t & ts & Ets & Ht & Hs)]; [by left|]. right. split; [done|].
      exists t. eexists. split; [done|]. split; [|done]. apply elem_of_app. left. unfold Get. by rewrite Ets.
    + right. split; [done|]. eexists (Task i a b (Some SetPid)), _. split; [done|]. split; [|done]. apply elem_of_app. right. by left.
Qed.

Lemma init_strs p : strs (init p) = <[length (strs p) := None]> (strs p ++ [Some (str "pidcache")]).
Proof. done. Qed.

Lemma init_tasks p : m_task (init p) = Some (Append (length (strs p)) (Some Nop) (Some Nop) (Some SetPid) (Get p)).
Proof. done. Qed.

Lemma HGetPid_inv p : inv p -> fst (HGetPid p) = pid p /\ pid (snd (HGetPid p)) = pid p /\ inv (snd (HGetPid p)).
Proof.
  intros Hi. unfold HGetPid, valid. rewrite negb_involutive. destruct (m_pid p =? 0) eqn:E.
  - split_and!; [done|done|]. eapply append_inv; [exact Hi| | |done|done| | |by right]; [done|done| |].
    + intros j Hj. cbn [snd]. rewrite init_strs, list_lookup_insert_ne by (apply lookup_lt_Some in Hj; lia). by apply lookup_app_l_Some.
    + intros _. cbn [snd]. rewrite init_strs. apply list_lookup_insert_eq. rewrite length_app. cbn. lia.
  - pose proof (i_cache _ Hi) as [Hc|[Hc _]]; bool_to_prop; by split_and!.
Qed.

Lemma fork_inv p newpid : newpid <> 0 -> inv p -> inv (fst (fork newpid p)) /\ inv (snd (fork newpid p)).
Proof.
  intros Hn [Hp Ho Hna Hc]. unfold fork. destruct (m_task p) as [ts|] eqn:Et; cbn [fst snd].
  - assert (Get p = ts) as Eg by (unfold Get; by rewrite Et). rewrite Eg in Ho, Hna.
    assert (forall t, t ∈ ts -> prepare t <> Some SetPid) as Hpr by (intros t Ht; by apply Ho).
    assert (forall t, t ∈ ts -> parent t <> Some SetPid) as Hpa by (intros t Ht; by apply Ho).
    unfold Prepare, Parent, Child.
    destruct (run_all_fields (omap prepare ts) p) as (E1 & E2 & E3 & _). pose proof (run_other p prepare ts Hpr) as E4.
    set (q := run_all (omap prepare ts) p) in *.
    destruct (run_all_fields (omap parent ts) q) as (F1 & F2 & F3 & _). pose proof (run_other q parent ts Hpa) as F4.
    set (c := Proc newpid (strs q) (m_task q) (m_pid q) (trace q)).
    destruct (run_all_fields (omap child ts) c) as (G1 & G2 & G3 & G4). split; split.
    + by rewrite F1, E1.
    + unfold Get. rewrite F3, E3, Et. exact Ho.
    + unfold Get. rewrite F2, E2, F3, E3, Et. exact Hna.
    + rewrite F1, F3, F4, E1, E3, E4, Et. exact Hc.
    + by rewrite G1.
    + unfold Get. rewrite G3. cbn. rewrite E3, Et. exact Ho.
    + unfold Get. rewrite G2, G3. cbn. rewrite E2, E3, Et. exact Hna.
    + rewrite G3, G1. cbn [m_task pid c]. rewrite E3, Et. destruct Hc as [Hc|(_ & t & ts' & Ets & Ht & Hs)].
      * destruct (decide (SetPid ∈ omap child ts)) as [Hin|Hin].
        -- right. rewrite G4, bool_decide_eq_true_2 by done. split; [done|].
           apply list_elem_of_omap in Hin as (t & Ht & Hs). eauto.
        -- left. rewrite G4, bool_decide_eq_false_2 by done. cbn. by rewrite E4.
      * injection Ets as <-. right. split; [by apply (set_pid_in c child ts t)|]. eauto.
  - unfold Get in Ho, Hna. rewrite Et in Ho, Hna. destruct Hc as [Hc|(_ & t & ts & ? & _)]; [|done].
    split; split; cbn; unfold Get; cbn; rewrite ?Et; try done; by left.
Qed.

(** A task whose name is gone stays: it cannot be compared. *)
Lemma Remove_keeps st name ts ts' :
  Remove st name ts = Ret ts' ->
  (forall t, t ∈ ts' -> t ∈ ts) /\ forall t, t ∈ ts -> st !! strName t = Some None -> t ∈ ts'.
Proof.
  revert ts'. induction ts as [|t ts IH]; intros ts'; cbn; [by intros [= <-]|].
  destruct (st !! strName t) as [[s|]|] eqn:E; [|done|done]. case_bool_decide.
  - intros [= <-]. split; [by right|]. intros u [->|?]%elem_of_cons Hu; [congruence|done].
  - intros (r & Hr & [= <-])%res_bind_ret. destruct (IH r Hr) as [H1 H2]. split.
    + intros u [->|?]%elem_of_cons; [by left|right; auto].
    + intros u [->|?]%elem_of_cons Hu; [by left|right; auto].
Qed.

Lemma Unregister_inv p name p' : inv p -> UnregisterHandler name p = Ret p' -> inv p'.
Proof.
  intros [Hp Ho Hn Hc] (ts & Hr & [= <-])%res_bind_ret. apply Remove_keeps in Hr as [H1 H2].
  split; [done|intros t Ht; by apply Ho, H1|intros t Ht; by apply Hn, H1|].
  destruct Hc as [?|(E & t & ts' & Ets & Ht & Hs)]; [by left|]. right. split; [done|]. exists t, ts.
  assert (t ∈ Get p) as Hg by (unfold Get; by rewrite Ets). split_and!; [done| |done]. apply H2; [done|by apply Hn].
Qed.

(** No process has the id 0. *)
Definition forks_ok (e : event) : Prop := match e with EFork n _ => n <> 0 | _ => True end.

Lemma do_event_inv e p p' : forks_ok e -> inv p -> do_event e p = Ret p' -> inv p'.
Proof.
  intros Hf Hi. destruct e as [|name keep a b c|name|n follow]; cbn.
  - intros [= <-]. by apply HGetPid_inv.
  - intros [= <-]. assert (forall o, User <$> o <> Some SetPid) as Hu by (by intros [x|]).
    destruct keep; (eapply append_inv; [exact Hi|apply Hu|apply Hu|done|done| |by intros ?%Hu|by left]); intros j Hj; cbn.
    + by apply lookup_app_l_Some.
    + rewrite list_lookup_insert_ne by (apply lookup_lt_Some in Hj; lia). by apply lookup_app_l_Some.
  - by apply Unregister_inv.
  - destruct (fork_inv p n Hf Hi) as [H1 H2]. destruct (fork n p) as [q c]. intros [= <-]. by destruct follow.
Qed.

Lemma do_events_inv es p p' : Forall forks_ok es -> inv p -> do_events es p = Ret p' -> inv p'.
Proof.
  intros Hf. revert p. induction Hf as [|e es He _ IH]; intros p Hi; cbn; [by intros [= <-]|].
  intros (q & Hq & H)%res_bind_ret. eapply IH; [|exact H]. by eapply do_event_inv.
Qed.

Lemma start_proc_inv n : n <> 0 -> inv (start n).
Proof. intros Hn. split; cbn; [done|by intros t ?%elem_of_nil|by intros t ?%elem_of_nil|by left]. Qed.

End facts.

(** ** Properties *)

Section properties.
Import HAtFork PidCache.

(** C23: The cache is right: after any calls and forks that stay defined, on whatever side
    of each fork the process is, [HGetPid] answers the id of the process. *)
Theorem HGetPid_is_pid es n p :
  n <> 0 -> Forall forks_ok es -> do_events es (start n) = Ret p -> fst (HGetPid p) = pid p.
Proof. intros Hn Hf Hp. apply HGetPid_inv. eapply do_events_inv; [done|by apply start_proc_inv|done]. Qed.

Lemma HGetPid_is_pid_witness :
  exists p, do_events [EGetPid; EFork 20 true; EFork 30 true; EGetPid] (start 10) = Ret p /\ fst (HGetPid p) = 30.
Proof.
  eexists. split; [reflexivity|]. rewrite (HGetPid_is_pid [EGetPid; EFork 20 true; EFork 30 true; EGetPid] 10); [reflexivity|done| |reflexivity].
  by repeat constructor.
Defined.

(** The name of the cache's handler is a reference to a temporary: once it is registered,
    removing any name that is not found before it reads a string that is gone. *)
Theorem Unregister_reads_dangling p name :
  m_pid p = 0 -> (forall t s, t ∈ Get p -> strs p !! strName t = Some (Some s) -> s <> name) ->
  UnregisterHandler name (snd (HGetPid p)) = Throw UB.
Proof.
  intros H0 Hn. unfold HGetPid, valid. rewrite H0. cbn [Z.eqb negb snd]. unfold UnregisterHandler, Get at 1.
  rewrite init_strs, init_tasks. cbn [default from_option id]. generalize (str "pidcache"). intros cname.
  assert (forall ts, (forall t, t ∈ ts -> t ∈ Get p) ->
    Remove (<[length (strs p) := None]> (strs p ++ [Some cname])) name
      (Append (length (strs p)) (Some Nop) (Some Nop) (Some SetPid) ts) = Throw UB) as H; [|by rewrite H].
  induction ts as [|t ts IH]; intros Ht; cbn.
  - rewrite list_lookup_insert_eq; [done|]. rewrite length_app. cbn. lia.
  - destruct (decide (strName t = length (strs p))) as [->|Hne].
    { rewrite list_lookup_insert_eq; [done|]. rewrite length_app. cbn. lia. }
    rewrite list_lookup_insert_ne by done.
    destruct (_ !! strName t) as [[s|]|] eqn:E; [|done|done].
    assert (strs p !! strName t = Some (Some s)) as Es.
    { apply lookup_app_Some in E as [?|[Hge E]]; [done|]. apply list_lookup_singleton_Some in E as [? _]. lia. }
    rewrite bool_decide_eq_false_2 by (eapply Hn; [|done]; apply Ht; by left).
    unfold Append in IH. rewrite IH; [done|]. intros u Hu. apply Ht. by right.
Qed.

Lemma Unregister_reads_dangling_witness : UnregisterHandler (str "pidcache") (snd (HGetPid (start 10))) = Throw UB.
Proof. apply Unregister_reads_dangling; [reflexivity|]. by intros t s ?%elem_of_nil. Defined.

(** The handlers before a fork run in the order of registration, like those after it: what
    was registered last is not the first to prepare. *)
Example fork_order :
  (p ← do_events [ERegister (str "a") true (Some 1%nat) (Some 2%nat) None; ERegister (str "b") true (Some 3%nat) (Some 4%nat) None;
                  EFork 20 false] (start 10); Ret (trace p))
  = Ret [User 1; User 3; User 2; User 4].
Proof. reflexivity. Qed.

End properties.
