(* ===== verification/Cryptor.v ===== *)
(** * Encodings and digests over OpenSSL: [src/crypto/base64.cpp], [des.cpp], [md5.cpp],
    [sha.cpp] and [hcrypto.cpp]

    What OpenSSL computes is a class of operations, with its documented behaviour in a
    class of laws: the base64 filter, the triple DES cipher with and without padding,
    and digests made in one call or in pieces. *)

From S2P Require Import Prelude StdString Crypto.

(** ** OpenSSL *)

(** The base64 filter without newlines: the text of some bytes, and what [BIO_read]
    returns for a text, with the bytes it stores. *)
Class Bio : Type := { BIO_encode : bytes -> bytes; BIO_decode : bytes -> Z * bytes }.

Class BioLaws `{Bio} : Prop := {
  BIO_encode_bytes x : is_bytes x -> is_bytes (BIO_encode x);
  BIO_encode_empty x : BIO_encode x = [] <-> x = [];
  BIO_encode_length x : zlen x <= zlen (BIO_encode x);
  BIO_decode_encode x : is_bytes x -> x <> [] -> BIO_decode (BIO_encode x) = (zlen x, x)
}.

(** [des-ede3-ecb]: all that Update and Final write, or [None] when one of them fails. *)
Class Evp : Type := {
  EVP_BytesToKey : bytes -> bytes;
  EVP_Encrypt : bytes -> bool -> bytes -> option bytes;
  EVP_Decrypt : bytes -> bool -> bytes -> option bytes
}.

(** The padding that Final takes off: [n] bytes of the value [n]. *)
Definition unpad (y : bytes) : option bytes :=
  match last y with
  | None => None
  | Some n =>
    if (1 <=? n) && (n <=? 8) && (n <=? zlen y) && forallb (Z.eqb n) (drop (length y - Z.to_nat n) y)
    then Some (take (length y - Z.to_nat n) y) else None
  end.

Class EvpLaws `{Evp} : Prop := {
  encrypt_blocks k x : zlen x mod 8 = 0 -> exists y, EVP_Encrypt k false x = Some y /\ zlen y = zlen x;
  encrypt_partial k x : zlen x mod 8 <> 0 -> EVP_Encrypt k false x = None;
  encrypt_bytes k x y : is_bytes x -> EVP_Encrypt k false x = Some y -> is_bytes y;
  decrypt_encrypt k x y : EVP_Encrypt k false x = Some y -> EVP_Decrypt k false y = Some x;
  decrypt_padded k y : EVP_Decrypt k true y = EVP_Decrypt k false y ≫= unpad
}.

(** A digest of [dlen] bytes, in one call or as init, updates and final. *)
Class Digest (dlen : Z) : Type := {
  context : Type;
  D_Init : context;
  D_Update : context -> bytes -> context;
  D_Final : context -> bytes;
  D_all : bytes -> bytes
}.

Class DigestLaws (dlen : Z) `{Digest dlen} : Prop := {
  D_bytes x : is_bytes (D_all x);
  D_length x : zlen (D_all x) = dlen;
  D_pieces l : D_Final (foldl D_Update D_Init l) = D_all (concat l)
}.

(** ** Base64 *)

Module Base64.
Section base64.
Context `{Bio}.

Definition base64_encode (indata : bytes) : herr * bytes :=
  if negb (0 <? zlen indata) then (INVL_PARA, []) else (OK, BIO_encode indata).

Definition Encode (indata : bytes) : herr * bytes :=
  if bool_decide (indata = []) then (OK, []) else base64_encode indata.

(** The result of [BIO_read], an error included, is stored as a size. *)
Definition base64_decode (indata : bytes) : herr * (Z * bytes) :=
  if negb (0 <? zlen indata) then (INVL_PARA, (0, []))
  else let '(n, data) := BIO_decode indata in (OK, (u64 n, data)).

Definition Decode (indata : bytes) : res (herr * bytes) :=
  if bool_decide (indata = []) then Ret (OK, [])
  else
    let '(e, (outlen, data)) := base64_decode indata in
    if negb (IS_OK e) then Ret (e, [])
    else _ ← check_ub (outlen <=? zlen indata); Ret (OK, take (Z.to_nat outlen) data).

End base64.
End Base64.

(** ** Triple DES *)

Module Des3.
Section des3.
Context `{Evp}.

(** The buffer of [outlen] bytes takes what the cipher writes; the lengths are [int]s. *)
Definition des3 (crypt : bytes -> option bytes) (src : bytes) : res (herr * bytes) :=
  let outlen := s32 (zlen src * 2) in
  _ ← check_ub (0 <=? s32 (zlen src));
  match crypt src with
  | None => Ret (DEP_ERROR, [])
  | Some y => _ ← check_ub (zlen y <=? outlen); Ret (OK, y)
  end.

(** [des3_encrypt] takes the padding off, [des3_decrypt] leaves it on. *)
Definition des3_encrypt (passwd src : bytes) : option bytes := EVP_Encrypt (EVP_BytesToKey passwd) false src.
Definition des3_decrypt (passwd src : bytes) : option bytes := EVP_Decrypt (EVP_BytesToKey passwd) true src.

Definition Encrypt (src passwd : bytes) : res (herr * bytes) := des3 (des3_encrypt passwd) src.
Definition Decrypt (src passwd : bytes) : res (herr * bytes) := des3 (des3_decrypt passwd) src.

End des3.
End Des3.

(** ** The combinations *)

Module Cryptor.
Section cryptor.
Context `{Bio} `{Evp}.

Definition Base64UrlEncode (strin : bytes) : herr * bytes :=
  let '(e, src64) := Base64.Encode strin in
  if negb (IS_OK e) then (e, []) else (OK, UrlEncode.Encode src64 []).

Definition Base64UrlDecode (strIn : bytes) : res (herr * bytes) :=
  url_src ← UrlEncode.Decode strIn;
  '(e, mem) ← Base64.Decode url_src;
  if negb (IS_OK e) then Ret (e, []) else Ret (OK, mem).

Definition Des3Base64UrlEncode (strin strPassword : bytes) : res (herr * bytes) :=
  '(e, des3_dst) ← Des3.Encrypt strin strPassword;
  if negb (IS_OK e) then Ret (e, [])
  else
    let '(e, str64) := Base64.Encode des3_dst in
    if negb (IS_OK e) then Ret (e, []) else Ret (OK, UrlEncode.Encode str64 []).

(** It encrypts. *)
Definition Des3Base64UrlDecode (strin strPassword : bytes) : res (herr * bytes) :=
  str64 ← UrlEncode.Decode strin;
  '(e, mem) ← Base64.Decode str64;
  if negb (IS_OK e) then Ret (e, [])
  else
    '(e, des3_src) ← Des3.Encrypt mem strPassword;
    if negb (IS_OK e) then Ret (e, []) else Ret (OK, des3_src).

End cryptor.
End Cryptor.

(** ** Digests *)

(** The body the two classes share; [dlen] is MD5_BUF_LEN or SHA256_BUF_LEN. *)
Module DigestOf.
Section digest.
Context (dlen : Z) `{Digest dlen}.

Definition HBLOCK_LEN : nat := 131072.

(** The string form; of an empty vector the address of the first element is asked for. *)
Definition of_string (indata : bytes) : bytes := take (Z.to_nat dlen) (D_all indata).
Definition of_mem (indata : bytes) : res bytes := _ ← check_ub (0 <? zlen indata); Ret (of_string indata).

Definition hex_of_string (instr : bytes) : res bytes := Hex.HexMem (of_string instr).
Definition hex_of_mem (instr : bytes) : res bytes := d ← of_mem instr; Hex.HexMem d.

(** [while (ifs.good())]: a read that finds less than it asks for is the last one. *)
Fixpoint file_loop (fuel : nat) (rest : bytes) (ctx : context) : res context :=
  match fuel with
  | O => Throw Diverge
  | S fuel =>
    let ctx := D_Update ctx (take HBLOCK_LEN rest) in
    if (length rest <? HBLOCK_LEN)%nat then Ret ctx else file_loop fuel (drop HBLOCK_LEN rest) ctx
  end.

(** [None]: the file cannot be opened. *)
Definition of_file (content : option bytes) : res bytes :=
  match content with
  | None => Ret []
  | Some c => ctx ← file_loop (S (length c)) c D_Init; Hex.HexStr_ptr (D_Final ctx) dlen
  end.

End digest.
End DigestOf.

Module Md5.
Section md5.
Context `{Digest 16}.
Definition MD5_BUF_LEN : Z := 16.
Definition MD5 (instr : bytes) : res bytes := DigestOf.hex_of_string MD5_BUF_LEN instr.
Definition MD5_mem (instr : bytes) : res bytes := DigestOf.hex_of_mem MD5_BUF_LEN instr.
Definition Md5File (content : option bytes) : res bytes := DigestOf.of_file MD5_BUF_LEN content.
End md5.
End Md5.

Module Sha.
Section sha.
Context `{Digest 32}.
Definition SHA256_BUF_LEN : Z := 32.
Definition Sha256 (instr : bytes) : res bytes := DigestOf.hex_of_string SHA256_BUF_LEN instr.
Definition Sha256_mem (instr : bytes) : res bytes := DigestOf.hex_of_mem SHA256_BUF_LEN instr.
Definition Sha256File (content : option bytes) : res bytes := DigestOf.of_file SHA256_BUF_LEN content.
End sha.
End Sha.

(** ** Facts *)

Section facts.
Context `{BioLaws} `{EvpLaws}.

Lemma fair_nil : UrlFacts.fair [].
Proof. split; apply not_elem_of_nil. Qed.

Lemma Encode_base64 x : Base64.Encode x = (OK, BIO_encode x).
Proof.
  unfold Base64.Encode, Base64.base64_encode. case_bool_decide as E; [subst|].
  - by rewrite (proj2 (BIO_encode_empty [])).
  - pose proof (zlen_pos x E). by ztest.
Qed.

Lemma Decode_base64 x :
  is_bytes x -> zlen x < 2 ^ 31 -> Base64.Decode (BIO_encode x) = Ret (OK, x).
Proof.
  intros Hx Hl. unfold Base64.Decode, Base64.base64_decode. pose proof (zlen_nonneg x). pose proof (BIO_encode_length x). case_bool_decide as E.
  - by apply BIO_encode_empty in E as ->.
  - assert (x <> []) as Hn by (intros ->; by apply E, BIO_encode_empty).
    pose proof (zlen_pos x Hn). ztest. rewrite BIO_decode_encode by done. change (IS_OK OK) with true. cbn [negb].
    rewrite u64_id by lia. ztest. cbn [check_ub mbind res_bind]. do 2 f_equal. apply firstn_all2. unfold zlen. lia.
Qed.

Lemma unpad_shorter y z : unpad y = Some z -> zlen z < zlen y.
Proof.
  unfold unpad. destruct (last y) as [n|]; [|done]. destruct (_ && _) eqn:E; [|done]. intros [= <-].
  bool_to_prop. unfold zlen in *. rewrite length_take. lia.
Qed.

Lemma Encrypt_blocks src pw :
  zlen src mod 8 = 0 -> zlen src < 2 ^ 30 ->
  exists y, Des3.Encrypt src pw = Ret (OK, y) /\ zlen y = zlen src /\ EVP_Encrypt (EVP_BytesToKey pw) false src = Some y.
Proof.
  intros Hm Hl. destruct (encrypt_blocks (EVP_BytesToKey pw) src Hm) as (y & Hy & Hz). exists y. split_and!; [|done|done].
  pose proof (zlen_nonneg src). unfold Des3.Encrypt, Des3.des3, Des3.des3_encrypt. rewrite Hy, !s32_id by lia. by ztest.
Qed.

End facts.

Section digest_facts.
Context (dlen : Z) `{DigestLaws dlen}.

(** The blocks read are the content, whatever its size. *)
Lemma file_loop_ok fuel rest ctx :
  (length rest < fuel)%nat ->
  exists l, DigestOf.file_loop dlen fuel rest ctx = Ret (foldl D_Update ctx l) /\ concat l = rest.
Proof.
  assert (0 < DigestOf.HBLOCK_LEN)%nat as Hpos by (apply Nat.ltb_lt; reflexivity).
  revert rest ctx. induction fuel as [|fuel IH]; intros rest ctx Hf; [lia|]. cbn [DigestOf.file_loop].
  destruct (length rest <? DigestOf.HBLOCK_LEN)%nat eqn:E.
  - apply Nat.ltb_lt in E. exists [take DigestOf.HBLOCK_LEN rest]. split; [done|].
    cbn [concat]. rewrite app_nil_r. apply firstn_all2. lia.
  - apply Nat.ltb_ge in E. destruct (IH (drop DigestOf.HBLOCK_LEN rest) (D_Update ctx (take DigestOf.HBLOCK_LEN rest))) as (l & El & Hc).
    + rewrite length_drop. lia.
    + exists (take DigestOf.HBLOCK_LEN rest :: l). rewrite El. split; [done|]. cbn [concat]. by rewrite Hc, take_drop.
Qed.

End digest_facts.

(** A cipher, a filter and a digest that satisfy the laws, to run the definitions on. *)
Module Sample.

#[global] Instance bio : Bio := { BIO_encode x := x; BIO_decode x := (zlen x, x) }.
#[global] Instance bio_laws : BioLaws.
Proof. by split. Qed.

(** The first byte goes to the end. *)
Definition crypt (x : bytes) : bytes := match x with [] => [] | b :: x => x ++ [b] end.
Definition decrypt (y : bytes) : bytes := match last y with None => [] | Some b => b :: take (length y - 1) y end.

Lemma crypt_length x : zlen (crypt x) = zlen x.
Proof. unfold zlen, crypt. destruct x; [done|]. rewrite length_app. cbn [length]. lia. Qed.

Lemma decrypt_crypt x : decrypt (crypt x) = x.
Proof.
  destruct x as [|b x]; [done|]. unfold decrypt, crypt. rewrite last_snoc. f_equal.
  rewrite length_app. cbn. by rewrite Nat.add_sub, take_app_length.
Qed.

#[global] Instance evp : Evp := {
  EVP_BytesToKey pw := pw;
  EVP_Encrypt k padding x :=
    let x := if padding then x ++ replicate (8 - length x mod 8) (8 - zlen x mod 8) else x in
    if zlen x mod 8 =? 0 then Some (crypt x) else None;
  EVP_Decrypt k padding y := if padding then unpad (decrypt y) else Some (decrypt y)
}.

#[global] Instance evp_laws : EvpLaws.
Proof.
  split.
  - intros k x Hx. cbn. rewrite Hx. exists (crypt x). by rewrite crypt_length.
  - intros k x Hx. cbn. by rewrite (proj2 (Z.eqb_neq _ _)).
  - intros k x y Hx. cbn. destruct (_ =? _); [|done]. intros [= <-]. destruct Hx as [|b x Hb Hx]; [by constructor|].
    apply Forall_app. split; [done|by apply Forall_singleton].
  - intros k x y. cbn. destruct (_ =? _); [|done]. intros [= <-]. by rewrite decrypt_crypt.
  - done.
Qed.

Definition sum_digest (dlen : Z) (x : bytes) : bytes := replicate (Z.to_nat dlen) (fold_left Z.add x 0 mod 256).

#[global] Instance digest dlen : Digest dlen :=
  { context := bytes; D_Init := []; D_Update := app; D_Final := sum_digest dlen; D_all := sum_digest dlen }.

#[global] Instance digest_laws dlen : 0 <=? dlen = true -> DigestLaws dlen.
Proof.
  intros Hd. bool_to_prop. split.
  - intros x. unfold D_all, digest, sum_digest. apply Forall_replicate. apply Z.mod_pos_bound. lia.
  - intros x. unfold D_all, digest, sum_digest. rewrite zlen_replicate. lia.
  - intros l. cbn. f_equal.
    assert (forall acc, foldl app acc l = acc ++ concat l) as E; [|apply E].
    induction l as [|x l IH]; intros acc; cbn; [by rewrite app_nil_r|]. by rewrite IH, app_assoc.
Qed.
#[global] Hint Extern 1 (0 <=? _ = true) => reflexivity : typeclass_instances.

End Sample.

(** ** Properties *)

Section properties.
Context `{BioLaws} `{EvpLaws}.

(** What is encoded in base64 for a URL is decoded again. *)
Theorem base64url_roundtrip x :
  is_bytes x -> zlen x < 2 ^ 31 ->
  fst (Cryptor.Base64UrlEncode x) = OK /\ Cryptor.Base64UrlDecode (snd (Cryptor.Base64UrlEncode x)) = Ret (OK, x).
Proof.
  intros Hx Hl. unfold Cryptor.Base64UrlEncode, Cryptor.Base64UrlDecode. rewrite Encode_base64.
  change (IS_OK OK) with true. cbn [negb fst snd]. split; [done|].
  rewrite UrlFacts.Decode_Encode by first [by apply BIO_encode_bytes | apply fair_nil].
  cbn [mbind res_bind]. by rewrite Decode_base64.
Qed.

(** [Decrypt] takes a padding off that [Encrypt] has not put on: it fails, or loses the
    end of the text; it never gives back what was encrypted. *)
Theorem des3_not_inverse src pw :
  zlen src mod 8 = 0 -> zlen src < 2 ^ 30 ->
  exists y, Des3.Encrypt src pw = Ret (OK, y) /\
    Des3.Decrypt y pw = Ret (match unpad src with Some z => (OK, z) | None => (DEP_ERROR, []) end) /\
    Des3.Decrypt y pw <> Ret (OK, src).
Proof.
  intros Hm Hl. destruct (Encrypt_blocks src pw Hm Hl) as (y & Hy & Hz & Ey). exists y. split; [done|].
  assert (Des3.Decrypt y pw = Ret (match unpad src with Some z => (OK, z) | None => (DEP_ERROR, []) end)) as E.
  { pose proof (zlen_nonneg src). unfold Des3.Decrypt, Des3.des3, Des3.des3_decrypt.
    rewrite decrypt_padded, (decrypt_encrypt _ _ _ Ey), Hz, !s32_id by lia. cbn [mbind option_bind]. ztest.
    cbn [check_ub mbind res_bind]. destruct (unpad src) as [z|] eqn:Eu; [|done].
    apply unpad_shorter in Eu. by ztest. }
  split; [done|]. rewrite E. destruct (unpad src) as [z|] eqn:Eu; [|done].
  intros [= ->]. apply unpad_shorter in Eu. lia.
Qed.

(** [Des3Base64UrlDecode] encrypts again: from the text of [x] it gives the encryption
    of the encryption of [x]. *)
Theorem decode_encrypts x pw :
  is_bytes x -> zlen x mod 8 = 0 -> zlen x < 2 ^ 30 ->
  exists t y z, Cryptor.Des3Base64UrlEncode x pw = Ret (OK, t) /\ Cryptor.Des3Base64UrlDecode t pw = Ret (OK, z) /\
    Des3.Encrypt x pw = Ret (OK, y) /\ Des3.Encrypt y pw = Ret (OK, z).
Proof.
  intros Hx Hm Hl. destruct (Encrypt_blocks x pw Hm Hl) as (y & Hy & Hz & Ey).
  destruct (Encrypt_blocks y pw) as (z & Hz' & _ & _); [by rewrite Hz..|].
  exists (UrlEncode.Encode (BIO_encode y) []), y, z. pose proof (encrypt_bytes _ _ _ Hx Ey) as Hyb.
  split_and!; [| |done|done].
  - unfold Cryptor.Des3Base64UrlEncode. rewrite Hy. cbn [mbind res_bind]. change (IS_OK OK) with true. cbn [negb].
    by rewrite Encode_base64.
  - unfold Cryptor.Des3Base64UrlDecode.
    rewrite UrlFacts.Decode_Encode by first [by apply BIO_encode_bytes | apply fair_nil].
    cbn [mbind res_bind]. rewrite Decode_base64 by (done || lia). cbn [mbind res_bind].
    change (IS_OK OK) with true. cbn [negb]. by rewrite Hz'.
Qed.

End properties.

Lemma base64url_roundtrip_witness :
  Cryptor.Base64UrlDecode (snd (Cryptor.Base64UrlEncode (str "a+b/c="))) = Ret (OK, str "a+b/c=").
Proof. apply base64url_roundtrip; [vm_compute; repeat constructor; done|by vm_compute]. Defined.

Lemma des3_not_inverse_witness :
  exists y, Des3.Encrypt (str "12345678") (str "pw") = Ret (OK, y) /\ Des3.Decrypt y (str "pw") <> Ret (OK, str "12345678").
Proof. destruct (des3_not_inverse (str "12345678") (str "pw")) as (y & E1 & _ & E2); [done|done|by exists y]. Defined.

Lemma decode_encrypts_witness :
  exists t z, Cryptor.Des3Base64UrlEncode (str "12345678") (str "pw") = Ret (OK, t) /\
    Cryptor.Des3Base64UrlDecode t (str "pw") = Ret (OK, z).
Proof.
  destruct (decode_encrypts (str "12345678") (str "pw")) as (t & y & z & E1 & E2 & _);
    [vm_compute; repeat constructor; done|done|done|by exists t, z].
Defined.

Section digest_properties.
Context (dlen : Z) `{DigestLaws dlen}.

(** The digest of a file, read in blocks, is the digest of its content: also of an empty
    one, and of one that ends with a block. *)
Theorem file_digest c :
  0 <= dlen < 2 ^ 30 -> DigestOf.of_file dlen (Some c) = Ret (concat (map HexFacts.digits (D_all c))).
Proof.
  intros Hd. unfold DigestOf.of_file. destruct (file_loop_ok dlen (S (length c)) c D_Init) as (l & -> & Hc); [lia|].
  cbn [mbind res_bind]. rewrite D_pieces, Hc. pose proof (D_bytes c) as Hb. pose proof (D_length c) as Hl.
  transitivity (Hex.HexStr_ptr (D_all c) (zlen (D_all c))); [by f_equal|]. apply HexFacts.HexStr_ptr_ok; [done|lia].
Qed.

(** The digest of a string is printed by way of [char]: one that has a byte above 127
    is looked up before the table. *)
Theorem string_digest_high s :
  DigestOf.hex_of_string dlen s =
    if existsb (Z.leb 128) (D_all s) then Throw UB else Ret (concat (map HexFacts.digits (D_all s))).
Proof.
  unfold DigestOf.hex_of_string, DigestOf.of_string. pose proof (D_length s) as Hl.
  rewrite firstn_all2 by (unfold zlen in Hl; lia). apply HexFacts.HexMem_ok, D_bytes.
Qed.

End digest_properties.

Lemma file_digest_witness :
  Md5.Md5File (Some (str "abc")) = Ret (concat (map HexFacts.digits (Sample.sum_digest 16 (str "abc")))).
Proof.
  assert (0 <= 16 < 2 ^ 30) as Hd by (split; [lia|reflexivity]).
  exact (@file_digest 16 (Sample.digest 16) (Sample.digest_laws 16 eq_refl) (str "abc") Hd).
Defined.

(** MD5 of a string whose digest has a byte above 127. *)
Lemma string_digest_high_witness : Md5.MD5 [200] = Throw UB.
Proof. exact (@string_digest_high 16 (Sample.digest 16) (Sample.digest_laws 16 eq_refl) [200]). Defined.
