(* ===== verification/Json.v ===== *)
(** * JSON configuration: [src/adaptation/ada_json.cpp], [ada_json.h], [src/utils/json_utils.h]

    Documents are the values of the JSON library; what it does on a member, an element or
    a conversion is its documented behaviour, its parser an argument.  The typed accessor
    walks a path of member names and indices. *)

From S2P Require Import Prelude StdString OrdMap HStr NormalConf.

Module json.

Inductive t : Type :=
  | Null | Bool (b : bool) | Int (z : Z) | Float (text : bytes) | String (s : bytes)
  | Array (l : list t) | Object (m : list (bytes * t)).

Definition is_array (j : t) : bool := match j with Array _ => true | _ => false end.
Definition is_number_integer (j : t) : bool := match j with Int _ => true | _ => false end.

Definition member (key : bytes) (j : t) : option t := match j with Object m => snd <$> get fst key m | _ => None end.
Definition contains (key : bytes) (j : t) : bool := match member key j with Some _ => true | None => false end.

(** [operator\[\]] of an array that is not const: an index past the end makes it longer with nulls. *)
Definition element (n : Z) (j : t) : t := match j with Array l => nth (Z.to_nat n) l Null | _ => Null end.

Definition get_string (j : t) : res bytes := match j with String s => Ret s | _ => Throw StdException end.

Definition clear (j : t) : t :=
  match j with
  | Null => Null | Bool _ => Bool false | Int _ => Int 0 | Float _ => Float [] | String _ => String []
  | Array _ => Array [] | Object _ => Object []
  end.

(** [j\[key\] = v]; a null becomes an object, another value throws. *)
Definition assign_member (key : bytes) (v : t) (j : t) : res t :=
  match j with
  | Null => Ret (Object [(key, v)])
  | Object m => Ret (Object (match get fst key m with Some _ => assign fst (key, v) m | None => ins fst (key, v) m end))
  | _ => Throw StdException
  end.

End json.

Module jsonconfig_impl.
Import json.

(** [parse]: [None] when the parser throws. *)
Definition load_json_file (strFileName : bytes) (file : HFileStr.fd) (parse : bytes -> option json.t) (m_json : json.t)
  : herr * json.t :=
  if bool_decide (strFileName = []) then (INVL_PARA, m_json)
  else
    let '(e, strContent) := HFileStr.ReadToString file [] in
    if negb (IS_OK e) then (e, m_json)
    else if bool_decide (strContent = []) then (INVL_PARA, m_json)
    else match parse strContent with None => (ERR_STATUS, m_json) | Some j => (OK, j) end.

Definition get_value (m_json : json.t) (key : bytes) : res bytes :=
  match member key m_json with None => Throw (HExc NOT_EXISTS) | Some j => get_string j end.

Definition get_value_def (m_json : json.t) (key defVal : bytes) : res bytes :=
  noexcept (match member key m_json with None => Ret defVal | Some j => get_string j end).

Definition get_int_value (m_json : json.t) (key : bytes) : res Z :=
  match member key m_json with
  | None => Throw (HExc NOT_EXISTS)
  | Some (Int z) => Ret (s32 z)
  | Some _ => Throw (HExc SRC_ERR)
  end.

Definition get_int_value_def (m_json : json.t) (key : bytes) (defVal : Z) : Z :=
  match member key m_json with Some (Int z) => s32 z | _ => defVal end.

Definition exists_ (m_json : json.t) (key : bytes) : bool := contains key m_json.

Definition set_value (m_json : json.t) (key val : bytes) : res json.t := noexcept (assign_member key (String val) m_json).

Section get_as.
(** [get<_Ty>()]. *)
Context {T : Type} (get_T : json.t -> res T).

(** The loop over the keys: an error, or the value stored by the last one. *)
Fixpoint keys_loop (keys : list bytes) (js : json.t) (val : option T) : res (herr * option T) :=
  match keys with
  | [] => Ret (OK, val)
  | s :: rest =>
    if HStr.IsAllDigit s then
      if negb (is_array js) then Ret (SRC_ERR, val)
      else
        n ← HStr.ToN s;
        match rest with
        | [] => v ← get_T (element n js); keys_loop rest js (Some v)
        | _ :: _ => keys_loop rest (element n js) val
        end
    else
      match member s js with
      | None => Ret (NOT_EXISTS, val)
      | Some j =>
        match rest with
        | [] => v ← get_T j; keys_loop rest js (Some v)
        | _ :: _ => keys_loop rest j val
        end
      end
  end.

Definition get_as (m_json : json.t) (key : bytes) : res (herr * option T) :=
  if negb (HStr.IsBeginWith key (str "/")) then Ret (INVL_PARA, None)
  else if HStr.IsEndWith key (str "/") then Ret (INVL_PARA, None)
  else
    s ← substr_from key 1;
    match HStr.Split s (str "/") [] 0 with
    | None => Throw Diverge
    | Some r => '(e, keys) ← r; if negb (IS_OK e) then Ret (e, None) else keys_loop keys m_json None
    end.

End get_as.
End jsonconfig_impl.

(** The macros for members of a structure. *)
Module json_utils.
Import json.

(** [strlen]: the array has a zero, or the reading goes on past it. *)
Definition strlen (a : bytes) : res Z :=
  match find_char a 0 with Some n => Ret (Z.of_nat n) | None => Throw UB end.

Definition CHARARR_TO_JSON (a : bytes) : res json.t := n ← strlen a; Ret (String (take (Z.to_nat n) a)).

(** [strncpy(obj.key, s, n)]: the C string, filled up with zeros to [n] bytes; no zero after them. *)
Definition strncpy (a s : bytes) (n : Z) : res bytes :=
  _ ← check_ub (n <=? zlen a);
  let c := take (Z.to_nat n) (c_str s) in
  Ret (c ++ replicate (Z.to_nat (n - zlen c)) 0 ++ drop (Z.to_nat n) a).

Definition CHARARR_FROM_JSON (a : bytes) (len : Z) (j : option json.t) : res bytes :=
  match j with
  | None | Some Null => Ret a
  | Some j => s ← get_string j; strncpy a s (if zlen s <? len then zlen s else len)
  end.

Section values.
Context {T : Type} (to_T : T -> json.t) (get_T : json.t -> res T).

(** [TO_JSON] and [FROM_SON] of one member; [HGET_FROM_JSON] is the latter with the type given. *)
Definition TO_JSON (v : T) : json.t := to_T v.
Definition FROM_SON (v : T) (j : option json.t) : res T := match j with None | Some Null => Ret v | Some j => get_T j end.

Definition ARR_TO_JSON (a : list T) : json.t := Array (map to_T a).

Fixpoint from_loop (i : Z) (j : json.t) (a : list T) : res (list T) :=
  match a with
  | [] => Ret []
  | _ :: a => v ← get_T (element i j); rest ← from_loop (i + 1) j a; Ret (v :: rest)
  end.

(** A member that is not there is a null, which the first index makes an array. *)
Definition ARR_FROM_JSON (a : list T) (j : option json.t) : res (list T) :=
  match default Null j with
  | Array l => from_loop 0 (Array l) a
  | Null => from_loop 0 (Array []) a
  | _ => match a with [] => Ret [] | _ :: _ => Throw StdException end
  end.

End values.
End json_utils.

(** ** Paths *)

Module JsonFacts.
Import HStr json jsonconfig_impl.

Lemma no_occ_slash s : no_occ (str "/") s <-> 47 ∉ s.
Proof.
  rewrite no_occ_not_contains, contains_iff. split.
  - intros Hn (a & b & ->)%list_elem_of_split. apply Hn. by exists a, b.
  - intros Hn (a & b & ->). apply Hn. set_solver.
Qed.

Lemma join_head sep p ps : join sep (p :: ps) = p ++ match ps with [] => [] | _ => sep ++ join sep ps end.
Proof. destruct ps; [by rewrite app_nil_r|done]. Qed.

(** Pieces without the separator are determined by their joining. *)
Lemma pieces_unique (ps qs : list bytes) :
  ps <> [] -> qs <> [] -> Forall (fun p => 47 ∉ p) ps -> Forall (fun p => 47 ∉ p) qs ->
  join (str "/") ps = join (str "/") qs -> ps = qs.
Proof.
  revert qs. induction ps as [|p ps IH]; intros [|q qs] Hp Hq Fp Fq; try done. clear Hp Hq.
  apply Forall_cons in Fp as [Np Fp], Fq as [Nq Fq]. rewrite !join_head. intros E.
  assert (p = q /\ match ps with [] => [] | _ => str "/" ++ join (str "/") ps end
                 = match qs with [] => [] | _ => str "/" ++ join (str "/") qs end) as [-> E'].
  { revert q Nq E. induction p as [|c p IHp]; intros [|d q] Nq E; cbn [app] in E.
    - done.
    - destruct ps; [done|]. injection E as <- _. by destruct Nq; left.
    - destruct qs; [done|]. injection E as -> _. by destruct Np; left.
    - injection E as -> E. destruct (IHp ltac:(set_solver) q ltac:(set_solver) E) as [-> ?]. done. }
  f_equal. destruct ps as [|p ps], qs as [|r qs]; try done. by apply IH, (app_inv_head (str "/")).
Qed.

(** A step of a path: a member, or an element. *)
Inductive step : Type := Member (s : bytes) | Index (n : Z).

Definition show (s : step) : bytes := match s with Member s => s | Index n => to_string n end.

Definition step_ok (s : step) : Prop :=
  match s with Member s => 47 ∉ s /\ IsAllDigit s = false | Index n => 0 <= n < 2 ^ 31 end.

(** Resolving a path: the document at its end, or the error of the first step that fails. *)
Fixpoint resolve (p : list step) (j : json.t) : json.t + herr :=
  match p with
  | [] => inl j
  | Member s :: p => match member s j with Some j => resolve p j | None => inr NOT_EXISTS end
  | Index n :: p => if is_array j then resolve p (element n j) else inr SRC_ERR
  end.

Lemma IsAllDigit_to_string n : 0 <= n -> IsAllDigit (to_string n) = true.
Proof. intros Hn. apply IsAllDigit_spec, Forall_forall. intros c. by apply to_string_digits. Qed.

Lemma show_no_slash s : step_ok s -> 47 ∉ show s.
Proof. destruct s as [s|n]; [by intros [? _]|]. intros Hn H%to_string_digits; [done|]. cbn in Hn. lia. Qed.

Lemma keys_loop_ok {T} (get_T : json.t -> res T) p j val :
  p <> [] -> Forall step_ok p ->
  keys_loop get_T (map show p) j val =
    match resolve p j with inl x => v ← get_T x; Ret (OK, Some v) | inr e => Ret (e, val) end.
Proof.
  revert j. induction p as [|s p IH]; intros j Hp Hf; [done|]. clear Hp. apply Forall_cons in Hf as [Hs Hf].
  cbn [map keys_loop resolve]. destruct s as [s|n].
  - destruct Hs as [_ Hd]. cbn [show]. rewrite Hd. destruct (member s j) as [x|]; [|done].
    destruct p as [|t p]; [done|]. by apply IH.
  - cbn [show]. cbn in Hs. rewrite IsAllDigit_to_string by lia. destruct (is_array j); [|done]. cbn [negb].
    unfold ToN. rewrite stoi_to_string by (unfold in_s; cbn; lia). cbn [mbind res_bind].
    destruct p as [|t p]; [done|]. by apply IH.
Qed.

End JsonFacts.

Section properties.
Import HStr json jsonconfig_impl JsonFacts.

Lemma slash_end s : zlen s < 2 ^ 62 -> IsEndWith (47 :: s) (str "/") = (zlen s =? 1).
Proof.
  intros Hl. unfold IsEndWith. pose proof (zlen_nonneg s).
  assert (find (47 :: s) (str "/") 0 = Some 0%nat) as -> by done. cbn [to_pos].
  rewrite zlen_cons. change (zlen (str "/")) with 1.
  destruct (zlen s =? 1) eqn:E; bool_to_prop; [rewrite E; reflexivity|]. apply Z.eqb_neq. ints.
Qed.

Lemma path_not_empty p : p <> [] -> Forall step_ok p -> join (str "/") (map show p) <> [].
Proof.
  destruct p as [|s p]; [done|]. intros _ [Hs _]%Forall_cons. cbn [map]. rewrite join_head. intros [E _]%app_eq_nil.
  destruct s as [s|n]; cbn in *; [subst; by destruct Hs|].
  pose proof (stoi_to_string n ltac:(unfold in_s; cbn; lia)) as Hn. by rewrite E in Hn.
Qed.

(** C34: A path is a slash and steps with slashes between them: names of members that hold no
    slash and are not digits alone, and indices below 2^31.  One of more than one character after
    the slash gets what it leads to: the conversion of the document at its end, or the error of
    the first step that fails, SRC_ERR for an index of what is no array and NOT_EXISTS for a
    member that is not there; an index past the end of an array is not an error of its own, it
    leads to a null.  A path of one character after the slash is refused with INVL_PARA, whatever
    the document. *)
Theorem get_as_path {T} (get_T : json.t -> res T) j p :
  p <> [] -> Forall step_ok p -> zlen (join (str "/") (map show p)) < 2 ^ 62 ->
  get_as get_T j (47 :: join (str "/") (map show p)) =
    if zlen (join (str "/") (map show p)) =? 1 then Ret (INVL_PARA, None)
    else match resolve p j with inl x => v ← get_T x; Ret (OK, Some v) | inr e => Ret (e, None) end.
Proof.
  intros Hp Hf Hl. pose proof (path_not_empty p Hp Hf) as Hne. set (s := join (str "/") (map show p)) in *. unfold get_as.
  rewrite (proj2 (IsBeginWith_spec (47 :: s) (str "/"))) by (by exists s). cbn [negb].
  rewrite slash_end by done. destruct (zlen s =? 1); [done|].
  assert (substr_from (47 :: s) 1 = Ret s) as -> by (unfold substr_from; by rewrite decide_True by (cbn; lia)).
  cbn [mbind res_bind].
  destruct (Split_unfold s (str "/") [] 0) as (ps & -> & Hps & Hj & Hno); [done|done|unfold npos; lia|lia|].
  cbn [app mbind res_bind]. change (IS_OK OK) with true. cbn [negb]. rewrite drop_0 in Hj.
  assert (ps = map show p) as ->; [|by apply keys_loop_ok].
  apply pieces_unique; [done|by destruct p| | |done].
  - eapply Forall_impl; [exact Hno|]. intros q. apply no_occ_slash.
  - apply Forall_map. eapply Forall_impl; [exact Hf|]. intros q. apply show_no_slash.
Qed.

Definition sample : json.t := Object [(str "dbs", Array [Object [(str "name", String (str "a"))]; Object [(str "name", String (str "b"))]])].

Lemma get_as_path_witness :
  get_as get_string sample (47 :: join (str "/") (map show [Member (str "dbs"); Index 1; Member (str "name")]))
  = Ret (OK, Some (str "b")) /\
  get_as get_string sample (47 :: join (str "/") (map show [Member (str "a")])) = Ret (INVL_PARA, None).
Proof.
  split.
  - rewrite (get_as_path get_string sample [Member (str "dbs"); Index 1; Member (str "name")]).
    + reflexivity.
    + discriminate.
    + repeat constructor; try lia; try reflexivity; apply no_occ_slash; reflexivity.
    + reflexivity.
  - rewrite (get_as_path get_string sample [Member (str "a")]).
    + reflexivity.
    + discriminate.
    + repeat constructor; try reflexivity; apply no_occ_slash; reflexivity.
    + reflexivity.
Defined.

(** The path of a single name of one character is refused: [IsEndWith] finds the slash at
    its begin where it expects one at the end; a path that does end with a slash is not. *)
Theorem get_as_one_character {T} (get_T : json.t -> res T) j c : get_as get_T j [47; c] = Ret (INVL_PARA, None).
Proof.
  unfold get_as. rewrite (proj2 (IsBeginWith_spec [47; c] (str "/"))) by (by exists [c]). cbn [negb].
  by rewrite (slash_end [c]).
Qed.

Example trailing_slash : get_as get_string sample (str "/dbs/") = Throw StdInvalidArgument.
Proof. by vm_compute. Qed.

(** Not a member in a [noexcept] accessor is the default; a member that is no string is
    the end of the program. *)
Theorem get_value_def_spec j key d :
  get_value_def j key d = match member key j with None => Ret d | Some (String s) => Ret s | Some _ => Throw Terminate end.
Proof. unfold get_value_def. destruct (member key j) as [[]|]; done. Qed.

(** What [set_value] stores, [get_value] returns; a document that is neither null nor an
    object ends the program. *)
Theorem set_get_value m key val :
  sorted fst m -> exists j', set_value (Object m) key val = Ret j' /\ get_value j' key = Ret val.
Proof.
  intros Hm. exists (Object (assign fst (key, String val) m)). unfold set_value, get_value. cbn. split.
  - destruct (get fst key m) eqn:E; [done|]. by rewrite (ins_assign fst (key, String val)).
  - by rewrite (get_assign_eq fst (key, String val)).
Qed.

Lemma set_get_value_witness :
  exists j', set_value sample (str "a") (str "b") = Ret j' /\ get_value j' (str "a") = Ret (str "b").
Proof. apply set_get_value. by repeat constructor. Defined.

(** ** The macros *)

Import json_utils.

Lemma find_zero a off : 0 ∈ a -> find_first (Z.eqb 0) a off = Some (off + length (c_str a))%nat.
Proof.
  unfold c_str. revert off. induction a as [|c a IH]; intros off Hin; [by apply elem_of_nil in Hin|].
  cbn [find_first take_while]. rewrite (Z.eqb_sym 0 c). destruct (c =? 0) eqn:E; cbn [negb length]; [by rewrite Nat.add_0_r|].
  apply elem_of_cons in Hin as [<-|Hin]; [done|]. rewrite IH by done. f_equal. lia.
Qed.

Lemma take_c_str a : take (length (c_str a)) a = c_str a.
Proof. unfold c_str. induction a as [|c a IH]; [done|]. cbn. destruct (negb _); [|done]. cbn. by rewrite IH. Qed.

Lemma c_str_idemp a : c_str (c_str a) = c_str a.
Proof.
  unfold c_str. induction a as [|c a IH]; [done|]. cbn. destruct (negb (c =? 0)) eqn:E; [|done]. cbn. by rewrite E, IH.
Qed.

Lemma c_str_shorter a : 0 ∈ a -> (length (c_str a) < length a)%nat.
Proof.
  unfold c_str. induction a as [|c a IH]; intros Hin; [by apply elem_of_nil in Hin|]. cbn.
  destruct (c =? 0) eqn:E; cbn; [lia|]. apply elem_of_cons in Hin as [<-|Hin]; [done|]. specialize (IH Hin). lia.
Qed.

(** An array of characters survives the way into a document and back into one of the same
    size when it has a zero and what lies behind it is zero in the target. *)
Theorem chararr_roundtrip a len :
  0 ∈ a -> zlen a = len ->
  exists j, CHARARR_TO_JSON a = Ret j /\ CHARARR_FROM_JSON (replicate (length a) 0) len (Some j)
    = Ret (c_str a ++ replicate (length a - length (c_str a)) 0).
Proof.
  intros H0 <-. pose proof (c_str_shorter a H0) as Hs. exists (String (c_str a)). split.
  - unfold CHARARR_TO_JSON, strlen, find_char. rewrite find_zero by done. cbn [mbind res_bind Nat.add].
    by rewrite Nat2Z.id, take_c_str.
  - cbn [CHARARR_FROM_JSON get_string mbind res_bind]. unfold strncpy, zlen.
    assert ((Z.of_nat (length (c_str a)) <? Z.of_nat (length a)) = true) as -> by (apply Z.ltb_lt; lia).
    rewrite length_replicate. ztest. cbn [check_ub mbind res_bind].
    rewrite c_str_idemp, Nat2Z.id, firstn_all, Z.sub_diag, drop_replicate. done.
Qed.

Lemma chararr_roundtrip_witness :
  exists j, CHARARR_TO_JSON (str "ab" ++ [0; 120]) = Ret j /\
    CHARARR_FROM_JSON (replicate 4 0) 4 (Some j) = Ret (str "ab" ++ [0; 0]).
Proof. apply (chararr_roundtrip (str "ab" ++ [0; 120]) 4); [|reflexivity]. apply mem_spec. reflexivity. Defined.

Lemma from_loop_ok {T} (to_T : T -> json.t) (get_T : json.t -> res T) l a i :
  (forall v, get_T (to_T v) = Ret v) -> length a = length (drop i l) ->
  from_loop get_T (Z.of_nat i) (Array (map to_T l)) a = Ret (drop i l).
Proof.
  intros Hg. revert i. induction a as [|x a IH]; intros i Hl; cbn [from_loop].
  - by destruct (drop i l).
  - destruct (drop i l) as [|v r] eqn:E; [done|].
    assert (l !! i = Some v) as Hv by (rewrite <- (Nat.add_0_r i), <- lookup_drop, E; done).
    assert (r = drop (S i) l) as -> by (by rewrite (drop_S _ _ _ Hv) in E; injection E).
    cbn [element]. rewrite Nat2Z.id.
    rewrite (nth_lookup_Some (map to_T l) i Null (to_T v)) by (by rewrite list_lookup_fmap, Hv).
    rewrite Hg. cbn [mbind res_bind]. replace (Z.of_nat i + 1) with (Z.of_nat (S i)) by lia.
    rewrite IH by (cbn in Hl; lia). done.
Qed.

(** An array of the same length is read back, element by element. *)
Theorem arr_roundtrip {T} (to_T : T -> json.t) (get_T : json.t -> res T) l a :
  (forall v, get_T (to_T v) = Ret v) -> length a = length l ->
  ARR_FROM_JSON get_T a (Some (ARR_TO_JSON to_T l)) = Ret l.
Proof. intros Hg Hl. exact (from_loop_ok to_T get_T l a 0 Hg Hl). Qed.

Lemma arr_roundtrip_witness : ARR_FROM_JSON get_string [[]; []] (Some (ARR_TO_JSON String [str "a"; str "b"])) = Ret [str "a"; str "b"].
Proof. by apply arr_roundtrip. Defined.

(** A shorter one, or none, is no default: the nulls past its end throw. *)
Example short_array :
  ARR_FROM_JSON get_string [[]; []] (Some (ARR_TO_JSON String [str "a"])) = Throw StdException /\
  ARR_FROM_JSON get_string [[]; []] None = Throw StdException.
Proof. done. Qed.


(** The macro copies no zero: what the target had before shows behind a shorter text. *)
Example stale_tail : CHARARR_FROM_JSON (str "abcdef" ++ [0]) 7 (Some (String (str "xy"))) = Ret (str "xycdef" ++ [0]).
Proof. reflexivity. Qed.

End properties.
