(* ===== verification/Util.v ===== *)
(** * Small utilities: [src/hutil.cpp], [src/utils/base_utils.h], [src/hapifactory.h],
    [src/hmmap.cpp], [src/hthread.cpp], [src/hthreadkey.cpp], [src/hrandom.cpp],
    [src/hservlet.cpp], [src/hmodule.cpp], [src/htodoholder.h]

    A module for each; what the kernel, the thread library or a virtual function answers
    is an argument. *)

From S2P Require Import Prelude StdString OrdMap.

Module hutil.

(** The loop over the shifts by 8, 16 and 32: [i] below [sizeof(HSIZE)]. *)
Fixpoint shift_loop (fuel : nat) (i x : Z) : Z :=
  match fuel with
  | O => x
  | S fuel => if i <? 8 then shift_loop fuel (u64 (Z.shiftl i 1)) (Z.lor x (Z.shiftr x (Z.shiftl i 3))) else x
  end.

Definition Ceil2Pow2 (x : Z) : Z :=
  let x := u64 (x - 1) in
  let x := Z.lor x (Z.shiftr x 1) in
  let x := Z.lor x (Z.shiftr x 2) in
  let x := Z.lor x (Z.shiftr x 4) in
  let x := shift_loop 8 1 x in
  u64 (x + 1).

(** [sleep] takes an [unsigned] and gives the seconds that are left. *)
Definition HSleep1 (sleep : Z -> Z) (sec : Z) : Z := s32 (sleep (u32 sec)).

(** The microseconds [usleep] is given: an [unsigned]; the sum is one of [int]s. *)
Definition HSleep3 (sec nMSec nUSec : Z) : res Z :=
  _ ← check_ub (bool_decide (in_s 32 (sec * 1000000)));
  _ ← check_ub (bool_decide (in_s 32 (nMSec * 1000)));
  _ ← check_ub (bool_decide (in_s 32 (sec * 1000000 + nMSec * 1000)));
  _ ← check_ub (bool_decide (in_s 32 (sec * 1000000 + nMSec * 1000 + nUSec)));
  Ret (u32 (sec * 1000000 + nMSec * 1000 + nUSec)).

Definition HSleep2 (sec nMSec : Z) : res Z := HSleep3 sec nMSec 0.

(** Seconds and nanoseconds given to [nanosleep]. *)
Definition HThreadSleep (sec nMSec nUSec : Z) : res (Z * Z) :=
  _ ← check_ub (bool_decide (in_s 32 (nMSec * 1000)));
  _ ← check_ub (bool_decide (in_s 32 (nMSec * 1000 + nUSec)));
  Ret (sec, nMSec * 1000 + nUSec).

End hutil.

Module base_utils.

(** [int] division; a divisor of 0, and the smallest number by -1, are undefined. *)
Definition uper_divied (n b : Z) : res Z :=
  _ ← check_ub (negb (b =? 0) && bool_decide (in_s 32 (Z.quot n b)));
  Ret (Z.quot n b + (if Z.rem n b >? 0 then 1 else 0)).

Definition remove_bit (s v : Z) : Z := Z.land s (Z.lnot v).
Definition set_bit (s v : Z) : Z := Z.land s v.
Definition has_bit (s v : Z) : bool := negb (Z.land s v =? 0).
Definition get_bit (s v : Z) : Z := Z.land s v.
Definition HMax (a b : Z) : Z := if a <? b then b else a.
Definition HMin (a b : Z) : Z := if b <? a then b else a.

End base_utils.

(** [HApiFactory]: a maker is the object it makes, or [nullptr]. *)
Module HApiFactory.
Section factory.
Context {A : Type}.

Definition t : Type := list (bytes * option A).

Definition RegisterApi (name : bytes) (maker : option A) (m : t) : t :=
  match get fst name m with Some _ => assign fst (name, maker) m | None => ins fst (name, maker) m end.

Definition NewApi (name : bytes) (m : t) : option A :=
  if bool_decide (name = []) then None
  else match get fst name m with None => None | Some (_, pfun) => match pfun with Some x => Some x | None => None end end.

End factory.
End HApiFactory.

Module HMmap.

(** [m_ptr]: [nullptr], MAP_FAILED, or an address. *)
Inductive ptr : Type := Null | MapFailed | At (a : Z).

#[global] Instance ptr_eq_dec : EqDecision ptr.
Proof. solve_decision. Defined.

Record t : Type := Mmap {
  m_strFileName : bytes; m_len : Z; m_off : Z; m_prot : Z; m_flags : Z; m_named : bool; m_ptr : ptr
}.

Definition DEFAULT_PROT : Z := 0.
Definition DEFAULT_FLAGS : Z := 0.

Definition make (name : bytes) (size off : Z) : t := Mmap name size off DEFAULT_PROT DEFAULT_FLAGS true Null.

(** Without a name; also this object counts as named until [Init]. *)
Definition make_anon (size off : Z) : t := Mmap [] size off DEFAULT_PROT DEFAULT_FLAGS true Null.
Definition DEFAULT_SIZE : Z := 128 * 4096.
Definition DEFAULT_OFF : Z := 0.
Definition IsNonNamed (s : t) : bool := negb (m_named s).

Section kernel.
(** [open], the result of [lseek(fd, off, SEEK_END)] and [mmap(len, prot, flags, fd, off)]. *)
Context (open : bytes -> Z) (lseek : Z -> Z -> Z) (mmap : Z -> Z -> Z -> Z -> Z -> ptr).

(** The result, the object, and the descriptors closed. *)
Definition Init (s : t) : herr * t * list Z :=
  let with_ named p := Mmap (m_strFileName s) (m_len s) (m_off s) (m_prot s) (m_flags s) named p in
  let fd := if bool_decide (m_strFileName s = []) then -1 else open (m_strFileName s) in
  if negb (bool_decide (m_strFileName s = [])) && negb (fd >? 0) then (INVL_PARA, with_ false (m_ptr s), [])
  else
    let named := negb (bool_decide (m_strFileName s = [])) in
    let flen := lseek fd (m_off s) in
    if negb (flen >=? m_len s) then (INVL_PARA, with_ named (m_ptr s), [fd])
    else
      let p := mmap (m_len s) (m_prot s) (m_flags s) fd (m_off s) in
      if bool_decide (p = MapFailed) then (SYS_FAILED, with_ named p, [fd]) else (OK, with_ named p, [fd]).

End kernel.

(** What [munmap] is called on: the test is an [or], which always holds. *)
Definition UnInit (s : t) : t * list ptr :=
  if negb (bool_decide (m_ptr s = Null)) || negb (bool_decide (m_ptr s = MapFailed)) then
    (Mmap (m_strFileName s) (m_len s) (m_off s) (m_prot s) (m_flags s) (m_named s) Null, [m_ptr s])
  else (s, []).

End HMmap.

(** Threads, keys and once: [threadtype_base] is an identifier, 0 when invalid. *)
Module HThread.

Definition invalid_threadtype_value : Z := 0.
Definition IsInvalid (m_id : Z) : bool := m_id =? invalid_threadtype_value.

(** [pthread_create]'s answer and the identifier it stores. *)
Definition Create (fun_null : bool) (ret id m_id : Z) : herr * Z :=
  if fun_null then (INVL_PARA, m_id) else if negb (ret =? 0) then (SYS_FAILED, id) else (OK, id).

Definition Join (pthread_join : Z -> Z) (m_id : Z) : herr * Z :=
  if IsInvalid m_id then (ERR_STATUS, m_id)
  else if negb (pthread_join m_id =? 0) then (SYS_FAILED, m_id) else (OK, invalid_threadtype_value).

(** [pthread_timedjoin_np] with a time limit of so many seconds. *)
Definition JoinWithTime (pthread_timedjoin_np : Z -> Z -> Z) (timespan m_id : Z) : herr * Z :=
  if negb (pthread_timedjoin_np m_id timespan =? 0) then (SYS_FAILED, m_id) else (OK, invalid_threadtype_value).

Definition Cancel (pthread_cancel : Z -> Z) (m_id : Z) : herr := if negb (pthread_cancel m_id =? 0) then SYS_FAILED else OK.
Definition Detach (pthread_detach : Z -> Z) (m_id : Z) : herr := if negb (pthread_detach m_id =? 0) then SYS_FAILED else OK.

Definition SetInvalid (m_id : Z) : Z := invalid_threadtype_value.

(** The constructor that starts a thread drops [pthread_create]'s answer. *)
Definition make (fun_null : bool) (pthread_create : option Z) : Z :=
  if fun_null then invalid_threadtype_value else default invalid_threadtype_value pthread_create.

(** [HThreadAttr::SetDetachState] *)
Definition SetDetachState (pthread_attr_setdetachstate : Z) : herr :=
  if negb (pthread_attr_setdetachstate =? 0) then SYS_FAILED else OK.

(** The move constructor: the new object and what is left of the other. *)
Definition move (other : Z) : Z * Z := (other, SetInvalid other).

(** Moving: the target's own identifier is forgotten. *)
Definition move_assign (m_id other : Z) : Z * Z := (other, invalid_threadtype_value).

(** [pid2s]: two digits for each byte as it lies in memory; the prefix is overwritten. *)
Definition hex_lower (n : Z) : Z := if n <? 10 then 48 + n else 87 + n.
Definition pid2s (handle : bytes) : bytes := concat (map (fun b => [hex_lower (b / 16); hex_lower (b mod 16)]) handle).

End HThread.

Module HThreadKey.

(** The keys of the process. *)
Definition Create (pthread_key_create : option Z) (m_id : Z) : herr * Z :=
  match pthread_key_create with Some k => (OK, k) | None => (SYS_FAILED, m_id) end.

Definition destroy (m_id : Z) (keys : list Z) : list Z := filter (fun k => negb (k =? m_id) = true) keys.

(** [pthread_setspecific] and [pthread_getspecific] of the key. *)
Definition Set_ {P} (pthread_setspecific : Z -> P -> Z) (m_id : Z) (cptr : P) : herr :=
  if negb (pthread_setspecific m_id cptr =? 0) then SYS_FAILED else OK.
Definition Get {P} (pthread_getspecific : Z -> P) (m_id : Z) : P := pthread_getspecific m_id.

End HThreadKey.

(** [HThreadOnce]: the function has run, or not; what [pthread_once] answers is dropped. *)
Module HThreadOnce.
Definition Once {A} (fun_ : A -> A) (once : bool) (s : A) : bool * A := if once then (once, s) else (true, fun_ s).
End HThreadOnce.

Module HRandom.

(** The engines are functions of their state: the device, and the generator seeded from it. *)
Section engines.
Context {D M : Type} (device : D -> Z * D) (mt19937_64 : M -> Z * M) (seed : Z -> M).

Definition start (rd : D) : D * M := let '(r, rd) := device rd in (rd, seed r).
Definition Rd_random (rd : D) : Z * D := device rd.
Definition MT_random (mt : M) : Z * M := mt19937_64 mt.
End engines.

(** [Dist_random]: the distribution is static, made by the first call. *)
Definition Dist_random (a b : Z) (dis : option (Z * Z)) : (Z * Z) * option (Z * Z) :=
  match dis with Some d => (d, dis) | None => ((a, b), Some (a, b)) end.

Definition Simple_random (n rand : Z) : Z := let res := u32 rand in if negb (n =? 0) then res mod n else res.

End HRandom.

Module HServletBase.

Record t : Type := Servlet { m_app : option nat; m_strName : bytes; inited : bool }.

Definition make (strName : bytes) (app : option nat) : t := Servlet app strName false.
Definition setUninited (s : t) : t := Servlet (m_app s) (m_strName s) false.

Definition InitServlet (m_bInited : bool) : herr * bool := if m_bInited then (ERR_STATUS, m_bInited) else (OK, true).

End HServletBase.

Module HSingleModuleBase.

Record t : Type := Mod { m_bEnableLog : bool; m_bInited : bool }.

Definition make : t := Mod false false.
Definition EnableLog (s : t) : t := Mod true (m_bInited s).

(** [log] and [moduleInit] are what those calls return; the second component counts the
    initialisations of the log. *)
Definition InitModule (init_log moduleInit : herr) (s : t) : herr * t * nat :=
  if negb (m_bInited s) && m_bEnableLog s then
    if negb (IS_OK init_log) then (init_log, s, 1%nat) else (moduleInit, Mod (m_bEnableLog s) true, 1%nat)
  else (moduleInit, Mod (m_bEnableLog s) true, 0%nat).

End HSingleModuleBase.

(** [ScopeGuard]: a guard has its function to run, or not; moving dismisses the source. *)
Module ScopeGuard.
Section guard.
Context {A : Type}.

Record t : Type := Guard { m_dismissed : bool; m_fun : A }.

Definition make (f : A) : t := Guard false f.
Definition dismiss (g : t) : t := Guard true (m_fun g).
Definition rehire (g : t) : t := Guard false (m_fun g).
Definition move (other : t) : t * t := (Guard (m_dismissed other) (m_fun other), Guard true (m_fun other)).

(** What the destructor runs. *)
Definition destroy (g : t) : list A := if negb (m_dismissed g) then [m_fun g] else [].

End guard.
End ScopeGuard.

(** ** Facts *)

Section smear.
Import hutil.

(** The [k] highest bits of [x] are set. *)
Definition top_set (k x : Z) : Prop := forall i, 0 <= i <= Z.log2 x -> Z.log2 x - k < i -> Z.testbit x i = true.

Lemma top_1 x : 0 < x -> top_set 1 x.
Proof. intros Hx i Hi Hk. replace i with (Z.log2 x) by lia. by apply Z.bit_log2. Qed.

Lemma log2_smear k x : 0 <= k -> 0 <= x -> Z.log2 (Z.lor x (Z.shiftr x k)) = Z.log2 x.
Proof.
  intros Hk Hx. rewrite Z.log2_lor by (done || by apply Z.shiftr_nonneg).
  apply Z.max_l. apply Z.log2_le_mono. rewrite Z.shiftr_div_pow2 by done.
  apply Z.div_le_upper_bound; [by apply Z.pow_pos_nonneg|]. pose proof (Z.pow_pos_nonneg 2 k). nia.
Qed.

(** A shift by as many bits as are set doubles their number. *)
Lemma smear_step k x : 0 < k -> 0 < x -> top_set k x -> top_set (2 * k) (Z.lor x (Z.shiftr x k)).
Proof.
  intros Hk Hx Ht i. rewrite log2_smear by lia. intros Hi Hlo. rewrite Z.lor_spec, Z.shiftr_spec by lia.
  destruct (decide (Z.log2 x - k < i)) as [H|H]; [by rewrite Ht|].
  rewrite (Ht (i + k)) by lia. apply orb_true_r.
Qed.

Lemma smear_pos k x : 0 < x -> 0 < Z.lor x (Z.shiftr x k).
Proof.
  intros Hx. assert (0 <= Z.lor x (Z.shiftr x k)) by (apply Z.lor_nonneg; split; [lia|apply Z.shiftr_nonneg; lia]).
  assert (Z.lor x (Z.shiftr x k) <> 0); [|lia]. intros E. apply Z.lor_eq_0_iff in E as [? _]. lia.
Qed.

Lemma top_all k x : 0 < x -> Z.log2 x < k -> top_set k x -> x = 2 ^ (Z.log2 x + 1) - 1.
Proof.
  intros Hx Hk Ht. pose proof (Z.log2_nonneg x).
  replace (2 ^ (Z.log2 x + 1) - 1) with (Z.ones (Z.log2 x + 1)) by (by rewrite Z.ones_equiv, Z.sub_1_r).
  apply Z.bits_inj'. intros i Hi. destruct (decide (i <= Z.log2 x)) as [H0|H0].
  - rewrite Z.ones_spec_low by lia. apply Ht; lia.
  - rewrite Z.ones_spec_high by lia. apply Z.bits_above_log2; lia.
Qed.

End smear.

(** ** Properties *)

Section properties.
Import hutil base_utils.

(** C28: [Ceil2Pow2] is the least power of two not below its argument, from 1 to [2^63]; 0, and
    what has no such power in 64 bits, give 0. *)
Theorem Ceil2Pow2_spec x :
  0 <= x < 2 ^ 64 -> Ceil2Pow2 x = if (1 <=? x) && (x <=? 2 ^ 63) then 2 ^ Z.log2_up x else 0.
Proof.
  intros Hx. unfold Ceil2Pow2. cbn [shift_loop]. change (1 <? 8) with true. change (u64 (Z.shiftl 1 1)) with 2.
  change (2 <? 8) with true. change (u64 (Z.shiftl 2 1)) with 4. change (4 <? 8) with true.
  change (u64 (Z.shiftl 4 1)) with 8. change (8 <? 8) with false. cbv iota.
  change (Z.shiftl 1 3) with 8. change (Z.shiftl 2 3) with 16. change (Z.shiftl 4 3) with 32.
  destruct (decide (x = 0)) as [->|H0]; [reflexivity|]. rewrite (u64_id (x - 1)) by lia.
  destruct (decide (x = 1)) as [->|H1]; [reflexivity|].
  assert (0 < x - 1) as Hp by lia. generalize (top_1 _ Hp). pose proof Hp as Hp0. revert Hp.
  assert (forall k y, 0 < k -> 0 < y -> Z.log2 y = Z.log2 (x - 1) -> top_set k y ->
    0 < Z.lor y (Z.shiftr y k) /\ Z.log2 (Z.lor y (Z.shiftr y k)) = Z.log2 (x - 1) /\ top_set (2 * k) (Z.lor y (Z.shiftr y k))) as Hstep.
  { intros k y Hk Hy Hl Ht. split_and!; [by apply smear_pos|rewrite log2_smear; lia|by apply smear_step]. }
  intros Hp Ht. destruct (Hstep 1 _ ltac:(lia) Hp eq_refl Ht) as (Hp1 & Hl1 & Ht1).
  destruct (Hstep 2 _ ltac:(lia) Hp1 Hl1 Ht1) as (Hp2 & Hl2 & Ht2).
  destruct (Hstep 4 _ ltac:(lia) Hp2 Hl2 Ht2) as (Hp4 & Hl4 & Ht4).
  destruct (Hstep 8 _ ltac:(lia) Hp4 Hl4 Ht4) as (Hp8 & Hl8 & Ht8).
  destruct (Hstep 16 _ ltac:(lia) Hp8 Hl8 Ht8) as (Hp16 & Hl16 & Ht16).
  destruct (Hstep 32 _ ltac:(lia) Hp16 Hl16 Ht16) as (Hp32 & Hl32 & Ht32).
  match goal with |- u64 (?y + 1) = _ => set (z := y) in * end.
  assert (Z.log2 (x - 1) < 64) as Hlog by (apply Z.log2_lt_pow2; lia).
  rewrite (top_all 64 z), Hl32 by (done || lia). replace (_ - 1 + 1) with (2 ^ (Z.log2 (x - 1) + 1)) by lia.
  assert (Z.log2_up x = Z.log2 (x - 1) + 1) as Hup by (rewrite Z.log2_up_eqn by lia; rewrite <- Z.sub_1_r; lia).
  rewrite Hup. destruct (x <=? 2 ^ 63) eqn:E; bool_to_prop; ztest; cbn [andb].
  - rewrite u64_id; [done|]. assert (Z.log2 (x - 1) < 63) by (apply Z.log2_lt_pow2; lia).
    split; [apply Z.pow_nonneg; lia|apply Z.pow_lt_mono_r; lia].
  - assert (Z.log2 (x - 1) = 63) as ->; [|reflexivity].
    assert (63 <= Z.log2 (x - 1)) by (apply Z.log2_le_pow2; lia). lia.
Qed.

Lemma Ceil2Pow2_spec_witness : Ceil2Pow2 1000 = 1024 /\ Ceil2Pow2 (2 ^ 63 + 1) = 0.
Proof. split; rewrite Ceil2Pow2_spec by (split; [lia|reflexivity]); reflexivity. Defined.

(** [uper_divied] rounds a quotient up. *)
Theorem uper_divied_spec n b :
  0 <= n < 2 ^ 31 -> 0 < b < 2 ^ 31 -> exists q, uper_divied n b = Ret q /\ (q - 1) * b < n <= q * b.
Proof.
  intros Hn Hb. exists (Z.quot n b + (if Z.rem n b >? 0 then 1 else 0)).
  pose proof (Z.quot_rem' n b). pose proof (Z.rem_bound_pos n b ltac:(lia) ltac:(lia)).
  assert (0 <= Z.quot n b <= n) as Hq by (split; [apply Z.quot_pos; lia|nia]).
  unfold uper_divied. rewrite (proj2 (Z.eqb_neq b 0)) by lia. rewrite bool_decide_eq_true_2 by (unfold in_s; cbn; lia).
  split; [done|]. rewrite Z.gtb_ltb. destruct (0 <? Z.rem n b) eqn:E; bool_to_prop; nia.
Qed.

Lemma uper_divied_spec_witness : exists q, uper_divied 7 2 = Ret q /\ (q - 1) * 2 < 7 <= q * 2.
Proof. apply uper_divied_spec; lia. Defined.

(** [set_bit] sets no bit: its result has only bits the value has already. *)
Theorem set_bit_sets_nothing s v i : 0 <= i -> Z.testbit (set_bit s v) i = true -> Z.testbit s i = true.
Proof. intros Hi. unfold set_bit. rewrite Z.land_spec. by intros [? _]%andb_true_iff. Qed.

Lemma set_bit_sets_nothing_witness : Z.testbit 5 0 = true.
Proof. apply (set_bit_sets_nothing 5 1 0); [lia|reflexivity]. Defined.

(** [remove_bit] clears the bits of its second argument and no other. *)
Theorem remove_bit_spec s v i :
  0 <= i -> Z.testbit (remove_bit s v) i = Z.testbit s i && negb (Z.testbit v i).
Proof. intros Hi. unfold remove_bit. by rewrite Z.land_spec, Z.lnot_spec. Qed.

Lemma remove_bit_spec_witness : Z.testbit (remove_bit 7 2) 1 = Z.testbit 7 1 && negb (Z.testbit 2 1).
Proof. by apply remove_bit_spec. Defined.

(** Five milliseconds are five microseconds. *)
Example HThreadSleep_unit : HThreadSleep 0 5 0 = Ret (0, 5000).
Proof. reflexivity. Qed.

(** A name that was registered makes what its last maker makes. *)
Theorem NewApi_registered {A} name (f : option A) m :
  sorted fst m -> name <> [] -> HApiFactory.NewApi name (HApiFactory.RegisterApi name f m) = f.
Proof.
  intros Hm Hn. assert (get fst name (HApiFactory.RegisterApi name f m) = Some (name, f)) as E.
  { unfold HApiFactory.RegisterApi. destruct (get fst name m) eqn:E; [by apply (get_assign_eq fst (name, f))|].
    rewrite (ins_assign fst (name, f)) by done. by apply (get_assign_eq fst (name, f)). }
  unfold HApiFactory.NewApi. rewrite bool_decide_eq_false_2, E by done. by destruct f.
Qed.

Lemma NewApi_registered_witness : HApiFactory.NewApi (str "a") (HApiFactory.RegisterApi (str "a") (Some 1%nat) []) = Some 1%nat.
Proof. by apply NewApi_registered. Defined.

Import HMmap.

(** [Init] never succeeds: the flags it maps with are neither shared nor private, which
    [mmap] refuses; and a mapping without a file asks for the length of no file first. *)
Theorem Init_never_maps open lseek mmap name size off :
  (forall len prot flags fd off, Z.land flags 3 = 0 -> mmap len prot flags fd off = MapFailed) ->
  (forall off, lseek (-1) off = -1) -> 0 < size ->
  let '(e, s, _) := HMmap.Init open lseek mmap (HMmap.make name size off) in e <> OK /\ (m_ptr s = Null \/ m_ptr s = MapFailed).
Proof.
  intros Hm Hl Hs. unfold HMmap.Init, HMmap.make. cbn [m_strFileName m_len m_off m_prot m_flags m_named m_ptr].
  destruct (bool_decide (name = [])); cbn [negb andb].
  - rewrite Hl, Z.geb_leb. ztest. cbn. split; [done|by left].
  - destruct (open name >? 0); cbn [negb]; [|cbn; split; [done|by left]].
    destruct (_ >=? _); cbn [negb]; [|cbn; split; [done|by left]].
    rewrite Hm by done. cbn. split; [done|by right].
Qed.

Lemma Init_never_maps_witness :
  let '(e, s, _) := HMmap.Init (fun _ => 3) (fun fd _ => if fd =? -1 then -1 else 8192) (fun _ _ _ _ _ => MapFailed)
                      (HMmap.make (str "f") 4096 0) in e <> OK.
Proof.
  pose proof (Init_never_maps (fun _ => 3) (fun fd _ => if fd =? -1 then -1 else 8192) (fun _ _ _ _ _ => MapFailed) (str "f") 4096 0)
    as H. apply H; [done|done|lia].
Defined.

(** [UnInit] unmaps whatever the pointer is, the address 0 and the error included. *)
Theorem UnInit_unmaps_anything s : snd (UnInit s) = [m_ptr s] /\ m_ptr (fst (UnInit s)) = Null.
Proof. unfold UnInit. destruct (m_ptr s); done. Qed.

(** [JoinWithTime] gives a span where [pthread_timedjoin_np] takes a time of day: a thread
    that still runs is not waited for, however long the span. *)
Theorem JoinWithTime_never_waits pthread_timedjoin_np timespan now m_id :
  (forall id t, t <= now -> pthread_timedjoin_np id t <> 0) -> timespan <= now ->
  HThread.JoinWithTime pthread_timedjoin_np timespan m_id = (SYS_FAILED, m_id).
Proof. intros Hj Ht. unfold HThread.JoinWithTime. by rewrite (proj2 (Z.eqb_neq _ _) (Hj m_id timespan Ht)). Qed.

Lemma JoinWithTime_never_waits_witness :
  HThread.JoinWithTime (fun _ t => if t <=? 1700000000 then 110 else 0) 3600 7 = (SYS_FAILED, 7).
Proof.
  apply (JoinWithTime_never_waits _ 3600 1700000000); [|lia]. intros _ t Ht. rewrite (proj2 (Z.leb_le t 1700000000)) by done. done.
Defined.

(** A key object that was never made deletes the key 0 of somebody else. *)
Example unmade_key : HThreadKey.destroy HThread.invalid_threadtype_value [0; 1] = [1].
Proof. reflexivity. Qed.

(** The bounds of the first call are those of all later ones. *)
Theorem Dist_random_first a b a' b' :
  fst (HRandom.Dist_random a' b' (snd (HRandom.Dist_random a b None))) = (a, b).
Proof. reflexivity. Qed.

(** A mapping without a file says that it has a name until [Init] is called. *)
Example unnamed_is_named : HMmap.IsNonNamed (HMmap.make_anon HMmap.DEFAULT_SIZE HMmap.DEFAULT_OFF) = false.
Proof. reflexivity. Qed.

(** A negative count of seconds is a sleep of more than a century. *)
Example negative_sleep : hutil.HSleep1 (fun s => s) (-1) = -1 /\ u32 (-1) = 4294967295.
Proof. split; reflexivity. Qed.

(** A module counts as initialised although [moduleInit] failed. *)
Example failed_module : fst (HSingleModuleBase.InitModule OK SYS_FAILED (HSingleModuleBase.Mod true false)) = (SYS_FAILED, HSingleModuleBase.Mod true true).
Proof. reflexivity. Qed.

(** Of a guard and the one it was moved to only the latter runs the function, once. *)
Theorem moved_guard_runs_once {A} (f : A) :
  let '(target, source) := ScopeGuard.move (ScopeGuard.make f) in ScopeGuard.destroy source ++ ScopeGuard.destroy target = [f].
Proof. reflexivity. Qed.

End properties.
