(* ===== verification/JobMng.v ===== *)
(** * A pool of threads that does a queue of jobs: [src/utils/multithreadjobmng.cpp]

    [MultiThreadJobMng] is an [HThreadPool] whose children run the jobs of a
    [JobPool] until it is empty, and count themselves out of [m_nWorking] on the
    way through [childThreadExit].  [MonitorQueue] shows that a call of [PushJob]
    or [GetJob] is one step on a first-in first-out queue; here they are one
    step, and what lies between two of them interleaves freely: a job that
    pushes further jobs does it one by one, [m_nWorking--] is a load and a
    store, and [Init] may still be storing a child's status.  First comes the
    thread's own data, through which a child finds its index. *)

From stdpp Require Import gmap.
From S2P Require Import Prelude ThreadPool Util.
#[local] Open Scope Z_scope.

(** ** The thread specific data of [src/hthreadpool.cpp] *)

Module ThreadSpecific.

(** [thread_arg]; the pools are numbered. *)
Record thread_arg : Type := Arg { m_pool : option nat; m_index : Z }.

(** [s_thread_once], [s_thread_key], the values of the keys for each thread, and
    the arrays [new] has returned; one that has been freed is [None]. *)
Record tls : Type := Tls {
  once : bool;
  s_thread_key : Z;
  vals : gmap (nat * Z) nat;
  blocks : list (option thread_arg)
}.

Definition zero_arg : thread_arg := Arg None 0.

(** The state before [main]. *)
Definition initial : tls := Tls false HThread.invalid_threadtype_value ∅ [].

Section kernel.
(** What [pthread_key_create] and [pthread_setspecific] answer. *)
Context (pthread_key_create : option Z) (pthread_setspecific : bool).

(** [s_thread_once.Once(ThreadSpecifiOnce)]: the failure of [Create] is dropped. *)
Definition ThreadSpecifiOnce (s : tls) : tls :=
  if once s then s
  else Tls true (HThreadKey.Create pthread_key_create (s_thread_key s)).2 (vals s) (blocks s).

(** The block of thread [t]. *)
Definition CreateThreadSpecific (t : nat) (s : tls) : res (tls * nat) :=
  let s := ThreadSpecifiOnce s in
  match vals s !! (t, s_thread_key s) with
  | Some b => Ret (s, b)
  | None =>
    if pthread_setspecific then
      Ret (Tls (once s) (s_thread_key s) (<[(t, s_thread_key s) := length (blocks s)]> (vals s))
             (blocks s ++ [Some zero_arg]), length (blocks s))
    else Throw (HExc SYS_FAILED)
  end.

(** [thread_para->m_index] *)
Definition read_arg (b : nat) (s : tls) : res thread_arg :=
  match blocks s !! b with Some (Some a) => Ret a | _ => Throw UB end.

(** The part of [thread_init_run] that stores the index and the pool. *)
Definition set_thread_para (t : nat) (pool : nat) (index : Z) (s : tls) : res tls :=
  '(s, b) ← CreateThreadSpecific t s;
  Ret (Tls (once s) (s_thread_key s) (vals s) (<[b := Some (Arg (Some pool) index)]> (blocks s))).

Definition GetThreadIndex (t : nat) (s : tls) : res (tls * Z) :=
  '(s, b) ← CreateThreadSpecific t s; a ← read_arg b s; Ret (s, m_index a).

(** [set_child_status] of a pool with [m_pinfos] of these statuses. *)
Definition set_child_status (status : HThreadPool.ChildStatus) (t : nat) (infos : list HThreadPool.ChildStatus)
    (s : tls) : res (tls * list HThreadPool.ChildStatus) :=
  '(s, b) ← CreateThreadSpecific t s;
  a ← read_arg b s;
  _ ← assert_throw (m_index a <? Z.of_nat (length infos)) SRC_ERR;
  _ ← check_ub (0 <=? m_index a);
  Ret (s, <[Z.to_nat (m_index a) := status]> infos).

(** [ThreadSpecifiDestructor], when the thread ends. *)
Definition ThreadSpecifiDestructor (t : nat) (s : tls) : tls :=
  match vals s !! (t, s_thread_key s) with
  | Some b => Tls (once s) (s_thread_key s) (delete (t, s_thread_key s) (vals s)) (<[b := None]> (blocks s))
  | None => s
  end.

End kernel.
End ThreadSpecific.

(** ** The job manager *)

Module MultiThreadJobMng.

(** How [DoJob] ends: it returns, it is an [ExitThreadJob], it throws. *)
Inductive outcome : Type := Returns | ExitThread | Throws (e : exn).

#[global] Instance outcome_eq_dec : EqDecision outcome.
Proof. solve_decision. Defined.

Section jobs.
(** What a job pushes, and how it ends. *)
Context {job : Type} (DoJob : job -> list job * outcome).

(** Where a child is. *)
Inductive wpc : Type :=
  | WGet                             (* about to call GetJob *)
  | WRun (j : job) (push : list job) (* in DoJob, which has still these jobs to push *)
  | WExit                            (* no job: in childThreadExit *)
  | WLoad                            (* beforeThreadExit: about to read m_nWorking *)
  | WStore (v : Z)                   (* about to store v - 1 *)
  | WDone                            (* pthread_exit *)
  | WKilled.                         (* pthread_exit in a job *)

Record st : Type := St {
  m_nWorking : Z;
  m_jobs : list job;
  workers : list wpc;
  infos : list HThreadPool.ChildStatus;
  pushed : list job;                 (* every job pushed so far *)
  taken : list (nat * job);          (* every job a child has got so far *)
  finished : list (nat * job)        (* every job done and freed so far *)
}.

Definition set_worker (i : nat) (w : wpc) (s : st) : st :=
  St (m_nWorking s) (m_jobs s) (<[i := w]> (workers s)) (infos s) (pushed s) (taken s) (finished s).
Definition PushJob (j : job) (s : st) : st :=
  St (m_nWorking s) (m_jobs s ++ [j]) (workers s) (infos s) (pushed s ++ [j]) (taken s) (finished s).
Definition take_job (i : nat) (j : job) (rest : list job) (s : st) : st :=
  St (m_nWorking s) rest (workers s) (infos s) (pushed s) (taken s ++ [(i, j)]) (finished s).
Definition finish_job (i : nat) (j : job) (s : st) : st :=
  St (m_nWorking s) (m_jobs s) (workers s) (infos s) (pushed s) (taken s) (finished s ++ [(i, j)]).
Definition set_status (i : nat) (c : HThreadPool.ChildStatus) (s : st) : st :=
  St (m_nWorking s) (m_jobs s) (workers s) (<[i := c]> (infos s)) (pushed s) (taken s) (finished s).
Definition set_nWorking (v : Z) (s : st) : st :=
  St v (m_jobs s) (workers s) (infos s) (pushed s) (taken s) (finished s).

(** [beforeThreadExit] of child [i]: [m_nWorking--]. *)
Definition beforeThreadExit (i : nat) (loaded : option Z) (s : st) : st :=
  match loaded with
  | None => set_worker i (WStore (m_nWorking s)) s
  | Some v => set_worker i WDone (set_nWorking (s32 (v - 1)) s)
  end.

(** The end of the loop's body: [job] goes out of scope and is freed, also when
    the thread is cancelled in it; nothing catches what it throws. *)
Definition job_ends (i : nat) (j : job) (s : st) : res st :=
  match (DoJob j).2 with
  | Returns => Ret (set_worker i WGet (finish_job i j s))
  | ExitThread => Ret (set_worker i WKilled (finish_job i j s))
  | Throws _ => Throw Terminate
  end.

(** A step of child [i]; [None]: it has ended. *)
Definition childThreadRun (i : nat) (s : st) : option (res st) :=
  w ← workers s !! i;
  match w with
  | WGet =>
    match m_jobs s with
    | [] => Some (Ret (set_worker i WExit s))
    | j :: rest => Some (Ret (set_worker i (WRun j (DoJob j).1) (take_job i j rest s)))
    end
  | WRun j (x :: push) => Some (Ret (set_worker i (WRun j push) (PushJob x s)))
  | WRun j [] => Some (job_ends i j s)
  | WExit => Some (Ret (set_worker i WLoad (set_status i HThreadPool.CS_UNUSED s)))
  | WLoad => Some (Ret (beforeThreadExit i None s))
  | WStore v => Some (Ret (beforeThreadExit i (Some v) s))
  | WDone | WKilled => None
  end.

(** A step of a child, a [PushJob] of the owner, [Init]'s late store of a status. *)
Inductive who : Type := Child (i : nat) | Owner (j : job) | Init (i : nat).

Definition exec (a : who) (s : st) : option (res st) :=
  match a with
  | Child i => childThreadRun i s
  | Owner j => Some (Ret (PushJob j s))
  | Init i => Some (Ret (set_status i HThreadPool.CS_IDLE s))
  end.

Fixpoint run (sched : list who) (s : st) : option (res st) :=
  match sched with
  | [] => Some (Ret s)
  | a :: rest =>
    match exec a s with
    | Some (Ret s) => run rest s
    | r => match rest with [] => r | _ => None end
    end
  end.

Inductive reach (s0 : st) : res st -> Prop :=
  | reach_refl : reach s0 (Ret s0)
  | reach_step s a r : reach s0 (Ret s) -> exec a s = Some r -> reach s0 r.

(** The constructor; then the jobs [initJobs] has pushed and the children
    [Init] has made, each with its status set to busy. *)
Definition make (nWork : nat) : st := St (Z.of_nat nWork) [] [] [] [] [] [].
Definition start (nWork : nat) (jobs : list job) : st :=
  St (Z.of_nat nWork) jobs (replicate nWork WGet) (replicate nWork HThreadPool.CS_BUSY) jobs [] [].

(** [initJobs] is the client's: the jobs it pushes and its answer.  [Init]
    returns [OK] or throws when a thread cannot be created. *)
Definition InitJobSummer (initJobs : list job * herr) (thread_made : bool) (nWork : nat) : res (herr * st) :=
  let '(jobs, e) := initJobs in
  if negb (IS_OK e) then Ret (e, foldl (fun s j => PushJob j s) (make nWork) jobs)
  else _ ← assert_throw (bool_decide (nWork = O) || thread_made) SYS_FAILED; Ret (OK, start nWork jobs).

Definition allFinished (s : st) : bool := match m_jobs s with [] => true | _ => false end.

(** [Finish] reads the count in [s] and then looks at the queue, in a later state. *)
Definition Finish_at (s s' : st) : bool := (m_nWorking s =? 0) && allFinished s'.
Definition Finish (s : st) : bool := Finish_at s s.

End jobs.
Arguments wpc job : clear implicits.
Arguments st job : clear implicits.
Arguments who job : clear implicits.

End MultiThreadJobMng.

(** ** A child's index is its own *)

Module ThreadSpecificFacts.
Import ThreadSpecific.

(** Two threads never share a block, and every block in use is allocated. *)
Record tls_ok (s : tls) : Prop := {
  ok_fresh : once s = false -> vals s = ∅;
  ok_alloc x b : vals s !! x = Some b -> exists a, blocks s !! b = Some (Some a);
  ok_inj x y b : vals s !! x = Some b -> vals s !! y = Some b -> x = y
}.

(** Thread [t] has stored the index [i]. *)
Definition has_index (t : nat) (i : Z) (s : tls) : Prop :=
  once s = true /\ exists b p, vals s !! (t, s_thread_key s) = Some b /\ blocks s !! b = Some (Some (Arg p i)).

Lemma initial_ok : tls_ok initial.
Proof. by constructor; cbn. Qed.

Section kernel.
Context (kc : option Z) (ss : bool).

Lemma Create_ok t s s' b : tls_ok s -> CreateThreadSpecific kc ss t s = Ret (s', b) ->
  tls_ok s' /\ once s' = true /\ vals s' !! (t, s_thread_key s') = Some b /\
  (forall u i, has_index u i s -> has_index u i s').
Proof.
  unfold CreateThreadSpecific, ThreadSpecifiOnce. intros [F A I].
  set (s1 := if once s then s else _).
  assert (tls_ok s1 /\ once s1 = true /\ forall u i, has_index u i s -> has_index u i s1) as ([_ A1 I1] & O1 & M1).
  { subst s1. destruct (once s) eqn:E; [split_and!; [by constructor; [congruence|..]|done|done]|].
    split; [constructor; cbn; [done|exact A|exact I] | split; [done|]]. intros u i [? _]. congruence. }
  clearbody s1. clear F A I. destruct (vals s1 !! _) as [b1|] eqn:E.
  - intros [= <- <-]. split_and!; [by constructor; [congruence|..]|done..].
  - destruct ss; [|done]. intros [= <- <-]. cbn. split_and!; [|done|by rewrite lookup_insert_eq|].
    + constructor; cbn; [congruence| |].
      * intros x b [[<- <-] | [? H]]%lookup_insert_Some.
        -- exists zero_arg. by rewrite lookup_app_r, Nat.sub_diag.
        -- destruct (A1 _ _ H) as [a Ha]. exists a. by apply lookup_app_l_Some.
      * intros x y b [[<- <-] | [? Hx]]%lookup_insert_Some [[<- ?] | [? Hy]]%lookup_insert_Some; subst; eauto;
          match goal with H : vals s1 !! _ = Some (length _) |- _ => destruct (A1 _ _ H) as [? ?%lookup_lt_Some]; lia end.
    + intros u i Hi. destruct (M1 _ _ Hi) as (_ & b & p & Hb & Hp). split; [done|]. exists b, p. cbn.
      rewrite lookup_insert_ne by (intros [= ->]; congruence). split; [done|]. by apply lookup_app_l_Some.
Qed.

Lemma set_para_ok t p i s s' : tls_ok s -> set_thread_para kc ss t p i s = Ret s' ->
  tls_ok s' /\ has_index t i s' /\ (forall u j, u <> t -> has_index u j s -> has_index u j s').
Proof.
  unfold set_thread_para. intros Hok ([s1 b] & E & [= <-])%res_bind_ret.
  destruct (Create_ok _ _ _ _ Hok E) as ([F A I] & O & V & M). cbn.
  destruct (A _ _ V) as [a Ha]. pose proof (lookup_lt_Some _ _ _ Ha).
  split_and!.
  - constructor; cbn; [done| |exact I]. intros x c Hc.
    destruct (decide (c = b)) as [->|]; [by rewrite list_lookup_insert_eq; eauto|].
    rewrite list_lookup_insert_ne by done. eauto.
  - split; [done|]. exists b, (Some p). cbn. by rewrite list_lookup_insert_eq.
  - intros u j Hu Hj. destruct (M _ _ Hj) as (_ & c & q & Hc & Hq). split; [done|]. exists c, q. cbn.
    rewrite list_lookup_insert_ne; [done|]. intros ->. pose proof (I _ _ _ V Hc). congruence.
Qed.

Lemma read_own t i s s' b : tls_ok s -> has_index t i s -> CreateThreadSpecific kc ss t s = Ret (s', b) ->
  exists a, read_arg b s' = Ret a /\ m_index a = i.
Proof.
  intros Hok Hi E. destruct (Create_ok _ _ _ _ Hok E) as (_ & _ & V & M).
  destruct (M _ _ Hi) as (_ & c & q & Hc & Hq). simplify_eq. exists (Arg q i). unfold read_arg. by rewrite Hq.
Qed.

Lemma Get_total t i s : has_index t i s -> CreateThreadSpecific kc ss t s = Ret (s, default 0%nat (vals s !! (t, s_thread_key s))).
Proof.
  intros (O & b & p & V & _). unfold CreateThreadSpecific, ThreadSpecifiOnce. by rewrite O, V.
Qed.

End kernel.

(** What the threads of the program do with their data, in any order: a child
    of a pool starts, a thread asks for its index. *)
Inductive tls_act : Type := AStart (t p : nat) (i : Z) | AIndex (t : nat).

Definition do_act (kc : option Z) (ss : bool) (a : tls_act) (s : tls) : res tls :=
  match a with
  | AStart t p i => set_thread_para kc ss t p i s
  | AIndex t => '(s, _) ← GetThreadIndex kc ss t s; Ret s
  end.

Fixpoint do_acts (kc : option Z) (ss : bool) (l : list tls_act) (s : tls) : res tls :=
  match l with [] => Ret s | a :: l => s ← do_act kc ss a s; do_acts kc ss l s end.

Definition starts (t : nat) (a : tls_act) : bool := match a with AStart u _ _ => (u =? t)%nat | AIndex _ => false end.

Lemma act_ok kc ss a s s' : tls_ok s -> do_act kc ss a s = Ret s' ->
  tls_ok s' /\ forall t i, starts t a = false -> has_index t i s -> has_index t i s'.
Proof.
  intros Hok. destruct a as [t p i | t]; cbn.
  - intros E. destruct (set_para_ok _ _ _ _ _ _ _ Hok E) as (? & _ & M). split; [done|].
    intros u j ?%Nat.eqb_neq Hj. by apply M.
  - unfold GetThreadIndex. intros ([s2 i] & ([s1 b] & E & (a & _ & [= <- <-])%res_bind_ret)%res_bind_ret & [= <-])%res_bind_ret.
    destruct (Create_ok _ _ _ _ _ _ Hok E) as (? & _ & _ & M). eauto.
Qed.

Lemma acts_ok kc ss l s s' : tls_ok s -> do_acts kc ss l s = Ret s' ->
  tls_ok s' /\ forall t i, forallb (fun a => negb (starts t a)) l = true -> has_index t i s -> has_index t i s'.
Proof.
  revert s. induction l as [|a l IH]; cbn; intros s Hok.
  - intros [= <-]. auto.
  - intros (s1 & E & H)%res_bind_ret. destruct (act_ok _ _ _ _ _ Hok E) as [Hok1 M].
    destruct (IH _ Hok1 H) as [? M']. split; [done|]. intros t i [?%negb_true_iff ?]%andb_true_iff ?. auto.
Qed.

(** Whatever the other threads of the program start and ask in between, a child
    that has started as number [i] of its pool is told [i] by [GetThreadIndex],
    and [set_child_status] writes that slot alone. *)
Theorem index_own kc ss t p i before between s infos status :
  do_acts kc ss (before ++ AStart t p i :: between) initial = Ret s ->
  forallb (fun a => negb (starts t a)) between = true -> 0 <= i < Z.of_nat (length infos) ->
  GetThreadIndex kc ss t s = Ret (s, i) /\
  set_child_status kc ss status t infos s = Ret (s, <[Z.to_nat i := status]> infos).
Proof.
  intros E Hb Hi.
  assert (exists s1 s2, do_acts kc ss before initial = Ret s1 /\ set_thread_para kc ss t p i s1 = Ret s2 /\
    do_acts kc ss between s2 = Ret s) as (s1 & s2 & E1 & E2 & E3).
  { revert E. generalize initial as s0. induction before as [|a l IH]; cbn; intros s0.
    - intros (s2 & ? & ?)%res_bind_ret. eauto.
    - intros (sa & -> & H)%res_bind_ret. cbn. eauto. }
  destruct (acts_ok _ _ _ _ _ initial_ok E1) as [Ok1 _].
  destruct (set_para_ok _ _ _ _ _ _ _ Ok1 E2) as (Ok2 & Hi2 & _).
  destruct (acts_ok _ _ _ _ _ Ok2 E3) as [Ok3 M]. specialize (M _ _ Hb Hi2).
  destruct (read_own kc ss _ _ _ _ _ Ok3 M (Get_total _ _ _ _ _ M)) as (a & Ra & <-).
  unfold GetThreadIndex, set_child_status. rewrite (Get_total _ _ _ _ _ M). cbn. rewrite Ra. cbn.
  split; [done|]. unfold assert_throw, check_ub. by ztest.
Qed.

Lemma index_own_witness : exists s,
  GetThreadIndex (Some 5) true 2 s = Ret (s, 1) /\
  set_child_status (Some 5) true HThreadPool.CS_BUSY 2 [HThreadPool.CS_UNUSED; HThreadPool.CS_UNUSED] s
    = Ret (s, [HThreadPool.CS_UNUSED; HThreadPool.CS_BUSY]).
Proof.
  eexists. apply (index_own (Some 5) true 2 0 1 [AStart 1 0 0] [AIndex 1; AStart 3 7 0; AIndex 9]).
  - vm_compute. reflexivity.
  - reflexivity.
  - cbn. lia.
Defined.

(** A thread that is no child of the pool gets a cleared block, and the index of child 0. *)
Example foreign_thread_is_child_0 : exists s,
  (s ← do_acts (Some 5) true [AStart 1 0 0] initial; GetThreadIndex (Some 5) true 9 s) = Ret (s, 0).
Proof. eexists. vm_compute. reflexivity. Qed.

End ThreadSpecificFacts.

(** ** What the children do with the queue *)

Module MultiThreadJobMngFacts.
Import MultiThreadJobMng.

Section facts.
Context {job : Type} (DoJob : job -> list job * outcome).
Implicit Types (s : st job) (w : wpc job).

(** The job a child has in its hands. *)
Definition in_hand (w : option (wpc job)) : list job := match w with Some (WRun j _) => [j] | _ => [] end.

(** The jobs of child [i] in a log. *)
Definition of_child (i : nat) (l : list (nat * job)) : list job :=
  map snd (filter (fun x => x.1 = i) l).

(** The child still counts in [m_nWorking]. *)
Definition counts w : nat := match w with WDone => 0 | _ => 1 end.
Definition remaining s : Z := Z.of_nat (sum_list_with counts (workers s)).

Lemma of_child_snoc i k j l : of_child i (l ++ [(k, j)]) = of_child i l ++ (if decide (k = i) then [j] else []).
Proof.
  unfold of_child. rewrite filter_app, map_app. f_equal. rewrite filter_cons. cbn. by case_decide.
Qed.

Record inv (nWork : Z) s : Prop := {
  in_fifo : pushed s = map snd (taken s) ++ m_jobs s;
  in_once i : of_child i (taken s) = of_child i (finished s) ++ in_hand (workers s !! i);
  in_count : remaining s <= m_nWorking s <= nWork;
  in_loaded i v : workers s !! i = Some (WStore v) -> remaining s <= v <= nWork
}.

Lemma inv_start n jobs : inv (Z.of_nat n) (start n jobs).
Proof.
  assert (sum_list_with counts (replicate n (WGet (job := job))) = n) as E by (induction n; cbn in *; lia).
  constructor; cbn; [done| | |].
  - intros i. destruct (replicate n _ !! i) as [w|] eqn:Hw; [|done]. by apply lookup_replicate in Hw as [-> _].
  - unfold remaining. cbn. rewrite E. lia.
  - intros i v [? _]%lookup_replicate. done.
Qed.

(** A step that changes child [i] alone, to a state where it has read no count. *)
Lemma inv_move n i w w' s s' : workers s !! i = Some w -> w <> WDone -> w' <> WDone ->
  (forall v, w' = WStore v -> v = m_nWorking s) ->
  workers s' = <[i := w']> (workers s) -> m_nWorking s' = m_nWorking s ->
  pushed s' = map snd (taken s') ++ m_jobs s' ->
  (forall k, of_child k (taken s') = of_child k (finished s') ++ in_hand (workers s' !! k)) ->
  inv n s -> inv n s'.
Proof.
  intros Hw Hd Hd' Hst Ew Em Ef Eo [_ _ C L].
  assert (remaining s' = remaining s) as Er.
  { unfold remaining. rewrite Ew. pose proof (sum_with_insert counts i w w' _ Hw). destruct w, w'; cbn in *; try done; lia. }
  constructor; [done|done|by rewrite Er, Em|].
  intros k v. rewrite Ew, Er. intros [[<- [-> Hv]] | [? H]]%list_lookup_insert_Some; eauto.
  by rewrite (Hst _ eq_refl).
Qed.

Lemma inv_same n s s' : workers s' = workers s -> m_nWorking s' = m_nWorking s ->
  pushed s' = map snd (taken s') ++ m_jobs s' -> taken s' = taken s -> finished s' = finished s ->
  inv n s -> inv n s'.
Proof.
  intros Ew Em Ef Et Efi [_ O C L]. constructor; [done| | |]; unfold remaining in *; rewrite ?Ew, ?Et, ?Efi, ?Em; auto.
Qed.

(** The other children's part of a log, and child [i]'s. *)
Lemma once_step i w w' s s' (x : option job) (y : option job) : workers s !! i = Some w ->
  workers s' = <[i := w']> (workers s) ->
  taken s' = taken s ++ (if x is Some j then [(i, j)] else []) ->
  finished s' = finished s ++ (if y is Some j then [(i, j)] else []) ->
  in_hand (Some w) ++ option_list x = option_list y ++ in_hand (Some w') ->
  (forall k, of_child k (taken s) = of_child k (finished s) ++ in_hand (workers s !! k)) ->
  forall k, of_child k (taken s') = of_child k (finished s') ++ in_hand (workers s' !! k).
Proof.
  intros Hw Ew Et Ef Eh O k. rewrite Ew, Et, Ef.
  assert (forall l (z : option job), of_child k (l ++ (if z is Some j then [(i, j)] else [])) =
    of_child k l ++ (if decide (i = k) then option_list z else [])) as Es.
  { intros l [j|]; [apply of_child_snoc|]. rewrite app_nil_r. by case_decide; rewrite ?app_nil_r. }
  rewrite !Es, O. case_decide; [subst i|].
  - rewrite Hw, list_lookup_insert_eq by (by eapply lookup_lt_Some). by rewrite <- !app_assoc, Eh.
  - rewrite list_lookup_insert_ne by done. by rewrite !app_nil_r.
Qed.

(** A step of child [i] from [w] to [w'] that takes [x] and finishes [y]. *)
Ltac child_moves w w' x y :=
  match goal with
  | I : inv ?n ?s, F : pushed ?s = _, Hw : workers ?s !! ?i = Some _ |- _ =>
    apply (inv_move n i w w' s);
      [exact Hw | done | done | first [done | by intros ? [= ->]] | done | done
      | first [exact (in_fifo _ _ I) | cbn; rewrite F, ?map_app; cbn; by rewrite <- ?app_assoc]
      | apply (once_step i w w' s _ x y); cbn; rewrite ?app_nil_r; first [done | apply (in_once _ _ I)]
      | exact I]
  end.

Lemma child_inv n i s s' : n < 2 ^ 31 -> inv n s -> childThreadRun DoJob i s = Some (Ret s') -> inv n s'.
Proof.
  intros Hn I. destruct (I) as [F O C L]. unfold childThreadRun. destruct (workers s !! i) as [w|] eqn:Hw; [|done]. cbn.
  destruct w as [|j [|x push]| | |v| |]; try done.
  - destruct (m_jobs s) as [|j rest] eqn:Ej; intros [= <-].
    + child_moves (WGet (job := job)) (WExit (job := job)) (@None job) (@None job).
    + child_moves (WGet (job := job)) (WRun j (DoJob j).1) (Some j) (@None job).
  - unfold job_ends. destruct (DoJob j).2; intros [= <-].
    + child_moves (WRun j []) (WGet (job := job)) (@None job) (Some j).
    + child_moves (WRun j []) (WKilled (job := job)) (@None job) (Some j).
  - intros [= <-]. child_moves (WRun j (x :: push)) (WRun j push) (@None job) (@None job).
  - intros [= <-]. child_moves (WExit (job := job)) (WLoad (job := job)) (@None job) (@None job).
  - intros [= <-]. child_moves (WLoad (job := job)) (WStore (job := job) (m_nWorking s)) (@None job) (@None job).
  - intros [= <-]. specialize (L _ _ Hw) as Lv. pose proof (sum_with_insert counts i (WStore v) WDone _ Hw) as Es. cbn in Es.
    assert (1 <= v) by (unfold remaining in *; lia).
    assert (remaining (set_worker i WDone (set_nWorking (s32 (v - 1)) s)) = remaining s - 1) as Er
      by (unfold remaining; cbn; lia).
    assert (s32 (v - 1) = v - 1) as Ev by (apply s32_id; lia).
    constructor; [exact F| | |].
    + apply (once_step i (WStore v) WDone s _ None None); cbn; by rewrite ?app_nil_r.
    + rewrite Er. cbn. rewrite Ev. lia.
    + intros k u. rewrite Er. cbn. intros [[_ [Hx _]] | [_ Hk]]%list_lookup_insert_Some; [done|].
      specialize (L _ _ Hk). lia.
Qed.

Lemma job_exec_inv n a s s' : n < 2 ^ 31 -> inv n s -> exec DoJob a s = Some (Ret s') -> inv n s'.
Proof.
  intros Hn I. destruct a as [i | j | i]; cbn.
  - by apply child_inv.
  - intros [= <-]. apply (inv_same n s); try done. cbn. by rewrite (in_fifo _ _ I), app_assoc.
  - intros [= <-]. apply (inv_same n s); try done. apply (in_fifo _ _ I).
Qed.

Lemma reach_inv n s0 r s : n < 2 ^ 31 -> inv n s0 -> reach DoJob s0 r -> r = Ret s -> inv n s.
Proof.
  intros Hn I H. revert s. induction H as [|s1 a r _ IH E]; intros s Es; [by injection Es as <-|subst r].
  eapply job_exec_inv; [done|by apply IH|exact E].
Qed.

(** A count of 0 is final: every child has gone through [childThreadExit]. *)
Lemma zero_done n s : inv n s -> m_nWorking s = 0 -> Forall (fun w => w = WDone) (workers s).
Proof.
  intros I E. apply (in_count n) in I. unfold remaining in I. apply Forall_forall. intros w Hw.
  assert (counts w <= sum_list_with counts (workers s))%nat by (by apply sum_list_with_in). destruct w; cbn in *; done || lia.
Qed.

Lemma done_stays s s' : m_nWorking s = 0 -> Forall (fun w => w = WDone) (workers s) -> reach DoJob s (Ret s') ->
  m_nWorking s' = 0 /\ Forall (fun w => w = WDone) (workers s').
Proof.
  intros E D H. remember (Ret s') as r eqn:Er. revert s' Er.
  induction H as [|s1 a r _ IH Ex]; intros s' Es; [by injection Es as <-|subst r].
  destruct (IH _ eq_refl) as [E1 D1]. destruct a as [i | j | i]; cbn in Ex; [|by injection Ex as <-..].
  unfold childThreadRun in Ex. destruct (workers s1 !! i) as [w|] eqn:Hw; [|done].
  by rewrite (Forall_lookup_1 _ _ _ _ D1 Hw) in Ex.
Qed.

(** ** The children come to an end *)

(** [size] measures the work a job brings with it: more than that of the jobs it pushes. *)
Context (size : job -> nat).

Definition weight w : nat :=
  match w with
  | WGet => 4 | WRun _ push => 5 + sum_list_with (fun j => S (size j)) push
  | WExit => 3 | WLoad => 2 | WStore _ => 1 | WDone | WKilled => 0
  end.
Definition measure s : nat := sum_list_with size (m_jobs s) + sum_list_with weight (workers s).

(** The child will look at the queue again. *)
Definition active w : bool := match w with WGet | WRun _ _ => true | _ => false end.
Definition somebody s : Prop := exists i w, workers s !! i = Some w /\ active w = true.
Definition alive s : Prop := (m_jobs s = [] \/ somebody s) /\ Forall (fun w => w <> WKilled) (workers s).

Definition bounded : Prop := forall j, (2 + sum_list_with (fun x => S (size x)) (DoJob j).1 <= size j)%nat.
Definition all_return : Prop := forall j, (DoJob j).2 = Returns.

Lemma child_measure i s s' : bounded -> childThreadRun DoJob i s = Some (Ret s') -> (measure s' < measure s)%nat.
Proof.
  intros Hb. unfold childThreadRun. destruct (workers s !! i) as [w|] eqn:Hw; [|done]. cbn.
  pose proof (fun w' => sum_with_insert weight i w w' _ Hw) as Es. unfold measure.
  destruct w as [|j [|x push]| | |v| |]; try done.
  - destruct (m_jobs s) as [|j rest] eqn:Ej; intros [= <-]; cbn; rewrite ?Ej; cbn.
    + specialize (Es WExit). cbn in Es. lia.
    + specialize (Es (WRun j (DoJob j).1)). cbn in Es. specialize (Hb j). lia.
  - unfold job_ends. destruct (DoJob j).2; intros [= <-]; cbn;
      [specialize (Es WGet) | specialize (Es WKilled)]; cbn in Es; lia.
  - intros [= <-]. cbn. rewrite sum_list_with_app. specialize (Es (WRun j push)). cbn in *. lia.
  - intros [= <-]. cbn. specialize (Es WLoad). cbn in Es. lia.
  - intros [= <-]. cbn. specialize (Es (WStore (m_nWorking s))). cbn in Es. lia.
  - intros [= <-]. cbn. specialize (Es WDone). cbn in Es. lia.
Qed.

Lemma somebody_insert i w s s' : workers s !! i <> None -> workers s' = <[i := w]> (workers s) -> active w = true -> somebody s'.
Proof.
  intros Hi Ew Ha. exists i, w. rewrite Ew. split; [|done]. apply list_lookup_insert_eq.
  by apply lookup_lt_is_Some, not_eq_None_Some.
Qed.

(** A child that leaves the loop has seen the queue empty. *)
Lemma child_alive i s : all_return -> alive s ->
  childThreadRun DoJob i s = None \/ exists s', childThreadRun DoJob i s = Some (Ret s') /\ alive s'.
Proof.
  intros Hr [Q K]. unfold childThreadRun. destruct (workers s !! i) as [w|] eqn:Hw; [|by left]. cbn.
  assert (workers s !! i <> None) as Hi by congruence.
  assert (forall w', w' <> WKilled -> Forall (fun w => w <> WKilled) (<[i := w']> (workers s))) as K'
    by (intros; by apply Forall_insert).
  assert (active w = false -> forall w' s', w' <> WKilled -> workers s' = <[i := w']> (workers s) -> m_jobs s' = m_jobs s -> alive s') as Q'.
  { intros Ha w' s' Hk Ew Ej. unfold alive. rewrite Ew, Ej. split; [|by apply K'].
    destruct Q as [|(k & u & Hk' & Hu)]; [by left|right]. exists k, u. rewrite Ew.
    rewrite list_lookup_insert_ne; [done|]. intros ->. congruence. }
  assert (forall w' s', active w' = true -> workers s' = <[i := w']> (workers s) -> alive s') as A.
  { intros w' s' Ha Ew. split; [right; by eapply somebody_insert|]. rewrite Ew. apply K'. by intros ->. }
  destruct w as [|j [|x push]| | |v| |]; [| | | | | |by left|by left]; right.
  - destruct (m_jobs s) as [|j rest] eqn:Ej; eexists; (split; [reflexivity|]).
    + split; [by left | by apply K'].
    + by apply (A (WRun j (DoJob j).1)).
  - unfold job_ends. rewrite Hr. eexists. split; [reflexivity|]. by apply (A WGet).
  - eexists. split; [reflexivity|]. by apply (A (WRun j push)).
  - eexists. split; [reflexivity|]. by apply (Q' eq_refl WLoad).
  - eexists. split; [reflexivity|]. by apply (Q' eq_refl (WStore (m_nWorking s))).
  - eexists. split; [reflexivity|]. by apply (Q' eq_refl WDone).
Qed.

Lemma alive_start n jobs : (0 < n)%nat -> alive (start n jobs).
Proof.
  intros Hn. split.
  - right. exists 0%nat, WGet. split; [|done]. cbn. apply lookup_replicate. auto.
  - cbn. apply Forall_forall. by intros w [-> _]%elem_of_replicate.
Qed.

Lemma measure_start n jobs : measure (start n jobs) = (sum_list_with size jobs + 4 * n)%nat.
Proof.
  unfold measure. cbn [m_jobs workers start]. f_equal. induction n as [|n IH]; [done|]. cbn [replicate sum_list_with weight].
  rewrite IH. lia.
Qed.

Lemma reach_cons a s s1 r : exec DoJob a s = Some (Ret s1) -> reach DoJob s1 r -> reach DoJob s r.
Proof.
  intros E H. induction H as [|s2 b r H IH E2]; eapply reach_step; eauto. constructor.
Qed.

Lemma job_run_reach sched s r : run DoJob sched s = Some r -> reach DoJob s r.
Proof.
  revert s. induction sched as [|a sched IH]; cbn; intros s; [intros [= <-]; constructor|].
  destruct (exec DoJob a s) as [[s1|e]|] eqn:E; [|destruct sched as [|]; [|done]..].
  - intros H. eapply reach_cons; eauto.
  - intros [= <-]. eapply reach_step; [constructor|exact E].
  - done.
Qed.

(** A run of the children does not throw, and each of its steps uses up some of the measure. *)
Lemma run_alive sched s r : bounded -> all_return -> alive s ->
  run DoJob (map Child sched) s = Some r ->
  exists s', r = Ret s' /\ alive s' /\ reach DoJob s (Ret s') /\ (length sched + measure s' <= measure s)%nat.
Proof.
  intros Hb Hr. revert s. induction sched as [|i sched IH]; cbn; intros s A.
  - intros [= <-]. exists s. split_and!; [done|done|constructor|lia].
  - destruct (child_alive i s Hr A) as [E | (s1 & E & A1)]; rewrite E; [by destruct (map Child sched)|].
    intros H. destruct (IH _ A1 H) as (s2 & -> & A2 & R & M). exists s2. split_and!; [done|done| |].
    + by eapply (reach_cons (Child i)).
    + pose proof (child_measure _ _ _ Hb E). lia.
Qed.

Lemma stuck_done n s : inv n s -> alive s -> (forall i, childThreadRun DoJob i s = None) ->
  m_jobs s = [] /\ Forall (fun w => w = WDone) (workers s) /\ forall i, of_child i (taken s) = of_child i (finished s).
Proof.
  intros I [Q K] St.
  assert (forall i w, workers s !! i = Some w -> w = WDone) as D.
  { intros i w Hw. specialize (St i). unfold childThreadRun in St. rewrite Hw in St. cbn in St.
    pose proof (Forall_lookup_1 _ _ _ _ K Hw).
    destruct w as [|j [|x push]| | |v| |]; try done. by destruct (m_jobs s). }
  split_and!.
  - destruct Q as [|(i & w & Hw & Ha)]; [done|]. apply D in Hw as ->. done.
  - by apply Forall_lookup_2.
  - intros i. rewrite (in_once _ _ I). destruct (workers s !! i) as [w|] eqn:Hw; [|by rewrite app_nil_r].
    apply D in Hw as ->. by rewrite app_nil_r.
Qed.

End facts.

Section properties.
Context {job : Type} (DoJob : job -> list job * outcome).
Implicit Types s : st job.

(** Whatever the children, the owner and [Init] do: the jobs are taken in the
    order in which they were pushed, and each child has done those it took, in
    that order and once, but for the one it has in its hands. *)
Theorem jobs_in_order n jobs s : Z.of_nat n < 2 ^ 31 -> reach DoJob (start n jobs) (Ret s) ->
  pushed s = map snd (taken s) ++ m_jobs s /\
  forall i, of_child i (taken s) = of_child i (finished s) ++ in_hand (workers s !! i).
Proof.
  intros Hn H. destruct (reach_inv DoJob _ _ _ s Hn (inv_start n jobs) H eq_refl). done.
Qed.

(** C12: When [Finish] answers true, every job pushed so far has been done and every
    child has left [childThreadExit], although [Finish] reads the count and the
    queue at two moments and the children's decrements race. *)
Theorem Finish_means_done n jobs s s' : Z.of_nat n < 2 ^ 31 ->
  reach DoJob (start n jobs) (Ret s) -> reach DoJob s (Ret s') -> Finish_at s s' = true ->
  map snd (taken s') = pushed s' /\ (forall i, of_child i (taken s') = of_child i (finished s')) /\
  Forall (fun w => w = WDone) (workers s').
Proof.
  intros Hn H H' [E Q]%andb_true_iff. apply Z.eqb_eq in E.
  pose proof (reach_inv DoJob _ _ _ s Hn (inv_start n jobs) H eq_refl) as I.
  pose proof (reach_inv DoJob _ _ _ s' Hn I H' eq_refl) as [F O _ _].
  destruct (done_stays DoJob s s' E (zero_done _ s I E) H') as [_ D].
  split_and!; [|intros i|done].
  - rewrite F. unfold allFinished in Q. destruct (m_jobs s'); [by rewrite app_nil_r|done].
  - rewrite O. destruct (workers s' !! i) as [w|] eqn:Hw; [|by rewrite app_nil_r].
    rewrite (Forall_lookup_1 _ _ _ _ D Hw). by rewrite app_nil_r.
Qed.

(** The other direction fails: after an [ExitThreadJob], which leaves without
    [beforeThreadExit], [Finish] is false for ever. *)
Theorem exit_job_never_finishes n jobs s s' i : Z.of_nat n < 2 ^ 31 ->
  reach DoJob (start n jobs) (Ret s) -> workers s !! i = Some WKilled -> Finish_at s s' = false.
Proof.
  intros Hn H Hw. apply not_true_is_false. intros [E%Z.eqb_eq _]%andb_true_iff.
  pose proof (reach_inv DoJob _ _ _ s Hn (inv_start n jobs) H eq_refl) as I.
  by pose proof (Forall_lookup_1 _ _ _ _ (zero_done _ s I E) Hw).
Qed.

(** C11: Jobs that return, and push less work than they are: however the children
    interleave, no run of theirs is longer than the bound, none of them throws,
    and one of them can go on until every job is done and all have ended. *)
Theorem all_jobs_done (size : job -> nat) n jobs sched r : (0 < n)%nat -> Z.of_nat n < 2 ^ 31 ->
  all_return DoJob -> bounded DoJob size -> run DoJob (map Child sched) (start n jobs) = Some r ->
  exists s, r = Ret s /\ (length sched <= sum_list_with size jobs + 4 * n)%nat /\
    ((forall i, childThreadRun DoJob i s = None) ->
     map snd (taken s) = pushed s /\ (forall i, of_child i (taken s) = of_child i (finished s)) /\
     Forall (fun w => w = WDone) (workers s)).
Proof.
  intros Hn Hn' Hr Hb H.
  destruct (run_alive DoJob size _ _ _ Hb Hr (alive_start n jobs Hn) H) as (s & -> & A & R & M).
  exists s. rewrite measure_start in M. split_and!; [done|lia|]. intros St.
  pose proof (reach_inv DoJob _ _ _ s Hn' (inv_start n jobs) R eq_refl) as I.
  destruct (stuck_done DoJob _ s I A St) as (Q & D & O). split_and!; [|done|done].
  by rewrite (in_fifo _ _ I), Q, app_nil_r.
Qed.

End properties.

(** Job 5 pushes 1 and 2, the others push nothing and job 9 ends its thread. *)
Definition sample (j : Z) : list Z * outcome := (if j =? 5 then [1; 2] else [], Returns).
Definition sample_size (j : Z) : nat := if j =? 5 then 8 else 2.
Definition exit_sample (j : Z) : list Z * outcome := ([], if j =? 9 then ExitThread else Returns).

Definition mixed_run : list (who Z) := [Child 0%nat; Owner 3; Child 0%nat; Child 1%nat; Init 1%nat].
Definition exit_run : list (who Z) := map Child [0; 0; 1; 1; 1; 1]%nat.
Definition sample_run : list nat := [0; 0; 1; 1; 0; 0; 0; 0; 0; 0; 0; 0; 1; 1; 1; 1]%nat.

Lemma all_jobs_done_witness : exists s,
  run sample (map Child sample_run) (start 2 [5]) = Some (Ret s) /\ map snd (taken s) = pushed s.
Proof.
  destruct (run sample (map Child sample_run) (start 2 [5])) as [r|] eqn:E; [|vm_compute in E; discriminate].
  destruct (all_jobs_done sample sample_size 2 [5] sample_run r) as (s & -> & _ & H).
  - lia.
  - lia.
  - intros j. reflexivity.
  - intros j. unfold sample, sample_size. cbn. destruct (j =? 5); cbn; lia.
  - exact E.
  - exists s. split; [reflexivity|]. apply H. vm_compute in E. injection E as <-.
    intros [|[|i]]; reflexivity.
Defined.

Lemma jobs_in_order_witness : exists s,
  run sample mixed_run (start 2 [5]) = Some (Ret s) /\
  pushed s = map snd (taken s) ++ m_jobs s.
Proof.
  eexists. split; [vm_compute; reflexivity|].
  apply (jobs_in_order sample 2 [5]); [lia|].
  apply (job_run_reach sample mixed_run). vm_compute. reflexivity.
Defined.

Lemma Finish_means_done_witness : exists s,
  run sample (map Child sample_run) (start 2 [5]) = Some (Ret s) /\ Finish s = true /\ map snd (taken s) = pushed s.
Proof.
  eexists. split; [vm_compute; reflexivity|]. split; [reflexivity|].
  eapply (Finish_means_done sample 2 [5]); [lia| |apply reach_refl|reflexivity].
  apply (job_run_reach sample (map Child sample_run)). vm_compute. reflexivity.
Defined.

Lemma exit_job_never_finishes_witness : exists s,
  run exit_sample exit_run (start 2 [9]) = Some (Ret s) /\ Finish s = false.
Proof.
  eexists. split; [vm_compute; reflexivity|].
  eapply (exit_job_never_finishes exit_sample 2 [9] _ _ 0); [lia| |reflexivity].
  apply (job_run_reach exit_sample exit_run). vm_compute. reflexivity.
Defined.

(** Two threads that end at the same time can both store the same count; then
    it never reaches 0 and [Finish] stays false when all have ended. *)
Theorem lost_decrement :
  exists s, run sample (map Child [0; 1; 0; 1; 0; 1; 0; 1]%nat) (start 2 []) = Some (Ret s) /\
    workers s = [WDone; WDone] /\ forall s', Finish_at s s' = false.
Proof. eexists. split; [vm_compute; reflexivity|]. done. Qed.

End MultiThreadJobMngFacts.
