(* ===== verification/Runtime.v ===== *)
(** * Small pieces around the system: the retry of [src/internal/fd_in.h], [src/hprocess.cpp],
    the thread's number of [src/hthread.cpp], [src/hsingleton.h],
    [src/hindestructible.h], [src/hbits.h], [src/hmodule.cpp]

    What a system call answers is an argument: a list of answers where a loop
    asks again, a table of children for [waitpid]. *)

From S2P Require Import Prelude StdString FsName Util.

(** ** Definitions *)

(** [ffun_in_intr]: call again while the answer is -1 with [EINTR].  An answer
    is what is returned and whether [errno] is then [EINTR]; [None]: the loop is
    still going when the answers are used up. *)
Fixpoint ffun_in_intr (answers : list (Z * bool)) : option Z :=
  match answers with
  | [] => None
  | (ret, eintr) :: rest => if (ret =? -1) && eintr then ffun_in_intr rest else Some ret
  end.

Module HProcess.

Definition HNAME_LEN : Z := 256.

(** [GetProcName]: [readlink] gives up to [HNAME_LEN] bytes of the link without
    a NUL; [assign] reads the buffer up to the first NUL. *)
Definition GetProcName (link : option bytes) : res (herr * option bytes) :=
  match link with
  | None => Ret (SYS_FAILED, None)
  | Some path =>
    let got := take (Z.to_nat HNAME_LEN) path in
    _ ← check_ub (bool_decide (0 ∈ got) || (Z.of_nat (length got) <? HNAME_LEN));
    Ret (OK, Some (c_str got))
  end.

(** The children of the process, and whether each has ended. *)
Definition children : Type := list (Z * bool).

(** [waitpid(-1, &stat, WNOHANG)]: a child that has ended is reaped; 0 when
    there are only others, -1 when there is none. *)
Fixpoint reap (l : children) : option (Z * children) :=
  match l with
  | [] => None
  | (pid, true) :: l => Some (pid, l)
  | (pid, false) :: l => '(p, l) ← reap l; Some (p, (pid, false) :: l)
  end.

Definition waitpid (l : children) : Z * children :=
  match reap l with Some (p, l) => (p, l) | None => (if bool_decide (l = []) then -1 else 0, l) end.

(** [chlsig_handler]: the pids it has logged and the children that are left. *)
Fixpoint handler_loop (fuel : nat) (l : children) : option (list Z * children) :=
  match fuel with
  | O => None
  | S fuel =>
    let '(pid, l) := waitpid l in
    if pid >? 0 then '(pids, l) ← handler_loop fuel l; Some (pid :: pids, l) else Some ([], l)
  end.

Definition chlsig_handler (l : children) : option (list Z * children) := handler_loop (S (length l)) l.

End HProcess.

Module CurrentThread.

(** [snprintf] of ["%x"]: the digits, most significant first, without leading zeros. *)
Fixpoint digits (k : nat) (n : Z) : bytes :=
  match k with
  | O => []
  | S k => (if n <? 16 then [] else digits k (n / 16)) ++ [HThread.hex_lower (n mod 16)]
  end.

Definition CurrentThreadId (pthread_self : Z) : Z := u64 pthread_self.

(** The buffer has room for 8 characters and a NUL. *)
Definition CurrentThreadHexIdStr (pthread_self : Z) : bytes := take 8 (digits 16 (u32 pthread_self)).

(** The number behind the digits. *)
Definition digit_value (c : Z) : Z := if c <? 58 then c - 48 else c - 87.
Definition value (s : bytes) : Z := foldl (fun n c => 16 * n + digit_value c) 0 s.

End CurrentThread.

(** [Instance] with its function-local static object; the object [_create_obj]
    calls it before [main]. *)
Module HSingleton.

(** How often the constructor of [T] has run to its end. *)
Record t : Type := Single { constructed : bool; runs : nat }.

Definition initial : t := Single false 0.

(** [throws]: what the constructor throws, if it is run. *)
Definition Instance (throws : option exn) (s : t) : res t * t :=
  if constructed s then (Ret s, s)
  else match throws with
       | Some e => (Throw e, s)
       | None => let s := Single true (S (runs s)) in (Ret s, s)
       end.

(** The calls of a program, each with what the constructor would do. *)
Fixpoint calls (l : list (option exn)) (s : t) : t :=
  match l with [] => s | x :: l => calls l (Instance x s).2 end.

End HSingleton.

(** An object that is made in aligned bytes and never destroyed. *)
Module Indestructible.
Section storage.

(** The object's type, that of a factory, and the constructors the storage uses:
    without arguments, from a factory, and a factory's own. *)
Context {Ty Factory : Type} (Ty_default : Ty) (Ty_from : Factory -> Ty) (Factory_default : Factory).

(** The object in [bytes], and how often [~Ty] has run for it. *)
Record t : Type := Storage { object : Ty; destroyed : nat }.

(** [Storage(std::in_place_t)] *)
Definition make : t := Storage Ty_default 0.

(** [Storage(factory_constructor_t, factory)] makes a factory of its own. *)
Definition make_factory (_ : Factory) : t := Storage (Ty_from Factory_default) 0.

Definition get (s : t) : Ty := object s.

(** The destructor has nothing to destroy but bytes. *)
Definition destroy (s : t) : t := s.

(** What the factory would make does not matter, and nothing is ever destroyed. *)
Lemma factory_ignored f g : make_factory f = make_factory g /\ destroyed (destroy (make_factory f)) = 0%nat.
Proof. done. Qed.

End storage.
End Indestructible.

Module basic_bits.

Definition BYTE_WIDTH : Z := 1.
Definition WIDTH (BITS : Z) : res Z := base_utils.uper_divied BITS BYTE_WIDTH.

Definition KB_LENGTH : Z := 1024.
Definition MB_LENGTH : Z := 1024 * KB_LENGTH.
Definition GB_LENGTH : Z := 1024 * MB_LENGTH.

(** An [int] count times an unsigned length. *)
Definition KB_length (kbs : Z) : Z := u64 (KB_LENGTH * kbs).
Definition MB_length (mbs : Z) : Z := u64 (MB_LENGTH * mbs).
Definition GB_length (gbs : Z) : Z := u64 (GB_LENGTH * gbs).

(** [basic_bits(v)]: the first byte is [v], the others 0. *)
Definition make (BITS v : Z) : res bytes := w ← WIDTH BITS; Ret (v :: replicate (Z.to_nat w - 1) 0).

End basic_bits.

(** [HSingleModuleBase::init_log]: the file and the type given to [InitLog]. *)
Definition init_log (getcwd m_strModuleName : bytes) : bytes * bytes :=
  let log_dir := fsname.SetAsCurrent getcwd [] in
  (HDirection.GetDicFile getcwd log_dir m_strModuleName, str "10MIN").

(** ** Properties *)

Section properties.
Import HProcess CurrentThread.

(** The retry returns the first answer that is not an interruption, and goes on
    exactly while all are. *)
Theorem ffun_in_intr_spec answers r :
  ffun_in_intr answers = Some r <->
  exists k e, answers !! k = Some (r, e) /\ (r <> -1 \/ e = false) /\ Forall (fun a => a = (-1, true)) (take k answers).
Proof.
  induction answers as [|[x e] l IH]; cbn.
  - split; [done|]. by intros (k & e & H & _).
  - destruct ((x =? -1) && e) eqn:Et.
    + apply andb_true_iff in Et as [->%Z.eqb_eq ->]. rewrite IH. split.
      * intros (k & e & H & He & F). exists (S k), e. cbn. auto.
      * intros ([|k] & e & H & He & F); cbn in *; [naive_solver|]. apply Forall_cons in F as [_ F]. eauto.
    + apply andb_false_iff in Et. rewrite Z.eqb_neq in Et. split.
      * intros [= ->]. exists 0%nat, e. auto.
      * intros ([|k] & e' & H & He & F); cbn in *; [naive_solver|]. apply Forall_cons in F as [[= -> ->] _]. naive_solver.
Qed.

Lemma reap_first l : match reap l with
  | Some (p, l') => exists a b, l = a ++ (p, true) :: b /\ Forall (fun c => c.2 = false) a /\ l' = a ++ b
  | None => Forall (fun c => c.2 = false) l
  end.
Proof.
  induction l as [|[p []] l IH]; cbn; [done|by exists [], l|].
  destruct (reap l) as [[q l']|]; cbn.
  - destruct IH as (a & b & -> & Ha & ->). exists ((p, false) :: a), b. split_and!; [done|by constructor|done].
  - by constructor.
Qed.

Lemma keep_all l : Forall (fun c : Z * bool => c.2 = false) l ->
  filter (fun c : Z * bool => c.2 = true) l = [] /\ filter (fun c : Z * bool => c.2 = false) l = l.
Proof.
  induction 1 as [|[p b] l E _ [I1 I2]]; [done|]. cbn in E. subst b. rewrite !filter_cons. cbn. by rewrite I1, I2.
Qed.

Lemma handler_loop_ok fuel l : (length l < fuel)%nat -> Forall (fun c => 0 < c.1) l ->
  handler_loop fuel l = Some (map fst (filter (fun c => c.2 = true) l), filter (fun c => c.2 = false) l).
Proof.
  revert l. induction fuel as [|fuel IH]; intros l Hf Hp; [lia|]. cbn. unfold waitpid.
  pose proof (reap_first l) as R. destruct (reap l) as [[p l']|].
  - destruct R as (a & b & -> & Ha & ->). destruct (keep_all a Ha) as [A1 A2].
    apply Forall_app in Hp as [Hpa Hpb]. apply Forall_cons in Hpb as [Hp Hpb]. cbn in Hp.
    rewrite length_app in Hf. cbn in Hf. ztest. rewrite IH.
    + cbn. by rewrite !filter_app, A1, A2, filter_cons, filter_cons.
    + rewrite length_app. lia.
    + by apply Forall_app.
  - destruct (keep_all l R) as [-> ->]. case_bool_decide; by ztest.
Qed.

(** However many children ended before one signal was delivered, the handler
    reaps and logs each of them, and leaves those that run. *)
Theorem chlsig_handler_reaps l : Forall (fun c => 0 < c.1) l ->
  chlsig_handler l = Some (map fst (filter (fun c => c.2 = true) l), filter (fun c => c.2 = false) l).
Proof. intros Hp. apply handler_loop_ok; [lia|done]. Qed.

Lemma chlsig_handler_reaps_witness :
  chlsig_handler [(10, true); (11, false); (12, true)] = Some ([10; 12], [(11, false)]).
Proof. apply (chlsig_handler_reaps [(10, true); (11, false); (12, true)]). repeat constructor. Defined.

(** The buffer has no room for the NUL of a name that fills it. *)
Example long_name : GetProcName (Some (replicate 256 97)) = Throw UB.
Proof. reflexivity. Qed.

Lemma digit_value_ok d : 0 <= d < 16 -> digit_value (HThread.hex_lower d) = d.
Proof. intros H. unfold digit_value, HThread.hex_lower. destruct (d <? 10) eqn:E; bool_to_prop; ztest; lia. Qed.

Lemma digits_ok k n : 0 <= n < 16 ^ Z.of_nat k -> (length (digits k n) <= k)%nat /\ value (digits k n) = n.
Proof.
  revert n. induction k as [|k IH]; intros n Hn; [cbn in *; split; [lia|unfold value; cbn; lia]|].
  rewrite Nat2Z.inj_succ, Z.pow_succ_r in Hn by lia. cbn [digits].
  assert (0 <= n / 16 < 16 ^ Z.of_nat k) as Hd by (split; [apply Z.div_pos; lia | apply Z.div_lt_upper_bound; lia]).
  destruct (IH _ Hd) as [L V]. pose proof (Z.mod_pos_bound n 16 ltac:(lia)).
  unfold value in *. rewrite length_app, foldl_app. cbn [foldl length]. rewrite digit_value_ok by done.
  destruct (n <? 16) eqn:E; bool_to_prop.
  - cbn. rewrite Z.mod_small by lia. lia.
  - rewrite V. pose proof (Z.div_mod n 16 ltac:(lia)). lia.
Qed.

Lemma digits_short k j n : 0 <= n < 16 ^ Z.of_nat j -> (j <= k)%nat -> (0 < j)%nat -> digits k n = digits j n.
Proof.
  revert j n. induction k as [|k IH]; intros j n Hn Hj H0; [lia|]. destruct j as [|j]; [lia|]. cbn.
  destruct (n <? 16) eqn:E; [done|]. bool_to_prop. f_equal.
  rewrite Nat2Z.inj_succ, Z.pow_succ_r in Hn by lia.
  apply IH; [split; [apply Z.div_pos; lia | apply Z.div_lt_upper_bound; lia]|lia|].
  destruct j; [cbn in Hn; lia|lia].
Qed.

(** The text is never cut, and names the low half of the identifier alone: two
    threads have the same text exactly when those agree. *)
Theorem hex_id_value i : value (CurrentThreadHexIdStr i) = u32 i.
Proof.
  assert (0 <= u32 i < 16 ^ Z.of_nat 8) as Hi by apply (wrapU_bound 32 i ltac:(lia)).
  unfold CurrentThreadHexIdStr. rewrite (digits_short 16 8) by (done || lia).
  destruct (digits_ok 8 _ Hi) as [L V]. by rewrite take_ge.
Qed.

Theorem same_hex_id i j : CurrentThreadHexIdStr i = CurrentThreadHexIdStr j <-> u32 i = u32 j.
Proof.
  split; [|intros E; unfold CurrentThreadHexIdStr; by rewrite E].
  intros E. by rewrite <- (hex_id_value i), <- (hex_id_value j), E.
Qed.

Example two_threads_one_id : CurrentThreadHexIdStr 0x7f1200a3c700 = CurrentThreadHexIdStr 0x7f1300a3c700.
Proof. reflexivity. Qed.

(** However often [Instance] is called, the constructor runs to its end once at most. *)
Theorem Instance_once l s : HSingleton.calls l HSingleton.initial = s ->
  HSingleton.runs s = (if HSingleton.constructed s then 1 else 0)%nat /\
  (HSingleton.constructed s = true <-> None ∈ l).
Proof.
  assert (forall s0, HSingleton.runs s0 = (if HSingleton.constructed s0 then 1 else 0)%nat ->
    HSingleton.runs (HSingleton.calls l s0) = (if HSingleton.constructed (HSingleton.calls l s0) then 1 else 0)%nat /\
    (HSingleton.constructed (HSingleton.calls l s0) = true <-> HSingleton.constructed s0 = true \/ None ∈ l)) as H.
  { induction l as [|x l IH]; intros [c n] E; cbn in *.
    - split; [done|]. split; [auto|]. intros [?|?%elem_of_nil]; done.
    - unfold HSingleton.Instance. cbn. destruct c; [|destruct x as [e|]]; cbn.
      + destruct (IH (HSingleton.Single true n) E) as [? IH2]. split; [done|]. rewrite IH2. naive_solver.
      + destruct (IH (HSingleton.Single false n) E) as [? IH2]. split; [done|]. rewrite IH2, elem_of_cons. naive_solver.
      + destruct (IH (HSingleton.Single true (S n))) as [? IH2]; [cbn; lia|]. split; [done|]. rewrite IH2, elem_of_cons. naive_solver. }
  intros <-. destruct (H HSingleton.initial eq_refl) as [? ->]. cbn. naive_solver.
Qed.

(** [BYTE_WIDTH] is the size of a byte in bytes: 8 bits take 8 bytes. *)
Example eight_bits : basic_bits.make 8 5 = Ret [5; 0; 0; 0; 0; 0; 0; 0].
Proof. reflexivity. Qed.

(** A negative count becomes a length near [2 ^ 64]. *)
Example negative_length : basic_bits.MB_length (-1) = 2 ^ 64 - 2 ^ 20.
Proof. reflexivity. Qed.

Example module_log : init_log (str "/srv") (str "mod") = (str "/srv/mod", str "10MIN").
Proof. reflexivity. Qed.

End properties.
