(* ===== verification/Backtrace.v ===== *)
(** * Stack traces: [src/hbacktrace.cpp]

    The parser of the lines [backtrace_symbols] gives, over the positions of its six
    marks, and the text of a whole trace.  The demangler is an argument. *)

From S2P Require Import Prelude StdString.

Module HBackTrace.

Definition BT_LINES_COUNT : Z := 128.

(** A mark that is not found ends the parsing with an empty result. *)
Definition or_empty (o : option nat) (k : nat -> res bytes) : res bytes := match o with None => Ret [] | Some i => k i end.

Section parse.
(** [abi::__cxa_demangle]: [None] for a name that is not mangled. *)
Context (demangle : bytes -> option bytes).

Definition ParseLinuxStyleLine (strLine : bytes) : res bytes :=
  if zlen strLine <? 3 then Ret []
  else
    let line_pos := if prefixb (str "./") strLine then 2%nat else 0%nat in
    or_empty (find strLine (str "(") line_pos) (fun begin_name_pos =>
    module_name ← substr strLine line_pos (Z.of_nat (begin_name_pos - line_pos));
    or_empty (find strLine (str ")") begin_name_pos) (fun end_offset_pos =>
    strFunAndAddr ← substr strLine (begin_name_pos + 1) (Z.of_nat (end_offset_pos - begin_name_pos - 1));
    or_empty (find strFunAndAddr (str "+") 0) (fun begin_offset_pos =>
    strFunctionName ← substr strFunAndAddr 0 (Z.of_nat begin_offset_pos);
    strFunctionOffset ← substr_from strFunAndAddr (begin_offset_pos + 1);
    or_empty (find strLine (str "[") end_offset_pos) (fun begin_address_pos =>
    or_empty (find strLine (str "]") begin_address_pos) (fun end_address_pos =>
    strAddress ← substr strLine (begin_address_pos + 1) (Z.of_nat (end_address_pos - begin_address_pos - 1));
    let strFun := default [] (demangle strFunctionName) in
    Ret (module_name ++ str ":" ++ strFun ++ str ":" ++ strFunctionOffset ++ str ":" ++ strAddress)))))).

(** [SystemCall]: [None] when [backtrace_symbols] has no memory; its lines are then read all the same. *)
Definition SystemCall (res_line_count : nat) (res_data : option (list bytes)) (m_lines : list bytes) : res (list bytes) :=
  match res_data with
  | None => _ ← check_ub (res_line_count =? 0)%nat; Ret m_lines
  | Some l => Ret (m_lines ++ take res_line_count l)
  end.

Fixpoint lines_loop (i : Z) (m_lines : list bytes) : res bytes :=
  match m_lines with
  | [] => Ret []
  | strLine :: rest =>
    strStyleLine ← ParseLinuxStyleLine strLine;
    text ← lines_loop (i + 1) rest;
    Ret (to_string i ++ str "===" ++ strStyleLine ++ str "===" ++ [10] ++ text)
  end.

Definition ToString (m_lines : list bytes) : res bytes :=
  text ← lines_loop 0 m_lines; Ret (str "========StackTrack========" ++ [10] ++ text).

End parse.

(** ** Facts *)

(** Equal up to the bracketing of appends. *)
Ltac flat := repeat match goal with x := _ |- _ => subst x end; repeat first [rewrite <- app_assoc | progress (cbn [app])]; reflexivity.

(** The first mark behind a text without it. *)
Lemma find_mark pre a c r : c ∉ a -> find (pre ++ a ++ c :: r) [c] (length pre) = Some (length pre + length a)%nat.
Proof.
  intros Hc. apply find_Some. split_and!; [lia| |].
  - apply occurs_at_split. rewrite !length_app. cbn [length]. split; [lia|].
    rewrite (app_assoc pre a), take_app_length' by (rewrite length_app; lia). do 2 f_equal. cbn.
    replace (length pre + length a + 1)%nat with (length ((pre ++ a) ++ [c])) by (rewrite !length_app; cbn; lia).
    replace ((pre ++ a) ++ c :: r) with (((pre ++ a) ++ [c]) ++ r) by (by rewrite <- app_assoc).
    by rewrite drop_app_length.
  - intros j Hj. rewrite drop_app_ge by lia. rewrite drop_app_le by lia.
    destruct (drop (j - length pre) a) as [|x l] eqn:E.
    { pose proof (f_equal length E) as El. rewrite length_drop in El. cbn in El. lia. }
    cbn. apply andb_false_iff. left. apply Z.eqb_neq. intros ->. apply Hc.
    rewrite <- (take_drop (j - length pre) a), E. set_solver.
Qed.

Lemma substr_mark (pre a r : bytes) : substr (pre ++ a ++ r) (length pre) (Z.of_nat (length a)) = Ret a.
Proof.
  rewrite substr_in by (rewrite !length_app; lia). by rewrite drop_app_length, take_app_length.
Qed.

Section properties.
Context (demangle : bytes -> option bytes).

(** A line of the documented form is split into its four fields; a name that is not
    mangled, of a C function or of main, gives an empty one. *)
Theorem parse_line dot module_name fn off mid addr rest :
  dot = [] /\ head module_name <> Some 46 \/ dot = str "./" ->
  40 ∉ module_name -> 41 ∉ fn -> 43 ∉ fn -> 41 ∉ off -> 91 ∉ mid -> 93 ∉ addr ->
  ParseLinuxStyleLine demangle (dot ++ module_name ++ str "(" ++ fn ++ str "+" ++ off ++ str ")" ++ mid ++ str "[" ++ addr ++ str "]" ++ rest)
  = Ret (module_name ++ str ":" ++ default [] (demangle fn) ++ str ":" ++ off ++ str ":" ++ addr).
Proof.
  intros Hdot Hm Hf Hp Ho Hmid Haddr. unfold ParseLinuxStyleLine.
  change (str "(") with [40]. change (str ")") with [41]. change (str "+") with [43].
  change (str "./") with [46; 47] in *. change (str "[") with [91]. change (str "]") with [93].
  set (fa := fn ++ [43] ++ off). set (tail := mid ++ [91] ++ addr ++ [93] ++ rest).
  set (line := dot ++ _).
  assert (line = dot ++ module_name ++ 40 :: fa ++ 41 :: tail) as E1 by flat.
  assert (line = (dot ++ module_name) ++ (40 :: fa) ++ 41 :: tail) as E2 by flat.
  assert (line = (dot ++ module_name ++ [40]) ++ fa ++ 41 :: tail) as E3 by flat.
  assert (line = (dot ++ module_name ++ 40 :: fa) ++ (41 :: mid) ++ 91 :: addr ++ [93] ++ rest) as E4 by (unfold tail in *; flat).
  assert (line = (dot ++ module_name ++ 40 :: fa ++ 41 :: mid) ++ (91 :: addr) ++ 93 :: rest) as E5 by (unfold tail in *; flat).
  assert (line = (dot ++ module_name ++ 40 :: fa ++ 41 :: mid ++ [91]) ++ addr ++ 93 :: rest) as E6 by (unfold tail in *; flat).
  assert (length line = length dot + length module_name + length fa + length tail + 2)%nat as Hlen
    by (rewrite E1, !length_app; cbn [length]; rewrite length_app; cbn [length]; lia).
  assert (1 <= length fa)%nat as Hfa by (unfold fa; rewrite !length_app; cbn; lia).
  assert (zlen line <? 3 = false) as -> by (apply Z.ltb_ge; unfold zlen; lia).
  assert ((if prefixb [46; 47] line then 2%nat else 0%nat) = length dot) as ->.
  { destruct Hdot as [[-> Hh]| ->]; [|by rewrite E1]. rewrite E1. clear -Hh. destruct module_name as [|c m]; [done|]. cbn [app prefixb].
    destruct (46 =? c) eqn:E; [|done]. apply Z.eqb_eq in E as <-. by destruct Hh. }
  cbv zeta.
  rewrite E1 at 1. rewrite find_mark by done. cbn [or_empty].
  replace (length dot + length module_name - length dot)%nat with (length module_name) by lia.
  rewrite E1 at 1. rewrite substr_mark. cbn [mbind res_bind].
  rewrite <- (length_app dot). rewrite E2 at 1. rewrite find_mark by (unfold fa; set_solver). cbn [or_empty].
  replace (length (dot ++ module_name) + length (40%Z :: fa) - length (dot ++ module_name) - 1)%nat with (length fa) by (cbn; lia).
  assert (length (dot ++ module_name) + 1 = length (dot ++ module_name ++ [40%Z]))%nat as -> by (rewrite !length_app; cbn; lia).
  rewrite E3 at 1. rewrite substr_mark. cbn [mbind res_bind].
  pose proof (find_mark [] fn 43 off Hp) as Ef. cbn [app length Nat.add] in Ef. unfold fa at 1. cbn [app]. rewrite Ef. cbn [or_empty].
  assert (substr fa 0 (Z.of_nat (length fn)) = Ret fn) as -> by exact (substr_mark [] fn ([43] ++ off)). cbn [mbind res_bind].
  assert (substr_from fa (length fn + 1) = Ret off) as ->.
  { unfold substr_from. rewrite decide_True by (unfold fa; rewrite !length_app; cbn; lia). f_equal. unfold fa.
    rewrite app_assoc. by rewrite drop_app_length' by (rewrite length_app; cbn; lia). }
  cbn [mbind res_bind].
  assert (length (dot ++ module_name) + length (40%Z :: fa) = length (dot ++ module_name ++ 40%Z :: fa))%nat as ->
    by (rewrite !length_app; cbn; lia).
  rewrite E4 at 1. rewrite find_mark by set_solver. cbn [or_empty].
  assert (length (dot ++ module_name ++ 40%Z :: fa) + length (41%Z :: mid) = length (dot ++ module_name ++ 40%Z :: fa ++ 41%Z :: mid))%nat as ->
    by (rewrite !length_app; cbn; rewrite length_app; cbn; lia).
  rewrite E5 at 1. rewrite find_mark by set_solver. cbn [or_empty].
  set (n := length (dot ++ module_name ++ 40 :: fa ++ 41 :: mid)).
  replace (n + length (91%Z :: addr) - n - 1)%nat with (length addr) by (cbn; lia).
  assert (n + 1 = length (dot ++ module_name ++ 40%Z :: fa ++ 41%Z :: mid ++ [91%Z]))%nat as ->
    by (unfold n; rewrite !length_app; cbn; rewrite !length_app; cbn; rewrite length_app; cbn; lia).
  rewrite E6 at 1. by rewrite substr_mark.
Qed.

(** The name of a C function is lost. *)
Example c_function : ParseLinuxStyleLine (fun _ => None) (str "./prog(main+0x9) [0x402c87]") = Ret (str "prog::0x9:0x402c87").
Proof. by vm_compute. Qed.

End properties.

Lemma parse_line_witness :
  ParseLinuxStyleLine (fun _ => Some (str "foo()")) (str "./prog(_Z3foov+0x9) [0x402c87]") = Ret (str "prog:foo():0x9:0x402c87").
Proof.
  assert (forall c l, forallb (fun x => negb (x =? c)) l = true -> c ∉ l) as Hno.
  { intros c l Hl Hin. rewrite forallb_forall in Hl. apply list_elem_of_In in Hin. apply Hl in Hin. by rewrite Z.eqb_refl in Hin. }
  apply (parse_line (fun _ => Some (str "foo()")) (str "./") (str "prog") (str "_Z3foov") (str "0x9") (str " ") (str "0x402c87") []);
    [by right|by apply Hno; vm_compute..].
Defined.

End HBackTrace.
