(* ===== verification/Redis.v ===== *)
(** * The Redis client: [nosql/hredis.cpp], [nosql/hredis.h]

    [CRedis] over the client library hiredis: the connection, the macros that send a
    command and take its reply apart, and every command.  hiredis is a parameter (the
    class [Hiredis]), and so are the three things of [<huibase.h>], which is not in the
    repository, that have no counterpart in it ([HuiBase]); its other macros are those of
    [src/internal] of the same names.  The state counts the replies and the connections
    that are not yet freed. *)

From S2P Require Import Prelude StdString.

Module CRedis.

(** ** Codes, outcomes, replies *)

(** The codes of the base library, and the two this file adds. *)
Inductive code : Type := Base (e : herr) | RDS_ERR | UN_INIT.

#[export] Instance code_eq_dec : EqDecision code.
Proof. solve_decision. Defined.

Inductive out (A : Type) : Type :=
  | Done (a : A)
  | Raise (e : code)
  | Undefined.
Arguments Done {A} a.
Arguments Raise {A} e.
Arguments Undefined {A}.

Inductive redis_res : Type :=
  | REPLY_STATUS (s : bytes)
  | REPLY_ERROR (s : bytes)
  | REPLY_INTEGER (z : Z)
  | REPLY_NIL
  | REPLY_STRING (s : bytes)
  | REPLY_ARRAY (element : list redis_res).

(** [r->str]: null but for the three kinds of text. *)
Definition reply_str (r : redis_res) : option bytes :=
  match r with REPLY_STATUS s | REPLY_ERROR s | REPLY_STRING s => Some s | _ => None end.

Record NoSqlConnectionInfo : Type := Info { strIp : bytes; nPort : Z; strPw : bytes; strName : bytes }.

Definition SetName (name : bytes) (m_info : NoSqlConnectionInfo) : NoSqlConnectionInfo :=
  Info (strIp m_info) (nPort m_info) (strPw m_info) name.

(** The arguments of a format. *)
Inductive farg : Type := ArgS (s : bytes) | ArgD (z : Z).

(** hiredis.  [redisCommand] gives no result where its behaviour is undefined. *)
Class Hiredis := {
  world : Type;
  redisContext : Type;
  redisConnect : bytes -> Z -> world -> option redisContext * world;
  redisFree : redisContext -> world -> world;
  err : redisContext -> bool;
  redisCommand : bytes -> redisContext -> world -> option (option redis_res * redisContext * world)
}.

(** [HASSERT_THROW_MSG]: what it throws, if it throws; the value of a code as an [int]. *)
Class HuiBase := {
  Format : bytes -> list farg -> bytes;
  HRET_BOOL : Z -> bool;
  ASSERT_THROW_MSG : bool -> bytes -> code -> option code;
  code_value : code -> Z
}.

(** The commands with their arguments, and what they answer. *)
Inductive call : Type :=
  | CSet (key val : bytes)
  | CSetex (key val : bytes) (exp : Z)
  | CSetnx (key val : bytes)
  | CGet (key : bytes)
  | CGet_def (key defval : bytes)
  | CExpire (key : bytes) (sec : Z)
  | CExists (key : bytes)
  | CDel (key : bytes)
  | CIncr (key : bytes)
  | CDecr (key : bytes)
  | CHSet (key field val : bytes)
  | CHSetnx (key field val : bytes)
  | CHGet (key field : bytes)
  | CHGet_def (key field defval : bytes)
  | CHExists (key field : bytes)
  | CHDel (key field : bytes)
  | CHLen (key : bytes)
  | CHIncrby (key field : bytes) (by_ : Z)
  | CHGetall (key : bytes)
  | CHKeys (key : bytes)
  | CBLPop (key : bytes) (timeout : Z)
  | CBRPop (key : bytes) (timeout : Z)
  | CLRem (key val : bytes) (count : Z)
  | CLIndex (key : bytes) (index : Z)
  | CLLen (key : bytes)
  | CLPop (key : bytes)
  | CLPush (key val : bytes)
  | CLRange (key : bytes) (start end_ : Z)
  | CLSet (key : bytes) (index : Z) (val : bytes)
  | CRPop (key : bytes)
  | CRPush (key val : bytes)
  | CSAdd (key val : bytes)
  | CSRem (key val : bytes)
  | CSCard (key : bytes)
  | CSIsMember (key val : bytes)
  | CSMembers (key : bytes).

Inductive answer : Type :=
  | A_code (c : code) | A_bool (b : bool) | A_int (z : Z) | A_text (x : code * bytes)
  | A_texts (x : code * list bytes) | A_pairs (x : code * list (bytes * bytes)).

Section redis.
Context `{Hiredis} `{HuiBase}.

Record st : Type := St {
  outside : world;
  m_context : option redisContext;
  replies : Z;
  connections : Z
}.

(** ** The monad *)

Definition M (A : Type) : Type := st -> out A * st.

#[global] Instance M_ret : MRet M := fun A a s => (Done a, s).
#[global] Instance M_bind : MBind M := fun A B f m s =>
  match m s with
  | (Done a, s) => f a s
  | (Raise e, s) => (Raise e, s)
  | (Undefined, s) => (Undefined, s)
  end.

Definition raise {A} (e : code) : M A := fun s => (Raise e, s).
Definition undefined {A} : M A := fun s => (Undefined, s).
Definition HASSERT_THROW (b : bool) (e : code) : M unit := if b then mret tt else raise e.
Definition HASSERT_THROW_MSG (b : bool) (msg : bytes) (e : code) : M unit :=
  match ASSERT_THROW_MSG b msg e with None => mret tt | Some e => raise e end.

(** A macro that may return from the function it stands in. *)
Definition then_ret {A} (m : M (option A)) (k : M A) : M A :=
  r ← m; match r with Some a => mret a | None => k end.

Definition OK : code := Base Prelude.OK.

(** ** The connection *)

Section client.
Context (m_info : NoSqlConnectionInfo).

Definition new_context : M (option redisContext) := fun s =>
  let (c, w) := redisConnect (c_str (strIp m_info)) (s32 (nPort m_info)) (outside s) in
  (Done c, St w c (replies s) (match c with Some _ => connections s + 1 | None => connections s end)).

Definition is_err (c : redisContext) : M bool := mret (err c).

Definition Init : M code :=
  c ← new_context;
  match c with
  | None => raise (Base MEMORY_OUT)
  | Some c => _ ← HASSERT_THROW_MSG (negb (err c)) (str "connect to redis failed") RDS_ERR; mret OK
  end.

Definition Release : M unit := fun s =>
  match m_context s with
  | None => (Done tt, s)
  | Some c => (Done tt, St (redisFree c (outside s)) None (replies s) (connections s - 1))
  end.

Definition Reinit : M code := _ ← Release; Init.

Definition has_context : M bool := fun s => (Done (match m_context s with Some _ => true | None => false end), s).

Definition CHECK_REDIS_INS : M unit :=
  b ← has_context;
  _ ← (if b : bool then mret tt else _ ← Reinit; mret tt);
  b ← has_context;
  HASSERT_THROW b UN_INIT.

(** ** Commands *)

Definition command (cmd : bytes) : M (option redis_res) := fun s =>
  match m_context s with
  | None => (Undefined, s)
  | Some c =>
    match redisCommand (c_str cmd) c (outside s) with
    | None => (Undefined, s)
    | Some (r, c, w) => (Done r, St w (Some c) (match r with Some _ => replies s + 1 | None => replies s end) (connections s))
    end
  end.

(** [m_context->err]. *)
Definition context_err : M bool := fun s =>
  match m_context s with None => (Undefined, s) | Some c => (Done (err c), s) end.

Definition freeReplyObject : M unit := fun s => (Done tt, St (outside s) (m_context s) (replies s - 1) (connections s)).

(** A string made of [r->str]. *)
Definition hstr (r : redis_res) : M bytes :=
  match reply_str r with Some s => mret (c_str s) | None => undefined end.

Definition is_status (r : redis_res) : bool := match r with REPLY_STATUS _ => true | _ => false end.
Definition is_nil (r : redis_res) : bool := match r with REPLY_NIL => true | _ => false end.
Definition is_string (r : redis_res) : bool := match r with REPLY_STRING _ => true | _ => false end.
Definition integer (r : redis_res) : option Z := match r with REPLY_INTEGER z => Some z | _ => None end.

Definition reinit_ret {A} (a : A) : M A := _ ← Reinit; mret a.
Definition free_reinit_ret {A} (a : A) : M A := _ ← freeReplyObject; _ ← Reinit; mret a.
Definition reinit_throw {A} : M A := _ ← Reinit; raise RDS_ERR.
Definition free_reinit_throw {A} : M A := _ ← freeReplyObject; _ ← Reinit; raise RDS_ERR.

Definition SET_CMD (cmd : bytes) : M (option code) :=
  r ← command cmd;
  match r with
  | None => reinit_ret (Some RDS_ERR)
  | Some r =>
    e ← context_err;
    if (e : bool) || negb (is_status r) then free_reinit_ret (Some RDS_ERR)
    else
      s ← hstr r;
      if bool_decide (s <> str "OK") then free_reinit_ret (Some RDS_ERR)
      else _ ← freeReplyObject; mret None
  end.

Definition RET_BOOL_CMD (cmd : bytes) : M bool :=
  r ← command cmd;
  match r with
  | None => reinit_throw
  | Some r =>
    e ← context_err;
    match integer r with
    | Some z => if e : bool then free_reinit_throw else let cb := s32 z in _ ← freeReplyObject; mret (HRET_BOOL cb)
    | None => free_reinit_throw
    end
  end.

(** Beside what it returns, the text [val] holds then. *)
Definition GET_CMD (cmd val : bytes) : M (option code * bytes) :=
  r ← command cmd;
  match r with
  | None => reinit_ret (Some RDS_ERR, val)
  | Some r =>
    e ← context_err;
    if e : bool then free_reinit_ret (Some RDS_ERR, val)
    else if is_nil r then _ ← freeReplyObject; mret (Some OK, val)
    else if negb (is_string r) then free_reinit_ret (Some RDS_ERR, val)
    else s ← hstr r; _ ← freeReplyObject; mret (None, s)
  end.

Definition RET_INT_CMD (cmd : bytes) : M (option code) :=
  r ← command cmd;
  match r with
  | None => reinit_ret (Some RDS_ERR)
  | Some r =>
    e ← context_err;
    match integer r with
    | Some _ => if e : bool then free_reinit_ret (Some RDS_ERR) else _ ← freeReplyObject; mret None
    | None => free_reinit_ret (Some RDS_ERR)
    end
  end.

(** The error code is returned as the number. *)
Definition INT_RET_CMD (cmd : bytes) : M Z :=
  r ← command cmd;
  match r with
  | None => reinit_ret (code_value RDS_ERR)
  | Some r =>
    e ← context_err;
    match integer r with
    | Some z => if e : bool then free_reinit_ret (code_value RDS_ERR) else let ret := s32 z in _ ← freeReplyObject; mret ret
    | None => free_reinit_ret (code_value RDS_ERR)
    end
  end.

(** [CMD_EXCEPS(REDIS_REPLY_ARRAY)]: what it returns, or the elements it goes on with. *)
Definition CMD_EXCEPS (cmd : bytes) : M (code + list redis_res) :=
  r ← command cmd;
  match r with
  | None => reinit_ret (inl RDS_ERR)
  | Some r =>
    e ← context_err;
    if e : bool then free_reinit_ret (inl RDS_ERR)
    else if is_nil r then _ ← freeReplyObject; mret (inl OK)
    else match r with
         | REPLY_ARRAY element => mret (inr element)
         | _ => free_reinit_ret (inl RDS_ERR)
         end
  end.

(** *** Single values *)

Definition Set_ (key val : bytes) : M code :=
  _ ← CHECK_REDIS_INS;
  let cmd := Format (str "SET %s %s") [ArgS (c_str key); ArgS (c_str val)] in
  then_ret (SET_CMD cmd) (mret OK).

Definition Setex (key val : bytes) (exp : Z) : M code :=
  _ ← CHECK_REDIS_INS;
  let cmd := Format (str "SETEX %s %d %s") [ArgS (c_str key); ArgD exp; ArgS (c_str val)] in
  then_ret (SET_CMD cmd) (mret OK).

Definition Setnx (key val : bytes) : M bool :=
  _ ← CHECK_REDIS_INS;
  let cmd := Format (str "SETNX %s %s") [ArgS (c_str key); ArgS (c_str val)] in
  RET_BOOL_CMD cmd.

(** The code, and what the text [val] holds then; the second form starts from a default. *)
Definition get_from (fmt : bytes) (args : list farg) (val : bytes) : M (code * bytes) :=
  _ ← CHECK_REDIS_INS;
  let cmd := Format fmt args in
  r ← GET_CMD cmd val;
  match r with (Some c, val) => mret (c, val) | (None, val) => mret (OK, val) end.

Definition Get (key : bytes) : M (code * bytes) := get_from (str "GET %s") [ArgS (c_str key)] [].
Definition Get_def (key defval : bytes) : M (code * bytes) := get_from (str "GET %s") [ArgS (c_str key)] defval.

Definition Expire (key : bytes) (sec : Z) : M code :=
  _ ← CHECK_REDIS_INS;
  if negb (0 <=? sec) then mret (Base INVL_PARA)
  else
    let cmd := Format (str "EXPIRE %s %d") [ArgS (c_str key); ArgD sec] in
    then_ret (RET_INT_CMD cmd) (mret OK).

Definition Exists (key : bytes) : M bool :=
  _ ← CHECK_REDIS_INS;
  let cmd := Format (str "EXISTS %s") [ArgS (c_str key)] in
  RET_BOOL_CMD cmd.

Definition Del (key : bytes) : M code :=
  _ ← CHECK_REDIS_INS;
  let cmd := Format (str "DEL %s") [ArgS (c_str key)] in
  then_ret (RET_INT_CMD cmd) (mret OK).

Definition Incr (key : bytes) : M code :=
  _ ← CHECK_REDIS_INS;
  let cmd := Format (str "INCR %s") [ArgS (c_str key)] in
  then_ret (RET_INT_CMD cmd) (mret OK).

Definition Decr (key : bytes) : M code :=
  _ ← CHECK_REDIS_INS;
  let cmd := Format (str "DECR %s") [ArgS (c_str key)] in
  then_ret (RET_INT_CMD cmd) (mret OK).

(** *** Hashes *)

Definition HSet (key field val : bytes) : M code :=
  _ ← CHECK_REDIS_INS;
  let cmd := Format (str "HSET %s %s %s") [ArgS (c_str key); ArgS (c_str field); ArgS (c_str val)] in
  then_ret (RET_INT_CMD cmd) (mret OK).

Definition HSetnx (key field val : bytes) : M bool :=
  _ ← CHECK_REDIS_INS;
  let cmd := Format (str "HSETNX %s %s %s") [ArgS (c_str key); ArgS (c_str field); ArgS (c_str val)] in
  RET_BOOL_CMD cmd.

Definition HGet (key field : bytes) : M (code * bytes) := get_from (str "HGet %s %s") [ArgS (c_str key); ArgS (c_str field)] [].
Definition HGet_def (key field defval : bytes) : M (code * bytes) :=
  get_from (str "HGet %s %s") [ArgS (c_str key); ArgS (c_str field)] defval.

Definition HExists (key field : bytes) : M bool :=
  _ ← CHECK_REDIS_INS;
  let cmd := Format (str "HEXISTS %s %s") [ArgS (c_str key); ArgS (c_str field)] in
  RET_BOOL_CMD cmd.

Definition HDel (key field : bytes) : M code :=
  _ ← CHECK_REDIS_INS;
  let cmd := Format (str "HDEL %s %s") [ArgS (c_str key); ArgS (c_str field)] in
  then_ret (RET_INT_CMD cmd) (mret OK).

Definition HLen (key : bytes) : M Z :=
  _ ← CHECK_REDIS_INS;
  let cmd := Format (str "HLEN %s") [ArgS (c_str key)] in
  INT_RET_CMD cmd.

Definition HIncrby (key field : bytes) (by_ : Z) : M code :=
  _ ← CHECK_REDIS_INS;
  let cmd := Format (str "HINCRBY %s %s %d") [ArgS (c_str key); ArgS (c_str field); ArgD by_] in
  then_ret (RET_INT_CMD cmd) (mret OK).

(** A container as the sequence of what is put into it; [HUINT i] counts fewer than
    [2 ^ 32] elements. *)
Fixpoint pairs_loop (element : list redis_res) : M (list (bytes * bytes)) :=
  match element with
  | [] => mret []
  | [_] => undefined
  | f :: v :: element =>
    f ← hstr f; v ← hstr v; kvs ← pairs_loop element; mret ((f, v) :: kvs)
  end.

Definition HGetall (key : bytes) : M (code * list (bytes * bytes)) :=
  _ ← CHECK_REDIS_INS;
  let cmd := Format (str "HGETALL %s") [ArgS (c_str key)] in
  r ← CMD_EXCEPS cmd;
  match r with
  | inl c => mret (c, [])
  | inr element => kvs ← pairs_loop element; _ ← freeReplyObject; mret (OK, kvs)
  end.

Fixpoint strs_loop (element : list redis_res) : M (list bytes) :=
  match element with
  | [] => mret []
  | r :: element => s ← hstr r; strs ← strs_loop element; mret (s :: strs)
  end.

(** [HKeys], [LRange] and [SMembers] are alike but for their command and their container. *)
Definition all_strs (cmd : bytes) : M (code * list bytes) :=
  r ← CMD_EXCEPS cmd;
  match r with
  | inl c => mret (c, [])
  | inr element => strs ← strs_loop element; _ ← freeReplyObject; mret (OK, strs)
  end.

Definition HKeys (key : bytes) : M (code * list bytes) :=
  _ ← CHECK_REDIS_INS;
  let cmd := Format (str "HKEYS %s") [ArgS (c_str key)] in
  all_strs cmd.

(** *** Lists *)

Definition pop_second (cmd : bytes) : M (code * bytes) :=
  r ← CMD_EXCEPS cmd;
  match r with
  | inl c => mret (c, [])
  | inr element =>
    match element with
    | _ :: second :: _ => val ← hstr second; _ ← freeReplyObject; mret (OK, val)
    | _ => free_reinit_ret (RDS_ERR, [])
    end
  end.

Definition BLPop (key : bytes) (timeout : Z) : M (code * bytes) :=
  _ ← CHECK_REDIS_INS;
  let cmd := Format (str "BLPOP %s %d") [ArgS (c_str key); ArgD timeout] in
  pop_second cmd.

Definition BRPop (key : bytes) (timeout : Z) : M (code * bytes) :=
  _ ← CHECK_REDIS_INS;
  let cmd := Format (str "BRPOP %s %d") [ArgS (c_str key); ArgD timeout] in
  pop_second cmd.

Definition LRem (key val : bytes) (count : Z) : M code :=
  _ ← CHECK_REDIS_INS;
  let cmd := Format (str "LREM %s %d %s") [ArgS (c_str key); ArgD count; ArgS (c_str val)] in
  then_ret (RET_INT_CMD cmd) (mret OK).

Definition LIndex (key : bytes) (index : Z) : M (code * bytes) :=
  get_from (str "LINDEX %s %d") [ArgS (c_str key); ArgD index] [].

Definition LLen (key : bytes) : M Z :=
  _ ← CHECK_REDIS_INS;
  let cmd := Format (str "LLEN %s") [ArgS (c_str key)] in
  INT_RET_CMD cmd.

Definition LPop (key : bytes) : M (code * bytes) := get_from (str "LPOP %s") [ArgS (c_str key)] [].

Definition LPush (key val : bytes) : M code :=
  _ ← CHECK_REDIS_INS;
  let cmd := Format (str "LPUSH %s %s") [ArgS (c_str key); ArgS (c_str val)] in
  then_ret (RET_INT_CMD cmd) (mret OK).

Definition LRange (key : bytes) (start end_ : Z) : M (code * list bytes) :=
  _ ← CHECK_REDIS_INS;
  let cmd := Format (str "LRANGE %s %d %d") [ArgS (c_str key); ArgD start; ArgD end_] in
  all_strs cmd.

Definition LSet (key : bytes) (index : Z) (val : bytes) : M code :=
  _ ← CHECK_REDIS_INS;
  let cmd := Format (str "LSET %s %d %s") [ArgS (c_str key); ArgD index; ArgS (c_str val)] in
  then_ret (SET_CMD cmd) (mret OK).

Definition RPop (key : bytes) : M (code * bytes) := get_from (str "RPOP %s") [ArgS (c_str key)] [].

Definition RPush (key val : bytes) : M code :=
  _ ← CHECK_REDIS_INS;
  let cmd := Format (str "RPUSH %s %s") [ArgS (c_str key); ArgS (c_str val)] in
  then_ret (RET_INT_CMD cmd) (mret OK).

(** *** Sets *)

Definition SAdd (key val : bytes) : M code :=
  _ ← CHECK_REDIS_INS;
  let cmd := Format (str "SADD %s %s") [ArgS (c_str key); ArgS (c_str val)] in
  then_ret (RET_INT_CMD cmd) (mret OK).

Definition SRem (key val : bytes) : M code :=
  _ ← CHECK_REDIS_INS;
  let cmd := Format (str "SREM %s %s") [ArgS (c_str key); ArgS (c_str val)] in
  then_ret (RET_INT_CMD cmd) (mret OK).

Definition SCard (key : bytes) : M Z :=
  _ ← CHECK_REDIS_INS;
  let cmd := Format (str "SCARD %s") [ArgS (c_str key)] in
  INT_RET_CMD cmd.

Definition SIsMember (key val : bytes) : M bool :=
  _ ← CHECK_REDIS_INS;
  let cmd := Format (str "SISMEMBER %s %s") [ArgS (c_str key); ArgS (c_str val)] in
  RET_BOOL_CMD cmd.

Definition SMembers (key : bytes) : M (code * list bytes) :=
  _ ← CHECK_REDIS_INS;
  let cmd := Format (str "SMEMBERS %s") [ArgS (c_str key)] in
  all_strs cmd.

(** ** Any command *)

Definition run (c : call) : M answer :=
  match c with
  | CSet key val => x ← Set_ key val; mret (A_code x)
  | CSetex key val exp => x ← Setex key val exp; mret (A_code x)
  | CSetnx key val => x ← Setnx key val; mret (A_bool x)
  | CGet key => x ← Get key; mret (A_text x)
  | CGet_def key defval => x ← Get_def key defval; mret (A_text x)
  | CExpire key sec => x ← Expire key sec; mret (A_code x)
  | CExists key => x ← Exists key; mret (A_bool x)
  | CDel key => x ← Del key; mret (A_code x)
  | CIncr key => x ← Incr key; mret (A_code x)
  | CDecr key => x ← Decr key; mret (A_code x)
  | CHSet key field val => x ← HSet key field val; mret (A_code x)
  | CHSetnx key field val => x ← HSetnx key field val; mret (A_bool x)
  | CHGet key field => x ← HGet key field; mret (A_text x)
  | CHGet_def key field defval => x ← HGet_def key field defval; mret (A_text x)
  | CHExists key field => x ← HExists key field; mret (A_bool x)
  | CHDel key field => x ← HDel key field; mret (A_code x)
  | CHLen key => x ← HLen key; mret (A_int x)
  | CHIncrby key field by_ => x ← HIncrby key field by_; mret (A_code x)
  | CHGetall key => x ← HGetall key; mret (A_pairs x)
  | CHKeys key => x ← HKeys key; mret (A_texts x)
  | CBLPop key timeout => x ← BLPop key timeout; mret (A_text x)
  | CBRPop key timeout => x ← BRPop key timeout; mret (A_text x)
  | CLRem key val count => x ← LRem key val count; mret (A_code x)
  | CLIndex key index => x ← LIndex key index; mret (A_text x)
  | CLLen key => x ← LLen key; mret (A_int x)
  | CLPop key => x ← LPop key; mret (A_text x)
  | CLPush key val => x ← LPush key val; mret (A_code x)
  | CLRange key start end_ => x ← LRange key start end_; mret (A_texts x)
  | CLSet key index val => x ← LSet key index val; mret (A_code x)
  | CRPop key => x ← RPop key; mret (A_text x)
  | CRPush key val => x ← RPush key val; mret (A_code x)
  | CSAdd key val => x ← SAdd key val; mret (A_code x)
  | CSRem key val => x ← SRem key val; mret (A_code x)
  | CSCard key => x ← SCard key; mret (A_int x)
  | CSIsMember key val => x ← SIsMember key val; mret (A_bool x)
  | CSMembers key => x ← SMembers key; mret (A_texts x)
  end.

End client.
End redis.

(** ** What the base library promises of [HASSERT_THROW_MSG] *)
Class HuiBaseLaws `{HuiBase} : Prop := {
  assert_msg_true msg e : ASSERT_THROW_MSG true msg e = None;
  assert_msg_false msg e : ASSERT_THROW_MSG false msg e = Some e
}.

(** ** Replies and connections are freed *)

Section balance.
Context `{Hiredis} `{HuiBaseLaws}.
Context (m_info : NoSqlConnectionInfo).

(** One connection, if any, and it is the one held. *)
Definition well (s : st) : Prop := connections s = match m_context s with Some _ => 1 | None => 0 end.
Definition good (s : st) : Prop := exists c, m_context s = Some c /\ err c = false.

(** [n] replies are held beside the [r0] of before; with [g] the connection has no error. *)
Definition held (r0 : Z) (p : Z * bool) (s : st) : Prop := well s /\ replies s = r0 + p.1 /\ (p.2 = true -> good s).

Definition spec {A} (p : Z * bool) (m : M A) (q : A -> Z * bool) : Prop := forall r0 s, held r0 p s ->
  match m s with
  | (Done a, s) => held r0 (q a) s
  | (Raise _, s) => held r0 (0, false) s
  | (Undefined, _) => True
  end.

Lemma spec_ret {A} p (a : A) q : q a = p \/ q a = (p.1, false) -> spec p (mret a) q.
Proof. intros Hq r0 s Hs. cbn. destruct Hq as [-> | ->]; [done|]. destruct Hs as (? & ? & _). by split_and!. Qed.

Lemma spec_bind {A B} p (m : M A) (f : A -> M B) q r : spec p m q -> (forall a, spec (q a) (f a) r) -> spec p (m ≫= f) r.
Proof.
  intros Hm Hf r0 s Hs. specialize (Hm r0 s Hs). unfold mbind, M_bind. destruct (m s) as [[a|e|] s']; [|done|done].
  by apply (Hf a).
Qed.

Lemma spec_weaken {A} p n b (m : M A) q : spec (n, false) m q -> p = (n, b) -> spec p m q.
Proof. intros Hm -> r0 s (Hw & Hr & _). apply Hm. by split_and!. Qed.

Lemma spec_command cmd g : spec (0, g) (command cmd) (fun r => (match r with Some _ => 1 | None => 0 end, false)).
Proof.
  intros r0 s (Hw & Hr & _). unfold command. destruct (m_context s) as [c|] eqn:E; [|done].
  destruct (redisCommand _ _ _) as [[[r c'] w]|]; [|done]. unfold held, well in *. rewrite E in Hw. cbn in *.
  split_and!; [done|destruct r; lia|done].
Qed.

Lemma spec_context_err n g : spec (n, g) context_err (fun e => (n, negb e)).
Proof.
  intros r0 s (Hw & Hr & _). unfold context_err. destruct (m_context s) as [c|] eqn:E; [|done].
  split_and!; [done|done|]. cbn. intros He. exists c. split; [done|by apply negb_true_iff in He].
Qed.

Lemma spec_free n g : spec (n, g) freeReplyObject (fun _ => (n - 1, g)).
Proof. intros r0 s (Hw & Hr & Hg). split_and!; [done|cbn in *; lia|done]. Qed.

Lemma spec_Reinit g : spec (0, g) (Reinit m_info) (fun _ => (0, true)).
Proof.
  intros r0 s (Hw & Hr & _). unfold Reinit, Release, Init, new_context, mbind, M_bind, well in *.
  destruct (m_context s) as [c|] eqn:E; cbn [outside].
  all: destruct (redisConnect _ _ _) as [[c'|] w]; [|unfold held, well; cbn in *; split_and!; [lia|lia|done]].
  all: unfold HASSERT_THROW_MSG; destruct (err c') eqn:Ee; cbn [negb];
    rewrite ?assert_msg_true, ?assert_msg_false; unfold held, well; cbn in *;
    (split_and!; [lia|lia|done || (intros _; by exists c')]).
Qed.

Lemma spec_hstr p r : spec p (hstr r) (fun _ => p).
Proof. unfold hstr. destruct (reply_str r); [by apply spec_ret; left|]. by intros r0 s Hs. Qed.

Lemma spec_raise {A} g e (q : A -> Z * bool) : spec (0, g) (raise e) q.
Proof. intros r0 s (? & ? & _). by split_and!. Qed.

Lemma spec_undefined {A} p (q : A -> Z * bool) : spec p undefined q.
Proof. by intros r0 s Hs. Qed.

Lemma spec_check g : spec (0, g) (CHECK_REDIS_INS m_info) (fun _ => (0, false)).
Proof.
  unfold CHECK_REDIS_INS. eapply (spec_bind _ _ _ (fun _ => (0, false))).
  { intros r0 s (? & ? & _). by split_and!. }
  intros b. eapply (spec_bind _ _ _ (fun _ => (0, false))).
  { destruct b; [apply spec_ret; by left|]. eapply spec_bind; [apply spec_Reinit|]. intros ?. apply spec_ret. by right. }
  intros _. eapply (spec_bind _ _ _ (fun _ => (0, false))).
  { intros r0 s (? & ? & _). by split_and!. }
  intros b'. unfold HASSERT_THROW. destruct b'; [apply spec_ret; by left|apply spec_raise].
Qed.

(** One step through a command: the calls in the order the code makes them. *)
Ltac step :=
  lazymatch goal with
  | |- spec _ (mret _) _ => apply spec_ret; cbn; first [by left | by right]
  | |- spec _ undefined _ => apply spec_undefined
  | |- spec _ (raise _) _ => apply spec_raise
  | |- spec _ (_ ≫= _) _ =>
    eapply spec_bind;
    [first [apply spec_command | apply spec_context_err | apply spec_free | apply spec_Reinit | apply spec_check | apply spec_hstr]
    |intros ?; repeat match goal with b : bool |- _ => destruct b end; cbn [negb orb andb fst snd]]
  | |- context [match ?x with _ => _ end] => destruct x; cbn [negb orb andb fst snd] in *
  end.

Ltac steps := repeat step.

(** A command leaves no reply behind, and a connection without an error. *)
Abbreviation command_spec m := (spec (0, false) m (fun _ => (0, true))).

Lemma spec_SET_CMD cmd : command_spec (SET_CMD m_info cmd).
Proof. unfold SET_CMD, free_reinit_ret, reinit_ret. steps. Qed.

Lemma spec_RET_BOOL_CMD cmd : command_spec (RET_BOOL_CMD m_info cmd).
Proof. unfold RET_BOOL_CMD, free_reinit_throw, reinit_throw. steps. Qed.

Lemma spec_GET_CMD cmd val : command_spec (GET_CMD m_info cmd val).
Proof. unfold GET_CMD, free_reinit_ret, reinit_ret. steps. Qed.

Lemma spec_RET_INT_CMD cmd : command_spec (RET_INT_CMD m_info cmd).
Proof. unfold RET_INT_CMD, free_reinit_ret, reinit_ret. steps. Qed.

Lemma spec_INT_RET_CMD cmd : command_spec (INT_RET_CMD m_info cmd).
Proof. unfold INT_RET_CMD, free_reinit_ret, reinit_ret. steps. Qed.

(** The reply is kept while its elements are read. *)
Lemma spec_CMD_EXCEPS cmd :
  spec (0, false) (CMD_EXCEPS m_info cmd) (fun r => (match r with inl _ => 0 | inr _ => 1 end, true)).
Proof. unfold CMD_EXCEPS, free_reinit_ret, reinit_ret. steps. Qed.

Lemma spec_pairs_loop p element : spec p (pairs_loop element) (fun _ => p).
Proof.
  induction element as [element IH] using (induction_ltof1 _ (@length _)).
  destruct element as [|f [|v element]]; cbn [pairs_loop]; [steps..|]. do 2 step.
  eapply spec_bind; [apply IH; unfold ltof; cbn; lia|]. intros kvs. steps.
Qed.

Lemma spec_strs_loop p element : spec p (strs_loop element) (fun _ => p).
Proof.
  induction element as [|r element IH]; cbn [strs_loop]; [steps|]. step. eapply spec_bind; [apply IH|]. intros strs. steps.
Qed.

(** [step] with the macros as calls. *)
Ltac cmd_step :=
  first
    [ eapply spec_bind;
      [first [apply spec_check | apply spec_SET_CMD | apply spec_RET_BOOL_CMD | apply spec_GET_CMD | apply spec_RET_INT_CMD
             | apply spec_INT_RET_CMD | apply spec_CMD_EXCEPS | apply spec_pairs_loop | apply spec_strs_loop]
      |intros ?; cbn [negb orb andb fst snd]]
    | first [apply spec_RET_BOOL_CMD | apply spec_INT_RET_CMD]
    | step ].

Definition refused (c : call) : bool := match c with CExpire _ sec => sec <? 0 | _ => false end.

Lemma spec_run c : refused c = false -> command_spec (run m_info c).
Proof.
  intros Hr. destruct c; cbn [run refused] in *; (eapply (spec_bind _ _ _ (fun _ => (0, true))); [|intros ?; steps]).
  all: unfold Set_, Setex, Setnx, Get, Get_def, Expire, Exists, Del, Incr, Decr, HSet, HSetnx, HGet, HGet_def, HExists, HDel, HLen, HIncrby,
    HGetall, HKeys, BLPop, BRPop, LRem, LIndex, LLen, LPop, LPush, LRange, LSet, RPop, RPush, SAdd, SRem, SCard, SIsMember, SMembers,
    get_from, all_strs, pop_second, free_reinit_ret, then_ret in *; cbv zeta.
  all: try (assert (0 <=? sec = true) as -> by (bool_to_prop; apply Z.leb_le; lia)).
  all: repeat cmd_step.
Qed.

(** C16: Whatever the server and the library answer, a command gives back every reply it got
    and holds one connection at most; if it returns, the connection it leaves has no
    error: it was found so, or made anew.  (A negative expiry is refused before.) *)
Theorem commands_balanced c s :
  well s ->
  match run m_info c s with
  | (Undefined, _) => True
  | (Raise _, s') => replies s' = replies s /\ well s'
  | (Done _, s') => replies s' = replies s /\ well s' /\ (refused c = false -> good s')
  end.
Proof.
  intros Hw. assert (held (replies s) (0, false) s) as Hs by (split_and!; [done|cbn; lia|done]).
  destruct (refused c) eqn:Er.
  - destruct c; try discriminate. cbn [run refused] in *. unfold Expire, mbind at 1, M_bind at 1.
    assert (0 <=? sec = false) as -> by (bool_to_prop; apply Z.leb_gt; lia). cbn [negb].
    pose proof (spec_check false _ _ Hs) as Hc. unfold mbind, M_bind.
    destruct (CHECK_REDIS_INS _ s) as [[[]|e|] s'] eqn:E; [|destruct Hc as (? & ? & _); split; [cbn in *; lia|done]|done].
    destruct Hc as (? & ? & _). cbn. split_and!; [cbn in *; lia|done|done].
  - pose proof (spec_run c Er _ _ Hs) as H'. destruct (run _ c s) as [[a|e|] s']; [..|done];
      destruct H' as (? & ? & Hg); cbn in *; split_and!; try done; first [lia|by intros _; apply Hg].
Qed.

(** [Init] called on a connected client forgets the first connection. *)
Theorem second_Init_leaks s c c' w :
  well s -> m_context s = Some c -> redisConnect (c_str (strIp m_info)) (s32 (nPort m_info)) (outside s) = (Some c', w) ->
  connections (snd (Init m_info s)) = 2 /\ m_context (snd (Init m_info s)) = Some c'.
Proof.
  unfold well. intros Hw Hc Hn. rewrite Hc in Hw. unfold Init, new_context, mbind, M_bind. rewrite Hn.
  unfold HASSERT_THROW_MSG. destruct (ASSERT_THROW_MSG _ _ _); cbn; split; (lia || done).
Qed.

End balance.

(** ** A server, and clients on it *)

(** A key or a value that stays one word of a command. *)
Definition plain (s : bytes) : Prop := s <> [] /\ 0 ∉ s /\ 32 ∉ s /\ 37 ∉ s.

(** A server that is up: [SET] and [GET] as the documentation of Redis has them, sent by
    [redisCommand] without a directive, word by word.  [HCStr::Format] is code of [<huibase.h>],
    which is not in the repository; of it this is asked: that the formats of the two commands
    are replaced as [printf] replaces them, where the text has at most [room] bytes. *)
Class Server `{Hiredis} `{HuiBase} := {
  room : Z;
  Format_SET k v : plain k -> plain v -> 5 + zlen k + zlen v <= room ->
    Format (str "SET %s %s") [ArgS k; ArgS v] = str "SET " ++ k ++ str " " ++ v;
  Format_GET k : plain k -> 4 + zlen k <= room -> Format (str "GET %s") [ArgS k] = str "GET " ++ k;
  value : world -> bytes -> option bytes;
  up : redisContext -> world -> Prop;
  up_err c w : up c w -> err c = false;
  server_SET k v c w : plain k -> plain v -> up c w ->
    exists c' w', redisCommand (str "SET " ++ k ++ str " " ++ v) c w = Some (Some (REPLY_STATUS (str "OK")), c', w') /\
      up c' w' /\ value w' k = Some v /\ forall k', k' <> k -> value w' k' = value w k';
  server_GET k c w : plain k -> up c w ->
    exists c' w', redisCommand (str "GET " ++ k) c w
        = Some (Some (match value w k with Some v => REPLY_STRING v | None => REPLY_NIL end), c', w') /\
      up c' w' /\ forall k', value w' k' = value w k'
}.

(** String literals as their bytes. *)
Ltac literals :=
  repeat match goal with |- context [str ?s] => let v := eval vm_compute in (str s) in change (str s) with v end.

Section server.
Context `{Hiredis} `{HuiBase}.
Context {Hserver : Server}.
Context (m_info : NoSqlConnectionInfo).

Lemma check_connected s c : m_context s = Some c -> CHECK_REDIS_INS m_info s = (Done tt, s).
Proof. intros Hc. unfold CHECK_REDIS_INS, mbind, M_bind, has_context. rewrite Hc. cbn. by rewrite Hc. Qed.

Lemma plain_not_nul k : plain k -> 0 ∉ k.
Proof. by intros (_ & ? & _). Qed.

Lemma nul_free_app (a b : bytes) : 0 ∉ a -> 0 ∉ b -> 0 ∉ a ++ b.
Proof. rewrite not_elem_of_app. by split. Qed.

Lemma nul_free_str (l : bytes) : forallb (fun c => negb (c =? 0)) l = true -> 0 ∉ l.
Proof. intros Hl Hin. rewrite forallb_forall in Hl. apply list_elem_of_In in Hin. by apply Hl in Hin. Qed.

Lemma client_Set_ok k v s c :
  m_context s = Some c -> up c (outside s) -> plain k -> plain v -> 5 + zlen k + zlen v <= room ->
  exists s' c', Set_ m_info k v s = (Done OK, s') /\ m_context s' = Some c' /\ up c' (outside s') /\
    value (outside s') k = Some v /\ forall k', k' <> k -> value (outside s') k' = value (outside s) k'.
Proof.
  intros Hc Hu Hk Hv Hroom. pose proof (plain_not_nul _ Hk) as Hk0. pose proof (plain_not_nul _ Hv) as Hv0.
  destruct (server_SET k v c (outside s) Hk Hv Hu) as (c' & w' & E & Hu' & Hval & Hrest).
  unfold Set_, mbind at 1, M_bind at 1. rewrite (check_connected s c Hc), !c_str_clean, Format_SET by done. cbv zeta.
  unfold then_ret, SET_CMD, mbind, M_bind, command. rewrite Hc, c_str_clean, E.
  2:{ apply nul_free_app; [by apply nul_free_str|]. apply nul_free_app; [done|]. by apply (nul_free_app (str " ")); [apply nul_free_str|]. }
  unfold context_err. cbn [m_context outside]. rewrite (up_err _ _ Hu'). cbn [is_status negb orb].
  unfold hstr. cbn [reply_str]. rewrite c_str_clean by (by apply nul_free_str).
  eexists _, c'. split; [reflexivity|]. by cbn.
Qed.

Lemma client_Get_ok k s c :
  m_context s = Some c -> up c (outside s) -> plain k -> 4 + zlen k <= room -> (forall v, value (outside s) k = Some v -> 0 ∉ v) ->
  exists s' c', Get m_info k s = (Done (OK, default [] (value (outside s) k)), s') /\ m_context s' = Some c' /\ up c' (outside s') /\
    forall k', value (outside s') k' = value (outside s) k'.
Proof.
  intros Hc Hu Hk Hroom Hv. pose proof (plain_not_nul _ Hk) as Hk0.
  destruct (server_GET k c (outside s) Hk Hu) as (c' & w' & E & Hu' & Hrest).
  unfold Get, get_from, mbind at 1, M_bind at 1. rewrite (check_connected s c Hc), !c_str_clean, Format_GET by done. cbv zeta.
  unfold GET_CMD, mbind, M_bind, command. rewrite Hc, c_str_clean, E.
  2:{ apply nul_free_app; [by apply nul_free_str|done]. }
  unfold context_err. cbn [m_context outside]. rewrite (up_err _ _ Hu').
  destruct (value (outside s) k) as [v|] eqn:Ev; cbn [is_nil is_string negb]; unfold hstr; cbn [reply_str];
    [rewrite c_str_clean by (by apply Hv)|]; eexists _, c'; (split; [reflexivity|]); by cbn.
Qed.

(** C25: On a connected client and a server that is up, for keys and values that are one word of
    a command - not empty, without blanks, percent signs and zero bytes ([value_with_blank],
    [value_with_percent], [value_with_zero] and [value_empty] are what happens otherwise) - and
    that [HCStr::Format] has room for: what [Set] stores [Get] gives back, and for every other
    key [Get] gives what the server had for it, or nothing if it had nothing. *)
Theorem set_get k v k' s c :
  m_context s = Some c -> up c (outside s) -> plain k -> plain v -> plain k' ->
  5 + zlen k + zlen v <= room -> 4 + zlen k' <= room ->
  (forall v, value (outside s) k' = Some v -> 0 ∉ v) ->
  exists s1 s2, Set_ m_info k v s = (Done OK, s1) /\
    Get m_info k' s1 = (Done (OK, if bool_decide (k' = k) then v else default [] (value (outside s) k')), s2).
Proof.
  intros Hc Hu Hk Hv Hk' Hr Hr' Hval. destruct (client_Set_ok k v s c Hc Hu Hk Hv Hr) as (s1 & c1 & E1 & Hc1 & Hu1 & Hk1 & Hr1).
  assert (value (outside s1) k' = if bool_decide (k' = k) then Some v else value (outside s) k') as Ev.
  { case_bool_decide; [by subst|by apply Hr1]. }
  destruct (client_Get_ok k' s1 c1 Hc1 Hu1 Hk' Hr') as (s2 & c2 & E2 & _).
  { intros v'. rewrite Ev. case_bool_decide; [|by apply Hval]. intros [= <-]. by apply plain_not_nul. }
  exists s1, s2. split; [done|]. rewrite E2, Ev. by case_bool_decide.
Qed.

End server.

(** A server and a library to run the commands on: it speaks [SET], [GET] and [HLEN] of
    nothing, answers other commands with an error, and a directive is undefined. *)
Module Sample.

(** [vsnprintf] for the two directives the commands use. *)
Fixpoint printf (f : bytes) (args : list farg) : bytes :=
  match f with
  | [] => []
  | c :: f1 =>
    if c =? 37 then
      match f1, args with
      | 115 :: f, ArgS s :: args => s ++ printf f args
      | 100 :: f, ArgD z :: args => to_string z ++ printf f args
      | _, _ => []
      end
    else c :: printf f1 args
  end.

Fixpoint words_acc (s w : bytes) : list bytes :=
  match s with
  | [] => [w]
  | c :: s => if c =? 32 then w :: words_acc s [] else words_acc s (w ++ [c])
  end.

(** The words between the blanks. *)
Definition words (s : bytes) : list bytes := filter (fun w => w <> []) (words_acc s []).

Fixpoint assoc (l : list (bytes * bytes)) (k : bytes) : option bytes :=
  match l with [] => None | (k', v) :: l => if bool_decide (k' = k) then Some v else assoc l k end.

Definition execute (argv : list bytes) (l : list (bytes * bytes)) : redis_res * list (bytes * bytes) :=
  match argv with
  | [cmd; k; v] => if bool_decide (cmd = str "SET") then (REPLY_STATUS (str "OK"), (k, v) :: l) else (REPLY_ERROR (str "ERR"), l)
  | [cmd; k] =>
    if bool_decide (cmd = str "GET") then (match assoc l k with Some v => REPLY_STRING v | None => REPLY_NIL end, l)
    else (REPLY_ERROR (str "ERR"), l)
  | _ => (REPLY_ERROR (str "ERR syntax error"), l)
  end.

(** A context is its error flag. *)
#[global] Instance hiredis : Hiredis := {
  world := list (bytes * bytes);
  redisContext := bool;
  redisConnect _ _ w := (Some false, w);
  redisFree _ w := w;
  err c := c;
  redisCommand f c w :=
    if mem 37 f then None
    else if c then Some (None, c, w)
    else let '(r, w) := execute (words f) w in Some (Some r, c, w)
}.

#[global] Instance huibase : HuiBase := {
  Format := printf;
  HRET_BOOL z := negb (z =? 0);
  ASSERT_THROW_MSG b _ e := if b then None else Some e;
  code_value e := if bool_decide (e = RDS_ERR) then 1000 else 0
}.

#[global] Instance huibase_laws : HuiBaseLaws.
Proof. by split. Qed.

Lemma words_acc_one k w : 32 ∉ k -> words_acc k w = [w ++ k].
Proof.
  revert w. induction k as [|c k IH]; intros w Hk; cbn; [by rewrite app_nil_r|]. apply not_elem_of_cons in Hk as [Hc Hk].
  rewrite (proj2 (Z.eqb_neq c 32)) by congruence. by rewrite IH, <- app_assoc.
Qed.

Lemma words_acc_app k w s : 32 ∉ k -> words_acc (k ++ 32 :: s) w = (w ++ k) :: words_acc s [].
Proof.
  revert w. induction k as [|c k IH]; intros w Hk; cbn; [by rewrite app_nil_r|]. apply not_elem_of_cons in Hk as [Hc Hk].
  rewrite (proj2 (Z.eqb_neq c 32)) by congruence. by rewrite IH, <- app_assoc.
Qed.

Lemma mem_absent c s : c ∉ s -> mem c s = false.
Proof. intros Hc. apply not_true_is_false. by rewrite mem_spec. Qed.

Lemma words_SET k v : plain k -> plain v -> words (str "SET " ++ k ++ str " " ++ v) = [str "SET"; k; v].
Proof.
  intros (Hk & _ & Hk2 & _) (Hv & _ & Hv2 & _). unfold words. change (str "SET ") with (str "SET" ++ [32]).
  rewrite <- app_assoc. cbn [app]. rewrite words_acc_app by (by rewrite <- mem_spec). cbn [app].
  change (str " " ++ v) with (32 :: v). rewrite words_acc_app, words_acc_one by done. cbn [app].
  rewrite !filter_cons_True by done. done.
Qed.

Lemma words_GET k : plain k -> words (str "GET " ++ k) = [str "GET"; k].
Proof.
  intros (Hk & _ & Hk2 & _). unfold words. change (str "GET ") with (str "GET" ++ [32]).
  rewrite <- app_assoc. cbn [app]. rewrite words_acc_app, words_acc_one by (done || by rewrite <- mem_spec). cbn [app].
  rewrite !filter_cons_True by done. done.
Qed.

Lemma percent_free (a b : bytes) : mem 37 a = false -> 37 ∉ b -> mem 37 (a ++ b) = false.
Proof.
  intros Ha Hb. apply mem_absent. apply not_elem_of_app. split; [|done]. rewrite <- mem_spec. by rewrite Ha.
Qed.

#[global] Program Instance server : Server := { room := 4096; value := assoc; up c _ := c = false }.
Next Obligation. intros k v _ _ _. literals. cbn. by rewrite app_nil_r. Qed.
Next Obligation. intros k _ _. literals. cbn. by rewrite app_nil_r. Qed.
Next Obligation. done. Qed.
Next Obligation.
  intros k v c w Hk Hv ->. exists false, ((k, v) :: w). cbn [redisCommand hiredis].
  rewrite percent_free; [|done|]. 2:{ apply not_elem_of_app. split; [apply Hk|]. apply not_elem_of_cons. split; [done|apply Hv]. }
  rewrite words_SET by done. cbn [execute]. rewrite bool_decide_true by done. split_and!; [done|done| |].
  - cbn. by rewrite bool_decide_true.
  - intros k' Hk'. cbn. by rewrite bool_decide_false.
Qed.
Next Obligation.
  intros k c w Hk ->. exists false, w. cbn [redisCommand hiredis].
  rewrite percent_free; [|done|apply Hk]. rewrite words_GET by done. cbn [execute]. by rewrite bool_decide_true.
Qed.

End Sample.

(** A client that has not connected yet. *)
Definition info : NoSqlConnectionInfo := Info (str "localhost") 6379 [] [].

Definition fresh (w : list (bytes * bytes)) : st := St w None 0 0.
Definition connected (w : list (bytes * bytes)) : st := St w (Some false) 0 1.

(** A value with a blank is another number of words: the server refuses it. *)
Example value_with_blank :
  Set_ info (str "k") (str "a b") (connected []) = (Done RDS_ERR, connected []).
Proof. by vm_compute. Qed.

(** A value with a percent sign is read as a directive. *)
Example value_with_percent : fst (Set_ info (str "k") (str "50%s") (connected [])) = Undefined.
Proof. by vm_compute. Qed.

(** An empty value is no word: the server refuses the command. *)
Example value_empty : Set_ info (str "k") [] (connected []) = (Done RDS_ERR, connected []).
Proof. by vm_compute. Qed.

(** A value ends at its first zero byte. *)
Example value_with_zero : fst (Set_ info (str "k") [97; 0; 98] (connected [])) = Done OK /\
  fst (Get info (str "k") (snd (Set_ info (str "k") [97; 0; 98] (connected [])))) = Done (OK, [97]).
Proof. by vm_compute. Qed.

(** The length of a hash that could not be asked for is an error's number. *)
Example length_or_error : fst (HLen info (str "h") (fresh [])) = Done (code_value RDS_ERR).
Proof. by vm_compute. Qed.

Lemma commands_balanced_witness :
  match run info (CGet (str "k")) (connected [(str "k", str "v")]) with
  | (Undefined, _) => True
  | (Raise _, s') => replies s' = 0 /\ well s'
  | (Done _, s') => replies s' = 0 /\ well s' /\ (refused (CGet (str "k")) = false -> good s')
  end.
Proof. apply (commands_balanced info (CGet (str "k")) (connected [(str "k", str "v")])). reflexivity. Defined.

Lemma second_Init_leaks_witness : connections (snd (Init info (connected []))) = 2.
Proof. by apply (second_Init_leaks info (connected []) false false []). Defined.

Lemma plain_decide s : bool_decide (s <> []) && negb (mem 0 s) && negb (mem 32 s) && negb (mem 37 s) = true -> plain s.
Proof. intros Hs. bool_to_prop. unfold plain. rewrite <- !mem_spec. split_and!; congruence. Qed.

Lemma set_get_witness :
  exists s1 s2, Set_ info (str "k") (str "v") (connected [(str "j", str "w")]) = (Done OK, s1) /\
    Get info (str "j") s1 = (Done (OK, str "w"), s2).
Proof.
  destruct (set_get info (str "k") (str "v") (str "j") (connected [(str "j", str "w")]) false) as (s1 & s2 & E1 & E2);
    [reflexivity|reflexivity|by apply plain_decide|by apply plain_decide|by apply plain_decide|by vm_compute|by vm_compute|..].
  - intros v [= <-]. by rewrite <- mem_spec.
  - exists s1, s2. split; [exact E1|]. rewrite E2. by vm_compute.
Defined.

End CRedis.
