(* ===== verification/System.v ===== *)
(** * Errors and system calls: [src/huicpp.cpp], [src/internal/error_in.h],
    [src/hexception.cpp], [src/adaptation/ada_error.h], [src/systemcall/], [src/hsystem.cpp]

    The table of error texts with the global last error, the exception class and the
    message it makes, and the result of [uname].  [errno], [strerror_r], the clock and the
    kernel's answer are arguments. *)

From S2P Require Import Prelude StdString HStr.

(** ** Error numbers *)

Module huicpp.

(** [huicpp_errs_enum]. *)
Definition ERR_NO (e : herr) : Z :=
  match e with
  | OK => 0 | INVL_PARA => 1 | ERR_STATUS => 2 | SRC_ERR => 3 | OVER_FLOW => 4 | IO_FAILED => 5 | MEMORY_OUT => 6
  | TIME_OUT => 7 | NOT_EXISTS => 8 | DEP_ERROR => 9 | NETWORK_ERROR => 10 | SYS_FAILED => 11 | UN_SUPPORT => 12
  | UNKOWN_ERR => 13 | ERR_END => 14
  end.

(** [HUICPP_ERR_MAP]. *)
Definition s_base_err_map : list bytes :=
  [str "success"; str "invaild parameter"; str "invalid status"; str "source error"; str "index overflow"; str "I/O failed";
   str "memory out"; str "time out"; str "object not exists"; str "dep source rise error"; str "network error";
   str "syscall failed"; str "unsupport"; str "unknown error number."; str "err-end"].

Definition text_at (n : Z) : bytes := default [] (s_base_err_map !! Z.to_nat n).

(** The text and the new [g_hErr]. *)
Definition hbase_err (err : Z) : bytes * Z :=
  if (err <? 0) || (ERR_NO ERR_END <=? err) then (text_at (ERR_NO UNKOWN_ERR), ERR_NO UNKOWN_ERR)
  else (text_at err, err).

Definition hlast_err (g_hErr : Z) : Z := g_hErr.

(** [HRETURN]: what is returned and the new [g_hErr]. *)
Definition HRETURN (ret : herr) (g_hErr : Z) : herr * Z := (ret, if IS_OK ret then g_hErr else ERR_NO ret).

(** Asking for the text of an error makes it the last error, also when it is not one. *)
Lemma hbase_err_spec :
  (forall e, e <> ERR_END -> hbase_err (ERR_NO e) = (text_at (ERR_NO e), ERR_NO e)) /\
  (forall err, ~ 0 <= err < 14 -> hbase_err err = (str "unknown error number.", ERR_NO UNKOWN_ERR)).
Proof.
  split; [by intros []|]. intros err Hr. unfold hbase_err. change (ERR_NO ERR_END) with 14.
  destruct (_ || _) eqn:E; [done|]. bool_to_prop. lia.
Qed.

(** Every error has a text of its own. *)
Lemma texts_distinct e e' : fst (hbase_err (ERR_NO e)) = fst (hbase_err (ERR_NO e')) -> e <> ERR_END -> e' <> ERR_END -> e = e'.
Proof. by destruct e, e'. Qed.

End huicpp.

(** ** Exceptions *)

Module HException.
Import huicpp.

Definition HWORD_LEN : Z := 128.

Record t : Type := Mk { m_str : bytes; m_err : Z; m_strFile : bytes; m_iLineno : Z }.

Definition what (e : t) : bytes := c_str (m_str e).
Definition GetHErr (e : t) : Z := m_err e.

Section exception.
(** [strerror_r(errnum, buf, buflen)]: what it returns, zero or not, and the buffer then. *)
Context (strerror_r : Z -> bytes -> Z -> Z * bytes).

(** [adapt::hstrerror]. *)
Definition hstrerror (errnum : Z) (buf : bytes) (buflen : Z) : herr * bytes :=
  let (cb, buf) := strerror_r errnum buf buflen in
  (if cb =? 0 then OK else SYS_FAILED, buf).

Definition GetSysError (errnum : Z) : bytes :=
  let buf := replicate (Z.to_nat HWORD_LEN) 0 in
  c_str (snd (hstrerror errnum buf HWORD_LEN)).

Definition appendLocationInfo (e : t) : res t :=
  s ← HStr.Format (Some (str "[" ++ c_str (m_strFile e) ++ str ":" ++ to_string (m_iLineno e) ++ str "]"));
  Ret (Mk (m_str e ++ s) (m_err e) (m_strFile e) (m_iLineno e)).

(** Beside the object, the new [g_hErr]. *)
Definition initmsg (errno : Z) (e : t) : res (t * Z) :=
  let s := [] in
  let s := s ++ str "huicpp exception msg:[" in
  let (text, g_hErr) := hbase_err (m_err e) in
  let s := s ++ text in
  let s := s ++ str "] " in
  let s := s ++ str "System error msg:[" in
  let s := s ++ GetSysError errno in
  let s := s ++ str "] " in
  e ← appendLocationInfo (Mk s (m_err e) (m_strFile e) (m_iLineno e));
  Ret (e, g_hErr).

(** A string made of a null pointer. *)
Definition of_ptr (p : option bytes) : res bytes := match p with Some s => Ret (c_str s) | None => Throw UB end.

Definition HException (errno err : Z) (szFile : option bytes) (iLineNo : Z) : res (t * Z) :=
  noexcept (m_strFile ← of_ptr szFile; initmsg errno (Mk [] err m_strFile iLineNo)).

Definition HException_msg (errno : Z) (strErrMsg : bytes) (err : Z) (szFile : option bytes) (iLineNo : Z) : res (t * Z) :=
  noexcept (m_strFile ← of_ptr szFile; initmsg errno (Mk strErrMsg err m_strFile iLineNo)).

Definition HSocketException (errno : Z) (strError szFile : bytes) (iLineNo : Z) : res (t * Z) :=
  HException_msg errno strError (ERR_NO NETWORK_ERROR) (Some (c_str szFile)) iLineNo.

(** *** Properties *)

(** The text of the system's error, the file and the line, each in its bracket. *)
Definition message (errno err : Z) (file : bytes) (line : Z) : bytes :=
  str "huicpp exception msg:[" ++ fst (hbase_err err) ++ str "] System error msg:[" ++ GetSysError errno ++ str "] ["
  ++ file ++ str ":" ++ to_string line ++ str "]".

Lemma to_string_zero_free n : Forall (fun c => c <> 0) (to_string n).
Proof.
  assert (forall f m acc, 0 <= m -> Forall (fun c => c <> 0) acc -> Forall (fun c => c <> 0) (dec_digits f m acc)) as Hd.
  { induction f as [|f IH]; intros m acc Hm Ha; cbn; [done|]. pose proof (Z.mod_pos_bound m 10).
    pose proof (Z.div_pos m 10). case_match; [|apply IH]; try lia; constructor; (done || lia). }
  unfold to_string. destruct (n <? 0) eqn:E; bool_to_prop; [constructor; [done|]|]; apply Hd; (lia || constructor).
Qed.

Lemma length_to_string n : zlen (to_string n) <= 21.
Proof.
  unfold to_string, zlen. destruct (n <? 0).
  - pose proof (length_dec_digits 20 (- n) []). cbn [length] in *. lia.
  - pose proof (length_dec_digits 20 n []). cbn [length] in *. lia.
Qed.

(** The message given to an exception is lost: the object is the one made without it,
    and [what] is the text of the error's number, of [errno], and the place. *)
Theorem message_lost errno strErrMsg err file iLineNo :
  Forall (fun c => c <> 0) file -> zlen file < 2000 ->
  exists e, HException_msg errno strErrMsg err (Some file) iLineNo = Ret (e, snd (hbase_err err)) /\
    HException errno err (Some file) iLineNo = Ret (e, snd (hbase_err err)) /\
    GetHErr e = err /\ m_str e = message errno err file iLineNo.
Proof.
  intros Hz Hl. pose proof (length_to_string iLineNo) as Hline.
  exists (Mk (message errno err file iLineNo) err file iLineNo).
  unfold HException_msg, HException. cbn [of_ptr mbind res_bind]. rewrite (c_str_id file) by done.
  assert (forall m, initmsg errno (Mk m err file iLineNo)
    = Ret (Mk (message errno err file iLineNo) err file iLineNo, snd (hbase_err err))) as E; [|by rewrite !E].
  intros m. unfold initmsg, appendLocationInfo. cbn [m_err m_strFile m_iLineno m_str].
  destruct (hbase_err err) as [text g] eqn:Eb. cbn [fst snd]. unfold HStr.Format. rewrite c_str_id, HStr.vFormat_ok by
    first [done | (rewrite !zlen_app; change (zlen (str "[")) with 1; change (zlen (str ":")) with 1; change (zlen (str "]")) with 1;
      unfold HStr.HSTRING_LEN; lia)
    | (repeat apply Forall_app_2; try done; [by constructor|by constructor|apply to_string_zero_free|by constructor])].
  cbn [mbind res_bind]. do 3 f_equal. unfold message. rewrite Eb. cbn [fst app].
  change (str "] System error msg:[") with (str "] " ++ str "System error msg:["). change (str "] [") with (str "] " ++ str "[").
  by rewrite <- !app_assoc.
Qed.

(** An exception made without a file name. *)
Theorem no_file errno err : HException errno err None 0 = Throw UB.
Proof. done. Qed.

End exception.

(** GNU's [strerror_r], the one C++ programs get: it returns a pointer, and the text it
    points to is not in the buffer. *)
Example gnu_text_not_shown :
  GetSysError (fun _ buf _ => (1, buf)) 2 = [].
Proof. by vm_compute. Qed.

Lemma message_lost_witness :
  exists e, HSocketException (fun _ buf _ => (1, buf)) 9 (str "It not a good socket. Socket:[7]") (str "hsocket.cpp") 42 = Ret (e, 10) /\
    m_str e = str "huicpp exception msg:[network error] System error msg:[] [hsocket.cpp:42]".
Proof.
  destruct (message_lost (fun _ buf _ => (1, buf)) 9 (str "It not a good socket. Socket:[7]") 10 (str "hsocket.cpp") 42)
    as (e & E & _ & _ & Em); [by repeat constructor|done|]. exists e. split; [exact E|exact Em].
Defined.

End HException.

(** ** The wrapper of [uname] *)

Module HUname.

(** [SystemCallBase]: the time in two [int]s. *)
Record base : Type := Base { m_sys_ret : Z; m_call_time_second : Z; m_call_time_usec : Z }.

Definition SystemCallBase (tv : Z * Z) : base := Base (-1) (s32 (fst tv)) (s32 (snd tv)).
Definition SetSystemCallReturn (tv : Z * Z) (ret : Z) (b : base) : base := Base ret (s32 (fst tv)) (s32 (snd tv)).

Record t : Type := Mk {
  base_class : base;
  m_strSystemName : bytes; m_strNodeName : bytes; m_strRelease : bytes; m_strVersion : bytes; m_strMachine : bytes
}.

(** [uname]: its result and the five arrays, zero where it has failed. *)
Definition HUname (tv1 tv2 : Z * Z) (uname : Z * (bytes * bytes * bytes * bytes * bytes)) : t :=
  let '(ret, (sysname, nodename, release, version, machine)) := uname in
  Mk (SetSystemCallReturn tv2 ret (SystemCallBase tv1))
    (c_str sysname) (c_str nodename) (c_str release) (c_str version) (c_str machine).

Definition quote : bytes := [34].
Definition member (name value : bytes) : bytes := quote ++ name ++ quote ++ str ":" ++ quote ++ value ++ quote.

Definition ToString (u : t) : bytes :=
  str "{" ++ member (str "sysname") (m_strSystemName u) ++ str "," ++ member (str "nodename") (m_strNodeName u) ++ str ","
  ++ member (str "release") (m_strRelease u) ++ str "," ++ member (str "version") (m_strVersion u) ++ str ", "
  ++ member (str "machine") (m_strMachine u) ++ str "}".

(** The time of a call is right until the [int] is full. *)
Lemma call_time tv1 tv2 u : in_s 32 (fst tv2) -> in_s 32 (snd tv2) ->
  m_call_time_second (base_class (HUname tv1 tv2 u)) = fst tv2 /\ m_call_time_usec (base_class (HUname tv1 tv2 u)) = snd tv2.
Proof. destruct u as [ret [[[[? ?] ?] ?] ?]]. intros H1 H2. cbn. unfold s32. by rewrite !wrapS_id. Qed.

Example call_time_2038 : m_call_time_second (SystemCallBase (2 ^ 31, 0)) = - 2 ^ 31.
Proof. done. Qed.

End HUname.

(** ** Reboot, shutdown and the shell *)

Module HSystem.

(** The calls of the system, in order; what [system] answers is an argument. *)
Inductive syscall : Type :=
  | CSystem (cmd : bytes)
  | CReboot (howto : Z)
  | CSleep (sec : Z).

Definition RB_AUTOBOOT : Z := 0x01234567.

(** [cmd.c_str()]: up to the first zero byte. *)
Definition ShellCall (system : bytes -> Z) (cmd : bytes) : Z * list syscall := (system (c_str cmd), [CSystem (c_str cmd)]).

(** The body of [while(1)], [rounds] times. *)
Fixpoint reboot_loop (rounds : nat) : list syscall :=
  match rounds with O => [] | S n => CSleep 1 :: CReboot RB_AUTOBOOT :: reboot_loop n end.

(** It does not return: what it has called when the loop has gone round [rounds] times. *)
Definition Reboot (system : bytes -> Z) (rounds : nat) : list syscall :=
  snd (ShellCall system (str "reboot")) ++ [CReboot RB_AUTOBOOT] ++ reboot_loop rounds.

Definition Shutdown : list syscall := [CSystem (str "poweroff"); CSystem (str "shutdown -h now")].

Definition is_reboot (c : syscall) : bool := match c with CReboot _ => true | _ => false end.
Definition slept (c : syscall) : Z := match c with CSleep n => n | _ => 0 end.

(** [Reboot] asks the kernel again each second, for ever: after [rounds] seconds of
    sleep it has asked once more than that. *)
Lemma Reboot_insists system rounds :
  foldr Z.add 0 (map slept (Reboot system rounds)) = Z.of_nat rounds /\
  length (List.filter is_reboot (Reboot system rounds)) = S rounds.
Proof. cbn. induction rounds as [|n [IH1 IH2]]; [done|]. cbn [reboot_loop map foldr slept List.filter is_reboot length]. lia. Qed.

End HSystem.
