(* ===== verification/Locks.v ===== *)
(** * Locks and their holders: [src/hmutex.cpp], [src/hmutex.h],
    [HOLDER_GENERATE] of [src/internal/commonmacro_in.h]

    The wrappers of POSIX mutexes, reader-writer locks and spin locks, over the states
    POSIX gives them: a call returns a number, blocks, or is undefined.  A holder ignores
    what its two calls return.  Threads that enter and leave the scope of a holder are a
    step relation; [Scoped] is what a holder's lock must promise, and the holders of the
    blocking calls keep it.  (Monitors, which also wait, are in [MonitorQueue].) *)

From stdpp Require Import relations.
From S2P Require Import Prelude.

Definition tid : Type := nat.

(** A call of the library: it returns a number, or blocks, or its behaviour is not defined. *)
Inductive outcome (A D : Type) : Type :=
  | Returns (a : A) (d : D)
  | Blocks
  | Undef.
Arguments Returns {A D} a d.
Arguments Blocks {A D}.
Arguments Undef {A D}.

Definition EBUSY : Z := 16.
Definition EDEADLK : Z := 35.

(** [HASSERT_RETURN(f(&m_id) == 0, SYS_FAILED); HRETURN_OK]. *)
Definition checked {D} (o : outcome Z D) : outcome herr D :=
  match o with
  | Returns cb d => Returns (if cb =? 0 then OK else SYS_FAILED) d
  | Blocks => Blocks
  | Undef => Undef
  end.

(** ** Mutexes *)

Module HMutex.

(** The owner. *)
Definition native_type : Type := option tid.

Definition pthread_mutex_lock (t : tid) (m_id : native_type) : outcome Z native_type :=
  match m_id with None => Returns 0 (Some t) | Some _ => Blocks end.
Definition pthread_mutex_trylock (t : tid) (m_id : native_type) : outcome Z native_type :=
  match m_id with None => Returns 0 (Some t) | Some _ => Returns EBUSY m_id end.
Definition pthread_mutex_unlock (t : tid) (m_id : native_type) : outcome Z native_type :=
  if decide (m_id = Some t) then Returns 0 None else Undef.

Definition HMutex : native_type := None.

(** A mutex that is held must not be destroyed. *)
Definition dtor (m_id : native_type) : outcome unit unit := if decide (m_id = None) then Returns tt tt else Undef.

Definition Lock (t : tid) (m_id : native_type) : outcome herr native_type := checked (pthread_mutex_lock t m_id).
Definition TryLock (t : tid) (m_id : native_type) : outcome herr native_type := checked (pthread_mutex_trylock t m_id).
Definition UnLock (t : tid) (m_id : native_type) : outcome herr native_type := checked (pthread_mutex_unlock t m_id).

End HMutex.

(** ** Reader-writer locks *)

Module HRwlock.

Record native_type : Type := Mk { readers : list tid; writer : option tid }.

Definition pthread_rwlock_rdlock (t : tid) (m_id : native_type) : outcome Z native_type :=
  match writer m_id with
  | None => Returns 0 (Mk (t :: readers m_id) None)
  | Some w => if decide (w = t) then Returns EDEADLK m_id else Blocks
  end.
Definition pthread_rwlock_tryrdlock (t : tid) (m_id : native_type) : outcome Z native_type :=
  match writer m_id with None => Returns 0 (Mk (t :: readers m_id) None) | Some _ => Returns EBUSY m_id end.
Definition pthread_rwlock_wrlock (t : tid) (m_id : native_type) : outcome Z native_type :=
  match writer m_id, readers m_id with
  | None, [] => Returns 0 (Mk [] (Some t))
  | Some w, _ => if decide (w = t) then Returns EDEADLK m_id else Blocks
  | None, _ => Blocks
  end.
Definition pthread_rwlock_trywrlock (t : tid) (m_id : native_type) : outcome Z native_type :=
  match writer m_id, readers m_id with None, [] => Returns 0 (Mk [] (Some t)) | _, _ => Returns EBUSY m_id end.

Fixpoint remove_one (t : tid) (l : list tid) : list tid :=
  match l with [] => [] | t' :: l => if decide (t' = t) then l else t' :: remove_one t l end.

Definition pthread_rwlock_unlock (t : tid) (m_id : native_type) : outcome Z native_type :=
  if decide (writer m_id = Some t) then Returns 0 (Mk (readers m_id) None)
  else if decide (t ∈ readers m_id) then Returns 0 (Mk (remove_one t (readers m_id)) (writer m_id))
  else Undef.

Definition HRwlock : native_type := Mk [] None.
Definition dtor (m_id : native_type) : outcome unit unit :=
  if decide (readers m_id = [] /\ writer m_id = None) then Returns tt tt else Undef.

Definition RLock (t : tid) (m_id : native_type) : outcome herr native_type := checked (pthread_rwlock_rdlock t m_id).
Definition TryRLock (t : tid) (m_id : native_type) : outcome herr native_type := checked (pthread_rwlock_tryrdlock t m_id).
Definition WLock (t : tid) (m_id : native_type) : outcome herr native_type := checked (pthread_rwlock_wrlock t m_id).
Definition TryWLock (t : tid) (m_id : native_type) : outcome herr native_type := checked (pthread_rwlock_trywrlock t m_id).
Definition UnLock (t : tid) (m_id : native_type) : outcome herr native_type := checked (pthread_rwlock_unlock t m_id).

End HRwlock.

(** ** Spin locks *)

Module HSpinLock.

Definition native_type : Type := option tid.

(** A thread that spins does not go on: it is as blocked as one that waits. *)
Definition pthread_spin_lock (t : tid) (m_id : native_type) : outcome Z native_type :=
  match m_id with None => Returns 0 (Some t) | Some _ => Blocks end.
Definition pthread_spin_trylock (t : tid) (m_id : native_type) : outcome Z native_type :=
  match m_id with None => Returns 0 (Some t) | Some _ => Returns EBUSY m_id end.
Definition pthread_spin_unlock (t : tid) (m_id : native_type) : outcome Z native_type :=
  if decide (m_id = Some t) then Returns 0 None else Undef.

Definition HSpinLock (nShared : Z) : native_type := None.
Definition dtor (m_id : native_type) : outcome unit unit := if decide (m_id = None) then Returns tt tt else Undef.

Definition Lock (t : tid) (m_id : native_type) : outcome herr native_type := checked (pthread_spin_lock t m_id).
Definition TryLock (t : tid) (m_id : native_type) : outcome herr native_type := checked (pthread_spin_trylock t m_id).
Definition UnLock (t : tid) (m_id : native_type) : outcome herr native_type := checked (pthread_spin_unlock t m_id).

End HSpinLock.

(** ** Conditions: the threads asleep at one; [Signal] and [Wait] are in [MonitorQueue] *)

Module HCond.

Definition native_type : Type := list tid.

Definition pthread_cond_broadcast (m_id : native_type) : outcome Z native_type := Returns 0 [].
Definition HCond : native_type := [].
Definition Broatcast (m_id : native_type) : outcome herr native_type := checked (pthread_cond_broadcast m_id).

End HCond.

(** ** Holders *)

Module Holder.

Section holder.
Context {D R : Type}.

(** [HOLDER_GENERATE(ty, dosth, undosth)]: the first call in the constructor, the second
    in the destructor, their results ignored. *)
Record t : Type := Generate { dosth : tid -> D -> outcome herr D; undosth : tid -> D -> outcome herr D }.

Definition ignore_return (o : outcome herr D) : outcome unit D :=
  match o with Returns _ d => Returns tt d | Blocks => Blocks | Undef => Undef end.

Definition construct (h : t) (i : tid) (d : D) : outcome unit D := ignore_return (dosth h i d).
Definition destruct (h : t) (i : tid) (d : D) : outcome unit D := ignore_return (undosth h i d).

(** The holders a thread may construct of one device. *)
Context (kind : R -> t).

(** [inside]: the scopes that are open, the last first, each with its thread. *)
Record state : Type := St { m_device : D; inside : list (tid * R); undefined : bool }.

(** Any thread opens a scope of any holder, be it inside scopes of its own; what a thread
    opened last it leaves first. *)
Inductive step : state -> state -> Prop :=
  | step_enter i r d l d' :
      construct (kind r) i d = Returns tt d' ->
      step (St d l false) (St d' ((i, r) :: l) false)
  | step_leave i r d l l' d' :
      i ∉ l.*1 -> destruct (kind r) i d = Returns tt d' ->
      step (St d (l ++ (i, r) :: l') false) (St d' (l ++ l') false)
  | step_undefined i r d l l' :
      i ∉ l.*1 -> destruct (kind r) i d = Undef ->
      step (St d (l ++ (i, r) :: l') false) (St d (l ++ l') true).

Definition reachable (d0 : D) : state -> Prop := rtc step (St d0 [] false).

(** No thread has opened a scope [r] inside a scope [q] of its own unless [may q r]. *)
Context (may : R -> R -> Prop).

Fixpoint nested_as (l : list (tid * R)) : Prop :=
  match l with
  | [] => True
  | (i, r) :: l => Forall (fun x => x.1 = i -> may x.2 r) l /\ nested_as l
  end.

(** The runs in which scopes are only so nested. *)
Definition reachable_nested (d0 : D) : state -> Prop :=
  rtc (fun s s' => step s s' /\ nested_as (inside s')) (St d0 [] false).

(** What a lock promises its holders: [grants d l] relates it to the open scopes; who opens a
    scope gets the lock or waits, who closes one can give it back; threads are not together
    inside scopes that exclude each other. *)
Class Scoped (d0 : D) (grants : D -> list (tid * R) -> Prop) (excludes : R -> R -> Prop) : Prop := {
  grants_init : grants d0 [];
  grants_perm d l l' : grants d l -> l ≡ₚ l' -> grants d l';
  grants_exclusive d l i j q r :
    grants d l -> (i, q) ∈ l -> (j, r) ∈ l -> i <> j -> ~ excludes q r;
  enter_grants i r d l e d' :
    grants d l -> (forall q, (i, q) ∈ l -> may q r) -> dosth (kind r) i d = Returns e d' ->
    e = OK /\ grants d' ((i, r) :: l);
  leave_grants i r d l :
    grants d ((i, r) :: l) -> exists d', undosth (kind r) i d = Returns OK d' /\ grants d' l
}.

Section scoped.
Context (d0 : D) (grants : D -> list (tid * R) -> Prop) (excludes : R -> R -> Prop) `{!Scoped d0 grants excludes}.

Definition inv (s : state) : Prop := grants (m_device s) (inside s) /\ undefined s = false.

Lemma left_first (i : tid) (r : R) l l' : l ++ (i, r) :: l' ≡ₚ (i, r) :: l ++ l'.
Proof. by rewrite Permutation_middle. Qed.

Lemma holder_step_inv s s' : inv s -> step s s' -> nested_as (inside s') -> inv s'.
Proof.
  intros [Hg _] Hs Hn. destruct Hs as [i r d l d' Hc|i r d l l' d' Hi Hc|i r d l l' Hi Hc]; cbn in *.
  - unfold construct, ignore_return in Hc. destruct (dosth _ _ _) as [e d1| |] eqn:E; simplify_eq.
    split; [|done]. destruct (enter_grants i r d l e d' Hg) as [_ Hg']; [|done|done].
    intros q Hq. destruct Hn as [Hn _]. rewrite Forall_forall in Hn. by apply (Hn (i, q)).
  - pose proof (grants_perm _ _ _ Hg (left_first i r l l')) as Hg'.
    destruct (leave_grants i r d _ Hg') as (d1 & E & Hg1). unfold destruct, ignore_return in Hc. rewrite E in Hc.
    by simplify_eq.
  - pose proof (grants_perm _ _ _ Hg (left_first i r l l')) as Hg'.
    destruct (leave_grants i r d _ Hg') as (d1 & E & _). unfold destruct in Hc. by rewrite E in Hc.
Qed.

Lemma reachable_inv s : reachable_nested d0 s -> inv s.
Proof.
  intros Hr. refine (rtc_ind_r inv _ _ _ s Hr); [split; [apply grants_init|done]|].
  intros s1 s2 _ [Hs Hn] Hi. by eapply holder_step_inv.
Qed.

(** No lock is given back that is not held, and scopes that exclude each other are of one
    thread. *)
Lemma scoped_exclusion s :
  reachable_nested d0 s ->
  undefined s = false /\
  forall i j q r, (i, q) ∈ inside s -> (j, r) ∈ inside s -> excludes q r -> i = j.
Proof.
  intros [Hg Hu]%reachable_inv. split; [done|]. intros i j q r Hi Hj He.
  destruct (decide (i = j)) as [|Hij]; [done|]. by destruct (grants_exclusive _ _ _ _ _ _ Hg Hi Hj Hij).
Qed.

End scoped.
End holder.
Arguments t : clear implicits.
Arguments Scoped {D R} kind may d0 grants excludes.

(** Where every nesting is allowed, these are all the runs. *)
Lemma any_nesting {D R} (kind : R -> t D) d0 s :
  reachable kind d0 s -> reachable_nested kind (fun _ _ => True) d0 s.
Proof.
  apply rtc_subrel. intros s1 s2 Hs. split; [done|]. induction (inside s2) as [|[i r] l IH]; [done|].
  split; [|done]. by apply Forall_forall.
Qed.

(** The holders [hmutex.h] generates. *)
Definition HMutex_Lock_UnLock : t HMutex.native_type := Generate HMutex.Lock HMutex.UnLock.
Definition HMutex_TryLock_UnLock : t HMutex.native_type := Generate HMutex.TryLock HMutex.UnLock.
Definition HRwlock_RLock_UnLock : t HRwlock.native_type := Generate HRwlock.RLock HRwlock.UnLock.
Definition HRwlock_TryRLock_UnLock : t HRwlock.native_type := Generate HRwlock.TryRLock HRwlock.UnLock.
Definition HRwlock_WLock_UnLock : t HRwlock.native_type := Generate HRwlock.WLock HRwlock.UnLock.
Definition HRwlock_TryWLock_UnLock : t HRwlock.native_type := Generate HRwlock.TryWLock HRwlock.UnLock.
Definition HSpinLock_Lock_UnLock : t HSpinLock.native_type := Generate HSpinLock.Lock HSpinLock.UnLock.
Definition HSpinLock_TryLock_UnLock : t HSpinLock.native_type := Generate HSpinLock.TryLock HSpinLock.UnLock.

(** *** Instances *)

(** A mutex makes its owner wait too: however scopes are nested. *)
#[global] Instance mutex_scoped :
  Scoped (fun _ : unit => HMutex_Lock_UnLock) (fun _ _ => True) None
    (fun d l => l = match d with Some i => [(i, tt)] | None => [] end) (fun _ _ => True).
Proof.
  split; [done| | | |].
  - intros d l l' -> Hp. destruct d; [by apply Permutation_singleton_l in Hp|by apply Permutation_nil_l in Hp].
  - intros d l i j [] [] -> Hi Hj. destruct d; set_solver.
  - intros i [] [j|] l e d' -> _ [= <- <-]. done.
  - intros i [] [j|] l; [|done]. intros [= <- <-]. exists None. split; [|done]. cbn.
    unfold HMutex.UnLock, HMutex.pthread_mutex_unlock. by rewrite decide_True by done.
Qed.

#[global] Instance spin_scoped :
  Scoped (fun _ : unit => HSpinLock_Lock_UnLock) (fun _ _ => True) None
    (fun d l => l = match d with Some i => [(i, tt)] | None => [] end) (fun _ _ => True).
Proof. exact mutex_scoped. Qed.

(** The two holders of a reader-writer lock that wait for it. *)
Inductive rw : Type := Read | Write.

#[global] Instance rw_eq_dec : EqDecision rw.
Proof. solve_decision. Defined.

Definition rw_kind (r : rw) : t HRwlock.native_type :=
  match r with Read => HRwlock_RLock_UnLock | Write => HRwlock_WLock_UnLock end.

(** A thread that writes opens no second scope: the lock refuses it ([EDEADLK]), and the
    holder would give it back all the same. *)
Definition in_read (q r : rw) : Prop := q = Read.

Definition rw_grants (d : HRwlock.native_type) (l : list (tid * rw)) : Prop :=
  match HRwlock.writer d with
  | Some w => HRwlock.readers d = [] /\ l = [(w, Write)]
  | None => Forall (fun x => x.2 = Read) l /\ HRwlock.readers d ≡ₚ l.*1
  end.

Lemma remove_one_perm i l : i ∈ l -> l ≡ₚ i :: HRwlock.remove_one i l.
Proof.
  induction l as [|x l IH]; intros Hi; [set_solver|]. cbn. case_decide as E; [by subst|].
  rewrite IH at 1 by set_solver. apply perm_swap.
Qed.

#[global] Instance rwlock_scoped :
  Scoped rw_kind in_read HRwlock.HRwlock rw_grants (fun q r => q = Write \/ r = Write).
Proof.
  unfold rw_grants, in_read. split.
  - cbn. split; [constructor|done].
  - intros [rs [w|]] l l'; cbn.
    + intros [-> ->] Hp. split; [done|]. by apply Permutation_singleton_l in Hp.
    + intros [Hr Hp] Hl. split; [by rewrite <- Hl|]. by rewrite <- Hl.
  - intros [rs [w|]] l i j q r; cbn; [intros [_ ->]; set_solver|]. rewrite Forall_forall. intros [Hr _] Hi Hj _.
    apply Hr in Hi, Hj. cbn in *. subst. intuition congruence.
  - intros i r [rs [w|]] l e d' Hg Hm He; cbn in Hg.
    + destruct Hg as [-> ->]. destruct r; cbn in He;
        unfold HRwlock.RLock, HRwlock.WLock, HRwlock.pthread_rwlock_rdlock, HRwlock.pthread_rwlock_wrlock in He; cbn in He;
        (case_decide; [|done]); subst; by specialize (Hm Write ltac:(set_solver)).
    + destruct Hg as [Hr Hp]. destruct r; cbn in He.
      * injection He as <- <-. split; [done|]. cbn. split; [by constructor|by rewrite Hp].
      * unfold HRwlock.WLock, HRwlock.pthread_rwlock_wrlock in He. cbn in He. destruct rs; [|done].
        injection He as <- <-. cbn. apply Permutation_nil_l, eq_sym, fmap_nil_inv in Hp. by subst.
  - intros i r [rs [w|]] l Hg; cbn in Hg.
    + destruct Hg as [-> [= -> -> ->]]. exists HRwlock.HRwlock. cbn. unfold HRwlock.UnLock, HRwlock.pthread_rwlock_unlock. cbn.
      by rewrite decide_True by done.
    + destruct Hg as [Hr Hp]. apply Forall_cons in Hr as [Er Hr]. cbn in Er, Hp. subst r.
      assert (i ∈ rs) as Hi by (rewrite Hp; set_solver).
      exists (HRwlock.Mk (HRwlock.remove_one i rs) None). cbn. unfold HRwlock.UnLock, HRwlock.pthread_rwlock_unlock. cbn.
      rewrite decide_False, decide_True by done. split; [done|]. split; [done|]. rewrite (remove_one_perm i rs Hi) in Hp.
      by apply Permutation_cons_inv in Hp.
Qed.

(** Who gets in: a thread outside gets the lock at once exactly if no scope excludes it. *)
Lemma rw_enter d l i r :
  rw_grants d l -> i ∉ l.*1 ->
  (exists d', construct (rw_kind r) i d = Returns tt d') <-> (r = Read /\ Write ∉ l.*2 \/ l = []).
Proof.
  unfold rw_grants, construct. intros Hg Hi. destruct d as [rs [w|]]; cbn in Hg.
  - destruct Hg as [-> ->]. cbn in Hi. assert (w <> i) by set_solver.
    assert (~ (exists d', ignore_return (dosth (rw_kind r) i (HRwlock.Mk [] (Some w))) = Returns tt d')) as Hn.
    { intros [d' Hd]. destruct r; cbn in Hd;
        unfold HRwlock.RLock, HRwlock.WLock, HRwlock.pthread_rwlock_rdlock, HRwlock.pthread_rwlock_wrlock in Hd; cbn in Hd;
        by rewrite decide_False in Hd by done. }
    split; [done|]. cbn. set_solver.
  - destruct Hg as [Hr Hp].
    assert (Write ∉ l.*2) by (rewrite list_elem_of_fmap; intros (x & Ex & Hx); rewrite Forall_forall in Hr; apply Hr in Hx; congruence).
    destruct r; cbn.
    + split; [by left|]. by eexists.
    + unfold HRwlock.WLock, HRwlock.pthread_rwlock_wrlock. cbn. destruct rs as [|x rs].
      * apply Permutation_nil_l, eq_sym, fmap_nil_inv in Hp. split; [by right|]. by eexists.
      * split; [by intros [??]|]. intros [[? _]| ->]; [done|]. by apply Permutation_nil_r in Hp.
Qed.

(** ** Properties *)

(** C20: Scopes of the read and write holders of a reader-writer lock, opened and closed by any
    threads in any order and nested in any way, save that no thread opens a scope inside a write
    scope of its own ([nested_write_overrun] is what happens then): in every state that is
    reached no lock has been given back that was not held; a thread inside a write scope is the
    only one inside; a thread that has no scope open is let in at once exactly if its scope is
    to read and nobody writes, or nobody is inside, and waits otherwise; and when all scopes are
    closed the lock is as it was made. *)
Theorem rwlock_holders s :
  reachable_nested rw_kind in_read HRwlock.HRwlock s ->
  undefined s = false /\
  (forall i j r, (i, Write) ∈ inside s -> (j, r) ∈ inside s -> i = j) /\
  (forall i r, i ∉ (inside s).*1 ->
    (exists d, construct (rw_kind r) i (m_device s) = Returns tt d) <->
    (r = Read /\ Write ∉ (inside s).*2 \/ inside s = [])) /\
  (inside s = [] -> m_device s = HRwlock.HRwlock).
Proof.
  intros Hr. destruct (scoped_exclusion _ _ _ _ _ s Hr) as [Hu He].
  destruct (reachable_inv _ _ _ _ _ s Hr) as [Hg _]. split_and!; [done| | |].
  - intros i j r Hi Hj. apply (He _ _ _ _ Hi Hj). by left.
  - intros i r. by apply rw_enter.
  - intros E. rewrite E in Hg. destruct (m_device s) as [rs [w|]]; [by destruct Hg|].
    cbn in Hg. by destruct Hg as [_ ->%Permutation_nil_r].
Qed.

(** A reader nested twice, another beside it. *)
Lemma rwlock_holders_witness :
  let s := St (HRwlock.Mk [3; 2; 2]%nat None) [(3%nat, Read); (2%nat, Read); (2%nat, Read)] false in
  undefined s = false /\ Write ∉ (inside s).*2 /\
  (exists d, construct (rw_kind Read) 5%nat (m_device s) = Returns tt d).
Proof.
  set (s := St (HRwlock.Mk [3; 2; 2]%nat None) [(3%nat, Read); (2%nat, Read); (2%nat, Read)] false).
  assert (Write ∉ (inside s).*2) as Hw by (apply (bool_decide_eq_true _); vm_compute; reflexivity).
  destruct (rwlock_holders s) as (Hu & _ & He & _).
  - eapply rtc_l; [split; [apply (step_enter _ 2%nat Read); reflexivity|repeat constructor]|].
    eapply rtc_l; [split; [apply (step_enter _ 2%nat Read); reflexivity|repeat constructor]|].
    eapply rtc_l; [split; [apply (step_enter _ 3%nat Read); reflexivity|repeat constructor]|]. apply rtc_refl.
  - split; [exact Hu|]. split; [exact Hw|]. apply He; [apply (bool_decide_eq_true _); vm_compute; reflexivity|].
    left. by split.
Defined.

(** A thread opens a write scope inside its own: the lock refuses, the holder does not look, and
    the end of the inner scope unlocks; another thread then writes beside the outer scope, and
    the end of that unlocks what the other holds. *)
Theorem nested_write_overrun :
  exists s1 s2 s3,
    reachable rw_kind HRwlock.HRwlock s1 /\ inside s1 = [(0%nat, Write); (0%nat, Write)] /\
    reachable rw_kind HRwlock.HRwlock s2 /\ inside s2 = [(1%nat, Write); (0%nat, Write)] /\
    step rw_kind s2 s3 /\ undefined s3 = true.
Proof.
  assert (reachable rw_kind HRwlock.HRwlock (St (HRwlock.Mk [] (Some 0%nat)) [(0%nat, Write); (0%nat, Write)] false)) as H1.
  { eapply rtc_l; [by apply (step_enter _ 0%nat Write)|]. eapply rtc_l; [by apply (step_enter _ 0%nat Write)|]. apply rtc_refl. }
  exists (St (HRwlock.Mk [] (Some 0%nat)) [(0%nat, Write); (0%nat, Write)] false),
    (St (HRwlock.Mk [] (Some 1%nat)) [(1%nat, Write); (0%nat, Write)] false), (St (HRwlock.Mk [] (Some 1%nat)) [(1%nat, Write)] true).
  split_and!; [exact H1|done| |done|apply (step_undefined _ 0%nat Write _ [(1%nat, Write)] []); [apply (bool_decide_eq_true _)|]; reflexivity|done].
  apply (rtc_r _ (St HRwlock.HRwlock [(0%nat, Write)] false)); [|by apply (step_enter _ 1%nat Write)].
  apply (rtc_r _ _ _ H1). by apply (step_leave _ 0%nat Write _ [] [(0%nat, Write)]); [apply not_elem_of_nil|].
Qed.

(** The same for mutexes and spin locks: one scope at a time, however threads nest them. *)
Theorem mutex_holders s :
  reachable (fun _ : unit => HMutex_Lock_UnLock) None s -> undefined s = false /\ (length (inside s) <= 1)%nat.
Proof.
  intros [Hg Hu]%any_nesting%(reachable_inv _ _ _ _ _ s). split; [done|]. rewrite Hg. destruct (m_device s); cbn; lia.
Qed.

(** Two threads in a scope, and the one that has not the lock leaves it. *)
Definition overrun {D R} (kind : R -> t D) (d0 : D) : Prop :=
  exists s s', reachable kind d0 s /\ (inside s).*1 = [1; 0]%nat /\ step kind s s' /\ undefined s' = true.

Lemma overrun_intro {D R} (kind : R -> t D) q r d0 d :
  construct (kind q) 0%nat d0 = Returns tt d -> construct (kind r) 1%nat d = Returns tt d ->
  destruct (kind r) 1%nat d = Undef ->
  overrun kind d0.
Proof.
  intros H0 H1 H2. exists (St d [(1%nat, r); (0%nat, q)] false), (St d [(0%nat, q)] true). split_and!; [|done| |done].
  - eapply rtc_l; [exact (step_enter kind 0%nat q _ _ _ H0)|].
    eapply rtc_l; [exact (step_enter kind 1%nat r _ _ _ H1)|]. apply rtc_refl.
  - by apply (step_undefined kind 1%nat r d []); [apply not_elem_of_nil|].
Qed.

(** A holder of a lock that is only tried goes on without it, and gives it back. *)
Theorem try_holders_overrun :
  overrun (fun _ : unit => HMutex_TryLock_UnLock) None /\ overrun (fun _ : unit => HSpinLock_TryLock_UnLock) None /\
  overrun (fun _ : unit => HRwlock_TryWLock_UnLock) HRwlock.HRwlock /\
  overrun (fun r => match r with Write => HRwlock_WLock_UnLock | Read => HRwlock_TryRLock_UnLock end) HRwlock.HRwlock.
Proof.
  split_and!; [by eapply (overrun_intro _ tt tt)..|]. by eapply (overrun_intro _ Write Read).
Qed.

Lemma mutex_holders_witness :
  undefined (St (Some 7%nat) [(7%nat, tt)] false) = false /\ (length [(7%nat, tt)] <= 1)%nat.
Proof.
  apply (mutex_holders (St (Some 7%nat) [(7%nat, tt)] false)).
  eapply rtc_l; [|apply rtc_refl]. apply (step_enter _ 7%nat tt). reflexivity.
Defined.

End Holder.
