(* ===== verification/ServerPool.v ===== *)
(** * The server pool: [serverpool/hthreadpool.cpp], [serverpool/hselectserver.cpp]

    A pool of detached threads that wait for messages, and a server over [select].  Both
    are written against an older base library ([<huibase.h>]) that is not in the
    repository: its clients, queues and sockets are parameters, its macros are read as
    those of the same names in [src/internal] ([HFAILED_THROW] as [HNOTOK_THROW]).
    [ProcessRecv] has an [if] without a condition and does not compile; it is a
    parameter too. *)

From stdpp Require Import relations.
From S2P Require Import Prelude.

(** ** The pool of threads *)

Module HCThreadPool.

Definition MAX_THREAD_LEN : Z := 1023.

Record t : Type := Pool { m_childNum : Z; m_bufLen : Z; m_bRunning : bool }.

(** [m_bRunning] is made false, and no function of the class changes it. *)
Definition HCThreadPool (num buf_len : Z) : res t :=
  _ ← assert_throw (num <? MAX_THREAD_LEN) INVL_PARA; Ret (Pool num buf_len false).

Definition Stop (p : t) : herr * t := (OK, p).
Definition SetNum (num : Z) (p : t) : t := Pool num (m_bufLen p) (m_bRunning p).

(** [HFAILED_THROW]. *)
Definition failed_throw (e : herr) : res unit := if IS_OK e then Ret tt else Throw (HExc e).

(** [Recv] of the message queue: its code and what it received. *)
Definition postWork (send : herr) : res herr := _ ← failed_throw send; Ret OK.

Section dispatch.
Context (workTask : bytes -> herr).

(** The messages handed to [workTask], and the end: the queue's answers are a script. *)
Fixpoint work_loop (script : list (herr * bytes)) (done_ : list bytes) : res herr * list bytes :=
  match script with
  | [] => (Throw Diverge, done_)
  | (cb, buf) :: script =>
    match failed_throw cb with
    | Throw e => (Throw e, done_)
    | Ret _ =>
      match failed_throw (workTask buf) with
      | Throw e => (Throw e, done_ ++ [buf])
      | Ret _ => work_loop script (done_ ++ [buf])
      end
    end
  end.

Definition dispathWork (p : t) (script : list (herr * bytes)) : res herr * list bytes :=
  if m_bRunning p then work_loop script [] else (Ret OK, []).
End dispatch.

(** *** Starting the threads *)

(** The parent in [Init]: about to create thread [i], waiting for it, out of the function. *)
Inductive ppc : Type := PCreate (i : Z) | PWait (i : Z) | PDone.

(** A child in [ThreadInitRun]: not yet released its parent, about to read [info->pPool]
    again, in [dispathWork], back; [CDead] has read [info] after [Init] has returned. *)
Inductive cpc : Type := CStart | CReleased | CDispatch | CExited | CDead.

#[global] Instance cpc_eq_dec : EqDecision cpc.
Proof. solve_decision. Defined.

Record state : Type := St { ms_threadCreated : bool; parent : ppc; children : list cpc }.

(** [info] is a variable of [Init]. *)
Definition info_alive (p : ppc) : bool := match p with PDone => false | _ => true end.

Inductive step (num : Z) : state -> state -> Prop :=
  | step_create c i l : i < num -> step num (St c (PCreate i) l) (St c (PWait i) (l ++ [CStart]))
  | step_return c i l : num <= i -> step num (St c (PCreate i) l) (St c PDone l)
  | step_fail c i l : i < num -> step num (St c (PCreate i) l) (St c PDone l)
  | step_wait i l : step num (St true (PWait i) l) (St false (PCreate (i + 1)) l)
  | step_release c p l1 l2 : step num (St c p (l1 ++ CStart :: l2)) (St true p (l1 ++ CReleased :: l2))
  | step_read c p l1 l2 :
      step num (St c p (l1 ++ CReleased :: l2)) (St c p (l1 ++ (if info_alive p then CDispatch else CDead) :: l2))
  | step_dispatch c p l1 l2 : step num (St c p (l1 ++ CDispatch :: l2)) (St c p (l1 ++ CExited :: l2)).

Definition Init : state := St false (PCreate 0) [].

(** *** Properties *)

(** No message is ever received: a pool that was made, however it is used since, leaves
    its loop at once. *)
Theorem never_works num buf_len p ns workTask script :
  HCThreadPool num buf_len = Ret p ->
  dispathWork workTask (foldl (fun p n => SetNum n (snd (Stop p))) p ns) script = (Ret OK, []).
Proof.
  unfold HCThreadPool, assert_throw. intros Hp. destruct (num <? MAX_THREAD_LEN); [|done]. cbn in Hp. injection Hp as <-.
  unfold dispathWork.
  assert (forall ns p, m_bRunning (foldl (fun p n => SetNum n (snd (Stop p))) p ns) = m_bRunning p) as ->; [|done].
  clear. induction ns as [|n ns IH]; intros p; cbn; [done|]. by rewrite IH.
Qed.

(** The parent goes on to the next thread only when the one before has read its [info]
    once; the flag is raised by that thread alone. *)
Definition starting (l : list cpc) : nat := length (filter (fun c => c = CStart) l).

Definition inv (s : state) : Prop :=
  match parent s with
  | PCreate i => ms_threadCreated s = false /\ starting (children s) = 0%nat /\ zlen (children s) = i
  | PWait i => (if ms_threadCreated s then starting (children s) = 0%nat else starting (children s) = 1%nat) /\ zlen (children s) = i + 1
  | PDone => ms_threadCreated s = false /\ starting (children s) = 0%nat
  end.

Lemma starting_app l1 l2 : starting (l1 ++ l2) = (starting l1 + starting l2)%nat.
Proof. unfold starting. by rewrite filter_app, length_app. Qed.

Lemma starting_cons c l : starting (c :: l) = ((if decide (c = CStart) then 1 else 0) + starting l)%nat.
Proof. unfold starting. rewrite filter_cons. by case_decide. Qed.

Lemma start_step_inv num s s' : inv s -> step num s s' -> inv s'.
Proof.
  unfold inv. intros Hi Hs. destruct Hs as [c i l Hi'|c i l Hi'|c i l Hi'|i l|c p l1 l2|c p l1 l2|c p l1 l2];
    cbn [parent children ms_threadCreated] in *.
  all: rewrite ?starting_app, ?starting_cons, ?zlen_app, ?zlen_cons in *.
  - destruct Hi as (-> & E & <-). by rewrite E, zlen_nil.
  - by destruct Hi as (-> & E & _).
  - by destruct Hi as (-> & E & _).
  - destruct Hi as [E ->]. done.
  - rewrite decide_True in Hi by done. rewrite decide_False by done.
    destruct p; destruct c; naive_solver lia.
  - rewrite decide_False in Hi by done. rewrite decide_False by (by destruct (info_alive p)).
    destruct p; destruct c; rewrite ?zlen_app, ?zlen_cons in *; naive_solver lia.
  - rewrite decide_False in Hi by done. rewrite decide_False by done.
    destruct p; destruct c; rewrite ?zlen_app, ?zlen_cons in *; naive_solver lia.
Qed.

(** When [Init] is left, every thread it has started has been through its handshake. *)
Theorem Init_starts num s :
  rtc (step num) Init s -> parent s = PDone -> ms_threadCreated s = false /\ CStart ∉ children s.
Proof.
  intros Hr Hp. assert (inv s) as Hi.
  { remember Init as s0 eqn:E. assert (inv s0) as H0 by by subst. clear E Hp.
    induction Hr as [|s1 s2 s3 Hs _ IH]; [done|]. by apply IH, (start_step_inv num s1). }
  unfold inv in Hi. rewrite Hp in Hi. destruct Hi as [-> Hi]. split; [done|]. intros Hc.
  apply list_elem_of_split in Hc as (l1 & l2 & E). rewrite E, starting_app, starting_cons, decide_True in Hi by done. lia.
Qed.

(** A thread can be so late that it reads [info] when [Init], whose variable it is, has returned. *)
Theorem late_child_reads_dead_info : exists s, rtc (step 1) Init s /\ children s = [CDead].
Proof.
  exists (St false PDone [CDead]). split; [|done].
  eapply rtc_l; [by apply (step_create 1 false 0 [])|].
  eapply rtc_l; [apply (step_release 1 false (PWait 0) [] [])|].
  eapply rtc_l; [apply (step_wait 1 0 [CReleased])|].
  eapply rtc_l; [by apply (step_return 1 false 1 [CReleased])|].
  eapply rtc_l; [apply (step_read 1 false PDone [] [])|]. apply rtc_refl.
Qed.

Lemma never_works_witness :
  dispathWork (fun _ => OK) (SetNum 9 (Pool 128 2048 false)) [(OK, str "job")] = (Ret OK, []).
Proof. by apply (never_works 128 2048 (Pool 128 2048 false) [9] (fun _ => OK) [(OK, str "job")]). Defined.

Lemma Init_starts_witness : false = false /\ CStart ∉ ([] : list cpc).
Proof.
  apply (Init_starts 0 (St false PDone [])); [|reflexivity].
  eapply rtc_l; [by apply (step_return 0 false 0 [])|]. apply rtc_refl.
Defined.

End HCThreadPool.

(** ** The server over [select] *)

Module HCSelectServer.

(** What the server uses of [HCTcpClient] and of its own socket. *)
Class TcpClient (C : Type) : Type := {
  fresh : C;
  IsGoodSocket : C -> bool;
  GetSocket : C -> Z;
  GetAccess : C -> Z;
  Close : C -> C;
  Touch : Z -> C -> C;
  SetNonblocked : C -> C
}.

Class TcpClientLaws (C : Type) `{TcpClient C} : Prop := {
  fresh_bad : IsGoodSocket fresh = false;
  Close_bad c : IsGoodSocket (Close c) = false;
  Touch_good t c : IsGoodSocket (Touch t c) = IsGoodSocket c;
  Touch_access t c : GetAccess (Touch t c) = t;
  SetNonblocked_good c : IsGoodSocket (SetNonblocked c) = IsGoodSocket c;
  SetNonblocked_access c : GetAccess (SetNonblocked c) = GetAccess c
}.

Section server.
Context {C : Type} `{TcpClient C}.

Record t : Type := Server {
  m_pListens : list C;
  m_client_timeout : Z;
  m_running : bool;
  s_lastChecktime : Z
}.

(** The constructor, and the allocation of [Init]. *)
Definition HCSelectServer (uClientLen clientTimeout : Z) : t :=
  Server (replicate (Z.to_nat uClientLen) fresh) clientTimeout true 0.

Definition Stop (s : t) : herr * t :=
  (OK, Server (m_pListens s) (m_client_timeout s) true (s_lastChecktime s)).

(** [Init] after the allocation: the first call that fails ends it. *)
Fixpoint init_calls (calls : list herr) : herr :=
  match calls with
  | [] => OK
  | e :: calls => if negb (IS_OK e) then e else init_calls calls
  end.

Definition with_clients (l : list C) (s : t) : t := Server l (m_client_timeout s) (m_running s) (s_lastChecktime s).

(** *** Idle clients.  The clock is read twice. *)

Definition expire (tnow timeout : Z) (c : C) : C :=
  if negb (IsGoodSocket c) then c
  else if tnow - GetAccess c >? timeout then Close c else c.

Definition checkClientTimeout (tnow tagain : Z) (s : t) : herr * t :=
  if tnow - s_lastChecktime s <? m_client_timeout s then (OK, s)
  else (OK, Server (map (expire tnow (m_client_timeout s)) (m_pListens s)) (m_client_timeout s) (m_running s) tagain).

(** *** New connections: [accept] gives the client object what the server's socket accepted,
    or leaves it; [work] is [workAccept]. *)

Section accept.
Context (accept : C -> C) (work : C -> C) (now : Z).

Fixpoint accept_loop (l : list C) : option (list C) :=
  match l with
  | [] => None
  | client :: l =>
    if negb (IsGoodSocket client) then Some (work (Touch now (SetNonblocked (accept client))) :: l)
    else cons client <$> accept_loop l
  end.

(** Without room the connection is accepted and closed: [SRC_ERR] stands for SRC_FAIL. *)
Definition AcceptConnect (s : t) : herr * t :=
  match accept_loop (m_pListens s) with
  | Some l => (OK, with_clients l s)
  | None => (SRC_ERR, s)
  end.
End accept.

(** *** The loop *)

Definition FD_SETSIZE : Z := 1024.

(** The set handed to [select]: the server's socket and those of the clients. *)
Definition read_set (server : Z) (l : list C) : list Z := server :: map GetSocket (List.filter IsGoodSocket l).
Definition max_sock (server : Z) (l : list C) : Z := foldl Z.max server (map GetSocket (List.filter IsGoodSocket l)).

(** A round: the clock, [checkOthers], the answer of [select] with the descriptors that
    are ready, and the functions of the derived class. *)
Record round : Type := Round {
  r_now : Z; r_again : Z; r_others : herr;
  r_select : Z; r_ready : list Z;
  r_accept : C -> C; r_workAccept : C -> C;
  r_ProcessRecv : C -> C
}.

Definition process (r : round) (c : C) : C :=
  if negb (IsGoodSocket c) then c
  else if bool_decide (GetSocket c ∈ r_ready r) then r_ProcessRecv r c else c.

Definition run_round (server : Z) (r : round) (s : t) : res t :=
  let '(e, s) := checkClientTimeout (r_now r) (r_again r) s in
  _ ← assert_throw (IS_OK e) e;
  _ ← assert_throw (IS_OK (r_others r)) (r_others r);
  _ ← check_ub (forallb (fun fd => (0 <=? fd) && (fd <? FD_SETSIZE)) (read_set server (m_pListens s)));
  if r_select r >? 0 then
    let s := with_clients (map (process r) (m_pListens s)) s in
    if bool_decide (server ∈ r_ready r) then Ret (snd (AcceptConnect (r_accept r) (r_workAccept r) (r_now r) s)) else Ret s
  else Ret s.

(** [Run]: [None] is the end of the script, with the loop still running. *)
Fixpoint Run (server : Z) (rounds : list round) (s : t) : option (res herr) * t :=
  if m_running s then
    match rounds with
    | [] => (None, s)
    | r :: rounds =>
      match run_round server r s with
      | Ret s => Run server rounds s
      | Throw e => (Some (Throw e), s)
      end
    end
  else (Some (Ret OK), s).

(** *** Properties *)

Lemma run_round_running server r s s' : run_round server r s = Ret s' -> m_running s' = m_running s.
Proof.
  unfold run_round, checkClientTimeout. intros Hr. destruct (_ <? _); cbn [mbind res_bind] in Hr;
    (destruct (assert_throw _ _) in Hr; [|done]); cbn [mbind res_bind] in Hr;
    (destruct (assert_throw _ _) in Hr; [|done]); cbn [mbind res_bind] in Hr;
    (destruct (check_ub _) in Hr; [|done]); cbn [mbind res_bind] in Hr; unfold AcceptConnect in Hr;
    repeat case_match; cbn in Hr; by simplify_eq.
Qed.

Fixpoint stop_between (server : Z) (l : list (list round)) (s : t) : option (res herr) * t :=
  match l with
  | [] => (None, s)
  | rounds :: l =>
    match Run server rounds s with
    | (None, s) => stop_between server l (snd (Stop s))
    | r => r
    end
  end.

(** [Run] never returns: [Stop] makes the flag true, which it is from the start, so however
    often it is called while the server runs, the loop goes on until an exception ends it. *)
Theorem Run_never_returns server l uClientLen clientTimeout :
  fst (stop_between server l (HCSelectServer uClientLen clientTimeout)) <> Some (Ret OK).
Proof.
  assert (forall s, m_running s = true -> fst (stop_between server l s) <> Some (Ret OK)) as Hl; [|by apply Hl].
  induction l as [|rounds l IH]; intros s Hs; [done|]. cbn [stop_between].
  assert (forall s, m_running s = true -> fst (Run server rounds s) <> Some (Ret OK) /\
    (fst (Run server rounds s) = None -> m_running (snd (Run server rounds s)) = true)) as Hr.
  { clear. induction rounds as [|r rounds IH]; intros s Hs; cbn [Run]; rewrite Hs; [done|].
    destruct (run_round server r s) as [s'|e] eqn:E; [|done]. apply IH. by rewrite (run_round_running _ _ _ _ E). }
  destruct (Hr s Hs) as [H1 H2]. destruct (Run server rounds s) as [[o|] s'] eqn:E; [done|]. by apply IH.
Qed.

Context `{!TcpClientLaws C}.

(** The clients that are good and have not been touched for longer than the limit are
    closed, and no other client is changed: unless the last look was not that long ago. *)
Theorem checkClientTimeout_spec tnow tagain s i c :
  m_pListens s !! i = Some c -> m_client_timeout s <= tnow - s_lastChecktime s ->
  let s' := snd (checkClientTimeout tnow tagain s) in
  exists c', m_pListens s' !! i = Some c' /\ s_lastChecktime s' = tagain /\
    (if IsGoodSocket c && (GetAccess c + m_client_timeout s <? tnow) then IsGoodSocket c' = false else c' = c).
Proof.
  intros Hc Ht. unfold checkClientTimeout. ztest. cbn [snd m_pListens s_lastChecktime].
  exists (expire tnow (m_client_timeout s) c). rewrite list_lookup_fmap, Hc. split_and!; [done|done|].
  unfold expire. destruct (IsGoodSocket c); cbn [negb andb]; [|done]. rewrite Z.gtb_ltb.
  destruct (GetAccess c + m_client_timeout s <? tnow) eqn:E; bool_to_prop; ztest; [apply Close_bad|done].
Qed.

Lemma accept_loop_spec accept work now l :
  match accept_loop accept work now l with
  | Some l' => exists l1 c l2, l = l1 ++ c :: l2 /\ Forall (fun c => IsGoodSocket c = true) l1 /\ IsGoodSocket c = false /\
      l' = l1 ++ work (Touch now (SetNonblocked (accept c))) :: l2
  | None => Forall (fun c => IsGoodSocket c = true) l
  end.
Proof.
  induction l as [|c l IH]; cbn [accept_loop]; [done|]. destruct (IsGoodSocket c) eqn:E; cbn [negb].
  - destruct (accept_loop accept work now l) as [l'|]; cbn.
    + destruct IH as (l1 & c' & l2 & -> & Hg & Hb & ->). exists (c :: l1), c', l2. split_and!; [done|by constructor|done|done].
    + by constructor.
  - by exists [], c, l.
Qed.

(** A new connection takes the first free place and touches no other client; without a
    free place it is refused and nothing changes. *)
Theorem AcceptConnect_spec accept work now s :
  let '(e, s') := AcceptConnect accept work now s in
  length (m_pListens s') = length (m_pListens s) /\
  (e = SRC_ERR /\ s' = s /\ Forall (fun c => IsGoodSocket c = true) (m_pListens s) \/
   e = OK /\ exists l1 c l2, m_pListens s = l1 ++ c :: l2 /\ IsGoodSocket c = false /\
     Forall (fun c => IsGoodSocket c = true) l1 /\
     m_pListens s' = l1 ++ work (Touch now (SetNonblocked (accept c))) :: l2).
Proof.
  unfold AcceptConnect. pose proof (accept_loop_spec accept work now (m_pListens s)) as Hl.
  destruct (accept_loop _ _ _ _) as [l'|]; [|by split; [|left]]. destruct Hl as (l1 & c & l2 & E & Hg & Hb & ->).
  cbn [with_clients m_pListens]. split; [rewrite E, !length_app; done|]. right. split; [done|]. by exists l1, c, l2.
Qed.

Lemma accept_keeps accept work now s i c :
  m_pListens s !! i = Some c -> IsGoodSocket c = true -> m_pListens (snd (AcceptConnect accept work now s)) !! i = Some c.
Proof.
  intros Hi Hc. unfold AcceptConnect. pose proof (accept_loop_spec accept work now (m_pListens s)) as Hl.
  destruct (accept_loop _ _ _ _) as [l'|]; [|done]. destruct Hl as (l1 & b & l2 & E & _ & Hb & ->). cbn [snd with_clients m_pListens].
  rewrite E in Hi. rewrite lookup_app in *. destruct (l1 !! i); [done|].
  destruct (i - length l1)%nat; [|done]. cbn in Hi. congruence.
Qed.

(** *** Silent clients *)

(** In round [r] the clock goes on by [d] at most between its two readings, and nothing
    comes from [c]. *)
Definition silent (d : Z) (c : C) (r : round) : Prop :=
  r_now r <= r_again r <= r_now r + d /\ GetSocket c ∉ r_ready r.

(** The client is looked at in round [r] and closed. *)
Definition closed_in (i : nat) (r : round) (s : t) : Prop :=
  exists c, m_pListens (snd (checkClientTimeout (r_now r) (r_again r) s)) !! i = Some c /\ IsGoodSocket c = false.

(** A look at a client: it is closed, or kept, and then the time of this look is not
    too far from the client's. *)
Lemma check_client d r s i c : m_pListens s !! i = Some c -> IsGoodSocket c = true -> silent d c r ->
  s_lastChecktime s <= GetAccess c + m_client_timeout s + d ->
  closed_in i r s \/
  (r_now r <= GetAccess c + 2 * m_client_timeout s + d \/ m_client_timeout s < 0) /\
  exists s1, checkClientTimeout (r_now r) (r_again r) s = (OK, s1) /\ m_pListens s1 !! i = Some c /\
    m_client_timeout s1 = m_client_timeout s /\ m_running s1 = m_running s /\
    s_lastChecktime s1 <= GetAccess c + m_client_timeout s + d.
Proof.
  intros Hi Hc [Hr _] Hl. unfold closed_in, checkClientTimeout.
  destruct (r_now r - s_lastChecktime s <? m_client_timeout s) eqn:E; bool_to_prop.
  - right. split; [left; lia|]. by exists s.
  - cbn [snd m_pListens]. rewrite list_lookup_fmap, Hi. cbn [fmap option_fmap option_map]. unfold expire. rewrite Hc. cbn [negb].
    rewrite Z.gtb_ltb. destruct (m_client_timeout s <? r_now r - GetAccess c) eqn:E1; bool_to_prop.
    + left. eexists. split; [done|]. apply Close_bad.
    + right. split; [lia|]. eexists. split; [done|]. cbn [m_pListens s_lastChecktime m_client_timeout m_running].
      rewrite list_lookup_fmap, Hi. cbn [fmap option_fmap option_map]. unfold expire. rewrite Hc. cbn [negb].
      rewrite Z.gtb_ltb, (proj2 (Z.ltb_ge _ _)) by lia. split_and!; [done..|lia].
Qed.

(** What comes after the look leaves a silent client alone. *)
Lemma round_keeps server d r s s1 s2 i c : silent d c r -> checkClientTimeout (r_now r) (r_again r) s = (OK, s1) ->
  run_round server r s = Ret s2 -> m_pListens s1 !! i = Some c -> IsGoodSocket c = true ->
  m_pListens s2 !! i = Some c /\ m_client_timeout s2 = m_client_timeout s1 /\ s_lastChecktime s2 = s_lastChecktime s1.
Proof.
  intros [_ Hn] E Hr Hi Hc. unfold run_round in Hr. rewrite E in Hr. cbn [mbind res_bind assert_throw IS_OK] in Hr.
  apply res_bind_ret in Hr as (? & _ & Hr). apply res_bind_ret in Hr as (? & _ & Hr). apply res_bind_ret in Hr as (? & _ & Hr).
  destruct (r_select r >? 0); [|by injection Hr as <-]. cbv zeta in Hr.
  assert (m_pListens (with_clients (map (process r) (m_pListens s1)) s1) !! i = Some c) as Hp.
  { cbn [with_clients m_pListens]. rewrite list_lookup_fmap, Hi. cbn. unfold process. rewrite Hc. cbn [negb].
    by rewrite bool_decide_eq_false_2. }
  case_bool_decide; [|by injection Hr as <-]. injection Hr as <-. split; [by apply accept_keeps|].
  unfold AcceptConnect. by destruct (accept_loop _ _ _ _).
Qed.

(** C35: Silent clients do not stay: one that nothing comes from is closed in the first
    round that begins later than twice the limit after it was last heard of, or in
    an earlier one ([d]: what the clock goes on between its two readings in a round). *)
Theorem silent_client_closed server d rounds s s' i c r :
  Run server rounds s = (None, s') -> m_running s = true -> 0 <= m_client_timeout s ->
  m_pListens s !! i = Some c -> IsGoodSocket c = true -> Forall (silent d c) rounds ->
  s_lastChecktime s <= GetAccess c + m_client_timeout s + d ->
  r ∈ rounds -> GetAccess c + 2 * m_client_timeout s + d < r_now r ->
  exists n q sn, rounds !! n = Some q /\ Run server (take n rounds) s = (None, sn) /\
    m_pListens sn !! i = Some c /\ closed_in i q sn /\
    Forall (fun q => r_now q <= GetAccess c + 2 * m_client_timeout s + d) (take n rounds).
Proof.
  intros Hrun Hm Ht Hi Hc Hs Hl Hr Hlate. revert s Hrun Hm Ht Hi Hl Hr Hlate.
  induction rounds as [|q rounds IH]; intros s Hrun Hm Ht Hi Hl Hr Hlate; [by apply elem_of_nil in Hr|].
  apply Forall_cons in Hs as [Hq Hs]. cbn [Run] in Hrun. rewrite Hm in Hrun.
  destruct (run_round server q s) as [s2|] eqn:E2; [|done].
  destruct (check_client d q s i c Hi Hc Hq Hl) as [Hcl|([Hnow|] & s1 & E1 & Hi1 & Ht1 & Hm1 & Hl1)]; [|..|lia].
  - exists 0%nat, q, s. split_and!; [done|cbn; by rewrite Hm|done|done|constructor].
  - destruct (round_keeps server d q s s1 s2 i c Hq E1 E2 Hi1 Hc) as (Hi2 & Ht2 & Hl2).
    assert (m_client_timeout s2 = m_client_timeout s) as Et by congruence.
    apply elem_of_cons in Hr as [->|Hr]; [lia|].
    destruct (IH Hs s2) as (n & q' & sn & Hn & En & Hin & Hcl & Hf);
      [done|by rewrite (run_round_running _ _ _ _ E2)|lia|done|rewrite Hl2, Et; done|done|lia|].
    exists (S n), q', sn. rewrite Et in Hf. split_and!; [done| |done|done|by constructor].
    cbn [take Run]. by rewrite Hm, E2.
Qed.

(** A connection that could not be accepted still fills its place, until it is found bad. *)
Lemma failed_accept_is_success now s c l :
  m_pListens s = c :: l -> IsGoodSocket c = false ->
  fst (AcceptConnect id id now s) = OK /\
  exists c', m_pListens (snd (AcceptConnect id id now s)) = c' :: l /\ IsGoodSocket c' = false.
Proof.
  intros El Hc. unfold AcceptConnect. rewrite El. cbn [accept_loop]. rewrite Hc. cbn. split; [done|].
  eexists. split; [reflexivity|]. cbn. by rewrite Touch_good, SetNonblocked_good.
Qed.

End server.

(** A client as a descriptor and its time. *)
#[local] Instance sample_client : TcpClient (Z * Z) := {
  fresh := (-1, 0);
  IsGoodSocket c := negb (fst c =? -1);
  GetSocket := fst;
  GetAccess := snd;
  Close c := (-1, snd c);
  Touch t c := (fst c, t);
  SetNonblocked c := c
}.

#[local] Instance sample_client_laws : TcpClientLaws (Z * Z).
Proof. by split. Qed.

(** Nothing comes for eight seconds; in the third and the sixth the clients are looked at. *)
Definition quiet_round (now : Z) : round (C := Z * Z) := Round now now OK 0 [] id id id.

Lemma silent_client_closed_witness :
  let s := Server [(5, 100); (7, 101)] 3 true 100 in
  let rounds := map quiet_round [101; 102; 103; 104; 105; 106; 107; 108] in
  exists n q sn, rounds !! n = Some q /\ Run 3 (take n rounds) s = (None, sn) /\ m_pListens sn !! 1%nat = Some (7, 101) /\
    closed_in 1 q sn /\ Forall (fun q => r_now q <= 101 + 2 * 3 + 0) (take n rounds).
Proof.
  intros s rounds. destruct (Run 3 rounds s) as [o s'] eqn:E.
  refine (silent_client_closed 3 0 rounds s s' 1 (7, 101) (quiet_round 108) _ _ _ _ _ _ _ _ _).
  - rewrite E. vm_compute in E. by injection E as <- _.
  - reflexivity.
  - discriminate.
  - reflexivity.
  - reflexivity.
  - repeat constructor; cbn; lia || apply not_elem_of_nil.
  - discriminate.
  - apply (list_elem_of_lookup_2 _ 7). reflexivity.
  - reflexivity.
Defined.

Lemma checkClientTimeout_spec_witness :
  exists c', m_pListens (snd (checkClientTimeout 10 10 (Server [(7, 2); (8, 9)] 3 true 0))) !! 0%nat = Some c' /\ IsGoodSocket c' = false.
Proof.
  destruct (checkClientTimeout_spec 10 10 (Server [(7, 2); (8, 9)] 3 true 0) 0%nat (7, 2)) as (c' & H1 & _ & H2);
    [reflexivity|discriminate|]. exists c'. split; [exact H1|exact H2].
Defined.

End HCSelectServer.
