(* ===== verification/Http.v ===== *)
(** * The HTTP helper: [http/httphelper.cpp], [http/httphelper.h]

    [HCurl] over libcurl's easy interface, which is the class [Curl]: a handle carries
    options, and a transfer hands what it receives to the write callback piece by piece. *)

From S2P Require Import Prelude StdString.

Module HTTP.

Inductive option_name : Type :=
  | CURLOPT_URL | CURLOPT_POSTFIELDS | CURLOPT_WRITEDATA | CURLOPT_WRITEFUNCTION | CURLOPT_READFUNCTION
  | CURLOPT_NOSIGNAL | CURLOPT_SSL_VERIFYPEER | CURLOPT_CONNECTTIMEOUT | CURLOPT_TIMEOUT.

(** The string that receives the answer is the one pointer that is passed. *)
Inductive option_value : Type := Text (s : bytes) | Number (z : Z) | StrRes | OnWriteData_fn | Null.

#[export] Instance option_name_eq_dec : EqDecision option_name.
Proof. solve_decision. Defined.

(** libcurl.  [perform] gives its code and the pieces it received. *)
Class Curl : Type := {
  handle : Type;
  curl_easy_init : option handle;
  curl_easy_duphandle : handle -> option handle;
  curl_easy_reset : handle -> handle;
  curl_easy_setopt : handle -> option_name -> option_value -> handle;
  curl_easy_perform : handle -> Z * list bytes * handle;
  curl_option : handle -> option_name -> option option_value
}.

(** What its manual says of options. *)
Class CurlLaws `{Curl} : Prop := {
  option_reset h o : curl_option (curl_easy_reset h) o = None;
  option_setopt h o v o' : curl_option (curl_easy_setopt h o v) o' = if decide (o = o') then Some v else curl_option h o'
}.

Section http.
Context `{Curl}.

(** [CURL_INFO] with its defaults; [m_impl] is null in an object that was moved from, and
    its handle may be null in a copy. *)
Record CURL_INFO : Type := Info { CONNECTTIMEOUT : Z; TIMEOUT : Z }.
Record t : Type := Mk { m_impl : option (option handle); m_info : CURL_INFO }.

Definition default_info : CURL_INFO := Info 3 10.

Definition HCurl : res t :=
  match curl_easy_init with
  | None => Throw (HExc MEMORY_OUT)
  | Some h => Ret (Mk (Some (Some h)) default_info)
  end.

(** The copy has the default times, and its handle is not checked. *)
Definition HCurl_copy (curl : t) : res t :=
  match m_impl curl with
  | Some (Some h) => Ret (Mk (Some (curl_easy_duphandle h)) default_info)
  | _ => Throw UB
  end.

(** The new object and the one moved from. *)
Definition HCurl_move (curl : t) : t * t := (Mk (m_impl curl) default_info, Mk None (m_info curl)).

Definition SetConnectTimeout (n : Z) (c : t) : t := Mk (m_impl c) (Info n (TIMEOUT (m_info c))).
Definition SetTimeout (n : Z) (c : t) : t := Mk (m_impl c) (Info (CONNECTTIMEOUT (m_info c)) n).

(** The callback: a piece is appended, and its count returned. *)
Definition OnWriteData (buffer : bytes) (str : bytes) : bytes * Z := (str ++ buffer, zlen buffer).

(** The pieces in order; libcurl goes on while the whole piece was taken. *)
Fixpoint deliver (pieces : list bytes) (str : bytes) : bytes :=
  match pieces with
  | [] => str
  | p :: pieces => let (str, n) := OnWriteData p str in if n =? zlen p then deliver pieces str else str
  end.

Definition reset (h : handle) : handle := curl_easy_reset h.

Definition init_exec (info : CURL_INFO) (h : handle) : handle :=
  let h := curl_easy_setopt h CURLOPT_WRITEFUNCTION OnWriteData_fn in
  let h := curl_easy_setopt h CURLOPT_READFUNCTION Null in
  let h := curl_easy_setopt h CURLOPT_NOSIGNAL (Number 1) in
  let h := curl_easy_setopt h CURLOPT_SSL_VERIFYPEER (Number 0) in
  let h := curl_easy_setopt h CURLOPT_CONNECTTIMEOUT (Number (CONNECTTIMEOUT info)) in
  curl_easy_setopt h CURLOPT_TIMEOUT (Number (TIMEOUT info)).

(** The handle [curl_easy_perform] is given. *)
Definition get_request (strUrl : bytes) (info : CURL_INFO) (h : handle) : handle :=
  let h := reset h in
  let h := curl_easy_setopt h CURLOPT_URL (Text (c_str strUrl)) in
  let h := curl_easy_setopt h CURLOPT_WRITEDATA StrRes in
  init_exec info h.

Definition post_request (strUrl strData : bytes) (info : CURL_INFO) (h : handle) : handle :=
  let h := reset h in
  let h := curl_easy_setopt h CURLOPT_URL (Text (c_str strUrl)) in
  let h := curl_easy_setopt h CURLOPT_POSTFIELDS (Text (c_str strData)) in
  let h := curl_easy_setopt h CURLOPT_WRITEDATA StrRes in
  init_exec info h.

(** The code, the text [strRes] then, and the object. *)
Definition perform (request : handle -> handle) (strRes : bytes) (c : t) : res (herr * bytes * t) :=
  match m_impl c with
  | Some (Some h) =>
    let '(res, pieces, h) := curl_easy_perform (request h) in
    Ret (if res =? 0 then OK else NETWORK_ERROR, deliver pieces strRes, Mk (Some (Some h)) (m_info c))
  | _ => Throw UB
  end.

Definition Get (strUrl strRes : bytes) (c : t) : res (herr * bytes * t) :=
  perform (get_request strUrl (m_info c)) strRes c.

Definition Post (strUrl strData strRes : bytes) (c : t) : res (herr * bytes * t) :=
  perform (post_request strUrl strData (m_info c)) strRes c.

(** ** Properties *)

Lemma deliver_all pieces str : deliver pieces str = str ++ concat pieces.
Proof.
  revert str. induction pieces as [|p pieces IH]; intros str; cbn; [by rewrite app_nil_r|].
  rewrite Z.eqb_refl, IH. by rewrite <- app_assoc.
Qed.

Context `{!CurlLaws}.

(** The options a request must have, and no others: those of the documentation of the
    helper, with the peer's certificate not verified. *)
Definition expected (url : bytes) (data : option bytes) (info : CURL_INFO) (o : option_name) : option option_value :=
  match o with
  | CURLOPT_URL => Some (Text url)
  | CURLOPT_POSTFIELDS => Text <$> data
  | CURLOPT_WRITEDATA => Some StrRes
  | CURLOPT_WRITEFUNCTION => Some OnWriteData_fn
  | CURLOPT_READFUNCTION => Some Null
  | CURLOPT_NOSIGNAL => Some (Number 1)
  | CURLOPT_SSL_VERIFYPEER => Some (Number 0)
  | CURLOPT_CONNECTTIMEOUT => Some (Number (CONNECTTIMEOUT info))
  | CURLOPT_TIMEOUT => Some (Number (TIMEOUT info))
  end.

(** A request has the options of its call and times, whatever the handle was used for
    before; what it receives is appended to the text the caller gives, also when the
    transfer fails. *)
Theorem request_independent strUrl strData info h o :
  curl_option (get_request strUrl info h) o = expected (c_str strUrl) None info o /\
  curl_option (post_request strUrl strData info h) o = expected (c_str strUrl) (Some (c_str strData)) info o.
Proof.
  unfold get_request, post_request, init_exec, reset. rewrite !option_setopt, option_reset. by destruct o.
Qed.

Lemma Get_appends strUrl strRes h info :
  let '(res, pieces, h') := curl_easy_perform (get_request strUrl info h) in
  Get strUrl strRes (Mk (Some (Some h)) info)
  = Ret (if res =? 0 then OK else NETWORK_ERROR, strRes ++ concat pieces, Mk (Some (Some h')) info).
Proof.
  unfold Get, perform. cbn [m_impl m_info]. destruct (curl_easy_perform _) as [[? ?] ?]. by rewrite deliver_all.
Qed.

(** An object that was moved from must not be used, and a copy has lost the times set. *)
Lemma moved_from_undefined c strUrl strRes : Get strUrl strRes (snd (HCurl_move c)) = Throw UB.
Proof. done. Qed.

Lemma copy_loses_times h n : HCurl_copy (SetTimeout n (Mk (Some (Some h)) default_info)) = HCurl_copy (Mk (Some (Some h)) default_info).
Proof. done. Qed.

Lemma move_loses_times c n : fst (HCurl_move (SetTimeout n c)) = fst (HCurl_move c).
Proof. done. Qed.

End http.
End HTTP.
